(** * pickle-reactor: the virtual-DOM core, embedded and verified

    A shallow embedding of the four core modules of the framework

      - [shared/vdom.py]           the [VNode] tree,
      - [server/ssr.py]            [render_to_string],
      - [shared/state.py]          [ComponentInstance], [use_state],
                                   [render_component],
      - [static/client_runtime.py] [mount], [patch], [patch_props],
                                   [patch_children], [patch_keyed_children],
                                   [remove_node], [move_node],

    followed by the properties the specification states about them. *)

From Stdlib Require Import Ascii String ZArith Lia.
From stdpp Require Import base option list strings pretty gmap.

Open Scope string_scope.

(** Let [simpl] compute string concatenation on constructors. *)
#[local] Arguments String.append !s1 s2 : simpl nomatch.

(* ===================================================================== *)
(** * Python values, exceptions and the state-and-exception monad        *)
(* ===================================================================== *)

Module Py.

(** The values a component puts into props and state slots. A function
    object is known by its identity only; [PyDict] is the style mapping
    of a [VNode]. *)
Inductive pyval : Type :=
| PyNone
| PyBool (b : bool)
| PyInt (z : Z)
| PyStr (s : string)
| PyFunc (id : nat)
| PyDict (items : list (string * string)).

(** [callable(v)] *)
Definition callable (v : pyval) : bool :=
  match v with PyFunc _ => true | _ => false end.

(** [isinstance(v, dict)] *)
Definition is_dict (v : pyval) : bool :=
  match v with PyDict _ => true | _ => false end.

(** A dict holds one entry per key; [dict_get] is [d.get(k)], [dict_set]
    is [d[k] = v], which keeps the position of a key that is already
    there (Python dicts iterate in insertion order). *)
Fixpoint dict_get {V} (k : string) (d : list (string * V)) : option V :=
  match d with
  | [] => None
  | (k', v) :: d' => if String.eqb k' k then Some v else dict_get k d'
  end.

Fixpoint dict_set {V} (k : string) (v : V) (d : list (string * V))
  : list (string * V) :=
  match d with
  | [] => [(k, v)]
  | (k', v') :: d' =>
      if String.eqb k' k then (k, v) :: d' else (k', v') :: dict_set k v d'
  end.

Definition dict_mem {V} (k : string) (d : list (string * V)) : bool :=
  match dict_get k d with Some _ => true | None => false end.

(** Two style mappings are [==] when they hold the same entries, in any
    order. *)
Definition dict_eqb (a b : list (string * string)) : bool :=
  Nat.eqb (length a) (length b) &&
  forallb (fun kv => match dict_get (fst kv) b with
                     | Some v => String.eqb v (snd kv)
                     | None => false
                     end) a.

(** [a == b]. [bool] is a subclass of [int], so [True == 1]; functions
    compare by identity. *)
Definition py_eqb (a b : pyval) : bool :=
  match a, b with
  | PyNone, PyNone => true
  | PyBool x, PyBool y => Bool.eqb x y
  | PyInt x, PyInt y => Z.eqb x y
  | PyBool x, PyInt y | PyInt y, PyBool x => Z.eqb (if x then 1 else 0) y
  | PyStr x, PyStr y => String.eqb x y
  | PyFunc x, PyFunc y => Nat.eqb x y
  | PyDict x, PyDict y => dict_eqb x y
  | _, _ => false
  end.

(** [str(v)]. The text CPython prints for a function object or a dict
    (an address, the quoting of [repr]) is not fixed by the program, so
    it is taken as [repr_obj]. *)
Definition py_str (repr_obj : pyval -> string) (v : pyval) : string :=
  match v with
  | PyStr s => s
  | PyInt z => pretty z
  | PyBool true => "True"
  | PyBool false => "False"
  | PyNone => "None"
  | _ => repr_obj v
  end.

(** [s.startswith(p)] *)
Fixpoint startswith (p s : string) : bool :=
  match p, s with
  | EmptyString, _ => true
  | String a p', String b s' => if Ascii.eqb a b then startswith p' s' else false
  | String _ _, EmptyString => false
  end.

(** [s[n:]] *)
Fixpoint drop_prefix (n : nat) (s : string) : string :=
  match n, s with
  | O, _ => s
  | S n', String _ s' => drop_prefix n' s'
  | S _, EmptyString => EmptyString
  end.

(** ["sep".join(parts)] *)
Fixpoint join (sep : string) (parts : list string) : string :=
  match parts with
  | [] => EmptyString
  | [p] => p
  | p :: rest => p +:+ sep +:+ join sep rest
  end.

(** [join] with the empty separator. *)
Definition concat_str (parts : list string) : string :=
  foldr String.append EmptyString parts.

Inductive exn : Type :=
| RuntimeError (msg : string)
| AttributeError (what : string)
| IndexError
| UserError (name : string).

Inductive result (A : Type) : Type :=
| Ok (a : A)
| Raise (e : exn).
Arguments Ok {A} a.
Arguments Raise {A} e.

(** A computation over a mutable world [S]: it ends with a value or an
    exception, and with the world as the code left it. *)
Definition M (S A : Type) : Type := S -> result A * S.

Definition ret {S A} (a : A) : M S A := fun w => (Ok a, w).

Definition raise {S A} (e : exn) : M S A := fun w => (Raise e, w).

Definition bind {S A B} (m : M S A) (f : A -> M S B) : M S B :=
  fun w => match m w with
           | (Ok a, w') => f a w'
           | (Raise e, w') => (Raise e, w')
           end.

Definition get {S} : M S S := fun w => (Ok w, w).

Definition modify {S} (f : S -> S) : M S unit := fun w => (Ok tt, f w).

End Py.

Import Py.

Declare Scope py_scope.
Delimit Scope py_scope with py.
Notation "'let*' x := m 'in' k" := (bind m (fun x => k))
  (at level 10, x pattern, m at level 100, k at level 200) : py_scope.
Notation "m ;; k" := (bind m (fun _ => k))
  (at level 100, k at level 200, right associativity) : py_scope.

(* ===================================================================== *)
(** * html.escape                                                        *)
(* ===================================================================== *)

Module Html.

(** The double-quote character, code 34. *)
Definition dquote : ascii := Ascii.Ascii false true false false false true false false.

(** [s.replace(c, by)] for a one-character [c]. *)
Fixpoint replace_char (c : ascii) (by_ : string) (s : string) : string :=
  match s with
  | EmptyString => EmptyString
  | String a r =>
      if Ascii.eqb a c then by_ +:+ replace_char c by_ r
      else String a (replace_char c by_ r)
  end.

(** [html.escape(s, quote=True)] of the standard library: five
    replacements, the ampersand first. *)
Definition esc (s : string) : string :=
  let s := replace_char "&" "&amp;" s in
  let s := replace_char "<" "&lt;" s in
  let s := replace_char ">" "&gt;" s in
  let s := replace_char dquote "&quot;" s in
  let s := replace_char "'" "&#x27;" s in
  s.

(** What one character becomes: the single pass that [esc] amounts to. *)
Definition esc_char (a : ascii) : string :=
  if Ascii.eqb a "&" then "&amp;"
  else if Ascii.eqb a "<" then "&lt;"
  else if Ascii.eqb a ">" then "&gt;"
  else if Ascii.eqb a dquote then "&quot;"
  else if Ascii.eqb a "'" then "&#x27;"
  else String a EmptyString.

Fixpoint esc_pass (s : string) : string :=
  match s with
  | EmptyString => EmptyString
  | String a r => esc_char a +:+ esc_pass r
  end.

(** The characters that open or close markup or an attribute value. *)
Definition special (a : ascii) : bool :=
  Ascii.eqb a "<" || Ascii.eqb a ">" || Ascii.eqb a dquote || Ascii.eqb a "'".

(** The five character references [esc] produces. *)
Definition entities : list string :=
  ["&amp;"; "&lt;"; "&gt;"; "&quot;"; "&#x27;"].

(** [escaped s]: no special character occurs in [s], and every ampersand
    of [s] starts one of the five character references. *)
Fixpoint escaped (s : string) : bool :=
  match s with
  | EmptyString => true
  | String a r =>
      negb (special a) &&
      (if Ascii.eqb a "&" then existsb (fun e => startswith e s) entities
       else true) &&
      escaped r
  end.

(** An HTML parser's reading of character data: each of the five
    references stands for its character; [skip] counts the characters of
    a reference still to pass over. *)
Fixpoint unescape_from (skip : nat) (s : string) : string :=
  match s with
  | EmptyString => EmptyString
  | String a r =>
      match skip with
      | S k => unescape_from k r
      | O =>
          if startswith "&amp;" s then String "&" (unescape_from 4 r)
          else if startswith "&lt;" s then String "<" (unescape_from 3 r)
          else if startswith "&gt;" s then String ">" (unescape_from 3 r)
          else if startswith "&quot;" s then String dquote (unescape_from 5 r)
          else if startswith "&#x27;" s then String "'" (unescape_from 5 r)
          else String a (unescape_from 0 r)
      end
  end.

Definition unescape (s : string) : string := unescape_from 0 s.

End Html.

(* ===================================================================== *)
(** * shared/vdom.py                                                     *)
(* ===================================================================== *)

Module Vdom.

(** A host (DOM) node is known by its reference. *)
Definition ref := nat.

(** [VNodeChild = Union[VNode, str]]: a child is a text or a [VNode]
    with its [tag], [props] (a dict, in insertion order), [children],
    [key] and the host reference [_el] that [mount] and [patch] fill in.
    A tree is built fresh by every render; [node.props or {}] and
    [node.children or []] read an absent mapping or list as the empty
    one, which is how they are stored here. *)
#[local] Unset Elimination Schemes.
Inductive VNodeChild : Type :=
| VText (s : string)
| VNode (tag : string) (props : list (string * pyval))
        (children : list VNodeChild) (key : option string) (_el : option ref).
#[local] Set Elimination Schemes.

(** [h(tag, props, *children)] *)
Definition h (tag : string) (props : list (string * pyval))
  (children : list VNodeChild) : VNodeChild :=
  VNode tag props children None None.

Definition div := h "div".
Definition span := h "span".
Definition li := h "li".
Definition ul := h "ul".
Definition button := h "button".
Definition p := h "p".
Definition input_field (props : list (string * pyval)) := h "input" props [].

(** [isinstance(c, str)] *)
Definition is_str (c : VNodeChild) : bool :=
  match c with VText _ => true | VNode _ _ _ _ _ => false end.

Definition tag_of (c : VNodeChild) : string :=
  match c with VText _ => EmptyString | VNode t _ _ _ _ => t end.

Definition key_of (c : VNodeChild) : option string :=
  match c with VText _ => None | VNode _ _ _ k _ => k end.

Definition el_of (c : VNodeChild) : option ref :=
  match c with VText _ => None | VNode _ _ _ _ e => e end.

Definition children_of (c : VNodeChild) : list VNodeChild :=
  match c with VText _ => [] | VNode _ _ cs _ _ => cs end.

End Vdom.

Import Vdom.

(* ===================================================================== *)
(** * Induction over trees                                               *)
(* ===================================================================== *)

Section TreeInduction.

Variable P : VNodeChild -> Prop.
Hypothesis Htext : forall s, P (VText s).
Hypothesis Hnode : forall tag props children key el,
  Forall P children -> P (VNode tag props children key el).

Fixpoint VNodeChild_ind (node : VNodeChild) : P node :=
  match node with
  | VText s => Htext s
  | VNode tag props children key el =>
      Hnode tag props children key el
        ((fix all (l : list VNodeChild) : Forall P l :=
            match l with
            | [] => @List.Forall_nil VNodeChild P
            | c :: l' => @List.Forall_cons VNodeChild P c l' (VNodeChild_ind c) (all l')
            end) children)
  end.

End TreeInduction.

(* ===================================================================== *)
(** * server/ssr.py                                                      *)
(* ===================================================================== *)

Module Ssr.

Import Html.

Section Render.

Variable repr_obj : pyval -> string.

(** [s] between double quotes. *)
Definition quoted (s : string) : string :=
  String dquote (s +:+ String dquote EmptyString).

(** One turn of the loop over [props.items()]: what the attribute adds
    to [attr_parts]. *)
Definition render_attr (kv : string * pyval) : list string :=
  let '(k, v) := kv in
  if startswith "on_" k then []
  else match v with
       | PyBool true => [k]
       | PyBool false | PyNone => []
       | _ => [k +:+ "=" +:+ quoted (esc (py_str repr_obj v))]
       end.

Definition attr_parts (props : list (string * pyval)) : list string :=
  flat_map render_attr props.

Definition render_attrs (props : list (string * pyval)) : string :=
  match attr_parts props with
  | [] => EmptyString
  | parts => " " +:+ join " " parts
  end.

Fixpoint render_to_string (node : VNodeChild) : string :=
  match node with
  | VText s => esc s
  | VNode tag props children _ _ =>
      let attrs := render_attrs props in
      let inner := concat_str (map render_to_string children) in
      "<" +:+ tag +:+ attrs +:+ ">" +:+ inner +:+ "</" +:+ tag +:+ ">"
  end.

End Render.

End Ssr.

(* ===================================================================== *)
(** * shared/state.py                                                    *)
(* ===================================================================== *)

Module State.

(** A [ComponentInstance] object and a registered callable are known by
    their identity. *)
Definition inst_ref := nat.
Definition callback := nat.

Record ComponentInstance : Type := mkInstance {
  state : list pyval;
  hook_index : nat;
  schedule_update : option callback
}.

(** [ComponentInstance()] *)
Definition new_instance : ComponentInstance := mkInstance [] 0 None.

(** What the module calls that is not its own code: the producer handed
    to [use_state] and the [schedule_update] callback. Each call is
    recorded, in order. *)
Inductive event : Type :=
| Called (f : nat)
| Scheduled (cb : callback).

(** The mutable world of the module: the instance objects, the
    module-level [_current_instance] and the record of outside calls. *)
Record World : Type := mkWorld {
  instances : gmap inst_ref ComponentInstance;
  _current_instance : option inst_ref;
  calls : list event
}.

(** An instance never stored is as [ComponentInstance()] made it. *)
Definition get_inst (w : World) (r : inst_ref) : ComponentInstance :=
  default new_instance (instances w !! r).

Definition put_inst (r : inst_ref) (i : ComponentInstance) (w : World) : World :=
  mkWorld (<[r := i]> (instances w)) (_current_instance w) (calls w).

Definition set_current (c : option inst_ref) (w : World) : World :=
  mkWorld (instances w) c (calls w).

Definition record (e : event) (w : World) : World :=
  mkWorld (instances w) (_current_instance w) (calls w ++ [e]).

Definition initial_world : World := mkWorld ∅ None [].

(** The closure [set_value]: it holds the instance and the slot index of
    the [use_state] call that made it. *)
Record setter : Type := mkSetter { set_inst : inst_ref; set_idx : nat }.

(** A component body, as far as this module sees it: it calls
    [use_state] some number of times, each time going on with the value
    and the setter it got, and ends by returning or by raising. *)
Inductive Comp (A : Type) : Type :=
| Return (a : A)
| Throw (e : exn)
| UseState (initial : pyval) (k : pyval -> setter -> Comp A).
Arguments Return {A} a.
Arguments Throw {A} e.
Arguments UseState {A} initial k.

Section Hooks.

(** [call0 f] is what the function object [f] returns when it is called
    without argument. *)
Variable call0 : nat -> pyval.

(** [inst.state[idx] = new; if inst.schedule_update: inst.schedule_update()] *)
Definition set_value (s : setter) (new : pyval) : M World unit := fun w =>
  let inst := get_inst w (set_inst s) in
  let idx := set_idx s in
  if decide (idx < length (state inst)) then
    let inst' := mkInstance (<[idx := new]> (state inst)) (hook_index inst)
                            (schedule_update inst) in
    let w1 := put_inst (set_inst s) inst' w in
    match schedule_update inst with
    | Some cb => (Ok tt, record (Scheduled cb) w1)
    | None => (Ok tt, w1)
    end
  else (Raise IndexError, w).

(** [initial() if callable(initial) else initial] *)
Definition eval_initial (initial : pyval) : M World pyval := fun w =>
  match initial with
  | PyFunc f => (Ok (call0 f), record (Called f) w)
  | v => (Ok v, w)
  end.

Definition use_state (initial : pyval) : M World (pyval * setter) := fun w =>
  match _current_instance w with
  | None => (Raise (RuntimeError "use_state called outside component render"), w)
  | Some r =>
      let idx := hook_index (get_inst w r) in
      (* if idx >= len(inst.state): inst.state.append(value) *)
      let '(res, w1) :=
        if decide (length (state (get_inst w r)) <= idx) then
          match eval_initial initial w with
          | (Ok value, w') =>
              let inst := get_inst w' r in
              (Ok tt, put_inst r (mkInstance (state inst ++ [value])
                                    (hook_index inst) (schedule_update inst)) w')
          | (Raise e, w') => (Raise e, w')
          end
        else (Ok tt, w) in
      match res with
      | Raise e => (Raise e, w1)
      | Ok _ =>
          (* value = inst.state[idx] *)
          let inst := get_inst w1 r in
          match state inst !! idx with
          | None => (Raise IndexError, w1)
          | Some value =>
              (* inst.hook_index += 1 *)
              let w2 := put_inst r (mkInstance (state inst) (hook_index inst + 1)
                                      (schedule_update inst)) w1 in
              (Ok (value, mkSetter r idx), w2)
          end
      end
  end.

Fixpoint run {A} (c : Comp A) : M World A :=
  match c with
  | Return a => ret a
  | Throw e => raise e
  | UseState initial k =>
      fun w => match use_state initial w with
               | (Ok (v, s), w') => run (k v s) w'
               | (Raise e, w') => (Raise e, w')
               end
  end.

Definition props_t := list (string * pyval).

Definition render_component {A} (component_fn : props_t -> Comp A)
  (props : props_t) (instance : inst_ref) : M World A := fun w =>
  (* _current_instance = instance *)
  let w := set_current (Some instance) w in
  (* instance.hook_index = 0 *)
  let inst := get_inst w instance in
  let w := put_inst instance (mkInstance (state inst) 0 (schedule_update inst)) w in
  (* vnode = component_fn(props) *)
  match run (component_fn props) w with
  | (Raise e, w') => (Raise e, w')
  | (Ok vnode, w') =>
      (* _current_instance = None *)
      (Ok vnode, set_current None w')
  end.

(** [uses_hook k c]: whatever [use_state] hands back, the body [c] calls
    it exactly [k] times. *)
Inductive uses_hook {A} : nat -> Comp A -> Prop :=
| uses_return a : uses_hook 0 (Return a)
| uses_throw e : uses_hook 0 (Throw e)
| uses_use_state n initial k :
    (forall v s, uses_hook n (k v s)) -> uses_hook (S n) (UseState initial k).

(** What happens to an instance between its renders: event handlers call
    setters the renders handed out. *)
Inductive action : Type :=
| Render
| SetSlot (idx : nat) (new : pyval).

Definition do_action {A} (component_fn : props_t -> Comp A) (props : props_t)
  (instance : inst_ref) (a : action) (w : World) : World :=
  match a with
  | Render => snd (render_component component_fn props instance w)
  | SetSlot idx new => snd (set_value (mkSetter instance idx) new w)
  end.

Definition do_actions {A} (component_fn : props_t -> Comp A) (props : props_t)
  (instance : inst_ref) (l : list action) (w : World) : World :=
  foldl (fun w a => do_action component_fn props instance a w) w l.

Definition is_called (e : event) : bool :=
  match e with Called _ => true | Scheduled _ => false end.

Definition is_scheduled (e : event) : bool :=
  match e with Scheduled _ => true | Called _ => false end.

End Hooks.

End State.

(* ===================================================================== *)
(** * The host document                                                  *)
(* ===================================================================== *)

Module Dom.

(** Modelled from the DOM standard: the browser's [document] and its
    nodes, which the runtime reaches through [js], are not part of the
    repository. A host node is an element (with its tag) or a text node;
    the tree is held by the [childNodes] lists, and a node has at most
    one parent because every insertion takes the node out of wherever it
    was first. *)
Record HostNode : Type := mkHost {
  nodeTag : option string;
  textData : string;
  attributes : list (string * string);
  className : pyval;
  style : list (string * string);
  listeners : list (string * nat);
  childNodes : list ref
}.

Definition new_element (tag : string) : HostNode :=
  mkHost (Some tag) EmptyString [] (PyStr EmptyString) [] [] [].

Definition new_text (s : string) : HostNode :=
  mkHost None s [] (PyStr EmptyString) [] [] [].

(** The calls made on the document and its nodes, as a test double
    would record them. *)
Inductive call : Type :=
| CreateElement (tag : string) (r : ref)
| CreateTextNode (s : string) (r : ref)
| AppendChild (parent child : ref)
| RemoveChild (parent child : ref)
| InsertBefore (parent node before : ref)
| Remove (el : ref)
| SetTextContent (node : ref) (s : string)
| SetAttribute (el : ref) (k v : string)
| RemoveAttribute (el : ref) (k : string)
| SetClassName (el : ref) (v : pyval)
| SetStyle (el : ref) (k v : string)
| AddEventListener (el : ref) (event : string) (f : nat).

(** The document: the host nodes by reference, and the calls so far. *)
Record Doc : Type := mkDoc {
  nodes : list HostNode;
  log : list call
}.

Definition host (d : Doc) (r : ref) : HostNode :=
  default (new_text EmptyString) (nodes d !! r).

Definition children (d : Doc) (r : ref) : list ref := childNodes (host d r).

Definition logged (c : call) (d : Doc) : Doc := mkDoc (nodes d) (log d ++ [c]).

Definition update (r : ref) (f : HostNode -> HostNode) (d : Doc) : Doc :=
  mkDoc (alter f r (nodes d)) (log d).

Definition set_children (cs : list ref) (n : HostNode) : HostNode :=
  mkHost (nodeTag n) (textData n) (attributes n) (className n) (style n)
         (listeners n) cs.

(** Take [x] out of the tree. *)
Definition detach (x : ref) (d : Doc) : Doc :=
  mkDoc (map (fun n => set_children (filter (fun y => y ≠ x) (childNodes n)) n)
             (nodes d))
        (log d).

Fixpoint insert_before (x before : ref) (l : list ref) : list ref :=
  match l with
  | [] => [x]
  | y :: l' => if decide (y = before) then x :: y :: l'
               else y :: insert_before x before l'
  end.

(** A method called on [None], or a node argument that is [None]. *)
Definition need (o : option ref) (attr : string) : M Doc ref :=
  match o with
  | Some r => ret r
  | None => raise (AttributeError attr)
  end.

Definition createElement (tag : string) : M Doc ref := fun d =>
  let r := length (nodes d) in
  (Ok r, logged (CreateElement tag r) (mkDoc (nodes d ++ [new_element tag]) (log d))).

Definition createTextNode (s : string) : M Doc ref := fun d =>
  let r := length (nodes d) in
  (Ok r, logged (CreateTextNode s r) (mkDoc (nodes d ++ [new_text s]) (log d))).

Definition appendChild (parent : option ref) (child : option ref) : M Doc unit :=
  (let* p := need parent "appendChild" in
   let* c := need child "appendChild" in
   modify (fun d =>
     logged (AppendChild p c)
       (update p (fun n => set_children (childNodes n ++ [c]) n) (detach c d))))%py.

Definition removeChild (parent : option ref) (child : ref) : M Doc unit :=
  (let* p := need parent "removeChild" in
   modify (fun d => logged (RemoveChild p child) (detach child d)))%py.

Definition remove (el : ref) : M Doc unit :=
  modify (fun d => logged (Remove el) (detach el d)).

(** Inserting a node before itself leaves it where it is. *)
Definition insertBefore (parent : option ref) (node : option ref) (before : ref)
  : M Doc unit :=
  (let* p := need parent "insertBefore" in
   let* x := need node "insertBefore" in
   modify (fun d =>
     logged (InsertBefore p x before)
       (if decide (x = before) then d
        else update p (fun n => set_children (insert_before x before (childNodes n)) n)
                    (detach x d))))%py.

(** [len(parent.childNodes)] and [parent.childNodes[i]] *)
Definition childNodes_of (parent : option ref) : M Doc (list ref) :=
  (let* p := need parent "childNodes" in
   let* d := get in
   ret (children d p))%py.

(** [node.textContent = s]: the data of a text node; on an element, its
    children give way to one text node (none when [s] is empty). *)
Definition set_textContent (node : ref) (s : string) : M Doc unit := fun d =>
  let d := logged (SetTextContent node s) d in
  match nodeTag (host d node) with
  | None =>
      (Ok tt, update node (fun n => mkHost (nodeTag n) s (attributes n) (className n)
                                      (style n) (listeners n) (childNodes n)) d)
  | Some _ =>
      if String.eqb s EmptyString then (Ok tt, update node (set_children []) d)
      else let r := length (nodes d) in
           (Ok tt, update node (set_children [r])
                     (mkDoc (nodes d ++ [new_text s]) (log d)))
  end.

Definition setAttribute (el : option ref) (k v : string) : M Doc unit :=
  (let* e := need el "setAttribute" in
   modify (fun d => logged (SetAttribute e k v)
     (update e (fun n => mkHost (nodeTag n) (textData n) (dict_set k v (attributes n))
                           (className n) (style n) (listeners n) (childNodes n)) d)))%py.

Definition removeAttribute (el : option ref) (k : string) : M Doc unit :=
  (let* e := need el "removeAttribute" in
   modify (fun d => logged (RemoveAttribute e k)
     (update e (fun n => mkHost (nodeTag n) (textData n)
                           (filter (fun kv => fst kv ≠ k) (attributes n))
                           (className n) (style n) (listeners n) (childNodes n)) d)))%py.

Definition set_className (el : option ref) (v : pyval) : M Doc unit :=
  (let* e := need el "className" in
   modify (fun d => logged (SetClassName e v)
     (update e (fun n => mkHost (nodeTag n) (textData n) (attributes n) v
                           (style n) (listeners n) (childNodes n)) d)))%py.

Definition set_style (el : option ref) (k v : string) : M Doc unit :=
  (let* e := need el "style" in
   modify (fun d => logged (SetStyle e k v)
     (update e (fun n => mkHost (nodeTag n) (textData n) (attributes n) (className n)
                           (dict_set k v (style n)) (listeners n) (childNodes n)) d)))%py.

Definition addEventListener (el : option ref) (event : string) (f : nat) : M Doc unit :=
  (let* e := need el "addEventListener" in
   modify (fun d => logged (AddEventListener e event f)
     (update e (fun n => mkHost (nodeTag n) (textData n) (attributes n) (className n)
                           (style n) (listeners n ++ [(event, f)]) (childNodes n)) d)))%py.

(** A document holding one empty element, reference 0. *)
Definition root_doc (tag : string) : Doc := mkDoc [new_element tag] [].

End Dom.

(* ===================================================================== *)
(** * static/client_runtime.py                                           *)
(* ===================================================================== *)

Module Runtime.

Import Dom.

Section Runtime.

Variable repr_obj : pyval -> string.

(** [for x in xs: f(x)], the results kept in order. *)
Fixpoint for_each {A B} (f : A -> M Doc B) (xs : list A) : M Doc (list B) :=
  match xs with
  | [] => ret []
  | x :: xs' =>
      (let* y := f x in
       let* ys := for_each f xs' in
       ret (y :: ys))%py
  end.

(** The id of the function object behind a callable value; the proxy
    [create_proxy] makes for it is known by the same id. *)
Definition func_id (v : pyval) : nat :=
  match v with PyFunc f => f | _ => 0 end.

Definition style_items (v : pyval) : list (string * string) :=
  match v with PyDict items => items | _ => [] end.

(** One turn of the loop of [mount] over [vnode.props]. *)
Definition mount_prop (el : option ref) (kv : string * pyval) : M Doc unit :=
  let '(k, v) := kv in
  if startswith "on_" k && callable v then
    addEventListener el (drop_prefix 3 k) (func_id v)
  else if String.eqb k "class" then set_className el v
  else if String.eqb k "style" && is_dict v then
    (for_each (fun sv => set_style el (fst sv) (snd sv)) (style_items v) ;; ret tt)%py
  else setAttribute el k (py_str repr_obj v).

(** [mount(parent, vnode)]; the tree comes back with the [_el] slots it
    filled in. *)
Fixpoint mount (parent : option ref) (vnode : VNodeChild) : M Doc VNodeChild :=
  match vnode with
  | VText s =>
      (let* text_node := createTextNode s in
       appendChild parent (Some text_node) ;;
       ret (VText s))%py
  | VNode tag props children key _ =>
      (let* el := createElement tag in
       for_each (mount_prop (Some el)) props ;;
       let* children' := for_each (mount (Some el)) children in
       appendChild parent (Some el) ;;
       ret (VNode tag props children' key (Some el)))%py
  end.

(** [remove_node(parent, vnode, index)] *)
Definition remove_node (parent : option ref) (vnode : VNodeChild) (index : nat)
  : M Doc unit :=
  match vnode with
  | VText _ =>
      (let* nodes := childNodes_of parent in
       match nodes !! index with
       | Some n => removeChild parent n
       | None => ret tt
       end)%py
  | VNode _ _ _ _ (Some el) => remove el
  | VNode _ _ _ _ None => ret tt
  end.

(** [move_node(parent, element, new_index)] *)
Definition move_node (parent : option ref) (element : option ref) (new_index : nat)
  : M Doc unit :=
  (let* nodes := childNodes_of parent in
   match nodes !! new_index with
   | None => appendChild parent element
   | Some before => insertBefore parent element before
   end)%py.

(** The first loop of [patch_props]: one old key. *)
Definition drop_prop (element : option ref) (new_props : list (string * pyval))
  (kv : string * pyval) : M Doc unit :=
  let '(key, old_value) := kv in
  if dict_mem key new_props then ret tt
  else if startswith "on_" key then ret tt
  else if String.eqb key "class" then set_className element (PyStr EmptyString)
  else if String.eqb key "style" then
    (for_each (fun sv => set_style element (fst sv) EmptyString)
              (style_items old_value) ;; ret tt)%py
  else removeAttribute element key.

(** The second loop of [patch_props]: one new item. *)
Definition update_prop (element : option ref) (old_props : list (string * pyval))
  (kv : string * pyval) : M Doc unit :=
  let '(key, value) := kv in
  let old_value := default PyNone (dict_get key old_props) in
  if py_eqb old_value value then ret tt
  else if startswith "on_" key && callable value then
    addEventListener element (drop_prefix 3 key) (func_id value)
  else if String.eqb key "class" then set_className element value
  else if String.eqb key "style" && is_dict value then
    let old_style :=
      style_items (default (PyDict []) (dict_get "style" old_props)) in
    (for_each (fun sv =>
                 if dict_mem (fst sv) (style_items value) then ret tt
                 else set_style element (fst sv) EmptyString) old_style ;;
     for_each (fun sv => set_style element (fst sv) (snd sv)) (style_items value) ;;
     ret tt)%py
  else setAttribute element key (py_str repr_obj value).

(** [patch_props(element, old_props, new_props)] *)
Definition patch_props (element : option ref)
  (old_props new_props : list (string * pyval)) : M Doc unit :=
  (for_each (drop_prop element new_props) old_props ;;
   for_each (update_prop element old_props) new_props ;;
   ret tt)%py.

(** [child.key], when the child is a [VNode] and the key is truthy:
    neither [None] nor the empty string. *)
Definition truthy_key (child : VNodeChild) : option string :=
  match key_of child with
  | Some k => if String.eqb k EmptyString then None else Some k
  | None => None
  end.

(** The key map built at the start of [patch_keyed_children]:
    [key -> (index, child)]. *)
Fixpoint build_keyed (children : list VNodeChild) (i : nat)
  (acc : list (string * (nat * VNodeChild))) : list (string * (nat * VNodeChild)) :=
  match children with
  | [] => acc
  | child :: rest =>
      match truthy_key child with
      | Some k => build_keyed rest (S i) (dict_set k (i, child) acc)
      | None => build_keyed rest (S i) acc
      end
  end.

(** [has_keys] of [patch]. *)
Definition has_keys (new_children : list VNodeChild) : bool :=
  match new_children with
  | VNode _ _ _ (Some _) _ :: _ => true
  | _ => false
  end.

Section Children.

(** The children loops call [patch] on an old and a new child that are
    both there. *)
Variable patch_fn : option ref -> VNodeChild -> VNodeChild -> nat -> M Doc VNodeChild.

(** [for i in range(min(old_len, new_len)): patch(parent, old[i], new[i], i)] *)
Fixpoint patch_common (parent : option ref) (old_children new_children : list VNodeChild)
  (i : nat) {struct new_children} : M Doc (list VNodeChild) :=
  match new_children, old_children with
  | new :: news, old :: olds =>
      (let* new' := patch_fn parent old new i in
       let* rest := patch_common parent olds news (S i) in
       ret (new' :: rest))%py
  | _, _ => ret []
  end.

Definition patch_children_with (parent : option ref)
  (old_children new_children : list VNodeChild) : M Doc (list VNodeChild) :=
  let old_len := length old_children in
  let new_len := length new_children in
  (let* common := patch_common parent old_children new_children 0 in
   (* for i in range(new_len, old_len): remove_node(parent, old[i], new_len) *)
   for_each (fun old => remove_node parent old new_len) (drop new_len old_children) ;;
   (* for i in range(old_len, new_len): mount(parent, new[i]) *)
   let* added := for_each (mount parent) (drop old_len new_children) in
   ret (common ++ added)%list)%py.

(** The first pass of [patch_keyed_children], from position [new_idx]
    on; [used_keys] is threaded through. *)
Fixpoint keyed_pass (parent : option ref)
  (old_keyed : list (string * (nat * VNodeChild)))
  (new_children : list VNodeChild) (new_idx : nat) (used_keys : gset string)
  : M Doc (list VNodeChild * gset string) :=
  match new_children with
  | [] => ret ([], used_keys)
  | new_child :: rest =>
      match truthy_key new_child with
      | None =>
          (let* r := keyed_pass parent old_keyed rest (S new_idx) used_keys in
           ret (new_child :: fst r, snd r))%py
      | Some key =>
          let used_keys := {[key]} ∪ used_keys in
          (let* new_child' :=
             match dict_get key old_keyed with
             | Some (old_idx, old_child) =>
                 (let* c := patch_fn parent old_child new_child new_idx in
                  (if decide (old_idx = new_idx) then ret tt
                   else move_node parent (el_of c) new_idx) ;;
                  ret c)%py
             | None =>
                 (let* c := mount parent new_child in
                  let* nodes := childNodes_of parent in
                  (if decide (new_idx < length nodes)
                   then move_node parent (el_of c) new_idx
                   else ret tt) ;;
                  ret c)%py
             end in
           let* r := keyed_pass parent old_keyed rest (S new_idx) used_keys in
           ret (new_child' :: fst r, snd r))%py
      end
  end.

(** The second pass: the old children whose key no new child used. *)
Definition keyed_sweep (parent : option ref)
  (old_keyed : list (string * (nat * VNodeChild))) (used_keys : gset string)
  : M Doc unit :=
  (for_each (fun entry =>
               if decide (fst entry ∈ used_keys) then ret tt
               else remove_node parent (snd (snd entry)) 0) old_keyed ;;
   ret tt)%py.

Definition patch_keyed_children_with (parent : option ref)
  (old_children new_children : list VNodeChild) : M Doc (list VNodeChild) :=
  let old_keyed := build_keyed old_children 0 [] in
  (let* r := keyed_pass parent old_keyed new_children 0 ∅ in
   keyed_sweep parent old_keyed (snd r) ;;
   ret (fst r))%py.

End Children.

(** [patch(parent, old_vnode, new_vnode, index)] when both nodes are
    there (cases 3 to 6); the new node comes back with its [_el] slots. *)
Fixpoint patch_present (parent : option ref) (old_vnode new_vnode : VNodeChild)
  (index : nat) {struct new_vnode} : M Doc VNodeChild :=
  match new_vnode with
  | VText new_s =>
      match old_vnode with
      | VText old_s =>
          if String.eqb old_s new_s then ret new_vnode
          else
            (let* nodes := childNodes_of parent in
             match nodes !! index with
             | Some text_node => set_textContent text_node new_s
             | None => ret tt
             end ;;
             ret new_vnode)%py
      | VNode _ _ _ _ _ =>
          (remove_node parent old_vnode index ;; mount parent new_vnode)%py
      end
  | VNode new_tag new_props new_children new_key _ =>
      match old_vnode with
      | VText _ =>
          (remove_node parent old_vnode index ;; mount parent new_vnode)%py
      | VNode old_tag old_props old_children _ old_el =>
          if negb (String.eqb old_tag new_tag) then
            (remove_node parent old_vnode index ;; mount parent new_vnode)%py
          else
            (* new_vnode._el = old_vnode._el; element = old_vnode._el *)
            let element := old_el in
            (patch_props element old_props new_props ;;
             let* children' :=
               if has_keys new_children
               then patch_keyed_children_with patch_present element
                      old_children new_children
               else patch_children_with patch_present element
                      old_children new_children in
             ret (VNode new_tag new_props children' new_key old_el))%py
      end
  end.

Definition patch_children := patch_children_with patch_present.

Definition patch_keyed_children := patch_keyed_children_with patch_present.

(** [patch(parent, old_vnode, new_vnode, index)]; [None] is an absent
    node. *)
Definition patch (parent : option ref) (old_vnode new_vnode : option VNodeChild)
  (index : nat) : M Doc (option VNodeChild) :=
  match old_vnode, new_vnode with
  | None, Some new => (let* new' := mount parent new in ret (Some new'))%py
  | Some old, None => (remove_node parent old index ;; ret None)%py
  | None, None => ret None
  | Some old, Some new =>
      (let* new' := patch_present parent old new index in ret (Some new'))%py
  end.

End Runtime.

End Runtime.

(* ===================================================================== *)
(** * Vocabulary of the properties                                        *)
(* ===================================================================== *)

Module SsrSpec.

Import Html Ssr.

(** [occurs_in x s]: [x] is a contiguous part of [s]. *)
Definition occurs_in (x s : string) : Prop :=
  exists pre post, s = pre +:+ x +:+ post.

(** How often the character [c] occurs in [s]. *)
Fixpoint count_char (c : ascii) (s : string) : nat :=
  match s with
  | EmptyString => 0
  | String a r => (if Ascii.eqb a c then 1 else 0) + count_char c r
  end.

(** [text_in t node]: the text [t] is [node] itself or a text child at
    any depth below it. *)
Inductive text_in (t : string) : VNodeChild -> Prop :=
| text_here : text_in t (VText t)
| text_below tag props children key el c :
    In c children -> text_in t c -> text_in t (VNode tag props children key el).

(** [attr_in k v node]: some [VNode] of the tree has the attribute [k]
    with value [v]. *)
Inductive attr_in (k : string) (v : pyval) : VNodeChild -> Prop :=
| attr_here tag props children key el :
    In (k, v) props -> attr_in k v (VNode tag props children key el)
| attr_below tag props children key el c :
    In c children -> attr_in k v c -> attr_in k v (VNode tag props children key el).

(** The attribute is written with a value: it is no event handler and
    its value is neither a boolean nor [None]. *)
Definition has_value (kv : string * pyval) : bool :=
  negb (startswith "on_" (fst kv)) &&
  match snd kv with PyBool _ | PyNone => false | _ => true end.

(** The attribute leaves no trace in the markup. *)
Definition dropped (kv : string * pyval) : bool :=
  startswith "on_" (fst kv) ||
  match snd kv with PyBool false | PyNone => true | _ => false end.

(** The attribute is written as its bare name. *)
Definition bare (kv : string * pyval) : bool :=
  negb (startswith "on_" (fst kv)) &&
  match snd kv with PyBool true => true | _ => false end.

(** What a written attribute is in the opening tag: a space, then the
    bare name, or the name, [=] and the escaped value between double
    quotes. *)
Definition attr_word (repr_obj : pyval -> string) (kv : string * pyval) : string :=
  " " +:+ (if bare kv then fst kv
           else fst kv +:+ "=" +:+ quoted (esc (py_str repr_obj (snd kv)))).

(** The attributes of an opening tag as the claim describes them: the
    attributes that are not dropped, in order, each as its word. *)
Definition attr_words (repr_obj : pyval -> string) (props : list (string * pyval))
  : string :=
  concat_str (map (attr_word repr_obj) (filter (fun kv => dropped kv = false) props)).

(** A name an author writes: none of the characters that [esc] replaces. *)
Fixpoint plain (s : string) : bool :=
  match s with
  | EmptyString => true
  | String a r => negb (special a) && negb (Ascii.eqb a "&") && plain r
  end.

(** Every tag and every written attribute name of the tree is plain. *)
Fixpoint plain_names (node : VNodeChild) : bool :=
  match node with
  | VText _ => true
  | VNode tag props children _ _ =>
      plain tag &&
      forallb (fun kv => dropped kv || plain (fst kv)) props &&
      forallb plain_names children
  end.

(** The number of [VNode]s of the tree, and of attributes written with a
    value. *)
Fixpoint vnode_count (node : VNodeChild) : nat :=
  match node with
  | VText _ => 0
  | VNode _ _ children _ _ => 1 + list_sum (map vnode_count children)
  end.

Fixpoint value_count (node : VNodeChild) : nat :=
  match node with
  | VText _ => 0
  | VNode _ props children _ _ =>
      length (filter (fun kv => has_value kv = true) props)
      + list_sum (map value_count children)
  end.

(** [hit x c] is 1 when the character [x] is [c]. *)
Definition hit (x c : ascii) : nat := if Ascii.eqb x c then 1 else 0.

(** A sample: what [str] shows for an object, and a tree with hostile
    text and attribute values. *)
Definition sample_repr (v : pyval) : string := "<object>".

Definition sample_node : VNodeChild :=
  VNode "div" [("title", PyStr "'><b>"); ("on_click", PyFunc 1)]
    [VText "<script>alert('x')</script>";
     VNode "p" [("hidden", PyBool true)] [VText "a & b"] None None]
    None None.

End SsrSpec.

Module StateSpec.

Import State.

(** What [initial] stands for when a slot is created, and the call that
    computing it makes. *)
Definition initial_value (call0 : nat -> pyval) (initial : pyval) : pyval :=
  match initial with PyFunc f => call0 f | v => v end.

Definition initial_calls (initial : pyval) : list event :=
  match initial with PyFunc f => [Called f] | _ => [] end.

(** The slots a body creates when none of its slots exists yet, and the
    calls that computing their initial values makes: the body is
    followed along the values it is handed, from slot [idx] on. *)
Fixpoint initial_slots {A} (call0 : nat -> pyval) (c : Comp A) (r : inst_ref)
  (idx : nat) : list pyval :=
  match c with
  | UseState initial k =>
      let v := initial_value call0 initial in
      v :: initial_slots call0 (k v (mkSetter r idx)) r (S idx)
  | _ => []
  end.

Fixpoint initial_record {A} (call0 : nat -> pyval) (c : Comp A) (r : inst_ref)
  (idx : nat) : list event :=
  match c with
  | UseState initial k =>
      (initial_calls initial ++
       initial_record call0 (k (initial_value call0 initial) (mkSetter r idx)) r (S idx))%list
  | _ => []
  end.

(** The setter is called once for each value of [news], in order. *)
Definition set_many (s : setter) (news : list pyval) (w : World) : World :=
  foldl (fun w new => snd (set_value s new w)) w news.

(** The body returns on every path: it never raises. *)
Inductive returns {A} : Comp A -> Prop :=
| returns_return a : returns (Return a)
| returns_use_state initial k :
    (forall v s, returns (k v s)) -> returns (UseState initial k).

(** The world as [render_component] hands it to the component function:
    [instance] is the active one and its hook index is 0. *)
Definition entered (instance : inst_ref) (w : World) : World :=
  let w := set_current (Some instance) w in
  let inst := get_inst w instance in
  put_inst instance (mkInstance (state inst) 0 (schedule_update inst)) w.

(** How many [Scheduled] and [Called] records a world holds. *)
Definition scheduled_count (w : World) : nat :=
  length (List.filter is_scheduled (calls w)).

Definition called (w : World) : list event :=
  List.filter is_called (calls w).

(** Samples: a counter with one slot, a form with two slots, the second
    filled by a producer, and a body that raises after its hook call. *)
Definition Counter (props : props_t) : Comp VNodeChild :=
  UseState (PyInt 0) (fun count set_count =>
    Return (button [("on_click", PyFunc 7)] [VText (py_str (fun _ => "obj") count)])).

Definition Form (props : props_t) : Comp VNodeChild :=
  UseState (PyStr "name") (fun name _ =>
  UseState (PyFunc 3) (fun items _ =>
    Return (div [] [VText (py_str (fun _ => "obj") name)]))).

Definition Broken (props : props_t) : Comp VNodeChild :=
  UseState (PyInt 0) (fun _ _ => Throw (UserError "ValueError")).

Definition sample_call0 (f : nat) : pyval := PyInt 42.

End StateSpec.

Module RuntimeSpec.

Import Dom Runtime.

(** Every [VNode] of the tree has its host reference: the tree went
    through [mount] or a previous [patch]. *)
Fixpoint mounted (c : VNodeChild) : bool :=
  match c with
  | VText _ => true
  | VNode _ _ children _ el =>
      match el with Some _ => true | None => false end && forallb mounted children
  end.

(** The host references held by the tree, its own first. *)
Fixpoint hosts (c : VNodeChild) : list ref :=
  match c with
  | VText _ => []
  | VNode _ _ children _ el =>
      (match el with Some r => [r] | None => [] end ++ flat_map hosts children)%list
  end.

(** The host references held strictly below the node. *)
Definition hosts_below (c : VNodeChild) : list ref :=
  flat_map hosts (children_of c).

(** [patch] reuses the host of [old] for [new]: both are [VNode]s of one
    tag. *)
Definition same_tag (old new : VNodeChild) : bool :=
  negb (is_str old) && negb (is_str new) && String.eqb (tag_of old) (tag_of new).

(** The tree without its host references: what the component made. *)
Fixpoint strip (c : VNodeChild) : VNodeChild :=
  match c with
  | VText s => VText s
  | VNode t ps cs k _ => VNode t ps (map strip cs) k None
  end.

(** [patched new new']: [new'] is [new] with host references filled in,
    its own among them when it is a [VNode]. *)
Definition patched (new new' : VNodeChild) : Prop :=
  strip new = strip new' /\ (is_str new = false -> is_Some (el_of new')).

(** [runs S Q m]: from any document, [m] returns a value that satisfies
    [Q]; it only adds to the log and to the host nodes, every
    [remove()] it calls is on a host of [S], and every element it
    creates has a reference that was not in use before. *)
Definition runs {A} (S : ref -> Prop) (Q : A -> Prop) (m : M Doc A) : Prop :=
  forall d, exists a d' evs,
    m d = (Ok a, d') /\ Q a /\
    log d' = (log d ++ evs)%list /\
    (forall r, In (Remove r) evs -> S r) /\
    length (nodes d) <= length (nodes d') /\
    (forall tag r, In (CreateElement tag r) evs -> length (nodes d) <= r).

(** The calls [m] adds to the log when run in [d]. *)
Definition new_calls {A} (m : M Doc A) (d : Doc) : list call :=
  drop (length (log d)) (log (snd (m d))).

(** [x] hangs in no [childNodes] list of the document. *)
Definition detached (x : ref) (d : Doc) : Prop :=
  forall p, ~ In x (children d p).

(** A sibling list ready for keyed reconciliation: every child is a
    [VNode] with a key that is not empty, and no key occurs twice. *)
Definition keys_of (cs : list VNodeChild) : list string :=
  omap truthy_key cs.

Definition keyed_list (cs : list VNodeChild) : Prop :=
  Forall (fun c => is_Some (truthy_key c)) cs /\ NoDup (keys_of cs).

(** The key map of a keyed list, entry by entry: every child with its
    key and its index. *)
Fixpoint entries_from (i : nat) (cs : list VNodeChild)
  : list (string * (nat * VNodeChild)) :=
  match cs with
  | [] => []
  | c :: rest =>
      match truthy_key c with
      | Some k => (k, (i, c)) :: entries_from (S i) rest
      | None => entries_from (S i) rest
      end
  end.

(** [patch_fn] behaves on the new child [n]: against any mounted old
    child it returns [n] with its hosts and removes hosts of the old
    child only. *)
Definition behaves
  (patch_fn : option ref -> VNodeChild -> VNodeChild -> nat -> M Doc VNodeChild)
  (n : VNodeChild) : Prop :=
  forall old p idx, mounted old = true ->
    runs (fun r => In r (hosts old)) (patched n) (patch_fn (Some p) old n idx).

(** What the first pass of a keyed reconciliation may remove: for an old
    and a new child of one key, the hosts strictly below the old child
    when [patch] reuses its host, and all hosts of the old child when it
    does not. *)
Definition removed_in_pass (olds news : list VNodeChild) (r : ref) : Prop :=
  exists n o,
    In n news /\ In o olds /\ truthy_key o = truthy_key n /\
    is_Some (truthy_key n) /\
    In r (if same_tag o n then hosts_below o else hosts o).

(** What the first pass hands back for the new child [n]: the child in
    shape, and with the host of the old child of its key when [patch]
    reuses it. *)
Definition keyed_result (olds : list VNodeChild) (n n' : VNodeChild) : Prop :=
  strip n = strip n' /\
  forall o, In o olds -> truthy_key o = truthy_key n -> is_Some (truthy_key n) ->
            same_tag o n = true -> el_of n' = el_of o.

(** The old children the second pass removes. *)
Definition unused (used : gset string) (entries : list (string * (nat * VNodeChild)))
  : list VNodeChild :=
  map (fun e => snd (snd e)) (filter (fun e => fst e ∉ used) entries).

(** The common indices of a positional patch: the old and the new child
    at each index, with the index. *)
Fixpoint common_from (i : nat) (olds news : list VNodeChild)
  : list (nat * (VNodeChild * VNodeChild)) :=
  match olds, news with
  | o :: olds', n :: news' => (i, (o, n)) :: common_from (S i) olds' news'
  | _, _ => []
  end.

(** Samples: three mounted keyed items under the element 0, as [mount]
    leaves them. *)
Definition item (k : string) (t : string) (el : option ref) : VNodeChild :=
  VNode "li" [] [VText t] (Some k) el.

Definition list_doc : Doc :=
  mkDoc [mkHost (Some "ul") EmptyString [] (PyStr EmptyString) [] [] [1; 3; 5];
         mkHost (Some "li") EmptyString [] (PyStr EmptyString) [] [] [2];
         new_text "A";
         mkHost (Some "li") EmptyString [] (PyStr EmptyString) [] [] [4];
         new_text "B";
         mkHost (Some "li") EmptyString [] (PyStr EmptyString) [] [] [6];
         new_text "C"] [].

Definition items_abc : list VNodeChild :=
  [item "a" "A" (Some 1); item "b" "B" (Some 3); item "c" "C" (Some 5)].

(** Two mounted children under the element 0, hosts 1 and 2. *)
Definition pair_doc : Doc :=
  mkDoc [mkHost (Some "ul") EmptyString [] (PyStr EmptyString) [] [] [1; 2];
         mkHost (Some "li") EmptyString [] (PyStr EmptyString) [] [] [];
         mkHost (Some "li") EmptyString [] (PyStr EmptyString) [] [] []] [].

(** Two texts under the element 0. *)
Definition text_doc : Doc :=
  mkDoc [mkHost (Some "div") EmptyString [] (PyStr EmptyString) [] [] [1; 2];
         new_text "x"; new_text "y"] [].

End RuntimeSpec.
(* ===================================================================== *)
(** * server/actions.py                                                  *)
(* ===================================================================== *)

Module Actions.

(** A todo is the dict [{"id": ..., "text": ..., "done": ...}]. *)
Record Todo : Type := mkTodo {
  todo_id : Z;
  todo_text : string;
  todo_done : bool
}.

(** The dicts and the lists are objects: [update_todo] changes a dict in
    place, [create_todo] appends to a list in place, [delete_todo] and
    [_reset_database] bind the global [_todos_db] to a new list. The
    store keeps the objects by reference, so that a second name for a
    list (server/app.py imports one) sees what the code lets it see. *)
Abbreviation todo_ref := nat (only parsing).
Abbreviation list_ref := nat (only parsing).

Record Store : Type := mkStore {
  dicts : list Todo;
  lists : list (list todo_ref);
  _todos_db : list_ref;
  _next_id : Z
}.

Definition initial_todos : list Todo :=
  [mkTodo 1 "Learn Pickle-Reactor" false;
   mkTodo 2 "Build VDOM diffing" true;
   mkTodo 3 "Implement server actions" false].

(** The module as its import leaves it. *)
Definition initial_store : Store := mkStore initial_todos [[0; 1; 2]] 0 4.

Definition deref (st : Store) (r : todo_ref) : Todo :=
  default (mkTodo 0 EmptyString false) (dicts st !! r).

Definition list_at (st : Store) (l : list_ref) : list todo_ref :=
  default [] (lists st !! l).

(** The todos a list object holds, in order. *)
Definition todos_of (st : Store) (l : list_ref) : list Todo :=
  map (deref st) (list_at st l).

(** [_reset_database()]: three new dicts in a new list. *)
Definition _reset_database (st : Store) : Store :=
  let n := length (dicts st) in
  mkStore (dicts st ++ initial_todos)%list
          (lists st ++ [[n; n + 1; n + 2]])%list
          (length (lists st)) 4.

(** What an endpoint hands back: its JSON body, or the
    [HTTPException] it raises. *)
Inductive response (A : Type) : Type :=
| Success (body : A)
| HTTPException (status_code : nat) (detail : string).
Arguments Success {A} body.
Arguments HTTPException {A} status_code detail.

(** [CreateTodoPayload]: [text] has [min_length=1]; a request whose body
    fails the validation is answered with status 422 and the endpoint
    does not run. *)
Definition CreateTodoPayload (text : string) : option string :=
  match text with
  | EmptyString => None
  | _ => Some text
  end.

(** [create_todo(payload)], on the validated text. *)
Definition create_todo (text : string) (st : Store) : response Todo * Store :=
  let new_todo := mkTodo (_next_id st) text false in
  let r := length (dicts st) in
  (Success new_todo,
   mkStore (dicts st ++ [new_todo])%list
           (alter (fun l => (l ++ [r])%list) (_todos_db st) (lists st))
           (_todos_db st) (_next_id st + 1)).

(** [update_todo(todo_id, payload)]: the dict found by [next(...)] is
    the one the list holds. *)
Definition update_todo (id : Z) (done : bool) (st : Store) : response Todo * Store :=
  match List.find (fun r => Z.eqb (todo_id (deref st r)) id) (list_at st (_todos_db st)) with
  | None => (HTTPException 404 "Todo not found", st)
  | Some r =>
      let todo := mkTodo (todo_id (deref st r)) (todo_text (deref st r)) done in
      (Success todo,
       mkStore (alter (fun _ => todo) r (dicts st)) (lists st)
               (_todos_db st) (_next_id st))
  end.

(** [delete_todo(todo_id)]: the filtered list is bound to [_todos_db]
    before the lengths are compared. *)
Definition delete_todo (id : Z) (st : Store) : response unit * Store :=
  let original_len := length (list_at st (_todos_db st)) in
  let kept := List.filter (fun r => negb (Z.eqb (todo_id (deref st r)) id))
                          (list_at st (_todos_db st)) in
  let st' := mkStore (dicts st) (lists st ++ [kept])%list (length (lists st)) (_next_id st) in
  if Nat.eqb (length kept) original_len
  then (HTTPException 404 "Todo not found", st')
  else (Success tt, st').

(** [list_todos()] *)
Definition list_todos (st : Store) : response (list Todo) * Store :=
  (Success (todos_of st (_todos_db st)), st).

End Actions.

(* ===================================================================== *)
(** * The trees a component hands over: a child may be None              *)
(* ===================================================================== *)

Module Raw.

Import Html State Dom Runtime.

(** What a page component returns is not always a [VNodeChild]: a child
    written as a conditional expression is [None] when the condition
    fails (static/pages_dashboard.py: [div(...) if error else None]).
    [render_to_string], [mount] and [patch] get such trees as they are.
    This module is the server renderer and the client runtime on the
    trees they can really receive; on trees without a [None] they are
    the functions of [Ssr] and [Runtime]. *)
#[local] Unset Elimination Schemes.
Inductive Child : Type :=
| CNone
| CText (s : string)
| CNode (tag : string) (props : list (string * pyval))
        (children : list Child) (key : option string) (_el : option ref).
#[local] Set Elimination Schemes.

Section TreeInduction.

Variable P : Child -> Prop.
Hypothesis Hnone : P CNone.
Hypothesis Htext : forall s, P (CText s).
Hypothesis Hnode : forall tag props children key el,
  Forall P children -> P (CNode tag props children key el).

Fixpoint Child_ind (node : Child) : P node :=
  match node with
  | CNone => Hnone
  | CText s => Htext s
  | CNode tag props children key el =>
      Hnode tag props children key el
        ((fix all (l : list Child) : Forall P l :=
            match l with
            | [] => @List.Forall_nil Child P
            | c :: l' => @List.Forall_cons Child P c l' (Child_ind c) (all l')
            end) children)
  end.

End TreeInduction.

(** A [VNodeChild] as such a tree, and back when no child is [None]. *)
Fixpoint lift (c : VNodeChild) : Child :=
  match c with
  | VText s => CText s
  | VNode tag props children key el => CNode tag props (map lift children) key el
  end.

(** The first exception of a row of results, or all the values. *)
Fixpoint collect {A} (rs : list (result A)) : result (list A) :=
  match rs with
  | [] => Ok []
  | Ok a :: rest =>
      match collect rest with
      | Ok l => Ok (a :: l)
      | Raise e => Raise e
      end
  | Raise e :: _ => Raise e
  end.

Fixpoint lower (c : Child) : option VNodeChild :=
  match c with
  | CNone => None
  | CText s => Some (VText s)
  | CNode tag props children key el =>
      match mapM lower children with
      | Some cs => Some (VNode tag props cs key el)
      | None => None
      end
  end.

Definition el_of (c : Child) : option ref :=
  match c with CNode _ _ _ _ e => e | _ => None end.

(** [not isinstance(child, str) and hasattr(child, 'key') and child.key] *)
Definition truthy_key (child : Child) : option string :=
  match child with
  | CNode _ _ _ (Some k) _ => if String.eqb k EmptyString then None else Some k
  | _ => None
  end.

Fixpoint build_keyed (children : list Child) (i : nat)
  (acc : list (string * (nat * Child))) : list (string * (nat * Child)) :=
  match children with
  | [] => acc
  | child :: rest =>
      match truthy_key child with
      | Some k => build_keyed rest (S i) (dict_set k (i, child) acc)
      | None => build_keyed rest (S i) acc
      end
  end.

(** [has_keys] of [patch]: [None] has no attribute [key]. *)
Definition has_keys (new_children : list Child) : bool :=
  match new_children with
  | CNode _ _ _ (Some _) _ :: _ => true
  | _ => false
  end.

Section Raw.

Variable repr_obj : pyval -> string.

(** [render_to_string(node)]: [node.tag] on [None] raises. *)
Fixpoint render_to_string (node : Child) : result string :=
  match node with
  | CNone => Raise (AttributeError "tag")
  | CText s => Ok (esc s)
  | CNode tag props children _ _ =>
      let attrs := Ssr.render_attrs repr_obj props in
      match collect (map render_to_string children) with
      | Ok parts =>
          Ok ("<" +:+ tag +:+ attrs +:+ ">" +:+ concat_str parts +:+ "</" +:+ tag +:+ ">")
      | Raise e => Raise e
      end
  end.

(** [mount(parent, vnode)]: [vnode.tag] on [None] raises. *)
Fixpoint mount (parent : option ref) (vnode : Child) : M Doc Child :=
  match vnode with
  | CNone => raise (AttributeError "tag")
  | CText s =>
      (let* text_node := createTextNode s in
       appendChild parent (Some text_node) ;;
       ret (CText s))%py
  | CNode tag props children key _ =>
      (let* el := createElement tag in
       for_each (mount_prop repr_obj (Some el)) props ;;
       let* children' := for_each (mount (Some el)) children in
       appendChild parent (Some el) ;;
       ret (CNode tag props children' key (Some el)))%py
  end.

(** [remove_node(parent, vnode, index)]: [None] is no string and has no
    attribute [_el], so nothing is done for it. *)
Definition remove_node (parent : option ref) (vnode : Child) (index : nat)
  : M Doc unit :=
  match vnode with
  | CNone => ret tt
  | CText _ =>
      (let* nodes := childNodes_of parent in
       match nodes !! index with
       | Some n => removeChild parent n
       | None => ret tt
       end)%py
  | CNode _ _ _ _ (Some el) => remove el
  | CNode _ _ _ _ None => ret tt
  end.

Section Children.

Variable patch_fn : option ref -> Child -> Child -> nat -> M Doc Child.

Fixpoint patch_common (parent : option ref) (old_children new_children : list Child)
  (i : nat) {struct new_children} : M Doc (list Child) :=
  match new_children, old_children with
  | new :: news, old :: olds =>
      (let* new' := patch_fn parent old new i in
       let* rest := patch_common parent olds news (S i) in
       ret (new' :: rest))%py
  | _, _ => ret []
  end.

Definition patch_children_with (parent : option ref)
  (old_children new_children : list Child) : M Doc (list Child) :=
  let old_len := length old_children in
  let new_len := length new_children in
  (let* common := patch_common parent old_children new_children 0 in
   for_each (fun old => remove_node parent old new_len) (drop new_len old_children) ;;
   let* added := for_each (mount parent) (drop old_len new_children) in
   ret (common ++ added)%list)%py.

Fixpoint keyed_pass (parent : option ref)
  (old_keyed : list (string * (nat * Child)))
  (new_children : list Child) (new_idx : nat) (used_keys : gset string)
  : M Doc (list Child * gset string) :=
  match new_children with
  | [] => ret ([], used_keys)
  | new_child :: rest =>
      match truthy_key new_child with
      | None =>
          (let* r := keyed_pass parent old_keyed rest (S new_idx) used_keys in
           ret (new_child :: fst r, snd r))%py
      | Some key =>
          let used_keys := {[key]} ∪ used_keys in
          (let* new_child' :=
             match dict_get key old_keyed with
             | Some (old_idx, old_child) =>
                 (let* c := patch_fn parent old_child new_child new_idx in
                  (if decide (old_idx = new_idx) then ret tt
                   else move_node parent (el_of c) new_idx) ;;
                  ret c)%py
             | None =>
                 (let* c := mount parent new_child in
                  let* nodes := childNodes_of parent in
                  (if decide (new_idx < length nodes)
                   then move_node parent (el_of c) new_idx
                   else ret tt) ;;
                  ret c)%py
             end in
           let* r := keyed_pass parent old_keyed rest (S new_idx) used_keys in
           ret (new_child' :: fst r, snd r))%py
      end
  end.

Definition keyed_sweep (parent : option ref)
  (old_keyed : list (string * (nat * Child))) (used_keys : gset string)
  : M Doc unit :=
  (for_each (fun entry =>
               if decide (fst entry ∈ used_keys) then ret tt
               else remove_node parent (snd (snd entry)) 0) old_keyed ;;
   ret tt)%py.

Definition patch_keyed_children_with (parent : option ref)
  (old_children new_children : list Child) : M Doc (list Child) :=
  let old_keyed := build_keyed old_children 0 [] in
  (let* r := keyed_pass parent old_keyed new_children 0 ∅ in
   keyed_sweep parent old_keyed (snd r) ;;
   ret (fst r))%py.

End Children.

(** [patch(parent, old_vnode, new_vnode, index)]; [None] is an absent
    node on either side. The new node comes back with its [_el] slots. *)
Fixpoint patch (parent : option ref) (old_vnode new_vnode : Child)
  (index : nat) {struct new_vnode} : M Doc Child :=
  match new_vnode with
  | CNone =>
      match old_vnode with
      | CNone => ret CNone
      | _ => (remove_node parent old_vnode index ;; ret CNone)%py
      end
  | CText new_s =>
      match old_vnode with
      | CNone => mount parent new_vnode
      | CText old_s =>
          if String.eqb old_s new_s then ret new_vnode
          else
            (let* nodes := childNodes_of parent in
             match nodes !! index with
             | Some text_node => set_textContent text_node new_s
             | None => ret tt
             end ;;
             ret new_vnode)%py
      | CNode _ _ _ _ _ =>
          (remove_node parent old_vnode index ;; mount parent new_vnode)%py
      end
  | CNode new_tag new_props new_children new_key _ =>
      match old_vnode with
      | CNone => mount parent new_vnode
      | CText _ =>
          (remove_node parent old_vnode index ;; mount parent new_vnode)%py
      | CNode old_tag old_props old_children _ old_el =>
          if negb (String.eqb old_tag new_tag) then
            (remove_node parent old_vnode index ;; mount parent new_vnode)%py
          else
            let element := old_el in
            (patch_props repr_obj element old_props new_props ;;
             let* children' :=
               if has_keys new_children
               then patch_keyed_children_with patch element
                      old_children new_children
               else patch_children_with patch element
                      old_children new_children in
             ret (CNode new_tag new_props children' new_key old_el))%py
      end
  end.

End Raw.

End Raw.

(* ===================================================================== *)
(** * server/app.py                                                      *)
(* ===================================================================== *)

Module App.

Import State.

(** [from server.actions import _todos_db]: the name is bound, once, to
    the list object the store named when the module was imported. *)
Definition _todos_db : Actions.list_ref := Actions._todos_db Actions.initial_store.

Definition page_titles : list (string * string) :=
  [("/", "Pickle-Reactor Framework"); ("/about", "About - Pickle-Reactor");
   ("/todos", "Todos - Pickle-Reactor"); ("/dashboard", "Dashboard - Pickle-Reactor")].

(** ["/" + path if path else "/"] *)
Definition route_path (path : string) : string :=
  match path with
  | EmptyString => "/"
  | _ => "/" +:+ path
  end.

(** The three numbers of the dashboard:
    [len(todos)], [sum(1 for t in todos if t['done'])] and
    [sum(1 for t in todos if not t['done'])]. *)
Record Stats : Type := mkStats { total : nat; done : nat; active : nat }.

Definition dashboard_stats (todos : list Actions.Todo) : Stats :=
  mkStats (length todos)
          (list_sum (map (fun _ => 1) (List.filter Actions.todo_done todos)))
          (list_sum (map (fun _ => 1)
                         (List.filter (fun t => negb (Actions.todo_done t)) todos))).

(** What [route_handler] answers: the 404 body, or the four values the
    HTML shell is filled with. *)
Inductive Response : Type :=
| NotFound (path : string) (available_routes : list string)
| Page (page_title component_name initial_props_json content_html : string).

(** A call without side effects: what it returns, or raises. *)
Definition returned {S A} (r : result A) : M S A := fun w => (r, w).

Section Pages.

(** The four page components; how the dashboard numbers make the props
    mapping [{'data': {...}}]; and [json.dumps] on a props mapping. *)
Variables IndexPage AboutPage TodosPage DashboardPage : props_t -> Comp Raw.Child.
Variable stats_props : Stats -> props_t.
Variable json_dumps : props_t -> string.
Variable call0 : nat -> pyval.
Variable repr_obj : pyval -> string.

(** The routing registry, in the order of the dict. *)
Definition ROUTES : list (string * ((props_t -> Comp Raw.Child) * string)) :=
  [("/", (IndexPage, "IndexPage")); ("/about", (AboutPage, "AboutPage"));
   ("/todos", (TodosPage, "TodosPage")); ("/dashboard", (DashboardPage, "DashboardPage"))].

(** [route_handler(path)], with the store of server/actions.py as it is
    when the request comes in; [inst] is the object
    [ComponentInstance()] makes. *)
Definition route_handler (path : string) (st : Actions.Store) (inst : inst_ref)
  : M World Response :=
  let route_path := route_path path in
  match dict_get route_path ROUTES with
  | None => ret (NotFound route_path (map fst ROUTES))
  | Some (component, component_name) =>
      let initial_props :=
        if String.eqb route_path "/dashboard"
        then stats_props (dashboard_stats (Actions.todos_of st _todos_db))
        else [] in
      (modify (put_inst inst new_instance) ;;
       let* vnode := render_component call0 component initial_props inst in
       let* content_html := returned (Raw.render_to_string repr_obj vnode) in
       let page_title := default "Pickle-Reactor" (dict_get route_path page_titles) in
       let initial_props_json :=
         match initial_props with
         | [] => "{}"
         | _ => json_dumps initial_props
         end in
       ret (Page page_title component_name initial_props_json content_html))%py
  end.

End Pages.

End App.

(* ===================================================================== *)
(** * static/client_runtime.py: hydrate and rerender                     *)
(* ===================================================================== *)

Module Client.

Import State Dom Runtime.

(** The module-level names of the runtime; a tree that is not there is
    [None]. *)
Record Globals : Type := mkGlobals {
  _current_vdom : Raw.Child;
  _root_element : option ref;
  _root_instance : option inst_ref;
  _current_component : option (props_t -> Comp Raw.Child);
  _initial_props : props_t
}.


(** What the runtime works on in the browser: the world of
    shared/state.py, the document, and its own globals. *)
Record Browser : Type := mkBrowser {
  world : World;
  doc : Doc;
  globals : Globals
}.

Definition in_world {A} (m : M World A) : M Browser A := fun b =>
  let '(res, w) := m (world b) in (res, mkBrowser w (doc b) (globals b)).

Definition in_doc {A} (m : M Doc A) : M Browser A := fun b =>
  let '(res, d) := m (doc b) in (res, mkBrowser (world b) d (globals b)).

Definition set_globals (f : Globals -> Globals) : M Browser unit :=
  modify (fun b => mkBrowser (world b) (doc b) (f (globals b))).

Definition get_globals : M Browser Globals := fun b => (Ok (globals b), b).

(** [element.innerHTML = ""]: the children of the element leave the
    tree. The assignment is none of the calls the document records. *)
Definition clear_innerHTML (element : ref) : M Doc unit :=
  modify (update element (set_children [])).

Section Pages.

Variables IndexPage AboutPage TodosPage DashboardPage : props_t -> Comp Raw.Child.
Variable call0 : nat -> pyval.
Variable repr_obj : pyval -> string.

(** The identity of the closure [schedule_update] that [hydrate]
    makes. *)
Variable schedule_update_fn : callback.

(** The chain of comparisons of [hydrate] on the component name. *)
Definition page_component (page_component_name : string)
  : option (props_t -> Comp Raw.Child) :=
  if String.eqb page_component_name "IndexPage" then Some IndexPage
  else if String.eqb page_component_name "AboutPage" then Some AboutPage
  else if String.eqb page_component_name "TodosPage" then Some TodosPage
  else if String.eqb page_component_name "DashboardPage" then Some DashboardPage
  else None.

(** [rerender()] *)
Definition rerender : M Browser unit :=
  (let* g := get_globals in
   let component := default IndexPage (_current_component g) in
   let* new_vdom :=
     match _root_instance g with
     | Some instance =>
         in_world (render_component call0 component (_initial_props g) instance)
     | None =>
         (* render_component(component, props, None): the assignment
            [instance.hook_index = 0] fails *)
         (in_world (modify (set_current None)) ;;
          raise (AttributeError "hook_index"))%py
     end in
   let* patched :=
     in_doc (Raw.patch repr_obj (_root_element g) (_current_vdom g) new_vdom 0) in
   set_globals (fun g => mkGlobals patched (_root_element g) (_root_instance g)
                           (_current_component g) (_initial_props g)))%py.

(** [hydrate()]. What the browser hands over is given: [root] is
    [js.document.getElementById("root")], [page] and [props] are
    [window.__PAGE_COMPONENT__] and [window.__INITIAL_PROPS__] when the
    window has them; [inst] is the object [ComponentInstance()] makes. *)
Definition hydrate (root : option ref) (page : option string)
  (props : option props_t) (inst : inst_ref) : M Browser unit :=
  (set_globals (fun g => mkGlobals (_current_vdom g) root (_root_instance g)
                           (_current_component g) (_initial_props g)) ;;
   match root with
   | None => raise (RuntimeError "No root element found with id='root'")
   | Some root_element =>
       let page_component_name := default "IndexPage" page in
       let initial_props := default [] props in
       match page_component page_component_name with
       | None =>
           raise (RuntimeError ("Unknown page component: " +:+ page_component_name))
       | Some PageComponent =>
           set_globals (fun g => mkGlobals (_current_vdom g) (_root_element g)
                                   (_root_instance g) (Some PageComponent) initial_props) ;;
           in_world (modify (put_inst inst new_instance)) ;;
           set_globals (fun g => mkGlobals (_current_vdom g) (_root_element g)
                                   (Some inst) (_current_component g) (_initial_props g)) ;;
           let* new_vdom :=
             in_world (render_component call0 PageComponent initial_props inst) in
           in_doc (clear_innerHTML root_element) ;;
           let* mounted := in_doc (Raw.mount repr_obj (Some root_element) new_vdom) in
           set_globals (fun g => mkGlobals mounted (_root_element g)
                                   (_root_instance g) (_current_component g)
                                   (_initial_props g)) ;;
           in_world (modify (fun w =>
             put_inst inst (mkInstance (state (get_inst w inst))
                                       (hook_index (get_inst w inst))
                                       (Some schedule_update_fn)) w))
       end
   end)%py.

(** A setter called in the browser: [set_value] of shared/state.py,
    whose call of the instance's [schedule_update] runs [rerender] when
    the callback is the closure of [hydrate]. *)
Definition set_value (s : setter) (new : pyval) : M Browser unit :=
  (let* b := get in
   in_world (State.set_value s new) ;;
   match schedule_update (get_inst (world b) (set_inst s)) with
   | Some cb => if decide (cb = schedule_update_fn) then rerender else ret tt
   | None => ret tt
   end)%py.

End Pages.

End Client.
(* ===================================================================== *)
(** * Vocabulary of the properties of the server modules                  *)
(* ===================================================================== *)

Module ActionsSpec.

Import Actions.

(** The todos the endpoints work on: what the list bound to the global
    [_todos_db] holds. *)
Definition current (st : Store) : list Todo := todos_of st (_todos_db st).

Definition ids (st : Store) : list Z := map todo_id (current st).

(** What reaches the module: the four endpoints with the values of
    their requests, and the reset the tests call. *)
Inductive request : Type :=
| Post (text : string)
| Put (id : Z) (done : bool)
| Delete (id : Z)
| Get
| Reset.

Definition serve (r : request) (st : Store) : Store :=
  match r with
  | Post text =>
      match CreateTodoPayload text with
      | Some text => snd (create_todo text st)
      | None => st
      end
  | Put id done => snd (update_todo id done st)
  | Delete id => snd (delete_todo id st)
  | Get => snd (list_todos st)
  | Reset => _reset_database st
  end.

Definition serve_all (reqs : list request) (st : Store) : Store :=
  foldl (fun st r => serve r st) st reqs.

(** The store is in order: [_todos_db] names a list, the list holds
    dicts, no two of its todos share an id, and every id is below
    [_next_id]. *)
Definition store_ok (st : Store) : Prop :=
  _todos_db st < length (lists st) /\
  Forall (fun r => r < length (dicts st)) (list_at st (_todos_db st)) /\
  NoDup (ids st) /\
  Forall (fun id => (id < _next_id st)%Z) (ids st).

(** No stored text is empty. *)
Definition texts_ok (st : Store) : Prop :=
  Forall (fun t => todo_text t <> EmptyString) (current st).

(** The number of todos the requests create. *)
Definition created (reqs : list request) : nat :=
  length (List.filter (fun r => match r with
                                | Post (String _ _) => true
                                | _ => false
                                end) reqs).

(** The todo with its [done] flag set. *)
Definition with_done (done : bool) (t : Todo) : Todo :=
  mkTodo (todo_id t) (todo_text t) done.

(** Whether the request binds [_todos_db] to a new list. *)
Definition rebinds (r : request) : bool :=
  match r with Delete _ | Reset => true | _ => false end.

End ActionsSpec.

(* ===================================================================== *)
(** * Vocabulary of the further properties of the hook engine             *)
(* ===================================================================== *)

Module ReplaySpec.

Import State StateSpec.

(** A render as a function of the slots alone: the body is followed
    from hook index [idx], every [use_state] reading its slot, or
    creating it when it is the one just past the end. The outcome comes
    with the slots as the render leaves them. *)
Fixpoint follow {A} (call0 : nat -> pyval) (c : Comp A) (r : inst_ref)
  (slots : list pyval) (idx : nat) : result A * list pyval :=
  match c with
  | Return a => (Ok a, slots)
  | Throw e => (Raise e, slots)
  | UseState initial k =>
      let slots :=
        if decide (length slots <= idx)
        then (slots ++ [initial_value call0 initial])%list else slots in
      match slots !! idx with
      | Some v => follow call0 (k v (mkSetter r idx)) r slots (S idx)
      | None => (Raise IndexError, slots)
      end
  end.

End ReplaySpec.

(* ===================================================================== *)
(** * Vocabulary of the properties of the event listeners                 *)
(* ===================================================================== *)

Module ListenSpec.

Import Dom Runtime.

(** [d'] comes after [d]: the calls recorded in [d] are the first calls
    of [d'], the host nodes of [d] are still there, and each has the
    listeners it had, in front of those added since. *)
Definition extends (d d' : Doc) : Prop :=
  log d `prefix_of` log d' /\
  length (nodes d) <= length (nodes d') /\
  forall r n, nodes d !! r = Some n ->
    exists n', nodes d' !! r = Some n' /\ listeners n `prefix_of` listeners n'.

(** Whatever [m] does, and whether it returns or raises, the document
    it leaves comes after the document it found. *)
Definition grows {A} (m : M Doc A) : Prop := forall d, extends d (snd (m d)).

(** A button with one click handler, mounted as host 1 under the
    element 0. *)
Definition click_button (f : nat) (el : option nat) : VNodeChild :=
  VNode "button" [("on_click", PyFunc f)] [VText "+"] None el.

Definition button_doc : Doc :=
  mkDoc [mkHost (Some "div") EmptyString [] (PyStr EmptyString) [] [] [1];
         mkHost (Some "button") EmptyString [] (PyStr EmptyString) [] [("click", 7)] [2];
         new_text "+"] [].

End ListenSpec.

(* ===================================================================== *)
(** * Vocabulary for the trees with None children                         *)
(* ===================================================================== *)

Module RawSpec.

Import Dom Runtime Raw.

(** The computation [m], its value taken through [f]. *)
Definition lifted {A B} (f : A -> B) (m : M Doc A) : M Doc B :=
  (let* a := m in ret (f a))%py.


(** The tree is [None], or has a [None] child at some depth. *)
Definition has_none (c : Child) : Prop := lower c = None.

End RawSpec.

(* ===================================================================== *)
(** * Vocabulary of the further properties of the client runtime          *)
(* ===================================================================== *)

Module PatchSpec.

Import Dom Runtime RuntimeSpec.

(** A mapping as Python holds it: one entry per key. *)
Definition one_per_key {V} (d : list (string * V)) : bool :=
  bool_decide (NoDup (map fst d)).

Definition mapping_value (v : pyval) : bool :=
  match v with PyDict items => one_per_key items | _ => true end.

(** Every [props] of the tree, and every style mapping in it, is a
    mapping. *)
Fixpoint mappings (c : VNodeChild) : bool :=
  match c with
  | VText _ => true
  | VNode _ props children _ _ =>
      one_per_key props && forallb (fun kv => mapping_value (snd kv)) props &&
      forallb mappings children
  end.

(** Wherever [patch] reconciles the children of the tree by key, no two
    of them have the same key. *)
Fixpoint keys_distinct (c : VNodeChild) : bool :=
  match c with
  | VText _ => true
  | VNode _ _ children _ _ =>
      (if has_keys children then bool_decide (NoDup (keys_of children)) else true) &&
      forallb keys_distinct children
  end.

(** Wherever [patch] reconciles the children of the tree by key, every
    one of them has a key that is not empty. *)
Fixpoint keyed_whole (c : VNodeChild) : bool :=
  match c with
  | VText _ => true
  | VNode _ _ children _ _ =>
      (if has_keys children
       then forallb (fun c => match truthy_key c with Some _ => true | None => false end)
                    children
       else true) &&
      forallb keyed_whole children
  end.

(** No [VNode] of the tree has a key: the trees [h] and its helpers
    build. *)
Fixpoint keyless (c : VNodeChild) : bool :=
  match c with
  | VText _ => true
  | VNode _ _ children key _ =>
      match key with None => true | Some _ => false end && forallb keyless children
  end.

(** [silent Q m]: from any document, [m] returns a value that satisfies
    [Q] and leaves the document as it is, the log of calls included. *)
Definition silent {A} (Q : A -> Prop) (m : M Doc A) : Prop :=
  forall d, exists a, m d = (Ok a, d) /\ Q a.

(** [yields E Q m]: from any document, [m] returns a value that
    satisfies [Q], and the calls it adds to the log satisfy [E]. *)
Definition yields {A} (E : list call -> Prop) (Q : A -> Prop) (m : M Doc A) : Prop :=
  forall d, exists a d' evs,
    m d = (Ok a, d') /\ Q a /\ log d' = (log d ++ evs)%list /\ E evs.

(** The calls of [evs] all satisfy [allowed]. *)
Definition only (allowed : call -> bool) (evs : list call) : Prop :=
  forallb allowed evs = true.

(** How many calls of [evs] satisfy [f]. *)
Definition count (f : call -> bool) (evs : list call) : nat :=
  length (List.filter f evs).

(** The kinds of calls. *)
Definition is_createElement (c : call) : bool :=
  match c with CreateElement _ _ => true | _ => false end.

Definition is_createTextNode (c : call) : bool :=
  match c with CreateTextNode _ _ => true | _ => false end.

Definition is_appendChild (c : call) : bool :=
  match c with AppendChild _ _ => true | _ => false end.

Definition is_insertBefore (c : call) : bool :=
  match c with InsertBefore _ _ _ => true | _ => false end.

(** A call that sets something on one element: an attribute, the class,
    a style entry or a listener. *)
Definition sets_prop (c : call) : bool :=
  match c with
  | SetAttribute _ _ _ | SetClassName _ _ | SetStyle _ _ _ | AddEventListener _ _ _ => true
  | _ => false
  end.

(** A call that only adds to the document. *)
Definition additive (c : call) : bool :=
  is_createElement c || is_createTextNode c || is_appendChild c || sets_prop c.

(** The number of texts of the tree. *)
Fixpoint text_count (c : VNodeChild) : nat :=
  match c with
  | VText _ => 1
  | VNode _ _ children _ _ => list_sum (map text_count children)
  end.

(** The calls that build the tree [v]: additive calls only, one
    [createElement] for every [VNode], one [createTextNode] for every
    text, and one [appendChild] for each of them. *)
Definition builds (v : VNodeChild) (evs : list call) : Prop :=
  only additive evs /\
  count is_createElement evs = SsrSpec.vnode_count v /\
  count is_createTextNode evs = text_count v /\
  count is_appendChild evs = SsrSpec.vnode_count v + text_count v.

(** What [patch] hands back for a new node: the node in shape, with
    every host reference filled in. *)
Definition settled (new new' : VNodeChild) : Prop :=
  strip new = strip new' /\ mounted new' = true.

(** What [patch] hands back for an unchanged node: the node in shape,
    with the host of the old one, and the old tree itself when [whole]:
    when every keyed sibling list is keyed throughout. *)
Definition kept (whole : bool) (old new' : VNodeChild) : Prop :=
  strip new' = strip old /\ el_of new' = el_of old /\
  (whole = true -> new' = old).

(** [patch] is silent on the new child [n], against any old child of
    its shape. *)
Definition unchanged (repr_obj : pyval -> string) (n : VNodeChild) : Prop :=
  forall old parent idx, strip n = strip old ->
    silent (kept (keyed_whole n) old) (patch_present repr_obj parent old n idx).

(** [patch_fn] settles the new child [n]: against any mounted old child
    it returns [n] with all its hosts, and makes [allowed] calls only. *)
Definition settles (allowed : call -> bool)
  (patch_fn : option ref -> VNodeChild -> VNodeChild -> nat -> M Doc VNodeChild)
  (n : VNodeChild) : Prop :=
  forall old p idx, mounted old = true ->
    yields (only allowed) (settled n) (patch_fn (Some p) old n idx).

(** A mounted sample: a list with a class, a style and a handler, one
    keyed item and a text below it. *)
Definition sample_list : VNodeChild :=
  VNode "ul" [("class", PyStr "todos"); ("style", PyDict [("color", "red")]);
              ("on_click", PyFunc 4)]
    [VNode "li" [("id", PyStr "first")] [VText "one"] (Some "k1") (Some 2);
     VNode "li" [] [VText "two"] (Some "k2") (Some 4)]
    None (Some 1).

End PatchSpec.

(* ===================================================================== *)
(** * Vocabulary of the properties of [hydrate] and [rerender]            *)
(* ===================================================================== *)

Module ClientSpec.

Import State Dom Runtime RuntimeSpec PatchSpec ReplaySpec Raw RawSpec Client.

(** The body returns on every path, and what it returns satisfies
    [P]. *)
Inductive leaves {A} (P : A -> Prop) : Comp A -> Prop :=
| leaves_return a : P a -> leaves P (Return a)
| leaves_use_state initial k :
    (forall v s, leaves P (k v s)) -> leaves P (UseState initial k).

(** The tree holds no [None]: it is a [VNodeChild], and that one
    satisfies [P]. *)
Definition whole (P : VNodeChild -> Prop) (t : Child) : Prop :=
  exists v, t = lift v /\ P v.




(** The setters of the instance [inst] are called, one after the other,
    as event handlers do: each with a slot index and a new value. *)
Section Interact.

Variable IndexPage : props_t -> Comp Child.
Variable call0 : nat -> pyval.
Variable repr_obj : pyval -> string.
Variable cb : callback.


End Interact.


(** Samples: a counter page, a form page, and a page with a conditional
    child, which is [None] as long as its slot holds no message (the
    shape of static/pages_dashboard.py). *)
Definition CounterPage (props : props_t) : Comp Child :=
  UseState (PyInt 0) (fun count set_count =>
    Return (lift (button [("on_click", PyFunc 7)]
                    [VText (py_str (fun _ => "obj") count)]))).

Definition FormPage (props : props_t) : Comp Child :=
  UseState (PyStr "name") (fun name _ =>
  UseState (PyFunc 3) (fun items _ =>
    Return (lift (div [] [VText (py_str (fun _ => "obj") name)])))).

Definition StatusPage (props : props_t) : Comp Child :=
  UseState PyNone (fun error _ =>
    Return (CNode "div" []
              [CText "status";
               match error with
               | PyNone => CNone
               | _ => CNode "p" [] [CText (py_str (fun _ => "obj") error)] None None
               end] None None)).

End ClientSpec.

(* ===================================================================== *)
(** * Vocabulary of the properties of the document                        *)
(* ===================================================================== *)

Module DomSpec.

Import Dom Runtime RuntimeSpec.

(** What a host node is in the tree: its tag (none for a text node), its
    text and its children. *)
Definition shape_of (n : HostNode) : option string * string * list nat :=
  (nodeTag n, textData n, childNodes n).

Definition skeleton (d : Doc) : list (option string * string * list nat) :=
  map shape_of (nodes d).

(** Every reference in a [childNodes] list is a node of the document. *)
Definition closed (d : Doc) : Prop :=
  forall q sh r, skeleton d !! q = Some sh -> In r (snd sh) -> r < length (skeleton d).

(** [shows lo hi d v r]: in the document [d], the host node [r] and what
    hangs below it are the tree [v]: a text node with the text, or an
    element with the tag, referenced by the [VNode], whose children are
    the children of the [VNode], in order. All these host nodes have
    references from [lo] up to, not including, [hi]. *)
Fixpoint shows (lo hi : nat) (d : Doc) (v : VNodeChild) (r : nat) : Prop :=
  lo <= r < hi /\
  match v with
  | VText s => skeleton d !! r = Some (None, s, [])
  | VNode tag _ children _ el =>
      el = Some r /\
      match skeleton d !! r with
      | Some (Some t, _, rs) =>
          t = tag /\
          (fix all (cs : list VNodeChild) (rs : list nat) : Prop :=
             match cs, rs with
             | [], [] => True
             | c :: cs', r' :: rs' => shows lo hi d c r' /\ all cs' rs'
             | _, _ => False
             end) children rs
      | _ => False
      end
  end.

(** What [mount] of [v] under [p] makes of the document [d]: the
    document [d'] in which the new host nodes show the tree [v'], the
    first of them is the last child of [p], and every node that was
    there is as it was. *)
Definition mounted_under (p : nat) (d : Doc) (v' : VNodeChild) (d' : Doc) : Prop :=
  let first := length (skeleton d) in
  first < length (skeleton d') /\
  (forall q, q < first -> q <> p -> skeleton d' !! q = skeleton d !! q) /\
  (forall t x rs, skeleton d !! p = Some (t, x, rs) ->
                  skeleton d' !! p = Some (t, x, (rs ++ [first])%list)) /\
  (forall q sh r, first <= q -> skeleton d' !! q = Some sh -> In r (snd sh) ->
                  q < r < length (skeleton d')) /\
  shows first (length (skeleton d')) d' v' first.

End DomSpec.

(* ===================================================================== *)
(** * Strings                                                            *)
(* ===================================================================== *)

Module StrFacts.

Lemma app_nil_r (s : string) : s +:+ EmptyString = s.
Proof. induction s as [|a s IH]; simpl; [reflexivity | now rewrite IH]. Qed.

Lemma app_assoc (a b c : string) : (a +:+ b) +:+ c = a +:+ (b +:+ c).
Proof. induction a as [|x a IH]; simpl; [reflexivity | now rewrite IH]. Qed.

Lemma concat_str_app (l1 l2 : list string) :
  concat_str (l1 ++ l2)%list = concat_str l1 +:+ concat_str l2.
Proof.
  induction l1 as [|x l1 IH]; simpl; [reflexivity|].
  unfold concat_str in *. simpl. now rewrite IH, app_assoc.
Qed.

End StrFacts.

(* ===================================================================== *)
(** * html.escape: what it produces                                      *)
(* ===================================================================== *)

Module HtmlFacts.

Import Html StrFacts.

(** Case analysis on which of the five characters [a] is. *)
Ltac five_cases a :=
  destruct (Ascii.eqb_spec a "&") as [->|?];
  [|destruct (Ascii.eqb_spec a "<") as [->|?];
    [|destruct (Ascii.eqb_spec a ">") as [->|?];
      [|destruct (Ascii.eqb_spec a dquote) as [->|?];
        [|destruct (Ascii.eqb_spec a "'") as [->|?]]]]].

Lemma esc_char_other (a : ascii) :
  a <> "&"%char -> a <> "<"%char -> a <> ">"%char -> a <> dquote -> a <> "'"%char ->
  Ascii.eqb a "&" = false /\ Ascii.eqb a "<" = false /\ Ascii.eqb a ">" = false /\
  Ascii.eqb a dquote = false /\ Ascii.eqb a "'" = false.
Proof. intros; repeat split; now apply Ascii.eqb_neq. Qed.

(** The five replacements in a row are one pass, character by character. *)
Lemma esc_is_one_pass (s : string) : esc s = esc_pass s.
Proof.
  unfold esc. induction s as [|a s IH]; [reflexivity|].
  five_cases a; try (simpl; now rewrite IH).
  destruct (esc_char_other a) as (E1 & E2 & E3 & E4 & E5); try assumption.
  unfold esc_pass; fold esc_pass. unfold esc_char.
  rewrite E1, E2, E3, E4, E5. rewrite <- IH.
  simpl. rewrite E1. simpl. rewrite E2. simpl. rewrite E3. simpl. rewrite E4.
  simpl. now rewrite E5.
Qed.

Lemma esc_cons (a : ascii) (s : string) : esc (String a s) = esc_char a +:+ esc s.
Proof. now rewrite !esc_is_one_pass. Qed.

Lemma esc_nil : esc EmptyString = EmptyString.
Proof. reflexivity. Qed.

Lemma escaped_esc (s : string) : escaped (esc s) = true.
Proof.
  induction s as [|a s IH]; [reflexivity|].
  rewrite esc_cons. five_cases a; try (simpl; exact IH).
  destruct (esc_char_other a) as (E1 & E2 & E3 & E4 & E5); try assumption.
  unfold esc_char. rewrite E1, E2, E3, E4, E5. simpl.
  unfold special. now rewrite E1, E2, E3, E4, E5, IH.
Qed.

Lemma startswith_cons_ne (a b : ascii) (p s : string) :
  a <> b -> startswith (String a p) (String b s) = false.
Proof.
  intros Hne. cbn [startswith]. now rewrite (proj2 (Ascii.eqb_neq a b) Hne).
Qed.

(** Reading the references back gives the text that was escaped. *)
Lemma unescape_esc (s : string) : unescape (esc s) = s.
Proof.
  unfold unescape. induction s as [|a s IH]; [reflexivity|].
  rewrite esc_cons. five_cases a; try (simpl; now rewrite IH).
  destruct (esc_char_other a) as (E1 & E2 & E3 & E4 & E5); try assumption.
  unfold esc_char. rewrite E1, E2, E3, E4, E5.
  cbn [String.append unescape_from].
  rewrite !startswith_cons_ne by congruence. now rewrite IH.
Qed.

End HtmlFacts.

(* ===================================================================== *)
(** * render_to_string                                                   *)
(* ===================================================================== *)

Module SsrFacts.

Import Html Ssr SsrSpec StrFacts HtmlFacts.

Lemma occurs_in_refl (x : string) : occurs_in x x.
Proof. exists EmptyString, EmptyString. simpl. now rewrite app_nil_r. Qed.

Lemma occurs_in_app_l (x s t : string) : occurs_in x s -> occurs_in x (s +:+ t).
Proof.
  intros (pre & post & ->). exists pre, (post +:+ t).
  now rewrite !app_assoc.
Qed.

Lemma occurs_in_app_r (x s t : string) : occurs_in x t -> occurs_in x (s +:+ t).
Proof.
  intros (pre & post & ->). exists (s +:+ pre), post.
  now rewrite !app_assoc.
Qed.

Lemma occurs_in_cons (x : string) (a : ascii) (t : string) :
  occurs_in x t -> occurs_in x (String a t).
Proof. intros H. now apply (occurs_in_app_r x (String a EmptyString) t). Qed.

Lemma occurs_in_concat (x s : string) (l : list string) :
  In s l -> occurs_in x s -> occurs_in x (concat_str l).
Proof.
  induction l as [|y l IH]; intros Hin Hx; [destruct Hin|].
  change (concat_str (y :: l)) with (y +:+ concat_str l).
  destruct Hin as [->|Hin].
  - now apply occurs_in_app_l.
  - apply occurs_in_app_r. now apply IH.
Qed.

Lemma occurs_in_join (x s sep : string) (l : list string) :
  In s l -> occurs_in x s -> occurs_in x (join sep l).
Proof.
  induction l as [|y l IH]; intros Hin Hx; [destruct Hin|].
  destruct l as [|z l].
  - destruct Hin as [->|[]]. exact Hx.
  - change (join sep (y :: z :: l)) with (y +:+ sep +:+ join sep (z :: l)).
    destruct Hin as [->|Hin].
    + now apply occurs_in_app_l.
    + apply occurs_in_app_r, occurs_in_app_r. now apply IH.
Qed.

Lemma list_sum_cons (x : nat) (l : list nat) : list_sum (x :: l) = x + list_sum l.
Proof. reflexivity. Qed.

Lemma count_char_app (c : ascii) (s t : string) :
  count_char c (s +:+ t) = count_char c s + count_char c t.
Proof. induction s as [|a s IH]; simpl; [reflexivity | rewrite IH; lia]. Qed.

Lemma count_char_concat (c : ascii) (l : list string) :
  count_char c (concat_str l) = list_sum (map (count_char c) l).
Proof.
  induction l as [|y l IH]; [reflexivity|].
  change (concat_str (y :: l)) with (y +:+ concat_str l).
  rewrite count_char_app, IH. reflexivity.
Qed.

(** A special character does not survive [esc]. *)
Lemma count_char_esc (c : ascii) (s : string) :
  special c = true -> count_char c (esc s) = 0.
Proof.
  intros Hc. induction s as [|a s IH]; [reflexivity|].
  rewrite esc_cons, count_char_app, IH, Nat.add_0_r.
  unfold special in Hc.
  assert (Hcase : c = "<"%char \/ c = ">"%char \/ c = dquote \/ c = "'"%char).
  { destruct (Ascii.eqb_spec c "<"); [tauto|].
    destruct (Ascii.eqb_spec c ">"); [tauto|].
    destruct (Ascii.eqb_spec c dquote); [tauto|].
    destruct (Ascii.eqb_spec c "'"); [tauto|]. discriminate. }
  five_cases a; try (destruct Hcase as [ -> | [ -> | [ -> | -> ] ] ]; reflexivity).
  destruct (esc_char_other a) as (E1 & E2 & E3 & E4 & E5); try assumption.
  unfold esc_char. rewrite E1, E2, E3, E4, E5.
  cbn [count_char]. destruct Hcase as [ -> | [ -> | [ -> | -> ] ] ];
    rewrite ?E2, ?E3, ?E4, ?E5; reflexivity.
Qed.

Lemma count_char_plain (c : ascii) (s : string) :
  special c = true -> plain s = true -> count_char c s = 0.
Proof.
  intros Hc. induction s as [|a s IH]; [reflexivity|].
  cbn [plain count_char]. intros H.
  apply andb_prop in H as [H Hs]. apply andb_prop in H as [Ha _].
  rewrite (IH Hs). destruct (Ascii.eqb_spec a c) as [->|]; [|reflexivity].
  rewrite Hc in Ha. discriminate.
Qed.

Section Render.

Variable repr_obj : pyval -> string.

Local Abbreviation render := (render_to_string repr_obj).

Lemma render_node (tag : string) (props : list (string * pyval))
  (children : list VNodeChild) (key : option string) (el : option ref) :
  render (VNode tag props children key el) =
  "<" +:+ tag +:+ render_attrs repr_obj props +:+ ">" +:+
  concat_str (map render children) +:+ "</" +:+ tag +:+ ">".
Proof. reflexivity. Qed.

(** A text at any depth is in the output as [esc] made it. *)
Lemma text_in_occurs (node : VNodeChild) (t : string) :
  text_in t node -> occurs_in (esc t) (render node).
Proof.
  induction 1 as [|tag props children key el c Hin _ IH].
  - apply occurs_in_refl.
  - rewrite render_node.
    do 4 apply occurs_in_app_r. apply occurs_in_app_l.
    apply (occurs_in_concat _ (render c)); [|exact IH].
    now apply in_map.
Qed.

Lemma render_attr_value (k : string) (v : pyval) :
  has_value (k, v) = true ->
  render_attr repr_obj (k, v) = [k +:+ "=" +:+ quoted (esc (py_str repr_obj v))].
Proof.
  unfold has_value, render_attr. cbn [fst snd]. intros H.
  apply andb_prop in H as [Hk Hv]. apply negb_true_iff in Hk. rewrite Hk.
  destruct v as [|[|]| | | |]; try discriminate; reflexivity.
Qed.

Lemma attr_part_occurs (props : list (string * pyval)) (k : string) (v : pyval) :
  In (k, v) props -> has_value (k, v) = true ->
  occurs_in (k +:+ "=" +:+ quoted (esc (py_str repr_obj v))) (render_attrs repr_obj props).
Proof.
  intros Hin Hv. unfold render_attrs.
  assert (Hpart : In (k +:+ "=" +:+ quoted (esc (py_str repr_obj v)))
                     (attr_parts repr_obj props)).
  { unfold attr_parts. apply in_flat_map. exists (k, v). split; [exact Hin|].
    rewrite (render_attr_value k v Hv). now left. }
  destruct (attr_parts repr_obj props) as [|part parts] eqn:E; [destruct Hpart|].
  apply occurs_in_app_r. eapply occurs_in_join; [exact Hpart|apply occurs_in_refl].
Qed.

(** An attribute written with a value is in the output as
    [name="escaped value"]. *)
Lemma attr_in_occurs (node : VNodeChild) (k : string) (v : pyval) :
  attr_in k v node -> has_value (k, v) = true ->
  occurs_in (k +:+ "=" +:+ quoted (esc (py_str repr_obj v))) (render node).
Proof.
  induction 1 as [tag props children key el Hin
                 |tag props children key el c Hin _ IH]; intros Hv.
  - rewrite render_node. do 2 apply occurs_in_app_r. apply occurs_in_app_l.
    now apply attr_part_occurs.
  - rewrite render_node.
    do 4 apply occurs_in_app_r. apply occurs_in_app_l.
    apply (occurs_in_concat _ (render c)); [now apply in_map | now apply IH].
Qed.

Lemma special_cases (c : ascii) :
  special c = true ->
  c = "<"%char \/ c = ">"%char \/ c = dquote \/ c = "'"%char.
Proof.
  unfold special. intros Hc.
  destruct (Ascii.eqb_spec c "<"); [tauto|].
  destruct (Ascii.eqb_spec c ">"); [tauto|].
  destruct (Ascii.eqb_spec c dquote); [tauto|].
  destruct (Ascii.eqb_spec c "'"); [tauto|]. discriminate.
Qed.

Lemma count_char_join (c : ascii) (l : list string) :
  special c = true ->
  count_char c (join " " l) = list_sum (map (count_char c) l).
Proof.
  intros Hc. induction l as [|y l IH]; [reflexivity|].
  destruct l as [|z l]; [simpl; lia|].
  change (join " " (y :: z :: l)) with (y +:+ " " +:+ join " " (z :: l)).
  rewrite !count_char_app, IH.
  assert (count_char c " " = 0) as ->
    by (destruct (special_cases c Hc) as [ -> | [ -> | [ -> | -> ] ] ]; reflexivity).
  reflexivity.
Qed.

Lemma count_char_attr (c : ascii) (kv : string * pyval) :
  special c = true -> (dropped kv || plain (fst kv)) = true ->
  list_sum (map (count_char c) (render_attr repr_obj kv)) =
  if has_value kv then 2 * hit dquote c else 0.
Proof.
  intros Hc Hkv. destruct kv as [k v]. unfold dropped, has_value in *.
  unfold render_attr. cbn [fst snd] in *.
  destruct (startswith "on_" k); [reflexivity|]. cbn [negb andb orb] in *.
  destruct v as [|[|]| | | |]; try reflexivity;
    unfold list_sum; cbn [map fold_right]; rewrite ?Nat.add_0_r;
    try (now apply count_char_plain);
    unfold quoted;
    change (String dquote ?s) with (String dquote EmptyString +:+ s);
    rewrite !count_char_app, (count_char_plain c k Hc Hkv), (count_char_esc c _ Hc);
    destruct (special_cases c Hc) as [ -> | [ -> | [ -> | -> ] ] ]; reflexivity.
Qed.

Lemma count_char_attrs (c : ascii) (props : list (string * pyval)) :
  special c = true ->
  forallb (fun kv => dropped kv || plain (fst kv)) props = true ->
  count_char c (render_attrs repr_obj props) =
  2 * hit dquote c * length (filter (fun kv => has_value kv = true) props).
Proof.
  intros Hc Hall. unfold render_attrs.
  assert (Hsum : list_sum (map (count_char c) (attr_parts repr_obj props)) =
                 2 * hit dquote c * length (filter (fun kv => has_value kv = true) props)).
  { unfold attr_parts. induction props as [|kv props IH]; [simpl; lia|].
    cbn [forallb] in Hall. apply andb_prop in Hall as [Hkv Hall].
    cbn [flat_map]. rewrite map_app, list_sum_app, (count_char_attr c kv Hc Hkv), (IH Hall).
    rewrite filter_cons. destruct (has_value kv) eqn:E.
    - rewrite decide_True by reflexivity. cbn [length]. lia.
    - rewrite decide_False by discriminate. lia. }
  destruct (attr_parts repr_obj props) as [|part parts] eqn:E.
  - rewrite <- Hsum. reflexivity.
  - rewrite count_char_app, (count_char_join c _ Hc), Hsum.
    assert (count_char c " " = 0) as ->
      by (destruct (special_cases c Hc) as [ -> | [ -> | [ -> | -> ] ] ]; reflexivity).
    reflexivity.
Qed.

(** Every special character of the output belongs to the markup: two
    angle brackets of each kind per [VNode], two double quotes per
    attribute written with a value. *)
Lemma count_char_render (c : ascii) (node : VNodeChild) :
  special c = true -> plain_names node = true ->
  count_char c (render node) =
  (hit "<" c + hit ">" c) * (2 * vnode_count node)
  + hit dquote c * (2 * value_count node).
Proof.
  intros Hc. induction node as [s|tag props children key el IH] using VNodeChild_ind; intros Hplain.
  - cbn [render_to_string vnode_count value_count].
    rewrite (count_char_esc c s Hc). lia.
  - rewrite render_node. cbn [plain_names] in Hplain.
    apply andb_prop in Hplain as [Hplain Hkids].
    apply andb_prop in Hplain as [Htag Hprops].
    rewrite !count_char_app, (count_char_plain c tag Hc Htag),
      (count_char_attrs c props Hc Hprops), count_char_concat.
    assert (Hkids' : list_sum (map (count_char c) (map render children)) =
              (hit "<" c + hit ">" c) * (2 * list_sum (map vnode_count children))
              + hit dquote c * (2 * list_sum (map value_count children))).
    { induction children as [|ch children IHc]; [simpl; lia|].
      cbn [forallb] in Hkids. apply andb_prop in Hkids as [Hch Hkids].
      inversion IH as [|? ? IH1 IH2]; subst.
      cbn [map]. rewrite !list_sum_cons, (IH1 Hch), (IHc IH2 Hkids). lia. }
    rewrite Hkids'. cbn [vnode_count value_count].
    destruct (special_cases c Hc) as [ -> | [ -> | [ -> | -> ] ] ];
      cbv [count_char hit Ascii.eqb Bool.eqb dquote]; lia.
Qed.

(** What an attribute adds to the opening tag, by the three kinds the
    specification names. *)
Lemma render_attr_by_kind (kv : string * pyval) :
  render_attr repr_obj kv =
  if dropped kv then []
  else if bare kv then [fst kv]
  else [fst kv +:+ "=" +:+ quoted (esc (py_str repr_obj (snd kv)))].
Proof.
  destruct kv as [k v]. unfold render_attr, dropped, bare. cbn [fst snd].
  destruct (startswith "on_" k); [reflexivity|].
  destruct v as [|[|]| | | |]; reflexivity.
Qed.

Lemma attr_parts_app (l1 l2 : list (string * pyval)) :
  attr_parts repr_obj (l1 ++ l2) = (attr_parts repr_obj l1 ++ attr_parts repr_obj l2)%list.
Proof. unfold attr_parts. now rewrite flat_map_app. Qed.

(** Attributes that leave no trace can be taken out of the mapping
    without changing the parts. *)
Lemma attr_parts_filter (props : list (string * pyval)) :
  attr_parts repr_obj (filter (fun kv => dropped kv = false) props) =
  attr_parts repr_obj props.
Proof.
  unfold attr_parts. induction props as [|kv props IH]; [reflexivity|].
  rewrite filter_cons. cbn [flat_map]. rewrite <- IH.
  destruct (dropped kv) eqn:E.
  - rewrite decide_False by discriminate.
    rewrite (render_attr_by_kind kv), E. reflexivity.
  - rewrite decide_True by reflexivity. reflexivity.
Qed.

Lemma attr_parts_all_dropped (props : list (string * pyval)) :
  forallb dropped props = true -> attr_parts repr_obj props = [].
Proof.
  unfold attr_parts. induction props as [|kv props IH]; [reflexivity|].
  cbn [forallb flat_map]. intros H. apply andb_prop in H as [Hkv H].
  now rewrite (render_attr_by_kind kv), Hkv, (IH H).
Qed.

End Render.

(** C1. [render_to_string] escapes: a text input comes back as
    [html.escape] makes it; what [html.escape] makes holds none of the
    characters [<], [>], double quote, ['], holds [&] only at the start of
    a character reference, and reads back as the text; every text child,
    at any depth, and every attribute value that is written are in the
    output in that escaped form; and in the output of a tree whose tag
    and attribute names are plain, every [<], [>] and double quote is one
    the markup itself needs and there is no ['] at all. *)
Theorem render_to_string_escapes (repr_obj : pyval -> string) :
  (forall s, render_to_string repr_obj (VText s) = esc s) /\
  (forall s, escaped (esc s) = true /\ unescape (esc s) = s) /\
  (forall node t,
      text_in t node -> occurs_in (esc t) (render_to_string repr_obj node)) /\
  (forall node k v,
      attr_in k v node -> has_value (k, v) = true ->
      occurs_in (k +:+ "=" +:+ quoted (esc (py_str repr_obj v)))
                (render_to_string repr_obj node)) /\
  (forall node,
      plain_names node = true ->
      count_char "<" (render_to_string repr_obj node) = 2 * vnode_count node /\
      count_char ">" (render_to_string repr_obj node) = 2 * vnode_count node /\
      count_char dquote (render_to_string repr_obj node) = 2 * value_count node /\
      count_char "'" (render_to_string repr_obj node) = 0).
Proof.
  split; [reflexivity|].
  split; [intros s; split; [apply escaped_esc | apply unescape_esc]|].
  split; [intros node t; apply text_in_occurs|].
  split; [intros node k v; apply attr_in_occurs|].
  intros node Hplain.
  rewrite !(count_char_render repr_obj _ node) by (reflexivity || exact Hplain).
  cbv [hit Ascii.eqb Bool.eqb dquote]. lia.
Qed.

Section Words.

Variable repr_obj : pyval -> string.

(** [" " + " ".join(parts)], or nothing when there are no parts, is
    every part behind a space. *)
Lemma join_words (parts : list string) :
  match parts with
  | [] => EmptyString
  | part :: rest => " " +:+ join " " (part :: rest)
  end = concat_str (map (fun part => " " +:+ part) parts).
Proof.
  destruct parts as [|part parts]; [reflexivity|].
  revert part. induction parts as [|q parts IH]; intros part.
  - cbn. now rewrite StrFacts.app_nil_r.
  - specialize (IH q). cbn [join map] in *.
    unfold concat_str in *. cbn [foldr] in *. rewrite <- IH.
    cbn. reflexivity.
Qed.

Lemma attr_words_app (l1 l2 : list (string * pyval)) :
  attr_words repr_obj (l1 ++ l2) = attr_words repr_obj l1 +:+ attr_words repr_obj l2.
Proof.
  unfold attr_words. now rewrite filter_app, map_app, StrFacts.concat_str_app.
Qed.

(** The attribute string of the source is the words of the attributes
    that are written. *)
Lemma render_attrs_words (props : list (string * pyval)) :
  render_attrs repr_obj props = attr_words repr_obj props.
Proof.
  unfold render_attrs. rewrite join_words. unfold attr_words, attr_parts. f_equal.
  induction props as [|kv props IH]; [reflexivity|].
  rewrite filter_cons. cbn [flat_map]. rewrite map_app, IH, (render_attr_by_kind repr_obj).
  destruct (dropped kv) eqn:E.
  - rewrite decide_False by discriminate. reflexivity.
  - rewrite decide_True by reflexivity. cbn [map].
    destruct (bare kv) eqn:Hbare; cbn [map app]; unfold attr_word;
      rewrite Hbare; reflexivity.
Qed.

End Words.

(** C9. In the markup of a [VNode], an attribute whose value is [True]
    is its bare name; an attribute that is [False] or [None], and an
    attribute whose name starts with [on_] whatever its value, adds
    nothing. On the parts the source collects: a [True] attribute adds
    its name, a dropped one adds nothing. On the output: the opening tag
    is [<], the tag, one word for every attribute that is not dropped,
    in order, and [>], a word being a space and then the bare name or
    [name="escaped value"]; so a [True] attribute is in the markup as a
    space and its name, between the words of the attributes before it
    and those after it, and a dropped attribute leaves nothing, not even
    a space, between them: the output is the output of the node without
    it. *)
Theorem render_to_string_attributes (repr_obj : pyval -> string)
  (tag : string) (props : list (string * pyval)) (children : list VNodeChild)
  (key : option string) (el : option ref) :
  attr_parts repr_obj props =
    flat_map (fun kv =>
                if dropped kv then []
                else if bare kv then [fst kv]
                else [fst kv +:+ "=" +:+ quoted (esc (py_str repr_obj (snd kv)))])
             props /\
  render_to_string repr_obj (VNode tag props children key el) =
    render_to_string repr_obj
      (VNode tag (filter (fun kv => dropped kv = false) props) children key el) /\
  (forall pre k post,
      props = (pre ++ (k, PyBool true) :: post)%list -> startswith "on_" k = false ->
      attr_parts repr_obj props =
        (attr_parts repr_obj pre ++ k :: attr_parts repr_obj post)%list) /\
  (forall pre k v post,
      props = (pre ++ (k, v) :: post)%list ->
      startswith "on_" k = true \/ v = PyBool false \/ v = PyNone ->
      attr_parts repr_obj props =
        (attr_parts repr_obj pre ++ attr_parts repr_obj post)%list) /\
  (forallb dropped props = true ->
   render_to_string repr_obj (VNode tag props children key el) =
     "<" +:+ tag +:+ ">" +:+
     concat_str (map (render_to_string repr_obj) children) +:+ "</" +:+ tag +:+ ">") /\
  render_to_string repr_obj (VNode tag props children key el) =
    "<" +:+ tag +:+ attr_words repr_obj props +:+ ">" +:+
    concat_str (map (render_to_string repr_obj) children) +:+ "</" +:+ tag +:+ ">" /\
  (forall pre k post,
      props = (pre ++ (k, PyBool true) :: post)%list -> startswith "on_" k = false ->
      render_to_string repr_obj (VNode tag props children key el) =
        "<" +:+ tag +:+ attr_words repr_obj pre +:+ " " +:+ k +:+
        attr_words repr_obj post +:+ ">" +:+
        concat_str (map (render_to_string repr_obj) children) +:+ "</" +:+ tag +:+ ">") /\
  (forall pre k v post,
      props = (pre ++ (k, v) :: post)%list ->
      startswith "on_" k = true \/ v = PyBool false \/ v = PyNone ->
      render_to_string repr_obj (VNode tag props children key el) =
        "<" +:+ tag +:+ attr_words repr_obj pre +:+ attr_words repr_obj post +:+ ">" +:+
        concat_str (map (render_to_string repr_obj) children) +:+ "</" +:+ tag +:+ ">").
Proof.
  split.
  { unfold attr_parts. induction props as [|kv props IH]; [reflexivity|].
    cbn [flat_map]. now rewrite IH, render_attr_by_kind. }
  split.
  { rewrite !render_node. unfold render_attrs. now rewrite attr_parts_filter. }
  split.
  { intros pre k post -> Hk. rewrite attr_parts_app. f_equal.
    unfold attr_parts. cbn [flat_map]. unfold render_attr. now rewrite Hk. }
  split.
  { intros pre k v post -> Hkv. rewrite attr_parts_app. f_equal.
    unfold attr_parts. cbn [flat_map].
    assert (render_attr repr_obj (k, v) = []) as ->; [|reflexivity].
    unfold render_attr. destruct (startswith "on_" k); [reflexivity|].
    destruct Hkv as [Hk|[->| ->]]; [discriminate|reflexivity|reflexivity]. }
  split.
  { intros Hall. rewrite render_node. unfold render_attrs.
    now rewrite (attr_parts_all_dropped repr_obj props Hall). }
  split.
  { rewrite render_node, render_attrs_words. reflexivity. }
  split.
  { intros pre k post -> Hk. rewrite render_node, render_attrs_words.
    rewrite (attr_words_app repr_obj pre ((k, PyBool true) :: post)).
    change ((k, PyBool true) :: post) with ([(k, PyBool true)] ++ post)%list.
    rewrite (attr_words_app repr_obj [(k, PyBool true)] post).
    assert (Hword : attr_words repr_obj [(k, PyBool true)] = " " +:+ k).
    { unfold attr_words. rewrite filter_cons, decide_True.
      - cbn [filter map concat_str foldr]. unfold attr_word, bare. cbn [fst snd].
        rewrite Hk. cbn. now rewrite StrFacts.app_nil_r.
      - unfold dropped. cbn [fst snd]. now rewrite Hk. }
    rewrite Hword, !StrFacts.app_assoc. reflexivity. }
  intros pre k v post -> Hkv. rewrite render_node, render_attrs_words.
  rewrite (attr_words_app repr_obj pre ((k, v) :: post)).
  change ((k, v) :: post) with ([(k, v)] ++ post)%list.
  rewrite (attr_words_app repr_obj [(k, v)] post).
  assert (Hword : attr_words repr_obj [(k, v)] = EmptyString).
  { unfold attr_words. rewrite filter_cons, decide_False; [reflexivity|].
    unfold dropped. cbn [fst snd].
    destruct Hkv as [Hk|[->| ->]];
      [rewrite Hk|rewrite orb_true_r|rewrite orb_true_r]; discriminate. }
  rewrite Hword, !StrFacts.app_assoc. reflexivity.
Qed.

(** The first scenario of the specification. *)
Example hello_scenario :
  render_to_string sample_repr (div [("class", PyStr "x")] [VText "Hello"])
  = "<div class=" +:+ quoted "x" +:+ ">Hello</div>".
Proof. reflexivity. Qed.

Lemma render_to_string_escapes_witness :
  occurs_in (esc "a & b") (render_to_string sample_repr sample_node) /\
  occurs_in ("title" +:+ "=" +:+ quoted (esc "'><b>"))
            (render_to_string sample_repr sample_node) /\
  count_char "<" (render_to_string sample_repr sample_node) = 4 /\
  count_char "'" (render_to_string sample_repr sample_node) = 0.
Proof.
  destruct (render_to_string_escapes sample_repr) as (_ & _ & Ht & Ha & Hc).
  split; [|split].
  - apply Ht. eapply text_below; [right; left; reflexivity|].
    eapply text_below; [left; reflexivity|]. constructor.
  - apply (Ha sample_node "title" (PyStr "'><b>")); [|reflexivity].
    constructor. left. reflexivity.
  - destruct (Hc sample_node eq_refl) as (H1 & _ & _ & H4). split; assumption.
Defined.

Lemma render_to_string_attributes_witness :
  attr_parts sample_repr
    [("id", PyStr "x"); ("disabled", PyBool true); ("on_click", PyFunc 1)] =
  ["id=" +:+ quoted "x"; "disabled"] /\
  render_to_string sample_repr
    (VNode "input" [("id", PyStr "x"); ("disabled", PyBool true); ("on_click", PyFunc 1)]
       [] None None) = "<input id=" +:+ quoted "x" +:+ " disabled></input>" /\
  render_to_string sample_repr
    (VNode "input" [("id", PyStr "x"); ("on_click", PyBool true); ("value", PyNone)]
       [] None None) = "<input id=" +:+ quoted "x" +:+ "></input>" /\
  render_to_string sample_repr
    (VNode "input" [("on_input", PyBool true); ("checked", PyBool false);
                    ("value", PyNone)] [] None None) = "<input></input>".
Proof.
  split; [|split; [|split]].
  - destruct (render_to_string_attributes sample_repr "input"
                [("id", PyStr "x"); ("disabled", PyBool true); ("on_click", PyFunc 1)]
                [] None None) as (_ & _ & Hbare & _).
    rewrite (Hbare [("id", PyStr "x")] "disabled" [("on_click", PyFunc 1)]
               eq_refl eq_refl).
    rewrite (proj1 (proj2 (proj2 (proj2
               (render_to_string_attributes sample_repr "input"
                  [("on_click", PyFunc 1)] [] None None))))
               [] "on_click" (PyFunc 1) [] eq_refl (or_introl eq_refl)).
    reflexivity.
  - destruct (render_to_string_attributes sample_repr "input"
                [("id", PyStr "x"); ("disabled", PyBool true); ("on_click", PyFunc 1)]
                [] None None) as (_ & _ & _ & _ & _ & _ & Hbare & _).
    rewrite (Hbare [("id", PyStr "x")] "disabled" [("on_click", PyFunc 1)]
               eq_refl eq_refl).
    reflexivity.
  - destruct (render_to_string_attributes sample_repr "input"
                [("id", PyStr "x"); ("on_click", PyBool true); ("value", PyNone)]
                [] None None) as (_ & _ & _ & _ & _ & _ & _ & Hdrop).
    rewrite (Hdrop [("id", PyStr "x")] "on_click" (PyBool true) [("value", PyNone)]
               eq_refl (or_introl eq_refl)).
    reflexivity.
  - destruct (render_to_string_attributes sample_repr "input"
                [("on_input", PyBool true); ("checked", PyBool false);
                 ("value", PyNone)] [] None None) as (_ & _ & _ & _ & Hall & _).
    exact (Hall eq_refl).
Defined.

End SsrFacts.

(* ===================================================================== *)
(** * The hook engine                                                    *)
(* ===================================================================== *)

Module StateFacts.

Import State StateSpec.

Lemma get_put_same (r : inst_ref) (i : ComponentInstance) (w : World) :
  get_inst (put_inst r i w) r = i.
Proof. unfold get_inst, put_inst. cbn. now rewrite lookup_insert_eq. Qed.

Lemma get_put_other (r r' : inst_ref) (i : ComponentInstance) (w : World) :
  r <> r' -> get_inst (put_inst r i w) r' = get_inst w r'.
Proof. intros H. unfold get_inst, put_inst. cbn. now rewrite lookup_insert_ne. Qed.

Lemma get_record (e : event) (w : World) (r : inst_ref) :
  get_inst (record e w) r = get_inst w r.
Proof. reflexivity. Qed.

Lemma get_set_current (c : option inst_ref) (w : World) (r : inst_ref) :
  get_inst (set_current c w) r = get_inst w r.
Proof. reflexivity. Qed.

Section Hooks.

Variable call0 : nat -> pyval.

Local Abbreviation initial_value := (StateSpec.initial_value call0).

Lemma eval_initial_spec (initial : pyval) (w : World) :
  eval_initial call0 initial w =
  (Ok (initial_value initial),
   mkWorld (instances w) (_current_instance w) (calls w ++ initial_calls initial)).
Proof.
  destruct w as [insts cur cs].
  destruct initial; cbn; rewrite ?app_nil_r; reflexivity.
Qed.

(** [use_state] on a slot that exists: the value is read, the index
    moves on, nothing else changes. *)
Lemma use_state_existing (initial : pyval) (w : World) (r : inst_ref) (v : pyval) :
  _current_instance w = Some r ->
  state (get_inst w r) !! hook_index (get_inst w r) = Some v ->
  use_state call0 initial w =
  (Ok (v, mkSetter r (hook_index (get_inst w r))),
   put_inst r (mkInstance (state (get_inst w r)) (hook_index (get_inst w r) + 1)
                 (schedule_update (get_inst w r))) w).
Proof.
  intros Hcur Hv. unfold use_state. rewrite Hcur.
  rewrite decide_False by (apply lookup_lt_Some in Hv; lia).
  now rewrite Hv.
Qed.

(** [use_state] on the slot just past the end: the initial value is
    computed, stored and returned. *)
Lemma use_state_fresh (initial : pyval) (w : World) (r : inst_ref) :
  _current_instance w = Some r ->
  hook_index (get_inst w r) = length (state (get_inst w r)) ->
  use_state call0 initial w =
  (Ok (initial_value initial, mkSetter r (hook_index (get_inst w r))),
   put_inst r (mkInstance (state (get_inst w r) ++ [initial_value initial])
                 (hook_index (get_inst w r) + 1)
                 (schedule_update (get_inst w r)))
     (mkWorld (instances w) (_current_instance w) (calls w ++ initial_calls initial))).
Proof.
  intros Hcur Hidx. unfold use_state. rewrite Hcur.
  rewrite decide_True by lia. rewrite eval_initial_spec.
  set (w' := mkWorld _ _ _).
  assert (Hget : get_inst w' r = get_inst w r) by reflexivity.
  rewrite !Hget, !get_put_same. cbn [state hook_index schedule_update].
  rewrite (list_lookup_middle _ [] _ _ Hidx).
  unfold put_inst. cbn. now rewrite insert_insert_eq, Hcur.
Qed.

(** [use_state] during a render: the index is never past the end of the
    slots, so the call returns, for slot [hook_index]. *)
Lemma use_state_active (initial : pyval) (w : World) (r : inst_ref) :
  _current_instance w = Some r ->
  hook_index (get_inst w r) <= length (state (get_inst w r)) ->
  exists v w',
    use_state call0 initial w = (Ok (v, mkSetter r (hook_index (get_inst w r))), w') /\
    _current_instance w' = Some r /\
    hook_index (get_inst w' r) = hook_index (get_inst w r) + 1 /\
    schedule_update (get_inst w' r) = schedule_update (get_inst w r) /\
    state (get_inst w' r) !! hook_index (get_inst w r) = Some v /\
    (hook_index (get_inst w r) < length (state (get_inst w r)) ->
       state (get_inst w' r) = state (get_inst w r) /\ calls w' = calls w) /\
    (hook_index (get_inst w r) = length (state (get_inst w r)) ->
       v = initial_value initial /\
       state (get_inst w' r) = (state (get_inst w r) ++ [initial_value initial])%list /\
       calls w' = (calls w ++ initial_calls initial)%list) /\
    (forall r', r' <> r -> get_inst w' r' = get_inst w r').
Proof.
  intros Hcur Hle.
  destruct (decide (hook_index (get_inst w r) < length (state (get_inst w r)))) as [Hlt|Hge].
  - destruct (lookup_lt_is_Some_2 _ _ Hlt) as [v Hv].
    exists v. eexists. split; [exact (use_state_existing initial w r v Hcur Hv)|].
    rewrite get_put_same. cbn [state hook_index schedule_update].
    repeat split; try assumption; try reflexivity; try lia.
    intros r' Hne. now apply get_put_other.
  - assert (Heq : hook_index (get_inst w r) = length (state (get_inst w r))) by lia.
    exists (initial_value initial). eexists.
    split; [exact (use_state_fresh initial w r Hcur Heq)|].
    rewrite get_put_same. cbn [state hook_index schedule_update].
    repeat split; try assumption; try reflexivity; try lia.
    + now apply list_lookup_middle.
    + intros r' Hne. now rewrite get_put_other.
Qed.

(** A body started during a render leaves the instance active and its
    index within the slots, however it ends. *)
Lemma run_keeps_active {A} (c : Comp A) (w : World) (r : inst_ref) :
  _current_instance w = Some r ->
  hook_index (get_inst w r) <= length (state (get_inst w r)) ->
  _current_instance (snd (run call0 c w)) = Some r /\
  hook_index (get_inst (snd (run call0 c w)) r)
    <= length (state (get_inst (snd (run call0 c w)) r)).
Proof.
  revert w. induction c as [a|e|initial k IH]; intros w Hcur Hle.
  - now split.
  - now split.
  - cbn [run].
    destruct (use_state_active initial w r Hcur Hle)
      as (v & w' & -> & Hcur' & Hidx & _ & Hv & _ & _ & _).
    apply IH; [exact Hcur'|].
    apply lookup_lt_Some in Hv. lia.
Qed.

(** A body that never raises returns. *)
Lemma run_returns {A} (c : Comp A) (w : World) (r : inst_ref) :
  returns c ->
  _current_instance w = Some r ->
  hook_index (get_inst w r) <= length (state (get_inst w r)) ->
  exists a w', run call0 c w = (Ok a, w').
Proof.
  intros Hret. revert w. induction Hret as [a|initial k _ IH]; intros w Hcur Hle.
  - now exists a, w.
  - cbn [run].
    destruct (use_state_active initial w r Hcur Hle)
      as (v & w' & -> & Hcur' & Hidx & _ & Hv & _ & _ & _).
    apply IH; [exact Hcur'|].
    apply lookup_lt_Some in Hv. lia.
Qed.

(** A body that calls the hook [n] times moves the index by [n]; it
    creates the slots from the end of the list up to the index it
    reaches, and when all its slots exist it changes neither the slots
    nor the record of calls. *)
Lemma run_uses_hook {A} (n : nat) (c : Comp A) :
  uses_hook n c ->
  forall (w : World) (r : inst_ref),
  _current_instance w = Some r ->
  hook_index (get_inst w r) <= length (state (get_inst w r)) ->
  let w' := snd (run call0 c w) in
  _current_instance w' = Some r /\
  hook_index (get_inst w' r) = hook_index (get_inst w r) + n /\
  schedule_update (get_inst w' r) = schedule_update (get_inst w r) /\
  (hook_index (get_inst w r) + n <= length (state (get_inst w r)) ->
     state (get_inst w' r) = state (get_inst w r) /\ calls w' = calls w) /\
  (length (state (get_inst w r)) <= hook_index (get_inst w r) + n ->
     length (state (get_inst w' r)) = hook_index (get_inst w r) + n) /\
  (forall r', r' <> r -> get_inst w' r' = get_inst w r').
Proof.
  induction 1 as [a|e|n initial k _ IH]; intros w r Hcur Hle; cbn zeta.
  - cbn. repeat split; try assumption; try lia; reflexivity.
  - cbn. repeat split; try assumption; try lia; reflexivity.
  - cbn [run].
    destruct (use_state_active initial w r Hcur Hle)
      as (v & w1 & -> & Hcur1 & Hidx1 & Hsu1 & Hv & Hold & Hnew & Hother).
    assert (Hle1 : hook_index (get_inst w1 r) <= length (state (get_inst w1 r)))
      by (apply lookup_lt_Some in Hv; lia).
    destruct (IH v (mkSetter r (hook_index (get_inst w r))) w1 r Hcur1 Hle1)
      as (Hcur2 & Hidx2 & Hsu2 & Hkeep2 & Hgrow2 & Hother2).
    split; [exact Hcur2|]. split; [lia|]. split; [congruence|].
    split; [|split].
    + intros Hfit.
      destruct Hold as [Hs Hc]; [lia|].
      destruct Hkeep2 as [Hs2 Hc2]; [rewrite Hs; lia|].
      split; congruence.
    + intros Hpast.
      destruct (decide (hook_index (get_inst w r) < length (state (get_inst w r))))
        as [Hlt|Hge].
      * destruct Hold as [Hs Hc]; [exact Hlt|].
        rewrite Hgrow2 by (rewrite Hs; lia). lia.
      * destruct Hnew as (_ & Hs & _); [lia|].
        rewrite Hgrow2 by (rewrite Hs, length_app; cbn; lia). lia.
    + intros r' Hne. rewrite (Hother2 r' Hne). now apply Hother.
Qed.

(** A body started at the end of the slots creates one slot per hook
    call, each with its initial value, computed once. *)
Lemma run_creates {A} (c : Comp A) (w : World) (r : inst_ref) :
  _current_instance w = Some r ->
  hook_index (get_inst w r) = length (state (get_inst w r)) ->
  let w' := snd (run call0 c w) in
  state (get_inst w' r) =
    (state (get_inst w r) ++ initial_slots call0 c r (hook_index (get_inst w r)))%list /\
  calls w' =
    (calls w ++ initial_record call0 c r (hook_index (get_inst w r)))%list.
Proof.
  revert w. induction c as [a|e|initial k IH]; intros w Hcur Hidx; cbn zeta.
  - cbn. now rewrite !app_nil_r.
  - cbn. now rewrite !app_nil_r.
  - cbn [run initial_slots initial_record].
    destruct (use_state_active initial w r Hcur) as
      (v & w1 & -> & Hcur1 & Hidx1 & _ & _ & _ & Hnew & _); [lia|].
    destruct (Hnew Hidx) as (-> & Hs1 & Hc1).
    destruct (IH (initial_value initial) (mkSetter r (hook_index (get_inst w r))) w1 Hcur1)
      as [Hs2 Hc2].
    { rewrite Hidx1, Hs1, length_app. cbn. lia. }
    cbn zeta in Hs2, Hc2. rewrite Hs2, Hc2, Hs1, Hc1, Hidx1.
    rewrite <- !app_assoc. cbn [app].
    replace (hook_index (get_inst w r) + 1) with (S (hook_index (get_inst w r))) by lia.
    now split.
Qed.

(** No slot is ever dropped by a body. *)
Lemma run_slots_grow {A} (c : Comp A) (w : World) (r r' : inst_ref) :
  _current_instance w = Some r ->
  hook_index (get_inst w r) <= length (state (get_inst w r)) ->
  length (state (get_inst w r')) <= length (state (get_inst (snd (run call0 c w)) r')).
Proof.
  revert w. induction c as [a|e|initial k IH]; intros w Hcur Hle; [cbn; lia|cbn; lia|].
  cbn [run].
  destruct (use_state_active initial w r Hcur Hle)
    as (v & w1 & -> & Hcur1 & Hidx1 & _ & Hv & Hold & Hnew & Hother).
  assert (Hle1 : hook_index (get_inst w1 r) <= length (state (get_inst w1 r)))
    by (apply lookup_lt_Some in Hv; lia).
  specialize (IH v (mkSetter r (hook_index (get_inst w r))) w1 Hcur1 Hle1).
  assert (length (state (get_inst w r')) <= length (state (get_inst w1 r')));
    [|lia].
  destruct (decide (r' = r)) as [->|Hne]; [|now rewrite (Hother r' Hne)].
  destruct (decide (hook_index (get_inst w r) < length (state (get_inst w r))))
    as [Hlt|Hge].
  - destruct (Hold Hlt) as [-> _]. lia.
  - destruct Hnew as (_ & -> & _); [lia|]. rewrite length_app. lia.
Qed.

(** [render_component] as a step from world to world. *)
Lemma render_component_world {A} (component_fn : props_t -> Comp A)
  (props : props_t) (instance : inst_ref) (w : World) :
  let w' := snd (render_component call0 component_fn props instance w) in
  let w2 := snd (run call0 (component_fn props) (entered instance w)) in
  (forall r, get_inst w' r = get_inst w2 r) /\ calls w' = calls w2.
Proof.
  unfold render_component. fold (entered instance w).
  destruct (run call0 (component_fn props) (entered instance w)) as [[v|e] w2];
    now split.
Qed.

Lemma entered_spec (instance : inst_ref) (w : World) :
  _current_instance (entered instance w) = Some instance /\
  hook_index (get_inst (entered instance w) instance) = 0 /\
  state (get_inst (entered instance w) instance) = state (get_inst w instance) /\
  schedule_update (get_inst (entered instance w) instance)
    = schedule_update (get_inst w instance) /\
  calls (entered instance w) = calls w /\
  (forall r, r <> instance -> get_inst (entered instance w) r = get_inst w r).
Proof.
  unfold entered. rewrite get_put_same. cbn.
  repeat split. intros r Hne. now rewrite get_put_other.
Qed.

Lemma render_slots_grow {A} (component_fn : props_t -> Comp A)
  (props : props_t) (instance r' : inst_ref) (w : World) :
  length (state (get_inst w r'))
  <= length (state (get_inst
                      (snd (render_component call0 component_fn props instance w)) r')).
Proof.
  destruct (render_component_world component_fn props instance w) as [Hget _].
  cbn zeta in Hget. rewrite Hget.
  destruct (entered_spec instance w) as (Hcur & Hidx & Hst & _ & _ & Hother).
  pose proof (run_slots_grow (component_fn props) (entered instance w) instance r' Hcur)
    as Hgrow.
  assert (Hsame : length (state (get_inst (entered instance w) r'))
                  = length (state (get_inst w r'))).
  { destruct (decide (r' = instance)) as [->|Hne];
      [now rewrite Hst | now rewrite (Hother r' Hne)]. }
  rewrite <- Hsame. apply Hgrow. lia.
Qed.

(** One render of a body that calls the hook [k] times. *)
Lemma render_uses_hook {A} (component_fn : props_t -> Comp A)
  (props : props_t) (k : nat) (instance : inst_ref) (w : World) :
  uses_hook k (component_fn props) ->
  let w' := snd (render_component call0 component_fn props instance w) in
  hook_index (get_inst w' instance) = k /\
  (k <= length (state (get_inst w instance)) ->
     state (get_inst w' instance) = state (get_inst w instance) /\ calls w' = calls w) /\
  (length (state (get_inst w instance)) <= k ->
     length (state (get_inst w' instance)) = k).
Proof.
  intros Huses. cbn zeta.
  destruct (render_component_world component_fn props instance w) as [Hget Hcalls].
  destruct (entered_spec instance w) as (Hcur & Hidx & Hst & _ & Hc & _).
  destruct (run_uses_hook k _ Huses (entered instance w) instance Hcur)
    as (_ & Hidx' & _ & Hkeep & Hgrow & _); [lia|].
  rewrite Hget, Hcalls, Hidx' , Hidx. rewrite Hidx, Hst in Hkeep, Hgrow.
  split; [reflexivity|]. split.
  - intros Hk. destruct Hkeep as [-> ->]; [lia|]. now split.
  - intros Hk. apply Hgrow. lia.
Qed.

(** A setter call keeps the number of slots and computes no initial
    value. *)
Lemma set_value_world (s : setter) (new : pyval) (w : World) :
  let w' := snd (set_value s new w) in
  length (state (get_inst w' (set_inst s))) = length (state (get_inst w (set_inst s))) /\
  called w' = called w.
Proof.
  unfold set_value. cbn zeta. case_decide as Hlt; [|now split].
  destruct (schedule_update (get_inst w (set_inst s))) as [cb|]; cbn [snd].
  - rewrite get_record, get_put_same. cbn [state]. rewrite length_insert.
    split; [reflexivity|]. unfold called, record. cbn [calls].
    rewrite List.filter_app. cbn. now rewrite app_nil_r.
  - rewrite get_put_same. cbn [state]. rewrite length_insert. now split.
Qed.

End Hooks.

(** C2. An instance rendered with a component function that calls
    [use_state] exactly [k] times has exactly [k] state slots after its
    first render and after every later one, whatever setter calls come
    in between. The first render creates the slots, each with its
    initial value computed once; the initial values are computed in that
    render only, and a later render leaves the slots and the record of
    calls as they are. *)
Theorem hook_slots_stable (call0 : nat -> pyval) {A : Type}
  (component_fn : props_t -> Comp A) (props : props_t) (k : nat)
  (instance : inst_ref) (acts : list action) (w0 : World) :
  uses_hook k (component_fn props) ->
  state (get_inst w0 instance) = [] ->
  let w1 := do_action call0 component_fn props instance Render w0 in
  let w := do_actions call0 component_fn props instance acts w1 in
  state (get_inst w1 instance) = initial_slots call0 (component_fn props) instance 0 /\
  calls w1 = (calls w0 ++ initial_record call0 (component_fn props) instance 0)%list /\
  length (state (get_inst w1 instance)) = k /\
  length (state (get_inst w instance)) = k /\
  called w = called w1 /\
  (forall w2,
     length (state (get_inst w2 instance)) = k ->
     let w3 := do_action call0 component_fn props instance Render w2 in
     state (get_inst w3 instance) = state (get_inst w2 instance) /\
     hook_index (get_inst w3 instance) = k /\
     calls w3 = calls w2).
Proof.
  intros Huses Hfresh w1 w.
  assert (Hrender : forall w2,
             length (state (get_inst w2 instance)) = k ->
             let w3 := do_action call0 component_fn props instance Render w2 in
             state (get_inst w3 instance) = state (get_inst w2 instance) /\
             hook_index (get_inst w3 instance) = k /\
             calls w3 = calls w2).
  { intros w2 Hlen. cbn [do_action] in *. cbn zeta.
    destruct (render_uses_hook call0 component_fn props k instance w2 Huses)
      as (Hidx & Hkeep & _).
    destruct Hkeep as [Hs Hc]; [lia|]. now repeat split. }
  assert (Hfirst :
            state (get_inst w1 instance)
              = initial_slots call0 (component_fn props) instance 0 /\
            calls w1
              = (calls w0 ++ initial_record call0 (component_fn props) instance 0)%list).
  { subst w1. cbn [do_action].
    destruct (render_component_world call0 component_fn props instance w0) as [Hget Hcalls].
    destruct (entered_spec instance w0) as (Hcur & Hidx & Hst & _ & Hc & _).
    destruct (run_creates call0 (component_fn props) (entered instance w0) instance Hcur)
      as [Hs1 Hc1]; [rewrite Hidx, Hst, Hfresh; reflexivity|].
    cbn zeta in Hs1, Hc1. rewrite Hget, Hcalls, Hs1, Hc1, Hidx, Hst, Hfresh, Hc.
    now split. }
  destruct Hfirst as [Hfirst1 Hfirst2]. split; [exact Hfirst1|]. split; [exact Hfirst2|].
  assert (H1 : length (state (get_inst w1 instance)) = k).
  { subst w1. cbn [do_action].
    destruct (render_uses_hook call0 component_fn props k instance w0 Huses)
      as (_ & _ & Hgrow).
    apply Hgrow. rewrite Hfresh. cbn. lia. }
  split; [exact H1|].
  assert (Hall : length (state (get_inst w instance)) = k /\ called w = called w1).
  { subst w. unfold do_actions. clear Hfirst1 Hfirst2. generalize dependent w1.
    induction acts as [|a acts IH]; intros w1 H1; [now split|].
    cbn [foldl].
    set (w2 := do_action call0 component_fn props instance a w1).
    assert (H2 : length (state (get_inst w2 instance)) = k /\ called w2 = called w1).
    { subst w2. destruct a as [|idx new].
      - destruct (Hrender w1 H1) as (Hs & _ & Hc).
        split; [now rewrite Hs|]. unfold called. now rewrite Hc.
      - cbn [do_action].
        destruct (set_value_world (mkSetter instance idx) new w1) as [Hl Hc].
        cbn [set_inst] in Hl. split; [now rewrite Hl | exact Hc]. }
    destruct H2 as [H2 Hc2]. destruct (IH w2 H2) as [H3 Hc3].
    split; [exact H3 | now rewrite Hc3]. }
  destruct Hall as [H2 Hc]. split; [exact H2|]. split; [exact Hc|].
  exact Hrender.
Qed.

Lemma hook_slots_stable_witness :
  length (state (get_inst
    (do_actions sample_call0 Form [] 0
       [SetSlot 0 (PyStr "x"); Render; SetSlot 1 (PyInt 1); Render]
       (do_action sample_call0 Form [] 0 Render initial_world)) 0)) = 2 /\
  state (get_inst (do_action sample_call0 Form [] 0 Render initial_world) 0)
    = [PyStr "name"; PyInt 42] /\
  called (do_actions sample_call0 Form [] 0
            [SetSlot 0 (PyStr "x"); Render; SetSlot 1 (PyInt 1); Render]
            (do_action sample_call0 Form [] 0 Render initial_world))
    = [Called 3].
Proof.
  assert (Huses : uses_hook 2 (Form [])).
  { unfold Form. constructor. intros v s. constructor. intros v' s'. constructor. }
  destruct (hook_slots_stable sample_call0 Form [] 2 0
              [SetSlot 0 (PyStr "x"); Render; SetSlot 1 (PyInt 1); Render]
              initial_world Huses eq_refl)
    as (Hslots & Hcalls & _ & Hlen & Hcalled & _).
  split; [exact Hlen|]. split; [exact Hslots|].
  rewrite Hcalled. unfold called. rewrite Hcalls. reflexivity.
Defined.

(** A setter handed out by [use_state] is bound to a slot that exists. *)
Lemma use_state_setter_bound (call0 : nat -> pyval) (initial : pyval)
  (w w' : World) (v : pyval) (s : setter) :
  use_state call0 initial w = (Ok (v, s), w') ->
  set_idx s < length (state (get_inst w' (set_inst s))).
Proof.
  unfold use_state. destruct (_current_instance w) as [r|]; [|discriminate].
  match goal with
  | |- (let '(res, w1) := ?x in _) = _ -> _ => destruct x as [[[]|e] w1]
  end; [|discriminate].
  destruct (state (get_inst w1 r) !! hook_index (get_inst w r)) as [value|] eqn:Hv;
    [|discriminate].
  intros [= <- <- <-]. cbn [set_inst set_idx].
  rewrite get_put_same. cbn [state]. now apply lookup_lt_Some in Hv.
Qed.

Lemma set_value_ok (s : setter) (new : pyval) (w : World) :
  set_idx s < length (state (get_inst w (set_inst s))) ->
  set_value s new w =
  (Ok tt,
   mkWorld
     (<[set_inst s :=
          mkInstance (<[set_idx s := new]> (state (get_inst w (set_inst s))))
                     (hook_index (get_inst w (set_inst s)))
                     (schedule_update (get_inst w (set_inst s)))]> (instances w))
     (_current_instance w)
     (calls w ++ match schedule_update (get_inst w (set_inst s)) with
                 | Some cb => [Scheduled cb]
                 | None => []
                 end)).
Proof.
  intros Hlt. unfold set_value. rewrite decide_True by exact Hlt.
  destruct (schedule_update (get_inst w (set_inst s))); cbn;
    rewrite ?app_nil_r; reflexivity.
Qed.

Lemma scheduled_count_set_many (s : setter) (news : list pyval) (w : World) :
  set_idx s < length (state (get_inst w (set_inst s))) ->
  scheduled_count (set_many s news w) =
  scheduled_count w +
  match schedule_update (get_inst w (set_inst s)) with
  | Some _ => length news
  | None => 0
  end.
Proof.
  revert w. induction news as [|new news IH]; intros w Hlt.
  - cbn. destruct (schedule_update _); lia.
  - unfold set_many in *. cbn [foldl]. rewrite (set_value_ok s new w Hlt). cbn [snd].
    set (w1 := mkWorld _ _ _).
    assert (Hget : get_inst w1 (set_inst s) =
                   mkInstance (<[set_idx s := new]> (state (get_inst w (set_inst s))))
                     (hook_index (get_inst w (set_inst s)))
                     (schedule_update (get_inst w (set_inst s)))).
    { unfold get_inst, w1. cbn. now rewrite lookup_insert_eq. }
    rewrite IH by (rewrite Hget; cbn; now rewrite length_insert).
    rewrite Hget. cbn [schedule_update length].
    unfold scheduled_count, w1. cbn [calls]. rewrite List.filter_app, length_app.
    destruct (schedule_update (get_inst w (set_inst s))); cbn; lia.
Qed.

(** C6. A setter that [use_state] hands out is bound to a slot that
    exists, and a slot stays through every later render. A setter call
    on its slot overwrites that slot in place, leaves
    everything else of the instance as it is, and calls the registered
    [schedule_update] once, on every call and also when the new value is
    the one already stored; with no callback registered it calls
    nothing. Over a run of calls the callback is called as often as the
    setter. *)
Theorem set_value_schedules (s : setter) (new : pyval) (news : list pyval)
  (w : World) :
  set_idx s < length (state (get_inst w (set_inst s))) ->
  let inst := get_inst w (set_inst s) in
  let w' := snd (set_value s new w) in
  (forall call0 initial w0 v s0,
     use_state call0 initial w0 = (Ok (v, s0), w) ->
     set_idx s0 < length (state (get_inst w (set_inst s0)))) /\
  (forall call0 (component_fn : props_t -> Comp VNodeChild) props instance,
     set_idx s < length (state (get_inst
        (snd (render_component call0 component_fn props instance w)) (set_inst s)))) /\
  fst (set_value s new w) = Ok tt /\
  state (get_inst w' (set_inst s)) = <[set_idx s := new]> (state inst) /\
  hook_index (get_inst w' (set_inst s)) = hook_index inst /\
  schedule_update (get_inst w' (set_inst s)) = schedule_update inst /\
  (forall r, r <> set_inst s -> get_inst w' r = get_inst w r) /\
  calls w' = (calls w ++ match schedule_update inst with
                         | Some cb => [Scheduled cb]
                         | None => []
                         end)%list /\
  (forall cb, schedule_update inst = Some cb ->
              state inst !! set_idx s = Some new ->
              calls w' = (calls w ++ [Scheduled cb])%list) /\
  scheduled_count (set_many s news w) =
    scheduled_count w + match schedule_update inst with
                        | Some _ => length news
                        | None => 0
                        end.
Proof.
  intros Hlt inst w'. subst inst w'.
  split; [intros call0 initial w0 v s0; apply use_state_setter_bound|].
  split.
  { intros call0 component_fn props instance.
    pose proof (render_slots_grow call0 component_fn props instance (set_inst s) w). lia. }
  rewrite (set_value_ok s new w Hlt). cbn [fst snd].
  set (w1 := mkWorld _ _ _).
  assert (Hget : get_inst w1 (set_inst s) =
                 mkInstance (<[set_idx s := new]> (state (get_inst w (set_inst s))))
                   (hook_index (get_inst w (set_inst s)))
                   (schedule_update (get_inst w (set_inst s)))).
  { unfold get_inst, w1. cbn. now rewrite lookup_insert_eq. }
  rewrite Hget. cbn [state hook_index schedule_update].
  repeat split.
  - intros r Hne. unfold get_inst, w1. cbn. now rewrite lookup_insert_ne.
  - intros cb Hcb _. unfold w1. cbn [calls]. now rewrite Hcb.
  - now apply scheduled_count_set_many.
Qed.

Lemma set_value_schedules_witness :
  let w := record (Called 9)
             (put_inst 0 (mkInstance [PyInt 5] 1 (Some 4)) initial_world) in
  calls (snd (set_value (mkSetter 0 0) (PyInt 5) w)) = [Called 9; Scheduled 4] /\
  scheduled_count (set_many (mkSetter 0 0) [PyInt 5; PyInt 5; PyInt 6] w) = 3.
Proof.
  intros w.
  assert (Hlt : set_idx (mkSetter 0 0)
                < length (state (get_inst w (set_inst (mkSetter 0 0)))))
    by (vm_compute; lia).
  destruct (set_value_schedules (mkSetter 0 0) (PyInt 5) [PyInt 5; PyInt 5; PyInt 6] w Hlt)
    as (_ & _ & _ & _ & _ & _ & _ & _ & Hsame & Hcount).
  split.
  - exact (Hsame 4 eq_refl eq_refl).
  - exact Hcount.
Defined.

(** The counter of the specification: the first render stores 0 in the
    one slot; after the setter is called with 1 the next render shows 1,
    and the hook index is 1 again. *)
Example counter_scenario :
  let w1 := snd (render_component sample_call0 Counter [] 0 initial_world) in
  let w2 := snd (set_value (mkSetter 0 0) (PyInt 1) w1) in
  let r3 := render_component sample_call0 Counter [] 0 w2 in
  state (get_inst w1 0) = [PyInt 0] /\
  fst r3 = Ok (button [("on_click", PyFunc 7)] [VText "1"]) /\
  state (get_inst (snd r3) 0) = [PyInt 1] /\
  hook_index (get_inst (snd r3) 0) = 1.
Proof. repeat split; reflexivity. Qed.

(** C7. [use_state] called while no instance is active raises the
    [RuntimeError] of the module and leaves the world as it was: no slot
    is read or written, no initial value is computed. The error is not
    caught on the way: a body whose hook call raises it ends with it. *)
Theorem use_state_outside_render (call0 : nat -> pyval) (initial : pyval)
  (w : World) {A : Type} (k : pyval -> setter -> Comp A) :
  _current_instance w = None ->
  use_state call0 initial w =
    (Raise (RuntimeError "use_state called outside component render"), w) /\
  run call0 (UseState initial k) w =
    (Raise (RuntimeError "use_state called outside component render"), w).
Proof.
  intros Hnone. cbn [run]. unfold use_state. rewrite Hnone. now split.
Qed.

Lemma use_state_outside_render_witness :
  use_state sample_call0 (PyFunc 3) initial_world =
    (Raise (RuntimeError "use_state called outside component render"), initial_world).
Proof.
  exact (proj1 (use_state_outside_render sample_call0 (PyFunc 3) initial_world
                  (fun _ _ => Return tt) eq_refl)).
Defined.

(** C8. [render_component] makes [instance] the active instance with
    hook index 0 (slots, callback and record of calls untouched), runs
    the component function on the props in that world and, when the
    function returns a node, returns that node with the active instance
    cleared, so that a hook call made next raises. A function that never
    raises makes [render_component] return. *)
Theorem render_component_contract (call0 : nat -> pyval) {A : Type}
  (component_fn : props_t -> Comp A) (props : props_t) (instance : inst_ref)
  (w : World) :
  let w1 := entered instance w in
  (_current_instance w1 = Some instance /\
   hook_index (get_inst w1 instance) = 0 /\
   state (get_inst w1 instance) = state (get_inst w instance) /\
   schedule_update (get_inst w1 instance) = schedule_update (get_inst w instance) /\
   calls w1 = calls w) /\
  (forall vnode w2,
     run call0 (component_fn props) w1 = (Ok vnode, w2) ->
     render_component call0 component_fn props instance w
       = (Ok vnode, set_current None w2) /\
     _current_instance (set_current None w2) = None /\
     (forall r, get_inst (set_current None w2) r = get_inst w2 r) /\
     forall initial,
       use_state call0 initial (set_current None w2) =
       (Raise (RuntimeError "use_state called outside component render"),
        set_current None w2)) /\
  (returns (component_fn props) ->
   exists vnode w',
     render_component call0 component_fn props instance w = (Ok vnode, w') /\
     _current_instance w' = None /\
     forall initial,
       use_state call0 initial w' =
       (Raise (RuntimeError "use_state called outside component render"), w')).
Proof.
  intros w1. subst w1.
  destruct (entered_spec instance w) as (Hcur & Hidx & Hst & Hsu & Hc & _).
  split; [now repeat split|].
  assert (Hok : forall vnode w2,
     run call0 (component_fn props) (entered instance w) = (Ok vnode, w2) ->
     render_component call0 component_fn props instance w
       = (Ok vnode, set_current None w2)).
  { intros vnode w2 Hrun. unfold render_component. fold (entered instance w).
    now rewrite Hrun. }
  split.
  - intros vnode w2 Hrun. split; [now apply Hok|]. split; [reflexivity|].
    split; [reflexivity|]. intros initial.
    now apply (use_state_outside_render call0 initial _ (fun _ _ => Return tt)).
  - intros Hret.
    destruct (run_returns call0 (component_fn props) (entered instance w) instance
                Hret Hcur) as (vnode & w2 & Hrun); [lia|].
    exists vnode, (set_current None w2). split; [now apply Hok|].
    split; [reflexivity|]. intros initial.
    now apply (use_state_outside_render call0 initial _ (fun _ _ => Return tt)).
Qed.

Lemma render_component_contract_witness :
  fst (render_component sample_call0 Counter [] 0 initial_world)
    = Ok (button [("on_click", PyFunc 7)] [VText "0"]) /\
  _current_instance (snd (render_component sample_call0 Counter [] 0 initial_world))
    = None.
Proof.
  destruct (render_component_contract sample_call0 Counter [] 0 initial_world)
    as (_ & Hok & _).
  destruct (Hok (button [("on_click", PyFunc 7)] [VText "0"])
                (snd (run sample_call0 (Counter []) (entered 0 initial_world)))
                eq_refl) as (Hrun & _).
  rewrite Hrun. now split.
Defined.

(** C10. When the component function raises, [render_component] ends
    with that exception and the active instance is still the one it was
    given: the pointer is not cleared. A [use_state] call made after
    that, outside any render, does not raise the context error: it
    returns, reading or creating a slot of the stale instance. *)
Theorem render_component_raise_keeps_instance (call0 : nat -> pyval) {A : Type}
  (component_fn : props_t -> Comp A) (props : props_t) (instance : inst_ref)
  (w w2 : World) (e : exn) :
  run call0 (component_fn props) (entered instance w) = (Raise e, w2) ->
  render_component call0 component_fn props instance w = (Raise e, w2) /\
  _current_instance w2 = Some instance /\
  forall initial, exists v w3,
    use_state call0 initial w2
      = (Ok (v, mkSetter instance (hook_index (get_inst w2 instance))), w3) /\
    _current_instance w3 = Some instance /\
    hook_index (get_inst w3 instance) = hook_index (get_inst w2 instance) + 1.
Proof.
  intros Hrun.
  destruct (entered_spec instance w) as (Hcur & Hidx & _).
  destruct (run_keeps_active call0 (component_fn props) (entered instance w) instance
              Hcur) as [Hcur2 Hle2]; [lia|].
  rewrite Hrun in Hcur2, Hle2. cbn [snd] in Hcur2, Hle2.
  split.
  { unfold render_component. fold (entered instance w). now rewrite Hrun. }
  split; [exact Hcur2|]. intros initial.
  destruct (use_state_active call0 initial w2 instance Hcur2 Hle2)
    as (v & w3 & Hus & Hcur3 & Hidx3 & _).
  now exists v, w3.
Qed.

Lemma render_component_raise_keeps_instance_witness :
  fst (render_component sample_call0 Broken [] 0 initial_world)
    = Raise (UserError "ValueError") /\
  _current_instance (snd (render_component sample_call0 Broken [] 0 initial_world))
    = Some 0 /\
  exists v w3,
    use_state sample_call0 (PyInt 8)
      (snd (render_component sample_call0 Broken [] 0 initial_world))
    = (Ok (v, mkSetter 0 1), w3).
Proof.
  destruct (render_component_raise_keeps_instance sample_call0 Broken [] 0
              initial_world
              (snd (run sample_call0 (Broken []) (entered 0 initial_world)))
              (UserError "ValueError") eq_refl) as (Hr & Hcur & Hus).
  rewrite Hr. split; [reflexivity|]. split; [exact Hcur|].
  destruct (Hus (PyInt 8)) as (v & w3 & H3 & _). exists v, w3. exact H3.
Defined.

End StateFacts.

(* ===================================================================== *)
(** * The client runtime                                                 *)
(* ===================================================================== *)

Module RuntimeFacts.

#[local] Set Warnings "-clear-no-such-hyp".

Import Dom Runtime RuntimeSpec.
Import SsrSpec.

(** ** Runs that return and remove only what they may *)

Lemma runs_ret {A} (S : ref -> Prop) (Q : A -> Prop) (a : A) :
  Q a -> runs S Q (ret a).
Proof.
  intros HQ d. exists a, d, []. rewrite app_nil_r.
  repeat split; [exact HQ|intros r []|lia|intros tag r []].
Qed.

Lemma runs_bind {A B} (S : ref -> Prop) (Q : A -> Prop) (Q' : B -> Prop)
  (m : M Doc A) (f : A -> M Doc B) :
  runs S Q m -> (forall a, Q a -> runs S Q' (f a)) -> runs S Q' (bind m f).
Proof.
  intros Hm Hf d.
  destruct (Hm d) as (a & d1 & evs1 & Hrun1 & Ha & Hlog1 & Hrem1 & Hlen1 & Hnew1).
  destruct (Hf a Ha d1) as (b & d2 & evs2 & Hrun2 & Hb & Hlog2 & Hrem2 & Hlen2 & Hnew2).
  exists b, d2, (evs1 ++ evs2)%list. unfold bind. rewrite Hrun1.
  split; [exact Hrun2|]. split; [exact Hb|].
  split; [now rewrite Hlog2, Hlog1, app_assoc|].
  split; [|split; [lia|]].
  - intros r Hin. apply in_app_or in Hin as [Hin|Hin];
      [now apply Hrem1 | now apply Hrem2].
  - intros tag r Hin. apply in_app_or in Hin as [Hin|Hin].
    + now apply (Hnew1 tag).
    + apply Hnew2 in Hin. lia.
Qed.

Lemma runs_weaken {A} (S S' : ref -> Prop) (Q Q' : A -> Prop) (m : M Doc A) :
  runs S Q m -> (forall r, S r -> S' r) -> (forall a, Q a -> Q' a) -> runs S' Q' m.
Proof.
  intros Hm HS HQ d.
  destruct (Hm d) as (a & d' & evs & Hrun & Ha & Hlog & Hrem & Hlen & Hnew).
  exists a, d', evs. repeat split; auto.
Qed.

Lemma runs_for_each {A B} (S : ref -> Prop) (Q : A -> B -> Prop)
  (f : A -> M Doc B) (xs : list A) :
  Forall (fun x => runs S (Q x) (f x)) xs ->
  runs S (Forall2 Q xs) (for_each f xs).
Proof.
  induction 1 as [|x xs Hx _ IH]; cbn [for_each].
  - apply runs_ret. constructor.
  - eapply runs_bind; [exact Hx|]. intros y Hy.
    eapply runs_bind; [exact IH|]. intros ys Hys.
    apply runs_ret. now constructor.
Qed.

(** The primitive calls: each returns and logs one call. *)
Ltac same_nodes :=
  cbn; rewrite ?length_alter, ?length_map, ?length_app; cbn; lia.

Ltac one_call :=
  split; [reflexivity|]; split; [exact I|]; split; [reflexivity|];
  split; [intros r [Hin|[]]; try discriminate Hin|];
  split; [same_nodes|intros tg r [Hin|[]]; try discriminate Hin].

Ltac primitive := intros d; eexists _, _, _; cbn; one_call.

Lemma runs_createElement (S : ref -> Prop) (tag : string) :
  runs S (fun _ => True) (createElement tag).
Proof. primitive. injection Hin as _ <-. lia. Qed.

Lemma runs_createTextNode (S : ref -> Prop) (s : string) :
  runs S (fun _ => True) (createTextNode s).
Proof. primitive. Qed.

Lemma runs_appendChild (S : ref -> Prop) (p c : ref) :
  runs S (fun _ => True) (appendChild (Some p) (Some c)).
Proof. primitive. Qed.

Lemma runs_removeChild (S : ref -> Prop) (p c : ref) :
  runs S (fun _ => True) (removeChild (Some p) c).
Proof. primitive. Qed.

Lemma runs_insertBefore (S : ref -> Prop) (p x before : ref) :
  runs S (fun _ => True) (insertBefore (Some p) (Some x) before).
Proof.
  intros d. eexists tt, _, [InsertBefore p x before]. cbn.
  split; [reflexivity|]. split; [exact I|].
  split; [destruct (decide (x = before)); reflexivity|].
  split; [intros r [Hin|[]]; discriminate Hin|].
  split; [destruct (decide (x = before)); same_nodes|].
  intros tag r [Hin|[]]; discriminate Hin.
Qed.

Lemma runs_remove (S : ref -> Prop) (el : ref) :
  S el -> runs S (fun _ => True) (remove el).
Proof.
  intros HS d. eexists _, _, _. cbn.
  split; [reflexivity|]. split; [exact I|]. split; [reflexivity|].
  split; [intros r [[= <-]|[]]; exact HS|].
  split; [same_nodes|intros tag r [Hin|[]]; discriminate Hin].
Qed.

Lemma runs_setAttribute (S : ref -> Prop) (e : ref) (k v : string) :
  runs S (fun _ => True) (setAttribute (Some e) k v).
Proof. primitive. Qed.

Lemma runs_removeAttribute (S : ref -> Prop) (e : ref) (k : string) :
  runs S (fun _ => True) (removeAttribute (Some e) k).
Proof. primitive. Qed.

Lemma runs_set_className (S : ref -> Prop) (e : ref) (v : pyval) :
  runs S (fun _ => True) (set_className (Some e) v).
Proof. primitive. Qed.

Lemma runs_set_style (S : ref -> Prop) (e : ref) (k v : string) :
  runs S (fun _ => True) (set_style (Some e) k v).
Proof. primitive. Qed.

Lemma runs_addEventListener (S : ref -> Prop) (e : ref) (ev : string) (f : nat) :
  runs S (fun _ => True) (addEventListener (Some e) ev f).
Proof. primitive. Qed.

Lemma runs_childNodes_of (S : ref -> Prop) (p : ref) :
  runs S (fun _ => True) (childNodes_of (Some p)).
Proof.
  intros d. exists (children d p), d, []. cbn. rewrite app_nil_r.
  repeat split; [intros r []|lia|intros tag r []].
Qed.

Lemma runs_set_textContent (S : ref -> Prop) (node : ref) (s : string) :
  runs S (fun _ => True) (set_textContent node s).
Proof.
  intros d. unfold set_textContent.
  destruct (nodeTag (host (logged (SetTextContent node s) d) node)).
  - destruct (String.eqb s EmptyString); eexists _, _, _; cbn; one_call.
  - eexists _, _, _; cbn; one_call.
Qed.

(** A step whose result does not matter. *)
Lemma runs_any {A} (S : ref -> Prop) (Q : A -> Prop) (m : M Doc A) :
  runs S Q m -> runs S (fun _ => True) m.
Proof. intros H. eapply runs_weaken; [exact H|auto|auto]. Qed.

Lemma runs_seq {A B} (S : ref -> Prop) (Q : A -> Prop) (Q' : B -> Prop)
  (m : M Doc A) (k : M Doc B) :
  runs S Q m -> runs S Q' k -> runs S Q' (bind m (fun _ => k)).
Proof. intros Hm Hk. eapply runs_bind; [exact Hm|]. intros _ _. exact Hk. Qed.

Lemma runs_for_each_any {A B} (S : ref -> Prop) (f : A -> M Doc B) (xs : list A) :
  (forall x, In x xs -> runs S (fun _ => True) (f x)) ->
  runs S (fun _ => True) (for_each f xs).
Proof.
  intros H. apply runs_any with (Q := Forall2 (fun _ _ => True) xs).
  apply runs_for_each. apply List.Forall_forall. exact H.
Qed.

Lemma strip_children (cs cs' : list VNodeChild) :
  Forall2 (fun c c' => strip c = strip c') cs cs' -> map strip cs = map strip cs'.
Proof. induction 1; cbn; congruence. Qed.

Lemma Forall2_patched_strip (cs cs' : list VNodeChild) :
  Forall2 patched cs cs' -> map strip cs = map strip cs'.
Proof.
  intros H. apply strip_children. eapply Forall2_impl; [exact H|].
  intros c c' [Hs _]. exact Hs.
Qed.

Lemma in_drop {A} (x : A) (n : nat) (l : list A) : In x (drop n l) -> In x l.
Proof.
  revert n. induction l as [|y l IH]; intros [|n]; cbn; auto.
  intros H. right. now apply (IH n).
Qed.

Lemma Forall2_forallb_r {A B} (R : A -> B -> Prop) (f : B -> bool)
  (l : list A) (l' : list B) :
  Forall2 R l l' -> (forall a b, R a b -> f b = true) -> forallb f l' = true.
Proof.
  intros H HR. induction H as [|a b l l' Hab _ IH]; [reflexivity|].
  cbn. now rewrite (HR a b Hab), IH.
Qed.

Section Runtime.

Variable repr_obj : pyval -> string.

Lemma runs_mount_prop (S : ref -> Prop) (el : ref) (kv : string * pyval) :
  runs S (fun _ => True) (mount_prop repr_obj (Some el) kv).
Proof.
  destruct kv as [k v]. unfold mount_prop.
  destruct (startswith "on_" k && callable v); [apply runs_addEventListener|].
  destruct (String.eqb k "class"); [apply runs_set_className|].
  destruct (String.eqb k "style" && is_dict v); [|apply runs_setAttribute].
  eapply runs_seq; [|now apply runs_ret].
  apply runs_for_each_any. intros sv _. apply runs_set_style.
Qed.

(** [mount] under a host returns the tree with every host reference
    filled in, and removes nothing. *)
Lemma runs_mount (v : VNodeChild) :
  forall (S : ref -> Prop) (p : ref),
  runs S (fun v' => patched v v' /\ mounted v' = true) (mount repr_obj (Some p) v).
Proof.
  induction v as [s|tag props children key el IH] using VNodeChild_ind; intros S p.
  - cbn [mount].
    eapply runs_bind; [apply runs_createTextNode|]. intros t _.
    eapply runs_seq; [apply runs_appendChild|].
    apply runs_ret. split; [|reflexivity]. split; [reflexivity|discriminate].
  - cbn [mount].
    eapply runs_bind; [apply runs_createElement|]. intros e _.
    eapply runs_seq; [apply runs_for_each_any; intros kv _; apply runs_mount_prop|].
    eapply runs_bind.
    { apply runs_for_each with (Q := fun c c' => patched c c' /\ mounted c' = true).
      eapply List.Forall_impl; [|exact IH]. intros c Hc. apply Hc. }
    intros children' Hkids.
    eapply runs_seq; [apply runs_appendChild|].
    apply runs_ret. split; [split|].
    + cbn [strip]. f_equal. apply strip_children.
      eapply Forall2_impl; [exact Hkids|]. intros c c' [[Hs _] _]. exact Hs.
    + intros _. cbn. eauto.
    + cbn [mounted]. eapply Forall2_forallb_r; [exact Hkids|].
      intros c c' [_ Hm]. exact Hm.
Qed.

Lemma runs_remove_node (S : ref -> Prop) (p : ref) (vnode : VNodeChild) (index : nat) :
  (forall r, el_of vnode = Some r -> S r) ->
  runs S (fun _ => True) (remove_node (Some p) vnode index).
Proof.
  intros HS. destruct vnode as [s|tag props children key [el|]]; cbn [remove_node].
  - eapply runs_bind; [apply runs_childNodes_of|]. intros nodes _.
    destruct (nodes !! index); [apply runs_removeChild | now apply runs_ret].
  - apply runs_remove. now apply HS.
  - now apply runs_ret.
Qed.

Lemma runs_move_node (S : ref -> Prop) (p e : ref) (new_index : nat) :
  runs S (fun _ => True) (move_node (Some p) (Some e) new_index).
Proof.
  unfold move_node. eapply runs_bind; [apply runs_childNodes_of|]. intros nodes _.
  destruct (nodes !! new_index); [apply runs_insertBefore | apply runs_appendChild].
Qed.

Lemma runs_drop_prop (S : ref -> Prop) (e : ref) (new_props : list (string * pyval))
  (kv : string * pyval) :
  runs S (fun _ => True) (drop_prop (Some e) new_props kv).
Proof.
  destruct kv as [key old_value]. unfold drop_prop.
  destruct (dict_mem key new_props); [now apply runs_ret|].
  destruct (startswith "on_" key); [now apply runs_ret|].
  destruct (String.eqb key "class"); [apply runs_set_className|].
  destruct (String.eqb key "style"); [|apply runs_removeAttribute].
  eapply runs_seq; [|now apply runs_ret].
  apply runs_for_each_any. intros sv _. apply runs_set_style.
Qed.

Lemma runs_update_prop (S : ref -> Prop) (e : ref) (old_props : list (string * pyval))
  (kv : string * pyval) :
  runs S (fun _ => True) (update_prop repr_obj (Some e) old_props kv).
Proof.
  destruct kv as [key value]. unfold update_prop.
  destruct (py_eqb _ value); [now apply runs_ret|].
  destruct (startswith "on_" key && callable value); [apply runs_addEventListener|].
  destruct (String.eqb key "class"); [apply runs_set_className|].
  destruct (String.eqb key "style" && is_dict value); [|apply runs_setAttribute].
  eapply runs_seq.
  { apply runs_for_each_any. intros sv _.
    destruct (dict_mem (fst sv) (style_items value));
      [now apply runs_ret | apply runs_set_style]. }
  eapply runs_seq; [|now apply runs_ret].
  apply runs_for_each_any. intros sv _. apply runs_set_style.
Qed.

Lemma runs_patch_props (S : ref -> Prop) (e : ref)
  (old_props new_props : list (string * pyval)) :
  runs S (fun _ => True) (patch_props repr_obj (Some e) old_props new_props).
Proof.
  unfold patch_props.
  eapply runs_seq; [apply runs_for_each_any; intros kv _; apply runs_drop_prop|].
  eapply runs_seq; [apply runs_for_each_any; intros kv _; apply runs_update_prop|].
  now apply runs_ret.
Qed.

(** ** The key map *)

Lemma dict_get_set {V} (k k' : string) (v : V) (d : list (string * V)) :
  dict_get k (dict_set k' v d) = if String.eqb k' k then Some v else dict_get k d.
Proof.
  induction d as [|[k0 v0] d IH]; cbn [dict_set dict_get].
  - reflexivity.
  - destruct (String.eqb_spec k0 k') as [->|Hne]; cbn [dict_get].
    + destruct (String.eqb k' k); reflexivity.
    + rewrite IH. destruct (String.eqb_spec k0 k) as [->|Hne'].
      * destruct (String.eqb_spec k' k) as [->|]; [congruence|reflexivity].
      * reflexivity.
Qed.

Lemma in_dict_set {V} (k : string) (v : V) (d : list (string * V)) (e : string * V) :
  In e (dict_set k v d) -> e = (k, v) \/ In e d.
Proof.
  induction d as [|[k0 v0] d IH]; cbn [dict_set].
  - intros [<-|[]]. now left.
  - destruct (String.eqb k0 k).
    + intros [<-|Hin]; [now left | right; now right].
    + intros [<-|Hin]; [right; now left|].
      destruct (IH Hin) as [->|Hin']; [now left | right; now right].
Qed.

Lemma in_build_keyed (cs : list VNodeChild) (i : nat)
  (acc : list (string * (nat * VNodeChild))) (k : string) (j : nat) (o : VNodeChild) :
  In (k, (j, o)) (build_keyed cs i acc) -> In o cs \/ In (k, (j, o)) acc.
Proof.
  revert i acc. induction cs as [|c cs IH]; intros i acc; cbn [build_keyed].
  - now right.
  - destruct (truthy_key c) as [kc|].
    + intros Hin. destruct (IH _ _ Hin) as [H|H]; [left; now right|].
      destruct (in_dict_set _ _ _ _ H) as [[= -> -> ->]|H']; [left; now left | now right].
    + intros Hin. destruct (IH _ _ Hin) as [H|H]; [left; now right | now right].
Qed.

Lemma dict_get_in {V} (k : string) (v : V) (d : list (string * V)) :
  dict_get k d = Some v -> In (k, v) d.
Proof.
  induction d as [|[k0 v0] d IH]; cbn [dict_get]; [discriminate|].
  destruct (String.eqb_spec k0 k) as [->|].
  - intros [= ->]. now left.
  - intros H. right. now apply IH.
Qed.

Lemma hosts_in_flat (o : VNodeChild) (cs : list VNodeChild) (r : ref) :
  In o cs -> In r (hosts o) -> In r (flat_map hosts cs).
Proof. intros Ho Hr. apply in_flat_map. now exists o. Qed.

Lemma el_in_hosts (o : VNodeChild) (r : ref) : el_of o = Some r -> In r (hosts o).
Proof.
  destruct o as [s|tag props children key el]; cbn; [discriminate|].
  intros ->. now left.
Qed.

Lemma mounted_in (o : VNodeChild) (cs : list VNodeChild) :
  forallb mounted cs = true -> In o cs -> mounted o = true.
Proof. intros H Hin. now apply (proj1 (forallb_forall _ _) H). Qed.

(** ** The children loops, for any [patch] that behaves on the new
    children at hand *)

Section Loops.

Variable patch_fn : option ref -> VNodeChild -> VNodeChild -> nat -> M Doc VNodeChild.

Local Abbreviation behaves := (RuntimeSpec.behaves patch_fn).

Lemma runs_patch_common (p : ref) (news : list VNodeChild) :
  Forall behaves news ->
  forall (olds : list VNodeChild) (i : nat),
  forallb mounted olds = true ->
  runs (fun r => In r (flat_map hosts olds))
       (Forall2 patched (take (length olds) news))
       (patch_common patch_fn (Some p) olds news i).
Proof.
  induction 1 as [|n news Hn _ IH]; intros olds i Hm.
  - cbn [patch_common]. apply runs_ret. rewrite take_nil. constructor.
  - destruct olds as [|o olds]; cbn [patch_common].
    + apply runs_ret. constructor.
    + cbn [forallb] in Hm. apply andb_prop in Hm as [Ho Hm].
      eapply runs_bind.
      { eapply runs_weaken; [apply (Hn o p i Ho)| |intros a Ha; exact Ha].
        intros r Hr. cbn [flat_map]. apply in_or_app. now left. }
      intros n' Hn'.
      eapply runs_bind.
      { eapply runs_weaken; [apply (IH olds (S i) Hm)| |intros a Ha; exact Ha].
        intros r Hr. cbn [flat_map]. apply in_or_app. now right. }
      intros rest Hrest. apply runs_ret. cbn [length take]. now constructor.
Qed.

Lemma runs_patch_children_with (p : ref) (olds news : list VNodeChild) :
  Forall behaves news ->
  forallb mounted olds = true ->
  runs (fun r => In r (flat_map hosts olds))
       (Forall2 patched news)
       (patch_children_with repr_obj patch_fn (Some p) olds news).
Proof.
  intros Hfn Hm. unfold patch_children_with.
  eapply runs_bind; [apply (runs_patch_common p news Hfn olds 0 Hm)|].
  intros common Hcommon.
  eapply runs_seq.
  { apply runs_for_each_any. intros o Ho. apply runs_remove_node.
    intros r Hr. apply (hosts_in_flat o); [|now apply el_in_hosts].
    exact (in_drop _ _ _ Ho). }
  eapply runs_bind.
  { apply runs_for_each with (Q := fun c c' => patched c c' /\ mounted c' = true).
    apply List.Forall_forall. intros c _. apply runs_mount. }
  intros added Hadded. apply runs_ret.
  rewrite <- (take_drop (length olds) news). apply Forall2_app; [exact Hcommon|].
  eapply Forall2_impl; [exact Hadded|]. intros c c' [H _]. exact H.
Qed.

(** The first pass of the keyed reconciliation: the new children come
    back in order, in shape as they were. *)
Lemma runs_keyed_pass (p : ref) (H : ref -> Prop)
  (old_keyed : list (string * (nat * VNodeChild))) (news : list VNodeChild) :
  Forall behaves news ->
  (forall k i o, dict_get k old_keyed = Some (i, o) ->
                 mounted o = true /\ forall r, In r (hosts o) -> H r) ->
  forall (new_idx : nat) (used : gset string),
  runs H (fun res => Forall2 (fun c c' => strip c = strip c') news (fst res))
       (keyed_pass repr_obj patch_fn (Some p) old_keyed news new_idx used).
Proof.
  intros Hfn Hold. induction Hfn as [|n news Hn _ IH]; intros new_idx used.
  - cbn [keyed_pass]. apply runs_ret. constructor.
  - cbn [keyed_pass]. destruct (truthy_key n) as [key|] eqn:Hkey.
    + assert (Hnode : is_str n = false).
      { destruct n; [discriminate Hkey | reflexivity]. }
      eapply runs_bind with (Q := patched n).
      { destruct (dict_get key old_keyed) as [[old_idx old_child]|] eqn:Hget.
        - destruct (Hold _ _ _ Hget) as [Hm Hin].
          eapply runs_bind.
          { eapply runs_weaken; [apply (Hn old_child p new_idx Hm)|exact Hin|].
            intros a Ha. exact Ha. }
          intros c Hc. destruct (proj2 Hc Hnode) as [e He]. rewrite He.
          eapply runs_seq with (Q := fun _ => True); [|now apply runs_ret].
          destruct (decide (old_idx = new_idx));
            [now apply runs_ret | apply runs_move_node].
        - eapply runs_bind;
            [apply (runs_mount n H p)|].
          intros c [Hc _]. destruct (proj2 Hc Hnode) as [e He]. rewrite He.
          eapply runs_bind; [apply runs_childNodes_of|]. intros nodes _.
          eapply runs_seq with (Q := fun _ => True); [|now apply runs_ret].
          destruct (decide (new_idx < length nodes));
            [apply runs_move_node | now apply runs_ret]. }
      intros n' Hn'.
      eapply runs_bind; [apply IH|]. intros r Hr.
      apply runs_ret. cbn [fst]. constructor; [exact (proj1 Hn') | exact Hr].
    + eapply runs_bind; [apply IH|]. intros r Hr.
      apply runs_ret. cbn [fst]. now constructor.
Qed.

Lemma runs_keyed_sweep (p : ref) (H : ref -> Prop)
  (old_keyed : list (string * (nat * VNodeChild))) (used : gset string) :
  (forall k i o, In (k, (i, o)) old_keyed -> forall r, In r (hosts o) -> H r) ->
  runs H (fun _ => True) (keyed_sweep (Some p) old_keyed used).
Proof.
  intros Hold. unfold keyed_sweep.
  eapply runs_seq; [|now apply runs_ret].
  apply runs_for_each_any. intros [k [i o]] Hin. cbn [fst snd].
  destruct (decide (k ∈ used)); [now apply runs_ret|].
  apply runs_remove_node. intros r Hr. apply (Hold k i o Hin). now apply el_in_hosts.
Qed.

Lemma runs_patch_keyed_children_with (p : ref) (olds news : list VNodeChild) :
  Forall behaves news ->
  forallb mounted olds = true ->
  runs (fun r => In r (flat_map hosts olds))
       (Forall2 (fun c c' => strip c = strip c') news)
       (patch_keyed_children_with repr_obj patch_fn (Some p) olds news).
Proof.
  intros Hfn Hm. unfold patch_keyed_children_with.
  assert (Hentries : forall k i o,
             In (k, (i, o)) (build_keyed olds 0 []) -> In o olds).
  { intros k i o Hin. destruct (in_build_keyed _ _ _ _ _ _ Hin) as [Ho|[]]. exact Ho. }
  eapply runs_bind.
  { apply (runs_keyed_pass p _ (build_keyed olds 0 []) news Hfn).
    intros k i o Hget. apply dict_get_in, Hentries in Hget.
    split; [now apply (mounted_in o olds)|].
    intros r Hr. now apply (hosts_in_flat o). }
  intros res Hres.
  eapply runs_seq.
  { apply runs_keyed_sweep. intros k i o Hin r Hr.
    apply (hosts_in_flat o); [now apply (Hentries k i)|exact Hr]. }
  now apply runs_ret.
Qed.

End Loops.

(** ** [patch] on two nodes *)

Lemma hosts_below_in_hosts (c : VNodeChild) (r : ref) :
  In r (hosts_below c) -> In r (hosts c).
Proof.
  destruct c as [s|tag props children key el]; cbn; [tauto|].
  intros H. apply in_or_app. now right.
Qed.

Lemma runs_replace (p : ref) (old new : VNodeChild) (index : nat) :
  runs (fun r => In r (hosts old)) (patched new)
       (bind (remove_node (Some p) old index)
             (fun _ => mount repr_obj (Some p) new)).
Proof.
  eapply runs_seq; [apply runs_remove_node; apply el_in_hosts|].
  eapply runs_weaken;
    [apply (runs_mount new (fun r => In r (hosts old)) p)
    |intros r Hr; exact Hr
    |intros a Ha; exact (proj1 Ha)].
Qed.

(** [patch] of a mounted old node against a new one returns the new one
    with its host references; what it removes are hosts of the old tree,
    and hosts strictly below the old node when both are [VNode]s of one
    tag. *)
Lemma runs_patch_present (new : VNodeChild) :
  forall (old : VNodeChild) (p : ref) (index : nat),
  mounted old = true ->
  runs (fun r => In r (if same_tag old new then hosts_below old else hosts old))
       (patched new)
       (patch_present repr_obj (Some p) old new index).
Proof.
  induction new as [new_s|new_tag new_props new_children new_key new_el IH]
    using VNodeChild_ind; intros old p index Hm.
  - destruct old as [old_s|old_tag old_props old_children old_key old_el];
      cbn [patch_present same_tag is_str negb andb].
    + destruct (String.eqb old_s new_s).
      * apply runs_ret. split; [reflexivity|discriminate].
      * eapply runs_bind; [apply runs_childNodes_of|]. intros nodes _.
        eapply runs_seq with (Q := fun _ => True).
        { destruct (nodes !! index); [apply runs_set_textContent | now apply runs_ret]. }
        apply runs_ret. split; [reflexivity|discriminate].
    + apply runs_replace.
  - destruct old as [old_s|old_tag old_props old_children old_key old_el];
      cbn [patch_present same_tag is_str negb andb tag_of].
    + apply runs_replace.
    + destruct (String.eqb old_tag new_tag) eqn:Htag; cbn [negb].
      2: apply runs_replace.
      cbn [mounted] in Hm. apply andb_prop in Hm as [Hel Hkids].
      destruct old_el as [e|]; [|discriminate].
      assert (Hfn : Forall (behaves (patch_present repr_obj)) new_children).
      { eapply List.Forall_impl; [|exact IH]. intros n Hn o q idx Ho.
        eapply runs_weaken; [apply (Hn o q idx Ho)| |auto].
        intros r Hr. destruct (same_tag o n); [now apply hosts_below_in_hosts|exact Hr]. }
      eapply runs_seq; [apply runs_patch_props|].
      eapply runs_bind with (Q := fun cs' => map strip new_children = map strip cs').
      { destruct (has_keys new_children).
        - eapply runs_weaken;
            [apply (runs_patch_keyed_children_with _ e old_children new_children Hfn Hkids)
            |auto|].
          intros cs'. apply strip_children.
        - eapply runs_weaken;
            [apply (runs_patch_children_with _ e old_children new_children Hfn Hkids)
            |auto|].
          intros cs'. apply Forall2_patched_strip. }
      intros cs' Hcs'. apply runs_ret. split.
      * cbn [strip]. now rewrite Hcs'.
      * intros _. cbn. eauto.
Qed.

(** ** Positional reconciliation *)

Lemma patch_common_eq
  (patch_fn : option ref -> VNodeChild -> VNodeChild -> nat -> M Doc VNodeChild)
  (parent : option ref) (news olds : list VNodeChild) (i : nat) (d : Doc) :
  patch_common patch_fn parent olds news i d =
  for_each (fun ion => patch_fn parent (fst (snd ion)) (snd (snd ion)) (fst ion))
           (common_from i olds news) d.
Proof.
  revert olds i d. induction news as [|n news IH]; intros [|o olds] i d;
    try reflexivity.
  cbn [patch_common common_from for_each fst snd]. unfold bind.
  destruct (patch_fn parent o n i d) as [[n'|e] d1]; [|reflexivity].
  now rewrite IH.
Qed.

Lemma common_from_lookup (olds news : list VNodeChild) (i j : nat)
  (o n : VNodeChild) :
  olds !! j = Some o -> news !! j = Some n ->
  common_from i olds news !! j = Some (i + j, (o, n)).
Proof.
  revert news i j. induction olds as [|o' olds IH]; intros [|n' news] i [|j];
    try discriminate.
  - intros [= ->] [= ->]. cbn. now rewrite Nat.add_0_r.
  - intros Ho Hn. cbn [common_from].
    change (common_from (S i) olds news !! j = Some (i + S j, (o, n))).
    rewrite (IH news (S i) j Ho Hn). do 2 f_equal. lia.
Qed.

Lemma common_from_length (olds news : list VNodeChild) (i : nat) :
  length (common_from i olds news) = min (length olds) (length news).
Proof.
  revert news i. induction olds as [|o olds IH]; intros [|n news] i; cbn; auto.
Qed.

(** ** What [detach] does to the tree *)

Lemma lookup_map {A B} (f : A -> B) (l : list A) (i : nat) :
  map f l !! i = option_map f (l !! i).
Proof. revert i. induction l as [|x l IH]; intros [|i]; cbn; auto. Qed.

Lemma children_detach (x q : ref) (d : Doc) :
  children (detach x d) q = filter (fun y => y <> x) (children d q).
Proof.
  unfold children, host, detach, ref in *. cbn [nodes]. rewrite lookup_map.
  destruct (nodes d !! q); reflexivity.
Qed.

Lemma children_logged (c : call) (d : Doc) (q : ref) :
  children (logged c d) q = children d q.
Proof. reflexivity. Qed.

Lemma detached_detach (x : ref) (d : Doc) : detached x (detach x d).
Proof.
  intros q Hin. rewrite children_detach in Hin.
  apply list_elem_of_In, list_elem_of_filter in Hin as [Hne _]. now apply Hne.
Qed.

Lemma detached_detach_other (r x : ref) (d : Doc) :
  detached r d -> detached r (detach x d).
Proof.
  intros H q Hin. rewrite children_detach in Hin.
  apply list_elem_of_In, list_elem_of_filter in Hin as [_ Hin].
  apply (H q). now apply list_elem_of_In.
Qed.

(** [remove_node], case by case. *)
Lemma remove_node_eq (p : ref) (vnode : VNodeChild) (index : nat) (d : Doc) :
  remove_node (Some p) vnode index d =
  match vnode with
  | VText _ =>
      match children d p !! index with
      | Some n => (Ok tt, logged (RemoveChild p n) (detach n d))
      | None => (Ok tt, d)
      end
  | VNode _ _ _ _ (Some el) => (Ok tt, logged (Remove el) (detach el d))
  | VNode _ _ _ _ None => (Ok tt, d)
  end.
Proof.
  destruct vnode as [s|tag props cs key [el|]]; try reflexivity.
  cbn. destruct (children d p !! index); reflexivity.
Qed.

Lemma remove_node_detached (p : ref) (vnode : VNodeChild) (index : nat) (d : Doc)
  (r : ref) :
  detached r d \/ el_of vnode = Some r ->
  detached r (snd (remove_node (Some p) vnode index d)).
Proof.
  rewrite remove_node_eq.
  destruct vnode as [s|tag props cs key [el|]]; cbn [el_of].
  - intros [H|H]; [|discriminate].
    destruct (children d p !! index); [|exact H].
    cbn [snd]. intros q. rewrite children_logged. now apply detached_detach_other.
  - cbn [snd]. intros [H|[= ->]] q; rewrite children_logged.
    + now apply detached_detach_other.
    + apply detached_detach.
  - intros [H|H]; [exact H|discriminate].
Qed.

(** After a run of [remove_node] calls, the host of every [VNode] that
    was passed hangs nowhere in the tree. *)
Lemma remove_all_detached (p : ref) (index : nat) (os : list VNodeChild) (d : Doc)
  (r : ref) :
  detached r d \/ (exists o, In o os /\ el_of o = Some r) ->
  detached r (snd (for_each (fun o => remove_node (Some p) o index) os d)).
Proof.
  revert d. induction os as [|o os IH]; intros d H.
  - destruct H as [H|(o & [] & _)]. exact H.
  - cbn [for_each]. unfold bind.
    destruct (remove_node (Some p) o index d) as [[[]|e] d1] eqn:E.
    + specialize (IH d1).
      destruct (for_each _ os d1) as [[ys|e] d2] eqn:E2; cbn [snd] in *; apply IH.
      all: destruct H as [H|(o' & [<-|Hin] & Hel)];
        [left; replace d1 with (snd (remove_node (Some p) o index d)) by (now rewrite E);
           apply remove_node_detached; now left
        |left; replace d1 with (snd (remove_node (Some p) o index d)) by (now rewrite E);
           apply remove_node_detached; now right
        |right; now exists o'].
    + rewrite remove_node_eq in E.
      destruct o as [s|tag props cs key [el|]]; try discriminate.
      destruct (children d p !! index); discriminate.
Qed.

(** A run of [remove_node] calls returns. It logs a [remove()] for every
    [VNode] with a host and for nothing else, creates nothing, and
    leaves those hosts out of the tree. *)
Lemma remove_phase (p : ref) (index : nat) (os : list VNodeChild) (d : Doc) :
  exists us d' evs,
    for_each (fun o => remove_node (Some p) o index) os d = (Ok us, d') /\
    log d' = (log d ++ evs)%list /\
    (forall o r, In o os -> el_of o = Some r -> In (Remove r) evs /\ detached r d') /\
    (forall r, In (Remove r) evs -> exists o, In o os /\ el_of o = Some r) /\
    (forall tg r, ~ In (CreateElement tg r) evs).
Proof.
  revert d. induction os as [|o os IH]; intros d.
  - exists [], d, []. split; [reflexivity|]. split; [now rewrite app_nil_r|].
    split; [intros o r []|]. split; [intros r []|intros tg r []].
  - assert (Hone : exists d1 ev1,
               remove_node (Some p) o index d = (Ok tt, d1) /\
               log d1 = (log d ++ ev1)%list /\
               (forall r, el_of o = Some r -> In (Remove r) ev1) /\
               (forall r, In (Remove r) ev1 -> el_of o = Some r) /\
               (forall tg r, ~ In (CreateElement tg r) ev1)).
    { rewrite remove_node_eq.
      destruct o as [s|tag props cs key [el|]]; cbn [el_of].
      - destruct (children d p !! index) as [n|].
        + eexists _, _. split; [reflexivity|]. split; [reflexivity|].
          split; [discriminate|].
          split; [intros r [Hin|[]]; discriminate Hin
                 |intros tg r [Hin|[]]; discriminate Hin].
        + exists d, []. split; [reflexivity|]. split; [now rewrite app_nil_r|].
          split; [discriminate|]. split; [intros r []|intros tg r []].
      - eexists _, _. split; [reflexivity|]. split; [reflexivity|].
        split; [intros r [= ->]; now left|].
        split; [intros r [[= ->]|[]]; reflexivity
               |intros tg r [Hin|[]]; discriminate Hin].
      - exists d, []. split; [reflexivity|]. split; [now rewrite app_nil_r|].
        split; [discriminate|]. split; [intros r []|intros tg r []]. }
    destruct Hone as (d1 & ev1 & Hrun1 & Hlog1 & Hrem1 & Honly1 & Hnew1).
    destruct (IH d1) as (us & d2 & ev2 & Hrun2 & Hlog2 & Hrem2 & Honly2 & Hnew2).
    exists (tt :: us), d2, (ev1 ++ ev2)%list.
    cbn [for_each]. unfold bind. rewrite Hrun1, Hrun2.
    split; [reflexivity|]. split; [now rewrite Hlog2, Hlog1, app_assoc|].
    split; [|split].
    + intros o' r Hin Hel. split.
      * apply in_or_app. destruct Hin as [<-|Hin]; [left; now apply Hrem1|].
        right. now apply (Hrem2 o' r).
      * pose proof (remove_all_detached p index (o :: os) d r) as Hdet.
        cbn [for_each] in Hdet. unfold bind in Hdet. rewrite Hrun1, Hrun2 in Hdet.
        apply Hdet. right. now exists o'.
    + intros r Hin. apply in_app_or in Hin as [Hin|Hin].
      * exists o. split; [now left | now apply Honly1].
      * destruct (Honly2 r Hin) as (o' & Ho' & Hel'). exists o'. split; [now right|exact Hel'].
    + intros tg r Hin. apply in_app_or in Hin as [Hin|Hin];
        [now apply (Hnew1 tg r) | now apply (Hnew2 tg r)].
Qed.

(** ** Keyed reconciliation: the key map of a keyed list *)

Lemma dict_set_fresh {V} (k : string) (v : V) (d : list (string * V)) :
  dict_get k d = None -> dict_set k v d = (d ++ [(k, v)])%list.
Proof.
  induction d as [|[k0 v0] d IH]; cbn [dict_get dict_set app]; [reflexivity|].
  destruct (String.eqb k0 k); [discriminate|]. intros H. now rewrite IH.
Qed.

Lemma dict_get_app {V} (k : string) (d1 d2 : list (string * V)) :
  dict_get k (d1 ++ d2) =
  match dict_get k d1 with Some v => Some v | None => dict_get k d2 end.
Proof.
  induction d1 as [|[k0 v0] d1 IH]; cbn [dict_get app]; [reflexivity|].
  destruct (String.eqb k0 k); [reflexivity|exact IH].
Qed.

Lemma dict_get_NoDup {V} (k : string) (v : V) (d : list (string * V)) :
  NoDup (map fst d) -> In (k, v) d -> dict_get k d = Some v.
Proof.
  induction d as [|[k0 v0] d IH]; intros Hnd Hin; [destruct Hin|].
  cbn [map fst] in Hnd. apply NoDup_cons in Hnd as [Hk0 Hnd].
  cbn [dict_get]. destruct Hin as [[= -> ->]|Hin].
  - now rewrite String.eqb_refl.
  - destruct (String.eqb_spec k0 k) as [->|]; [|now apply IH].
    exfalso. apply Hk0. apply list_elem_of_In.
    change k with (fst (k, v)). now apply in_map.
Qed.

Lemma keys_of_cons (c : VNodeChild) (cs : list VNodeChild) :
  keys_of (c :: cs) =
  match truthy_key c with Some k => k :: keys_of cs | None => keys_of cs end.
Proof. reflexivity. Qed.

Lemma entries_keys (i : nat) (cs : list VNodeChild) :
  map fst (entries_from i cs) = keys_of cs.
Proof.
  revert i. induction cs as [|c cs IH]; intros i; [reflexivity|].
  cbn [entries_from]. rewrite keys_of_cons.
  destruct (truthy_key c); cbn [map fst]; now rewrite IH.
Qed.

Lemma entries_in (i : nat) (cs : list VNodeChild) (k : string) (j : nat)
  (o : VNodeChild) :
  In (k, (j, o)) (entries_from i cs) -> In o cs /\ truthy_key o = Some k.
Proof.
  revert i. induction cs as [|c cs IH]; intros i; cbn [entries_from]; [intros []|].
  destruct (truthy_key c) as [kc|] eqn:Hc.
  - intros [[= -> _ ->]|Hin]; [split; [now left|exact Hc]|].
    destruct (IH _ Hin) as [Ho Hk]. split; [now right|exact Hk].
  - intros Hin. destruct (IH _ Hin) as [Ho Hk]. split; [now right|exact Hk].
Qed.

Lemma in_entries (i : nat) (cs : list VNodeChild) (k : string) (o : VNodeChild) :
  In o cs -> truthy_key o = Some k -> exists j, In (k, (j, o)) (entries_from i cs).
Proof.
  revert i. induction cs as [|c cs IH]; intros i Hin Hk; [destruct Hin|].
  cbn [entries_from]. destruct Hin as [->|Hin].
  - rewrite Hk. exists i. now left.
  - destruct (IH (S i) Hin Hk) as [j Hj].
    exists j. destruct (truthy_key c); [now right|exact Hj].
Qed.

Lemma keys_of_in (cs : list VNodeChild) (k : string) :
  In k (keys_of cs) <-> exists o, In o cs /\ truthy_key o = Some k.
Proof.
  unfold keys_of. rewrite <- list_elem_of_In, list_elem_of_omap.
  split; intros (o & Ho & Hk); exists o; split; try assumption;
    now apply list_elem_of_In.
Qed.

(** For a list without a repeated key, the map that the loop builds is
    the list of its entries. *)
Lemma build_keyed_entries (cs : list VNodeChild) (i : nat)
  (acc : list (string * (nat * VNodeChild))) :
  NoDup (keys_of cs) ->
  (forall k, In k (keys_of cs) -> dict_get k acc = None) ->
  build_keyed cs i acc = (acc ++ entries_from i cs)%list.
Proof.
  revert i acc. induction cs as [|c cs IH]; intros i acc Hnd Hacc.
  - cbn. now rewrite app_nil_r.
  - cbn [build_keyed entries_from]. rewrite keys_of_cons in Hnd, Hacc.
    destruct (truthy_key c) as [k|].
    + apply NoDup_cons in Hnd as [Hk Hnd].
      rewrite dict_set_fresh by (apply Hacc; now left).
      rewrite IH; [now rewrite <- app_assoc|exact Hnd|].
      intros k' Hk'. rewrite dict_get_app, (Hacc k' (or_intror Hk')).
      cbn [dict_get]. destruct (String.eqb_spec k k') as [->|]; [|reflexivity].
      exfalso. apply Hk. now apply list_elem_of_In.
    + now apply IH.
Qed.

Lemma old_keyed_spec (olds : list VNodeChild) :
  NoDup (keys_of olds) ->
  build_keyed olds 0 [] = entries_from 0 olds /\
  forall o k, In o olds -> truthy_key o = Some k ->
              exists i, dict_get k (entries_from 0 olds) = Some (i, o).
Proof.
  intros Hnd. split; [now apply (build_keyed_entries olds 0 [])|].
  intros o k Ho Hk. destruct (in_entries 0 olds k o Ho Hk) as [j Hj].
  exists j. apply dict_get_NoDup; [|exact Hj]. now rewrite entries_keys.
Qed.

(** ** Keyed reconciliation: hosts that are told apart *)

Lemma hosts_self (o : VNodeChild) (r : ref) :
  el_of o = Some r -> hosts o = r :: hosts_below o.
Proof.
  destruct o as [s|tag props cs key el]; cbn; [discriminate|]. now intros ->.
Qed.

Lemma distinct_not_below (olds : list VNodeChild) (o o1 : VNodeChild) (r : ref) :
  NoDup (flat_map hosts olds) ->
  In o olds -> In o1 olds -> el_of o = Some r -> ~ In r (hosts_below o1).
Proof.
  induction olds as [|c cs IH]; intros Hnd Ho Ho1 Hel Hbelow; [destruct Ho|].
  cbn [flat_map] in Hnd. apply NoDup_app in Hnd as (Hc & Hdisj & Hcs).
  assert (Hr : In r (hosts o)) by now apply el_in_hosts.
  assert (Hr1 : In r (hosts o1)) by now apply hosts_below_in_hosts.
  destruct Ho as [Ec|Ho], Ho1 as [Ec1|Ho1].
  - subst o o1. rewrite (hosts_self c r Hel) in Hc. apply NoDup_cons in Hc as [Hc _].
    apply Hc. now apply list_elem_of_In.
  - subst o. apply (Hdisj r); apply list_elem_of_In; [exact Hr|].
    now apply (hosts_in_flat o1).
  - subst o1. apply (Hdisj r); apply list_elem_of_In; [exact Hr1|].
    now apply (hosts_in_flat o).
  - now apply (IH Hcs Ho Ho1 Hel).
Qed.

Lemma distinct_same_key (olds : list VNodeChild) (o o' : VNodeChild) (r : ref) :
  NoDup (flat_map hosts olds) ->
  In o olds -> In o' olds -> el_of o = Some r -> el_of o' = Some r -> o = o'.
Proof.
  induction olds as [|c cs IH]; intros Hnd Ho Ho' Hel Hel'; [destruct Ho|].
  cbn [flat_map] in Hnd. apply NoDup_app in Hnd as (Hc & Hdisj & Hcs).
  assert (Hr : In r (hosts o)) by now apply el_in_hosts.
  assert (Hr' : In r (hosts o')) by now apply el_in_hosts.
  destruct Ho as [Ec|Ho], Ho' as [Ec'|Ho']; [congruence| | |now apply IH].
  - subst o. exfalso. apply (Hdisj r); apply list_elem_of_In; [exact Hr|].
    now apply (hosts_in_flat o').
  - subst o'. exfalso. apply (Hdisj r); apply list_elem_of_In; [exact Hr'|].
    now apply (hosts_in_flat o).
Qed.

Lemma new_calls_spec {A} (m : M Doc A) (d : Doc) (evs : list call) :
  log (snd (m d)) = (log d ++ evs)%list -> new_calls m d = evs.
Proof. intros H. unfold new_calls. rewrite H. apply drop_app_length. Qed.

(** [patch] on two [VNode]s of one tag, step by step. *)
Lemma patch_same_tag_eq (parent : option ref) (tag : string)
  (old_props new_props : list (string * pyval))
  (old_children new_children : list VNodeChild)
  (old_key new_key : option string) (old_el new_el : option ref) (index : nat) (d : Doc) :
  patch repr_obj parent
    (Some (VNode tag old_props old_children old_key old_el))
    (Some (VNode tag new_props new_children new_key new_el)) index d =
  (patch_props repr_obj old_el old_props new_props ;;
   let* children' :=
     (if has_keys new_children
      then patch_keyed_children repr_obj old_el old_children new_children
      else patch_children repr_obj old_el old_children new_children) in
   ret (Some (VNode tag new_props children' new_key old_el)))%py d.
Proof.
  unfold patch. cbn [patch_present]. rewrite String.eqb_refl. cbn [negb].
  unfold bind, patch_keyed_children, patch_children.
  destruct (patch_props repr_obj old_el old_props new_props d) as [[[]|e] d1];
    [|reflexivity].
  destruct (has_keys new_children).
  - destruct (patch_keyed_children_with _ _ _ _ _ d1) as [[cs|e] d2]; reflexivity.
  - destruct (patch_children_with _ _ _ _ _ d1) as [[cs|e] d2]; reflexivity.
Qed.

Lemma patch_same_tag_shape (par : option ref) (tag : string)
  (old_props new_props : list (string * pyval))
  (old_children new_children : list VNodeChild)
  (old_key new_key : option string) (old_el new_el : option ref) (index : nat)
  (d d' : Doc) (new' : option VNodeChild) :
  patch repr_obj par
    (Some (VNode tag old_props old_children old_key old_el))
    (Some (VNode tag new_props new_children new_key new_el)) index d = (Ok new', d') ->
  exists children', new' = Some (VNode tag new_props children' new_key old_el).
Proof.
  rewrite patch_same_tag_eq. unfold bind.
  destruct (patch_props repr_obj old_el old_props new_props d) as [[[]|e] d1];
    [|discriminate].
  destruct ((if has_keys new_children
             then patch_keyed_children repr_obj old_el old_children new_children
             else patch_children repr_obj old_el old_children new_children) d1)
    as [[cs|e'] d2]; [|discriminate].
  intros [= <- <-]. now exists cs.
Qed.

(** The host of the old node is the host of the new one when [patch]
    reuses. *)
Lemma patch_present_same_tag_el (par : option ref) (old new new' : VNodeChild)
  (index : nat) (d d' : Doc) :
  same_tag old new = true ->
  patch_present repr_obj par old new index d = (Ok new', d') ->
  el_of new' = el_of old.
Proof.
  intros Hsame Hrun.
  destruct old as [|otag oprops ocs okey oel]; [discriminate|].
  destruct new as [|ntag nprops ncs nkey nel]; [discriminate|].
  cbn in Hsame. apply String.eqb_eq in Hsame as ->.
  destruct (patch_same_tag_shape par ntag oprops nprops ocs ncs okey nkey oel nel
              index d d' (Some new')) as (cs & [= ->]); [|reflexivity].
  unfold patch, bind. now rewrite Hrun.
Qed.

Lemma runs_strengthen {A} (S : ref -> Prop) (Q Q' : A -> Prop) (m : M Doc A) :
  runs S Q m -> (forall d a d', m d = (Ok a, d') -> Q' a) ->
  runs S (fun a => Q a /\ Q' a) m.
Proof.
  intros Hm HQ' d.
  destruct (Hm d) as (a & d' & evs & Hrun & Ha & Hrest).
  exists a, d', evs. split; [exact Hrun|]. split; [|exact Hrest].
  split; [exact Ha | now apply (HQ' d a d')].
Qed.

End Runtime.

(** ** Keyed reconciliation: the two passes *)

Section Keyed.

Variable repr_obj : pyval -> string.

Lemma keyed_pass_spec (p : ref) (olds all_news : list VNodeChild) :
  NoDup (keys_of olds) -> forallb mounted olds = true ->
  forall news, (forall n, In n news -> In n all_news) ->
  forall (new_idx : nat) (used : gset string),
  runs (removed_in_pass olds all_news)
       (fun res => snd res = list_to_set (keys_of news) ∪ used /\
                   Forall2 (keyed_result olds) news (fst res))
       (keyed_pass repr_obj (patch_present repr_obj) (Some p)
          (entries_from 0 olds) news new_idx used).
Proof.
  intros Hnd Hm. destruct (old_keyed_spec olds Hnd) as [_ Huniq].
  induction news as [|n news IH]; intros Hall new_idx used.
  - cbn [keyed_pass]. apply runs_ret. cbn [fst snd]. split; [set_solver|constructor].
  - assert (Hall' : forall n0, In n0 news -> In n0 all_news)
      by (intros n0 Hn0; apply Hall; now right).
    cbn [keyed_pass]. destruct (truthy_key n) as [key|] eqn:Hkey.
    + assert (Hnode : is_str n = false).
      { destruct n; [discriminate Hkey | reflexivity]. }
      eapply runs_bind with (Q := keyed_result olds n).
      { destruct (dict_get key (entries_from 0 olds)) as [[old_idx old_child]|] eqn:Hget.
        - pose proof Hget as Hentry.
          apply dict_get_in, entries_in in Hentry as [Hoc Hkc].
          eapply runs_bind
            with (Q := fun c => patched n c /\
                         (same_tag old_child n = true -> el_of c = el_of old_child)).
          { eapply runs_weaken with (Q := fun c => patched n c /\
                         (same_tag old_child n = true -> el_of c = el_of old_child)).
            - apply runs_strengthen.
              + apply runs_patch_present. now apply (mounted_in old_child olds).
              + intros d0 a d0' Hrun Hsame.
                exact (patch_present_same_tag_el repr_obj _ _ _ _ _ _ _ Hsame Hrun).
            - intros r Hr. exists n, old_child.
              split; [apply Hall; now left|]. split; [exact Hoc|].
              split; [congruence|]. split; [rewrite Hkey; eauto|exact Hr].
            - auto. }
          intros c [Hc Hel]. destruct (proj2 Hc Hnode) as [e He]. rewrite He.
          eapply runs_seq with (Q := fun _ => True).
          { destruct (decide (old_idx = new_idx));
              [now apply runs_ret | apply runs_move_node]. }
          apply runs_ret. split; [exact (proj1 Hc)|].
          intros o Ho Hko _ Hsame.
          destruct (Huniq o key Ho) as [i Hi]; [congruence|].
          rewrite Hget in Hi. injection Hi as _ <-. now apply Hel.
        - eapply runs_bind; [apply (runs_mount repr_obj n _ p)|].
          intros c [Hc _]. destruct (proj2 Hc Hnode) as [e He]. rewrite He.
          eapply runs_bind; [apply runs_childNodes_of|]. intros nodes _.
          eapply runs_seq with (Q := fun _ => True).
          { destruct (decide (new_idx < length nodes));
              [apply runs_move_node | now apply runs_ret]. }
          apply runs_ret. split; [exact (proj1 Hc)|].
          intros o Ho Hko _ _.
          destruct (Huniq o key Ho) as [i Hi]; [congruence|].
          rewrite Hget in Hi. discriminate Hi. }
      intros n' Hn'.
      eapply runs_bind; [apply (IH Hall' (S new_idx))|]. intros r [Hused Hrest].
      apply runs_ret. cbn [fst snd]. split.
      * rewrite Hused, keys_of_cons, Hkey. set_solver.
      * now constructor.
    + eapply runs_bind; [apply (IH Hall' (S new_idx) used)|]. intros r [Hused Hrest].
      apply runs_ret. cbn [fst snd]. split.
      * now rewrite Hused, keys_of_cons, Hkey.
      * constructor; [|exact Hrest]. split; [reflexivity|].
        intros o _ _ [k Hk]. congruence.
Qed.

(** The second pass is a run of [remove_node] calls on the old children
    whose key was not used. *)
Lemma keyed_sweep_eq (p : ref) (entries : list (string * (nat * VNodeChild)))
  (used : gset string) (d : Doc) :
  keyed_sweep (Some p) entries used d =
  (for_each (fun o => remove_node (Some p) o 0) (unused used entries) ;; ret tt)%py d.
Proof.
  unfold keyed_sweep, unused, bind.
  assert (Hstep : forall d,
    match for_each (fun entry =>
                      if decide (fst entry ∈ used) then ret tt
                      else remove_node (Some p) (snd (snd entry)) 0) entries d with
    | (Ok _, d') => (Ok tt, d')
    | (Raise e, d') => (Raise e, d')
    end =
    match for_each (fun o => remove_node (Some p) o 0)
            (map (fun e => snd (snd e)) (filter (fun e => fst e ∉ used) entries)) d with
    | (Ok _, d') => (Ok tt, d')
    | (Raise e, d') => (Raise e, d')
    end).
  { clear d. induction entries as [|e entries IH]; intros d; [reflexivity|].
    rewrite filter_cons. cbn [for_each]. unfold bind.
    destruct (decide (fst e ∈ used)) as [Hin|Hnot].
    - rewrite decide_False by (intros H; now apply H).
      cbn [ret]. specialize (IH d).
      destruct (for_each _ entries d) as [[ys|ex] d1];
        destruct (for_each _ (map _ _) d) as [[zs|ez] d2]; cbn in *; congruence.
    - rewrite decide_True by exact Hnot. cbn [map for_each]. unfold bind.
      destruct (remove_node (Some p) (snd (snd e)) 0 d) as [[[]|ex] d1]; [|reflexivity].
      specialize (IH d1).
      destruct (for_each _ entries d1) as [[ys|ex] d2];
        destruct (for_each _ (map _ _) d1) as [[zs|ez] d3]; cbn in *; congruence. }
  specialize (Hstep d). cbn [ret] in *.
  destruct (for_each _ entries d) as [[ys|ex] d1];
    destruct (for_each _ (map _ _) d) as [[zs|ez] d2]; cbn in *; congruence.
Qed.

Lemma in_unused (used : gset string) (olds : list VNodeChild) (o : VNodeChild) :
  In o (unused used (entries_from 0 olds)) <->
  exists k, In o olds /\ truthy_key o = Some k /\ k ∉ used.
Proof.
  unfold unused. rewrite in_map_iff. split.
  - intros ([k [i o']] & <- & Hin). cbn [snd].
    apply list_elem_of_In, list_elem_of_filter in Hin as [Hk Hin]. cbn [fst] in Hk.
    apply list_elem_of_In, entries_in in Hin as [Ho Hko]. now exists k.
  - intros (k & Ho & Hk & Hused).
    destruct (in_entries 0 olds k o Ho Hk) as [j Hj].
    exists (k, (j, o)). split; [reflexivity|].
    apply list_elem_of_In, list_elem_of_filter. split; [exact Hused|].
    now apply list_elem_of_In.
Qed.

(** In a list without a repeated key, a key names one child. *)
Lemma same_key_same_child (cs : list VNodeChild) (n n1 : VNodeChild) (k : string) :
  NoDup (keys_of cs) -> In n cs -> In n1 cs ->
  truthy_key n = Some k -> truthy_key n1 = Some k -> n = n1.
Proof.
  induction cs as [|c cs IH]; intros Hnd Hn Hn1 Hk Hk1; [destruct Hn|].
  rewrite keys_of_cons in Hnd.
  assert (Hin : forall x, In x cs -> truthy_key x = Some k -> In k (keys_of cs)).
  { intros x Hx Hkx. apply keys_of_in. now exists x. }
  destruct Hn as [->|Hn], Hn1 as [->|Hn1]; [reflexivity| | |].
  - rewrite Hk in Hnd. apply NoDup_cons in Hnd as [Hout _].
    exfalso. apply Hout, list_elem_of_In, (Hin n1 Hn1 Hk1).
  - rewrite Hk1 in Hnd. apply NoDup_cons in Hnd as [Hout _].
    exfalso. apply Hout, list_elem_of_In, (Hin n Hn Hk).
  - apply IH; try assumption.
    destruct (truthy_key c); [now apply NoDup_cons in Hnd as [_ Hnd]|exact Hnd].
Qed.

Lemma bind_ok {A B} (m : M Doc A) (f : A -> M Doc B) (d d' : Doc) (b : B) :
  bind m f d = (Ok b, d') -> exists a dm, m d = (Ok a, dm) /\ f a dm = (Ok b, d').
Proof.
  unfold bind. destruct (m d) as [[a|e] dm]; [|discriminate].
  intros H. now exists a, dm.
Qed.

(** An entry of the key map holds the index of its child. *)
Lemma entries_at (i : nat) (cs : list VNodeChild) (k : string) (j : nat)
  (o : VNodeChild) :
  In (k, (j, o)) (entries_from i cs) -> i <= j /\ cs !! (j - i) = Some o.
Proof.
  revert i. induction cs as [|c cs IH]; intros i; cbn [entries_from]; [intros []|].
  assert (Hrest : In (k, (j, o)) (entries_from (S i) cs) ->
                  i <= j /\ (c :: cs) !! (j - i) = Some o).
  { intros Hin. destruct (IH _ Hin) as [Hle Hj]. split; [lia|].
    replace (j - i) with (S (j - S i)) by lia. exact Hj. }
  destruct (truthy_key c) as [kc|]; [|exact Hrest].
  intros [Heq|Hin]; [|exact (Hrest Hin)].
  injection Heq as _ <- <-. split; [lia|]. now rewrite Nat.sub_diag.
Qed.

(** What the first pass does for a new child whose key an old child
    has: it runs [patch] on the two, at the index of the new child, and
    then [move_node] when the old child had another index; what [patch]
    returns is what the pass hands back at that index. *)
Lemma keyed_pass_patches (p : ref) (olds all_news : list VNodeChild) :
  NoDup (keys_of olds) -> forallb mounted olds = true ->
  forall news, (forall n, In n news -> In n all_news) ->
  forall (new_idx : nat) (used : gset string) (d : Doc) res d',
  keyed_pass repr_obj (patch_present repr_obj) (Some p)
    (entries_from 0 olds) news new_idx used d = (Ok res, d') ->
  forall i n o,
    news !! i = Some n -> In o olds -> truthy_key o = truthy_key n ->
    is_Some (truthy_key n) ->
    exists n' j d1 d2 d3 before after,
      fst res !! i = Some n' /\ olds !! j = Some o /\
      log d1 = (log d ++ before)%list /\
      patch_present repr_obj (Some p) o n (new_idx + i) d1 = (Ok n', d2) /\
      (if decide (j = new_idx + i) then d3 = d2
       else move_node (Some p) (el_of n') (new_idx + i) d2 = (Ok tt, d3)) /\
      log d' = (log d3 ++ after)%list.
Proof.
  intros Hnd Hm. destruct (old_keyed_spec olds Hnd) as [_ Huniq].
  induction news as [|n0 news IH];
    intros Hall new_idx used d res d' Hrun i n o Hi Ho Hkey Hsome;
    [discriminate Hi|].
  assert (Hall' : forall n1, In n1 news -> In n1 all_news)
    by (intros n1 Hn1; apply Hall; now right).
  assert (Hall0 : forall n1, In n1 [n0] -> In n1 all_news).
  { intros n1 [<-|[]]. apply Hall. now left. }
  destruct (keyed_pass_spec p olds all_news Hnd Hm [n0] Hall0 new_idx used d)
    as (a0 & dm0 & evs0 & Hrun0 & _ & Hlog0 & _).
  cbn [keyed_pass] in Hrun, Hrun0.
  destruct (truthy_key n0) as [key|] eqn:Hk0.
  - apply bind_ok in Hrun as (c & dm & Hstep & Hrun).
    apply bind_ok in Hrun as (r & dr & Hrest & Hrun).
    cbn in Hrun. injection Hrun as <- <-.
    apply bind_ok in Hrun0 as (c' & dm' & Hstep' & Hrun0).
    rewrite Hstep in Hstep'. injection Hstep' as <- <-.
    cbn in Hrun0. injection Hrun0 as _ <-.
    destruct (keyed_pass_spec p olds all_news Hnd Hm news Hall' (S new_idx)
                ({[key]} ∪ used) dm)
      as (r' & dr' & evs & Hrest' & _ & Hlog & _).
    rewrite Hrest in Hrest'. injection Hrest' as <- <-.
    destruct i as [|i].
    + injection Hi as <-. rewrite Hk0 in Hkey.
      destruct (Huniq o key Ho Hkey) as [j Hj]. rewrite Hj in Hstep.
      pose proof (dict_get_in _ _ _ Hj) as Hentry.
      apply entries_at in Hentry as [_ Hat]. rewrite Nat.sub_0_r in Hat.
      apply bind_ok in Hstep as (c0 & d2 & Hp & Hstep).
      apply bind_ok in Hstep as ([] & d3 & Hmove & Hstep).
      cbn in Hstep. injection Hstep as <- <-.
      exists c0, j, d, d2, d3, [], evs. rewrite Nat.add_0_r, app_nil_r.
      split; [reflexivity|]. split; [exact Hat|]. split; [reflexivity|].
      split; [exact Hp|]. split; [|exact Hlog].
      destruct (decide (j = new_idx)) as [Hj0|Hj0]; [|exact Hmove].
      cbn in Hmove. now injection Hmove as <-.
    + cbn [lookup list_lookup] in Hi.
      destruct (IH Hall' (S new_idx) ({[key]} ∪ used) dm r dr Hrest i n o Hi Ho Hkey Hsome)
        as (n' & j & d1 & d2 & d3 & before & after & Hn' & Hj & Hl1 & Hp & Hmove & Hl3).
      exists n', j, d1, d2, d3, (evs0 ++ before)%list, after.
      replace (new_idx + S i) with (S new_idx + i) by lia.
      rewrite Hl1, Hlog0, <- app_assoc. now repeat split.
  - apply bind_ok in Hrun as (r & dr & Hrest & Hrun).
    cbn in Hrun. injection Hrun as <- <-.
    destruct i as [|i].
    + injection Hi as <-. rewrite Hk0 in Hsome. destruct Hsome as [k Hk]. discriminate Hk.
    + cbn [lookup list_lookup] in Hi.
      destruct (IH Hall' (S new_idx) used d r dr Hrest i n o Hi Ho Hkey Hsome)
        as (n' & j & d1 & d2 & d3 & before & after & Hn' & Hj & Hl1 & Hp & Hmove & Hl3).
      exists n', j, d1, d2, d3, before, after.
      replace (new_idx + S i) with (S new_idx + i) by lia. now repeat split.
Qed.

End Keyed.

(** C4. [patch] on two [VNode]s of one tag patches the props on the
    host of the old node, reconciles the children under that host, and
    hands the new node back with the host reference of the old one: the
    host is reused, not created. The children are reconciled by key
    exactly when the first new child is a [VNode] whose key is not
    [None]; no other child is looked at. On a mounted old node the call
    returns. *)
Theorem patch_same_tag_reuses_host (repr_obj : pyval -> string)
  (parent : option ref) (tag : string)
  (old_props new_props : list (string * pyval))
  (old_children new_children : list VNodeChild)
  (old_key new_key : option string) (old_el new_el : option ref) (index : nat) :
  let old := VNode tag old_props old_children old_key old_el in
  let new := VNode tag new_props new_children new_key new_el in
  (forall d,
     patch repr_obj parent (Some old) (Some new) index d =
     (patch_props repr_obj old_el old_props new_props ;;
      let* children' :=
        (if has_keys new_children
         then patch_keyed_children repr_obj old_el old_children new_children
         else patch_children repr_obj old_el old_children new_children) in
      ret (Some (VNode tag new_props children' new_key old_el)))%py d) /\
  (forall d new' d',
     patch repr_obj parent (Some old) (Some new) index d = (Ok new', d') ->
     exists children',
       new' = Some (VNode tag new_props children' new_key old_el)) /\
  (mounted old = true ->
   forall p d, exists children' d',
     patch repr_obj (Some p) (Some old) (Some new) index d
       = (Ok (Some (VNode tag new_props children' new_key old_el)), d') /\
     map strip children' = map strip new_children /\
     forall r tg, old_el = Some r -> r < length (nodes d) ->
       ~ In (CreateElement tg r)
            (new_calls (patch repr_obj (Some p) (Some old) (Some new) index) d)) /\
  has_keys [] = false /\
  (forall first rest,
     has_keys (first :: rest) =
     negb (is_str first) && match key_of first with Some _ => true | None => false end).
Proof.
  intros old new.
  assert (Hshape : forall par d new' d',
     patch repr_obj par (Some old) (Some new) index d = (Ok new', d') ->
     exists children',
       new' = Some (VNode tag new_props children' new_key old_el)).
  { intros par d new' d'. apply patch_same_tag_shape. }
  split; [intros d; apply patch_same_tag_eq|].
  split; [apply Hshape|].
  split; [|split; [reflexivity|]].
  - intros Hm p d.
    destruct (runs_patch_present repr_obj new old p index Hm d)
      as (a & d' & evs & Hrun & [Hstrip _] & Hlog & _ & _ & Hnew).
    assert (Hpatch : patch repr_obj (Some p) (Some old) (Some new) index d
                     = (Ok (Some a), d')).
    { unfold patch, bind. now rewrite Hrun. }
    destruct (Hshape _ _ _ _ Hpatch) as (children' & [= ->]).
    exists children', d'. split; [exact Hpatch|]. split.
    + cbn [strip] in Hstrip. now injection Hstrip as <-.
    + intros r tg Hr Hlt Hin.
      rewrite (new_calls_spec _ d evs) in Hin by (now rewrite Hpatch).
      apply Hnew in Hin. lia.
  - intros [s|t ps cs [k|] e] rest; reflexivity.
Qed.

Lemma patch_same_tag_reuses_host_witness :
  exists children' d',
    patch sample_repr (Some 0)
      (Some (VNode "ul" [] items_abc None (Some 0)))
      (Some (VNode "ul" [("class", PyStr "x")] [item "a" "A" None] None None))
      0 list_doc
    = (Ok (Some (VNode "ul" [("class", PyStr "x")] children' None (Some 0))), d').
Proof.
  destruct (patch_same_tag_reuses_host sample_repr (Some 0) "ul" []
              [("class", PyStr "x")] items_abc [item "a" "A" None]
              None None (Some 0) None 0) as (_ & _ & Hruns & _).
  destruct (Hruns eq_refl 0 list_doc) as (children' & d' & Hrun & _).
  now exists children', d'.
Defined.

(** The positional patch, loop by loop. It is three loops in a
    row. First every index present in both lists is patched at that
    index. Then [remove_node] is called for every extra old child, in
    list order, each time with the index [len(new_children)] and not the
    child's own index: an old [VNode] is taken out through its own host
    reference, an old text by what the live [childNodes] of the parent
    hold at that position at that moment. Last, every extra new child is
    mounted, in order. On mounted old children the call returns the new
    children with their hosts, and the host of every extra old [VNode]
    has had its [remove()] and hangs nowhere in the tree. *)
Theorem patch_children_by_index (repr_obj : pyval -> string)
  (parent : option ref) (olds news : list VNodeChild) :
  (forall d,
     patch_children repr_obj parent olds news d =
     (let* common :=
        for_each (fun ion => patch_present repr_obj parent
                               (fst (snd ion)) (snd (snd ion)) (fst ion))
                 (common_from 0 olds news) in
      for_each (fun old => remove_node parent old (length news))
               (drop (length news) olds) ;;
      let* added := for_each (mount repr_obj parent) (drop (length olds) news) in
      ret (common ++ added)%list)%py d) /\
  (forall j o n,
     olds !! j = Some o -> news !! j = Some n ->
     common_from 0 olds news !! j = Some (j, (o, n))) /\
  length (common_from 0 olds news) = min (length olds) (length news) /\
  (forall p old d,
     remove_node (Some p) old (length news) d =
     match old with
     | VText _ =>
         match children d p !! length news with
         | Some n => (Ok tt, logged (RemoveChild p n) (detach n d))
         | None => (Ok tt, d)
         end
     | VNode _ _ _ _ (Some el) => (Ok tt, logged (Remove el) (detach el d))
     | VNode _ _ _ _ None => (Ok tt, d)
     end) /\
  (forallb mounted olds = true ->
   forall p d, exists news' d',
     patch_children repr_obj (Some p) olds news d = (Ok news', d') /\
     Forall2 patched news news' /\
     forall o r,
       In o (drop (length news) olds) -> el_of o = Some r ->
       In (Remove r) (new_calls (patch_children repr_obj (Some p) olds news) d) /\
       detached r d').
Proof.
  split.
  { intros d. unfold patch_children, patch_children_with, bind.
    now rewrite patch_common_eq. }
  split; [intros j o n Ho Hn; exact (common_from_lookup olds news 0 j o n Ho Hn)|].
  split; [apply common_from_length|].
  split; [intros p old d; apply remove_node_eq|].
  intros Hm p d.
  assert (Hfn : Forall (behaves (patch_present repr_obj)) news).
  { apply List.Forall_forall. intros n _ o q idx Ho.
    eapply runs_weaken; [apply (runs_patch_present repr_obj n o q idx Ho)| |auto].
    intros r Hr. destruct (same_tag o n); [now apply hosts_below_in_hosts|exact Hr]. }
  destruct (runs_patch_children_with repr_obj (patch_present repr_obj) p olds news
              Hfn Hm d) as (news' & d' & evs & Hrun & Hpatched & Hlog & _).
  exists news', d'. split; [exact Hrun|]. split; [exact Hpatched|].
  intros o r Hin Hel.
  assert (Hlonger : drop (length olds) news = []).
  { apply drop_ge. destruct (decide (length news <= length olds)) as [|Hgt]; [assumption|].
    rewrite drop_ge in Hin by lia. destruct Hin. }
  unfold patch_children in Hrun |- *.
  rewrite (new_calls_spec _ d evs) by (now rewrite Hrun).
  unfold patch_children_with, bind in Hrun. rewrite Hlonger in Hrun.
  destruct (runs_patch_common (patch_present repr_obj) p news Hfn olds 0 Hm d)
    as (common & d1 & evs1 & Hrun1 & _ & Hlog1 & _).
  rewrite Hrun1 in Hrun.
  destruct (remove_phase p (length news) (drop (length news) olds) d1)
    as (us & d2 & evs2 & Hrun2 & Hlog2 & Hrem2 & _ & _).
  rewrite Hrun2 in Hrun. cbn in Hrun. injection Hrun as _ <-.
  destruct (Hrem2 o r Hin Hel) as [Hev Hdet]. split; [|exact Hdet].
  rewrite Hlog2, Hlog1, <- app_assoc in Hlog. apply app_inv_head in Hlog.
  subst evs. apply in_or_app. now right.
Qed.

Lemma patch_children_by_index_witness :
  exists news' d',
    patch_children sample_repr (Some 0) items_abc [item "a" "A2" None] list_doc
      = (Ok news', d') /\
    detached 3 d' /\ detached 5 d'.
Proof.
  destruct (patch_children_by_index sample_repr (Some 0) items_abc [item "a" "A2" None])
    as (_ & _ & _ & _ & Hruns).
  destruct (Hruns eq_refl 0 list_doc) as (news' & d' & Hrun & _ & Hrem).
  exists news', d'. split; [exact Hrun|]. split.
  - apply (Hrem (item "b" "B" (Some 3)) 3); [left|]; reflexivity.
  - apply (Hrem (item "c" "C" (Some 5)) 5); [right; left|]; reflexivity.
Defined.

(** C5. The code at an input where it does not remove the extra old
    child. Two texts [x], [y] are mounted under the element 0, as hosts
    1 and 2 ([text_doc] is the document [mount] makes of them), and
    patched against the one new child [div]. The common index replaces
    the text [x]: its host is removed and the [div] is appended, as host
    3, behind [y]. The extra old child [y] is then removed through
    position 1 of the live [childNodes], where the new [div] now is: the
    host 3 of the new child is removed, and the host 2 of the extra old
    child stays in the tree, the only child of the parent. *)
Lemma patch_children_removes_live_position :
  nodes text_doc =
    nodes (snd (for_each (mount sample_repr (Some 0)) [VText "x"; VText "y"]
                  (root_doc "div"))) /\
  children text_doc 0 = [1; 2] /\
  fst (patch_children sample_repr (Some 0) [VText "x"; VText "y"] [div [] []] text_doc)
    = Ok [VNode "div" [] [] None (Some 3)] /\
  log (snd (patch_children sample_repr (Some 0) [VText "x"; VText "y"] [div [] []]
              text_doc))
    = [RemoveChild 0 1; CreateElement "div" 3; AppendChild 0 3; RemoveChild 0 3] /\
  children (snd (patch_children sample_repr (Some 0) [VText "x"; VText "y"]
                   [div [] []] text_doc)) 0 = [2] /\
  ~ detached 2 (snd (patch_children sample_repr (Some 0) [VText "x"; VText "y"]
                       [div [] []] text_doc)).
Proof.
  repeat split; try reflexivity.
  intros H. apply (H 0). vm_compute. now left.
Qed.

(** C3, as the code has it. Keyed reconciliation of mounted old
    children against new children, both lists of [VNode]s with keys that
    are not empty and not repeated, returns the new children in shape.
    Every old child whose key no new child has is removed: its host has
    had its [remove()] and hangs nowhere in the tree. A new child whose
    key an old child of the same tag has is patched: [patch] is run on
    the old and the new child at the index of the new child, somewhere
    in the course of the calls, followed by [move_node] when the old
    child had another index, and what [patch] returns is what comes
    back at that index; it holds the host reference of the old child;
    and that host gets no [remove()], provided it is the host of no
    other node of the old children. When the hosts of the old trees are
    all different and every old and new child of one key have one tag,
    the old children that get a [remove()] are exactly those whose key
    no new child has. *)
Theorem patch_keyed_children_by_key (repr_obj : pyval -> string)
  (olds news : list VNodeChild) (p : ref) (d : Doc) :
  keyed_list olds -> keyed_list news -> forallb mounted olds = true ->
  exists news' d',
    patch_keyed_children repr_obj (Some p) olds news d = (Ok news', d') /\
    map strip news' = map strip news /\
    (forall o k r,
       In o olds -> truthy_key o = Some k -> el_of o = Some r ->
       ~ In k (keys_of news) ->
       In (Remove r) (new_calls (patch_keyed_children repr_obj (Some p) olds news) d) /\
       detached r d') /\
    (forall i n o,
       news !! i = Some n -> In o olds -> truthy_key o = truthy_key n ->
       tag_of o = tag_of n ->
       exists n',
         news' !! i = Some n' /\ el_of n' = el_of o /\
         (exists j d1 d2 d3 before after,
            olds !! j = Some o /\
            log d1 = (log d ++ before)%list /\
            patch_present repr_obj (Some p) o n i d1 = (Ok n', d2) /\
            (if decide (j = i) then d3 = d2
             else move_node (Some p) (el_of n') i d2 = (Ok tt, d3)) /\
            log d' = (log d3 ++ after)%list) /\
         forall r,
           el_of o = Some r -> ~ In r (hosts_below o) ->
           (forall o', In o' olds -> In r (hosts o') -> o' = o) ->
           ~ In (Remove r)
                (new_calls (patch_keyed_children repr_obj (Some p) olds news) d)) /\
    (NoDup (flat_map hosts olds) ->
     (forall o n, In o olds -> In n news -> truthy_key o = truthy_key n ->
                  tag_of o = tag_of n) ->
     forall o k r,
       In o olds -> truthy_key o = Some k -> el_of o = Some r ->
       (In (Remove r) (new_calls (patch_keyed_children repr_obj (Some p) olds news) d)
        <-> ~ In k (keys_of news))).
Proof.
  intros [Holds Hnd] [Hnews Hnd'] Hm.
  assert (Hnode : forall c cs, Forall (fun c => is_Some (truthy_key c)) cs ->
                               In c cs -> is_str c = false /\ is_Some (truthy_key c)).
  { intros c cs Hall Hin.
    pose proof (proj1 (List.Forall_forall _ _) Hall c Hin) as [k Hk].
    split; [|now exists k]. destruct c; [discriminate Hk|reflexivity]. }
  assert (Hsame : forall o n, In o olds -> In n news -> tag_of o = tag_of n ->
                              same_tag o n = true).
  { intros o n Ho Hn Htag. unfold same_tag.
    rewrite (proj1 (Hnode o olds Holds Ho)), (proj1 (Hnode n news Hnews Hn)), Htag.
    cbn. apply String.eqb_refl. }
  destruct (old_keyed_spec olds Hnd) as [Hkeyed _].
  destruct (keyed_pass_spec repr_obj p olds news Hnd Hm news (fun n H => H) 0 ∅ d)
    as ([news' used] & d1 & evs1 & Hrun1 & [Hused Hres] & Hlog1 & Hrem1 & Hlen1 & Hnew1).
  cbn [fst snd] in Hused, Hres.
  destruct (remove_phase p 0 (unused used (entries_from 0 olds)) d1)
    as (us & d2 & evs2 & Hrun2 & Hlog2 & Hrem2 & Honly2 & Hnew2).
  assert (Hrun : patch_keyed_children repr_obj (Some p) olds news d = (Ok news', d2)).
  { unfold patch_keyed_children, patch_keyed_children_with, bind.
    rewrite Hkeyed, Hrun1. cbn [fst snd].
    pose proof (keyed_sweep_eq p (entries_from 0 olds) used d1) as Hsweep.
    unfold bind in Hsweep. rewrite Hrun2 in Hsweep. now rewrite Hsweep. }
  assert (Hcalls : new_calls (patch_keyed_children repr_obj (Some p) olds news) d
                   = (evs1 ++ evs2)%list).
  { apply new_calls_spec. rewrite Hrun. cbn [snd].
    now rewrite Hlog2, Hlog1, app_assoc. }
  assert (Hgone : forall o k r,
            In o olds -> truthy_key o = Some k -> el_of o = Some r ->
            ~ In k (keys_of news) -> In (Remove r) evs2 /\ detached r d2).
  { intros o k r Ho Hk Hel Hnot. apply (Hrem2 o r); [|exact Hel].
    apply in_unused. exists k. split; [exact Ho|]. split; [exact Hk|].
    rewrite Hused. intros Hin. apply Hnot.
    apply list_elem_of_In. set_solver. }
  exists news', d2. split; [exact Hrun|]. rewrite Hcalls.
  split; [|split; [|split]].
  - symmetry. apply strip_children. eapply Forall2_impl; [exact Hres|].
    intros n n' [Hs _]. exact Hs.
  - intros o k r Ho Hk Hel Hnot.
    destruct (Hgone o k r Ho Hk Hel Hnot) as [Hin Hdet].
    split; [apply in_or_app; now right|exact Hdet].
  - intros i n o Hi Ho Hkey Htag.
    assert (Hn : In n news) by (apply list_elem_of_In; eapply list_elem_of_lookup_2, Hi).
    destruct (Hnode n news Hnews Hn) as [_ Hsome].
    destruct (keyed_pass_patches repr_obj p olds news Hnd Hm news (fun n H => H) 0 ∅ d
                (news', used) d1 Hrun1 i n o Hi Ho Hkey Hsome)
      as (n' & j & da & db & dc & before & after & Hi' & Hj & Hla & Hp & Hmove & Hlc).
    cbn [fst] in Hi'. cbn [Nat.add] in Hp, Hmove.
    destruct (Forall2_lookup_l _ _ _ _ _ Hres Hi) as (n'' & Hi'' & _ & Hel).
    rewrite Hi' in Hi''. injection Hi'' as <-.
    exists n'. split; [exact Hi'|]. split; [|split].
    + apply Hel; [exact Ho|exact Hkey|exact Hsome|]. now apply Hsame.
    + exists j, da, db, dc, before, (after ++ evs2)%list.
      split; [exact Hj|]. split; [exact Hla|]. split; [exact Hp|].
      split; [exact Hmove|]. now rewrite Hlog2, Hlc, app_assoc.
    + intros r Hr Hbelow Hown Hin. apply in_app_or in Hin as [Hin|Hin].
      * destruct (Hrem1 r Hin) as (n1 & o1 & Hn1 & Ho1 & Hkey1 & Hsome1 & Hr1).
        assert (Hhost : In r (hosts o1)).
        { destruct (same_tag o1 n1); [now apply hosts_below_in_hosts|exact Hr1]. }
        assert (o1 = o) by exact (Hown o1 Ho1 Hhost). subst o1.
        assert (n1 = n).
        { destruct Hsome as [k Hk].
          apply (same_key_same_child news n1 n k Hnd' Hn1 Hn); congruence. }
        subst n1. rewrite (Hsame o n Ho Hn Htag) in Hr1. exact (Hbelow Hr1).
      * destruct (Honly2 r Hin) as (o' & Ho' & Hel').
        apply in_unused in Ho' as (k' & Ho' & Hk' & Hnot).
        assert (o' = o) by exact (Hown o' Ho' (el_in_hosts o' r Hel')). subst o'.
        apply Hnot. rewrite Hused.
        assert (Hkin : k' ∈ keys_of news).
        { apply list_elem_of_In, keys_of_in. exists n. split; [exact Hn|congruence]. }
        set_solver.
  - intros Hhosts Htags o k r Ho Hk Hel. split.
    + intros Hin Hkin. apply in_app_or in Hin as [Hin|Hin].
      * destruct (Hrem1 r Hin) as (n & o1 & Hn & Ho1 & Hkey & _ & Hr).
        rewrite (Hsame o1 n Ho1 Hn (Htags o1 n Ho1 Hn Hkey)) in Hr.
        exact (distinct_not_below olds o o1 r Hhosts Ho Ho1 Hel Hr).
      * destruct (Honly2 r Hin) as (o' & Ho' & Hel').
        apply in_unused in Ho' as (k' & Ho' & Hk' & Hnot).
        assert (o = o') by exact (distinct_same_key olds o o' r Hhosts Ho Ho' Hel Hel').
        subst o'. assert (k' = k) by congruence. subst k'.
        apply Hnot. rewrite Hused. apply list_elem_of_In in Hkin. set_solver.
    + intros Hnot. apply in_or_app. right. exact (proj1 (Hgone o k r Ho Hk Hel Hnot)).
Qed.

Lemma keyed_list_items (cs : list VNodeChild) :
  forallb (fun c => match truthy_key c with Some _ => true | None => false end) cs = true ->
  bool_decide (NoDup (keys_of cs)) = true ->
  keyed_list cs.
Proof.
  intros Hall Hnd. split; [|now apply bool_decide_eq_true in Hnd].
  apply List.Forall_forall. intros c Hc.
  apply (proj1 (forallb_forall _ _) Hall) in Hc.
  destruct (truthy_key c) as [k|]; [now exists k|discriminate].
Qed.

Lemma items_abc_hosts : NoDup (flat_map hosts items_abc).
Proof.
  cbn. repeat (apply NoDup_cons_2; [rewrite list_elem_of_In; cbn; lia|]).
  apply NoDup_nil_2.
Qed.

Lemma patch_keyed_children_by_key_witness :
  exists news' d',
    patch_keyed_children sample_repr (Some 0) items_abc
      [item "c" "C" None; item "a" "A" None] list_doc = (Ok news', d') /\
    (exists n', news' !! 0 = Some n' /\ el_of n' = Some 5) /\
    ~ In (Remove 5)
         (new_calls (patch_keyed_children sample_repr (Some 0) items_abc
                       [item "c" "C" None; item "a" "A" None]) list_doc) /\
    detached 3 d' /\
    (In (Remove 1)
        (new_calls (patch_keyed_children sample_repr (Some 0) items_abc
                      [item "c" "C" None; item "a" "A" None]) list_doc)
     <-> ~ In "a" (keys_of [item "c" "C" None; item "a" "A" None])).
Proof.
  destruct (patch_keyed_children_by_key sample_repr items_abc
              [item "c" "C" None; item "a" "A" None] 0 list_doc
              (keyed_list_items items_abc eq_refl eq_refl)
              (keyed_list_items [item "c" "C" None; item "a" "A" None] eq_refl eq_refl)
              eq_refl)
    as (news' & d' & Hrun & _ & Hgone & Hkept & Hexact).
  assert (Hc : exists n', news' !! 0 = Some n' /\ el_of n' = Some 5 /\
               ~ In (Remove 5)
                    (new_calls (patch_keyed_children sample_repr (Some 0) items_abc
                                  [item "c" "C" None; item "a" "A" None]) list_doc)).
  { destruct (Hkept 0 (item "c" "C" None) (item "c" "C" (Some 5)) eq_refl)
      as (n' & Hn' & Hel & _ & Hkeep);
      [right; right; left; reflexivity|reflexivity|reflexivity|].
    exists n'. split; [exact Hn'|]. split; [exact Hel|].
    apply (Hkeep 5 eq_refl); [intros []|].
    intros o' [<-|[<-|[<-|[]]]] Hin; cbn in Hin; [lia|lia|reflexivity]. }
  destruct Hc as (n' & Hn' & Hel & Hkeep).
  exists news', d'. split; [exact Hrun|]. split; [|split; [|split]].
  - now exists n'.
  - exact Hkeep.
  - apply (Hgone (item "b" "B" (Some 3)) "b" 3);
      [right; left; reflexivity|reflexivity|reflexivity|].
    intros [H|[H|[]]]; discriminate H.
  - apply (Hexact items_abc_hosts) with (o := item "a" "A" (Some 1));
      [|left; reflexivity|reflexivity|reflexivity].
    intros o n Ho Hn _.
    destruct Ho as [<-|[<-|[<-|[]]]], Hn as [<-|[<-|[]]]; reflexivity.
Defined.

(** The two examples of the specification, run on three mounted items
    [a], [b], [c] with hosts 1, 3, 5 under the element 0: the reorder to
    [c], [a], [b] moves hosts and creates none; the cut to [a] calls
    [remove()] on the hosts of [b] and [c] and on nothing else. *)
Example keyed_reorder_reuses_hosts :
  nodes list_doc =
    nodes (snd (for_each (mount sample_repr (Some 0))
                  [item "a" "A" None; item "b" "B" None; item "c" "C" None]
                  (root_doc "ul"))) /\
  fst (patch_keyed_children sample_repr (Some 0) items_abc
         [item "c" "C" None; item "a" "A" None; item "b" "B" None] list_doc)
    = Ok [item "c" "C" (Some 5); item "a" "A" (Some 1); item "b" "B" (Some 3)] /\
  log (snd (patch_keyed_children sample_repr (Some 0) items_abc
              [item "c" "C" None; item "a" "A" None; item "b" "B" None] list_doc))
    = [InsertBefore 0 5 1; InsertBefore 0 1 1; InsertBefore 0 3 3] /\
  children (snd (patch_keyed_children sample_repr (Some 0) items_abc
                   [item "c" "C" None; item "a" "A" None; item "b" "B" None]
                   list_doc)) 0 = [5; 1; 3].
Proof. repeat split; reflexivity. Qed.

Example keyed_cut_removes_b_and_c :
  fst (patch_keyed_children sample_repr (Some 0) items_abc [item "a" "A" None] list_doc)
    = Ok [item "a" "A" (Some 1)] /\
  log (snd (patch_keyed_children sample_repr (Some 0) items_abc [item "a" "A" None]
              list_doc)) = [Remove 3; Remove 5] /\
  children (snd (patch_keyed_children sample_repr (Some 0) items_abc
                   [item "a" "A" None] list_doc)) 0 = [1].
Proof. repeat split; reflexivity. Qed.

(** Outside the keyed lists of the theorem. A child whose key is the
    empty string takes no part in the reconciliation, so an old one is
    not removed; and of two old children with one key only the later
    one is in the key map, so the earlier one is not removed either. *)
Example keyed_empty_key_is_skipped :
  log (snd (patch_keyed_children sample_repr (Some 0)
              [VNode "li" [] [] (Some EmptyString) (Some 1);
               VNode "li" [] [] (Some "b") (Some 2)]
              [VNode "li" [] [] (Some "a") None] pair_doc))
    = [CreateElement "li" 3; AppendChild 0 3; InsertBefore 0 3 1; Remove 2] /\
  children (snd (patch_keyed_children sample_repr (Some 0)
                   [VNode "li" [] [] (Some EmptyString) (Some 1);
                    VNode "li" [] [] (Some "b") (Some 2)]
                   [VNode "li" [] [] (Some "a") None] pair_doc)) 0 = [3; 1].
Proof. split; reflexivity. Qed.

Example keyed_repeated_key_keeps_first :
  log (snd (patch_keyed_children sample_repr (Some 0)
              [VNode "li" [] [] (Some "a") (Some 1);
               VNode "li" [] [] (Some "a") (Some 2)]
              [VNode "li" [] [] (Some "b") None] pair_doc))
    = [CreateElement "li" 3; AppendChild 0 3; InsertBefore 0 3 1; Remove 2] /\
  children (snd (patch_keyed_children sample_repr (Some 0)
                   [VNode "li" [] [] (Some "a") (Some 1);
                    VNode "li" [] [] (Some "a") (Some 2)]
                   [VNode "li" [] [] (Some "b") None] pair_doc)) 0 = [3; 1].
Proof. split; reflexivity. Qed.

(** C3, counterexample. The key [a] is in both lists, the old child a
    [li], the new one a [div]: the lists are well formed, yet the host 1
    of the old child gets its [remove()], a new host 7 is created for
    the new child, and the new child does not hold the host reference of
    the old one. *)
Lemma patch_keyed_children_replaces_other_tag :
  keyed_list items_abc /\
  keyed_list [VNode "div" [] [] (Some "a") None; item "b" "B" None; item "c" "C" None] /\
  forallb mounted items_abc = true /\ NoDup (flat_map hosts items_abc) /\
  fst (patch_keyed_children sample_repr (Some 0) items_abc
         [VNode "div" [] [] (Some "a") None; item "b" "B" None; item "c" "C" None]
         list_doc)
    = Ok [VNode "div" [] [] (Some "a") (Some 7); item "b" "B" (Some 3);
          item "c" "C" (Some 5)] /\
  log (snd (patch_keyed_children sample_repr (Some 0) items_abc
              [VNode "div" [] [] (Some "a") None; item "b" "B" None; item "c" "C" None]
              list_doc))
    = [Remove 1; CreateElement "div" 7; AppendChild 0 7] /\
  ~ (forall o n n' i,
       In o items_abc ->
       [VNode "div" [] [] (Some "a") None; item "b" "B" None; item "c" "C" None] !! i
         = Some n ->
       truthy_key o = truthy_key n ->
       fst (patch_keyed_children sample_repr (Some 0) items_abc
              [VNode "div" [] [] (Some "a") None; item "b" "B" None; item "c" "C" None]
              list_doc) = Ok n' ->
       option_map el_of (n' !! i) = Some (el_of o)).
Proof.
  split; [exact (keyed_list_items items_abc eq_refl eq_refl)|].
  split; [exact (keyed_list_items
                   [VNode "div" [] [] (Some "a") None; item "b" "B" None;
                    item "c" "C" None] eq_refl eq_refl)|].
  split; [reflexivity|].
  split; [exact items_abc_hosts|].
  split; [reflexivity|]. split; [reflexivity|].
  intros H.
  specialize (H (item "a" "A" (Some 1)) (VNode "div" [] [] (Some "a") None) _ 0
                (or_introl eq_refl) eq_refl eq_refl eq_refl).
  discriminate H.
Qed.

End RuntimeFacts.
(* ===================================================================== *)
(** * The todo store of server/actions.py                                 *)
(* ===================================================================== *)

Module ActionsFacts.

Import Actions ActionsSpec.

Lemma list_at_alter (st : Store) (f : list todo_ref -> list todo_ref) (l l' : list_ref)
  (ds : list Todo) (c : list_ref) (n : Z) :
  l < length (lists st) ->
  list_at (mkStore ds (alter f l (lists st)) c n) l' =
  if decide (l = l') then f (list_at st l') else list_at st l'.
Proof.
  intros Hl. unfold list_at; cbn.
  destruct (decide (l = l')) as [<-|Hne].
  - rewrite list_lookup_alter_eq.
    destruct (lists st !! l) eqn:E; [reflexivity|].
    apply lookup_ge_None in E. lia.
  - rewrite list_lookup_alter_ne by exact Hne. reflexivity.
Qed.

Lemma deref_app_l (st : Store) (extra : list Todo) (ls : list (list todo_ref))
  (c : list_ref) (n : Z) (r : todo_ref) :
  r < length (dicts st) ->
  deref (mkStore (dicts st ++ extra) ls c n) r = deref st r.
Proof.
  intros Hr. unfold deref; cbn. rewrite lookup_app_l by exact Hr. reflexivity.
Qed.

Lemma map_deref_app (st : Store) (extra : list Todo) (ls : list (list todo_ref))
  (c : list_ref) (n : Z) (rs : list todo_ref) :
  Forall (fun r => r < length (dicts st)) rs ->
  map (deref (mkStore (dicts st ++ extra) ls c n)) rs = map (deref st) rs.
Proof.
  induction 1 as [|r rs Hr _ IH]; [reflexivity|].
  cbn [map]. rewrite IH, deref_app_l by exact Hr. reflexivity.
Qed.

(** ** What each endpoint does to the todos *)

Lemma current_create (text : string) (st : Store) :
  store_ok st ->
  current (snd (create_todo text st)) =
  (current st ++ [mkTodo (_next_id st) text false])%list.
Proof.
  intros (Hl & Hrs & _).
  unfold current, todos_of, create_todo; cbn [snd _todos_db].
  rewrite list_at_alter by exact Hl.
  destruct (decide (_todos_db st = _todos_db st)) as [_|Hne]; [|congruence].
  rewrite map_app, map_deref_app by exact Hrs.
  f_equal. cbn [map]. unfold deref; cbn.
  rewrite list_lookup_middle by reflexivity. reflexivity.
Qed.

Lemma find_first_id (id : Z) (st : Store) (rs : list todo_ref) :
  match List.find (fun r => Z.eqb (todo_id (deref st r)) id) rs with
  | Some r => In r rs /\ todo_id (deref st r) = id
  | None => ~ In id (map (fun r => todo_id (deref st r)) rs)
  end.
Proof.
  induction rs as [|r rs IH]; cbn; [tauto|].
  destruct (Z.eqb_spec (todo_id (deref st r)) id) as [Heq|Hne].
  - split; [left; reflexivity|exact Heq].
  - destruct (List.find _ rs).
    + destruct IH as [Hin Hid]. split; [right; exact Hin|exact Hid].
    + intros [Heq|Hin]; [exact (Hne Heq)|exact (IH Hin)].
Qed.

Lemma ids_map (st : Store) :
  ids st = map (fun r => todo_id (deref st r)) (list_at st (_todos_db st)).
Proof. unfold ids, current, todos_of. rewrite map_map. reflexivity. Qed.

Lemma NoDup_map_inj_in {A B} (f : A -> B) (l : list A) (x y : A) :
  NoDup (map f l) -> In x l -> In y l -> f x = f y -> x = y.
Proof.
  induction l as [|a l IH]; cbn; [tauto|].
  intros Hnd [-> | Hx] [-> | Hy] Hf; try reflexivity.
  - apply NoDup_cons_1_1 in Hnd. exfalso; apply Hnd.
    rewrite Hf, list_elem_of_In. apply in_map, Hy.
  - apply NoDup_cons_1_1 in Hnd. exfalso; apply Hnd.
    rewrite <- Hf, list_elem_of_In. apply in_map, Hx.
  - apply IH; try assumption. eapply NoDup_cons_1_2, Hnd.
Qed.

Lemma current_update (id : Z) (done : bool) (st : Store) (r : todo_ref) :
  store_ok st ->
  List.find (fun r => Z.eqb (todo_id (deref st r)) id) (list_at st (_todos_db st)) = Some r ->
  current (snd (update_todo id done st)) =
  map (fun t => if Z.eqb (todo_id t) id then with_done done t else t) (current st).
Proof.
  intros (Hl & Hrs & Hnd & _) Hfind.
  pose proof (find_first_id id st (list_at st (_todos_db st))) as Hr.
  rewrite Hfind in Hr. destruct Hr as [Hin Hid].
  unfold update_todo. rewrite Hfind. cbn [snd].
  unfold current, todos_of. cbn [_todos_db]. rewrite map_map.
  change (list_at (mkStore _ (lists st) _ _) (_todos_db st)) with (list_at st (_todos_db st)).
  apply map_ext_in. intros r' Hin'.
  unfold deref at 1; cbn [dicts].
  destruct (decide (r = r')) as [<-|Hne].
  - rewrite list_lookup_alter_eq, Hid, Z.eqb_refl.
    pose proof (proj1 (Forall_forall _ _) Hrs) as Hlt.
    specialize (Hlt r). rewrite <- list_elem_of_In in Hin.
    specialize (Hlt Hin). apply lookup_lt_is_Some in Hlt. destruct Hlt as [t Ht].
    unfold with_done, deref in *. rewrite Ht in *. cbn in *. rewrite Hid. reflexivity.
  - rewrite list_lookup_alter_ne by exact Hne.
    fold (deref st r').
    destruct (Z.eqb_spec (todo_id (deref st r')) id) as [Heq|_]; [|reflexivity].
    exfalso; apply Hne. rewrite ids_map in Hnd.
    apply (NoDup_map_inj_in _ _ _ _ Hnd Hin Hin'). congruence.
Qed.

Lemma filter_map_comm {A B} (f : A -> B) (p : B -> bool) (l : list A) :
  map f (List.filter (fun x => p (f x)) l) = List.filter p (map f l).
Proof.
  induction l as [|a l IH]; [reflexivity|].
  cbn. destruct (p (f a)); cbn; rewrite IH; reflexivity.
Qed.

Lemma current_delete (id : Z) (st : Store) :
  current (snd (delete_todo id st)) =
  List.filter (fun t => negb (Z.eqb (todo_id t) id)) (current st).
Proof.
  unfold delete_todo.
  set (kept := List.filter _ (list_at st (_todos_db st))).
  assert (Hcur : forall res : response unit,
            current (snd (res, mkStore (dicts st) (lists st ++ [kept])
                                 (length (lists st)) (_next_id st)))
            = map (deref st) kept).
  { intros res. unfold current, todos_of, list_at; cbn.
    rewrite list_lookup_middle by reflexivity. reflexivity. }
  destruct (Nat.eqb _ _); rewrite Hcur; unfold kept, current, todos_of;
    apply (filter_map_comm (deref st) (fun t => negb (Z.eqb (todo_id t) id))).
Qed.

Lemma filter_all_length {A} (p : A -> bool) (l : list A) :
  length (List.filter p l) = length l <-> forall x, In x l -> p x = true.
Proof.
  induction l as [|a l IH]; cbn; [tauto|].
  pose proof (List.filter_length_le p l) as Hle.
  destruct (p a) eqn:E; cbn.
  - split.
    + intros Hlen x [<-|Hx]; [exact E|]. apply IH; [lia|exact Hx].
    + intros Hall. f_equal. apply IH. intros x Hx. apply Hall. right; exact Hx.
  - split; [lia|]. intros Hall. specialize (Hall a (or_introl eq_refl)). congruence.
Qed.

Lemma filtered_iff (id : Z) (st : Store) :
  length (List.filter (fun r => negb (Z.eqb (todo_id (deref st r)) id))
                      (list_at st (_todos_db st)))
  = length (list_at st (_todos_db st)) <-> ~ In id (ids st).
Proof.
  rewrite filter_all_length, ids_map, in_map_iff. split.
  - intros Hall (r & Hid & Hin). specialize (Hall r Hin).
    rewrite Hid, Z.eqb_refl in Hall. discriminate.
  - intros Hout r Hr.
    destruct (Z.eqb_spec (todo_id (deref st r)) id) as [Heq|_]; [|reflexivity].
    exfalso; apply Hout. exists r. split; assumption.
Qed.

Lemma delete_found (id : Z) (st : Store) :
  In id (ids st) -> fst (delete_todo id st) = Success tt.
Proof.
  intros Hin. unfold delete_todo.
  destruct (Nat.eqb_spec
              (length (List.filter (fun r => negb (Z.eqb (todo_id (deref st r)) id))
                                   (list_at st (_todos_db st))))
              (length (list_at st (_todos_db st)))) as [Heq|Hne]; [|reflexivity].
  apply filtered_iff in Heq. contradiction.
Qed.

Lemma delete_missing (id : Z) (st : Store) :
  ~ In id (ids st) -> fst (delete_todo id st) = HTTPException 404 "Todo not found".
Proof.
  intros Hout. unfold delete_todo.
  destruct (Nat.eqb_spec
              (length (List.filter (fun r => negb (Z.eqb (todo_id (deref st r)) id))
                                   (list_at st (_todos_db st))))
              (length (list_at st (_todos_db st)))) as [Heq|Hne]; [reflexivity|].
  exfalso; apply Hne, filtered_iff, Hout.
Qed.

Lemma filter_one_length {A} (f : A -> Z) (l : list A) (id : Z) :
  NoDup (map f l) -> In id (map f l) ->
  length (List.filter (fun x => negb (Z.eqb (f x) id)) l) + 1 = length l.
Proof.
  induction l as [|a l IH]; cbn; [tauto|].
  intros Hnd Hin.
  pose proof (NoDup_cons_1_1 _ _ Hnd) as Hout.
  pose proof (NoDup_cons_1_2 _ _ Hnd) as Hnd'.
  destruct (Z.eqb_spec (f a) id) as [Heq|Hne]; cbn.
  - assert (Hall : length (List.filter (fun x => negb (Z.eqb (f x) id)) l) = length l).
    { apply filter_all_length. intros x Hx.
      destruct (Z.eqb_spec (f x) id) as [Hx'|_]; [|reflexivity].
      exfalso; apply Hout. rewrite list_elem_of_In, Heq, <- Hx'. apply in_map, Hx. }
    lia.
  - destruct Hin as [Heq|Hin]; [contradiction|].
    specialize (IH Hnd' Hin). lia.
Qed.

Lemma in_filter_ids (id : Z) (l : list Todo) (x : Z) :
  In x (map todo_id (List.filter (fun t => negb (Z.eqb (todo_id t) id)) l)) <->
  In x (map todo_id l) /\ x <> id.
Proof.
  rewrite !in_map_iff. split.
  - intros (t & <- & Ht). apply List.filter_In in Ht. destruct Ht as [Ht Hne].
    split; [exists t; split; [reflexivity|exact Ht]|].
    destruct (Z.eqb_spec (todo_id t) id); [discriminate|assumption].
  - intros ((t & <- & Ht) & Hne). exists t. split; [reflexivity|].
    apply List.filter_In. split; [exact Ht|].
    destruct (Z.eqb_spec (todo_id t) id); [contradiction|reflexivity].
Qed.

Lemma NoDup_map_filter {A B} (f : A -> B) (p : A -> bool) (l : list A) :
  NoDup (map f l) -> NoDup (map f (List.filter p l)).
Proof.
  induction l as [|a l IH]; cbn; [auto|].
  intros Hnd.
  pose proof (NoDup_cons_1_1 _ _ Hnd) as Hout.
  pose proof (NoDup_cons_1_2 _ _ Hnd) as Hnd'.
  destruct (p a); cbn; [|auto].
  apply NoDup_cons_2; [|auto].
  intros Hin. apply Hout. rewrite list_elem_of_In in *.
  apply in_map_iff in Hin. destruct Hin as (x & Hx & Hin).
  apply List.filter_In in Hin. apply in_map_iff. exists x. tauto.
Qed.

(** ** The store stays in order *)

Lemma update_missing (id : Z) (done : bool) (st : Store) :
  ~ In id (ids st) ->
  update_todo id done st = (HTTPException 404 "Todo not found", st).
Proof.
  intros Hout. unfold update_todo.
  pose proof (find_first_id id st (list_at st (_todos_db st))) as Hr.
  destruct (List.find _ _) as [r|]; [|reflexivity].
  destruct Hr as [Hin Hid]. exfalso; apply Hout.
  rewrite ids_map, in_map_iff. exists r. split; assumption.
Qed.

Lemma update_found (id : Z) (done : bool) (st : Store) :
  In id (ids st) ->
  exists r, List.find (fun r => Z.eqb (todo_id (deref st r)) id)
                      (list_at st (_todos_db st)) = Some r /\
            In r (list_at st (_todos_db st)) /\ todo_id (deref st r) = id.
Proof.
  intros Hin.
  pose proof (find_first_id id st (list_at st (_todos_db st))) as Hr.
  destruct (List.find _ _) as [r|].
  - exists r. split; [reflexivity|exact Hr].
  - exfalso; apply Hr. rewrite <- ids_map. exact Hin.
Qed.

Lemma ids_update (id : Z) (done : bool) (st : Store) :
  store_ok st -> ids (snd (update_todo id done st)) = ids st.
Proof.
  intros Hok.
  destruct (in_dec Z.eq_dec id (ids st)) as [Hin|Hout].
  - destruct (update_found id done st Hin) as (r & Hfind & _).
    unfold ids. rewrite (current_update id done st r Hok Hfind), map_map.
    apply map_ext. intros t. destruct (Z.eqb (todo_id t) id); reflexivity.
  - rewrite update_missing by exact Hout. reflexivity.
Qed.

Lemma store_ok_create (text : string) (st : Store) :
  store_ok st -> store_ok (snd (create_todo text st)).
Proof.
  intros Hok. pose proof (current_create text st Hok) as Hcur.
  destruct Hok as (Hl & Hrs & Hnd & Hlt).
  split; [|split; [|split]].
  - cbn. rewrite length_alter. exact Hl.
  - cbn [snd create_todo _todos_db]. rewrite list_at_alter by exact Hl.
    destruct (decide (_todos_db st = _todos_db st)) as [_|Hne]; [|congruence].
    cbn [dicts]. rewrite length_app. cbn [length].
    apply Forall_app. split.
    + eapply Forall_impl; [exact Hrs|]. cbn. intros; lia.
    + apply Forall_cons. split; [lia|apply Forall_nil; exact I].
  - unfold ids. rewrite Hcur, map_app. cbn [map todo_id].
    apply NoDup_app. split; [exact Hnd|]. split.
    + intros x Hx Hx'. apply list_elem_of_In in Hx'. destruct Hx' as [<-|[]].
      pose proof (proj1 (Forall_forall _ _) Hlt _ Hx) as Hb. cbn in Hb. lia.
    + apply NoDup_singleton.
  - unfold ids. rewrite Hcur, map_app. cbn [map todo_id snd create_todo _next_id].
    apply Forall_app. split.
    + eapply Forall_impl; [exact Hlt|]. cbn. intros; lia.
    + apply Forall_cons. split; [lia|apply Forall_nil; exact I].
Qed.

Lemma store_ok_update (id : Z) (done : bool) (st : Store) :
  store_ok st -> store_ok (snd (update_todo id done st)).
Proof.
  intros Hok. pose proof (ids_update id done st Hok) as Hids.
  destruct Hok as (Hl & Hrs & Hnd & Hlt).
  unfold store_ok. rewrite Hids.
  unfold update_todo in *. destruct (List.find _ _) as [r|]; cbn [snd] in *.
  - split; [exact Hl|]. split; [|split; assumption].
    cbn [dicts]. rewrite length_alter. exact Hrs.
  - repeat split; assumption.
Qed.

Lemma store_ok_delete (id : Z) (st : Store) :
  store_ok st -> store_ok (snd (delete_todo id st)).
Proof.
  intros Hok. pose proof (current_delete id st) as Hcur.
  destruct Hok as (Hl & Hrs & Hnd & Hlt).
  assert (Hst : exists res, delete_todo id st =
            (res, mkStore (dicts st)
                    (lists st ++ [List.filter (fun r => negb (Z.eqb (todo_id (deref st r)) id))
                                    (list_at st (_todos_db st))])
                    (length (lists st)) (_next_id st))).
  { unfold delete_todo. destruct (Nat.eqb _ _); eexists; reflexivity. }
  destruct Hst as [res Hst]. unfold store_ok, ids. rewrite Hcur. rewrite Hst. cbn [snd].
  split; [|split; [|split]].
  - cbn. rewrite length_app. cbn. lia.
  - unfold list_at; cbn. rewrite list_lookup_middle by reflexivity. cbn.
    apply Forall_forall. intros r Hr. apply list_elem_of_In, List.filter_In in Hr.
    apply (proj1 (Forall_forall _ _) Hrs). apply list_elem_of_In. tauto.
  - apply NoDup_map_filter. exact Hnd.
  - apply Forall_forall. intros x Hx. apply list_elem_of_In, in_filter_ids in Hx.
    cbn. apply (proj1 (Forall_forall _ _) Hlt). apply list_elem_of_In. tauto.
Qed.

Lemma store_ok_reset (st : Store) : store_ok (_reset_database st).
Proof.
  assert (Hcur : current (_reset_database st) = initial_todos).
  { unfold current, todos_of, list_at, _reset_database; cbn.
    rewrite list_lookup_middle by reflexivity. cbn. unfold deref; cbn.
    rewrite !lookup_app_r by lia.
    replace (length (dicts st) - length (dicts st)) with 0 by lia.
    replace (length (dicts st) + 1 - length (dicts st)) with 1 by lia.
    replace (length (dicts st) + 2 - length (dicts st)) with 2 by lia.
    reflexivity. }
  unfold store_ok, ids. rewrite Hcur.
  split; [|split; [|split]].
  - cbn. rewrite length_app. cbn. lia.
  - unfold list_at, _reset_database; cbn.
    rewrite list_lookup_middle by reflexivity. cbn. rewrite length_app. cbn.
    repeat (apply Forall_cons; split; [lia|]). apply Forall_nil; exact I.
  - cbn. repeat (apply NoDup_cons_2; [rewrite list_elem_of_In; cbn; lia|]). apply NoDup_nil_2.
  - cbn. repeat (apply Forall_cons; split; [lia|]). apply Forall_nil; exact I.
Qed.

Lemma store_ok_initial : store_ok initial_store.
Proof.
  split; [cbn; lia|]. split; [|split].
  - unfold list_at; cbn. repeat (apply Forall_cons; split; [lia|]). apply Forall_nil; exact I.
  - cbn. repeat (apply NoDup_cons_2; [rewrite list_elem_of_In; cbn; lia|]). apply NoDup_nil_2.
  - cbn. repeat (apply Forall_cons; split; [lia|]). apply Forall_nil; exact I.
Qed.

Lemma store_ok_serve (r : request) (st : Store) :
  store_ok st -> store_ok (serve r st).
Proof.
  intros Hok. destruct r as [text|id done|id| |]; cbn.
  - destruct (CreateTodoPayload text); [apply store_ok_create|]; exact Hok.
  - apply store_ok_update, Hok.
  - apply store_ok_delete, Hok.
  - exact Hok.
  - apply store_ok_reset.
Qed.

Lemma store_ok_serve_all (reqs : list request) (st : Store) :
  store_ok st -> store_ok (serve_all reqs st).
Proof.
  revert st. induction reqs as [|r reqs IH]; intros st Hok; [exact Hok|].
  apply IH, store_ok_serve, Hok.
Qed.

Lemma texts_ok_serve (r : request) (st : Store) :
  store_ok st -> texts_ok st -> texts_ok (serve r st).
Proof.
  intros Hok Ht. unfold texts_ok in *. destruct r as [text|id done|id| |]; cbn [serve].
  - destruct text as [|a text]; cbn [CreateTodoPayload]; [exact Ht|].
    rewrite current_create by exact Hok.
    apply Forall_app. split; [exact Ht|].
    apply Forall_cons. split; [cbn; discriminate|apply Forall_nil; exact I].
  - destruct (in_dec Z.eq_dec id (ids st)) as [Hin|Hout].
    + destruct (update_found id done st Hin) as (r & Hfind & _).
      rewrite (current_update id done st r Hok Hfind).
      apply Forall_forall. intros t Hin'. apply list_elem_of_In, in_map_iff in Hin'.
      destruct Hin' as (t0 & <- & Hin0).
      pose proof (proj1 (Forall_forall _ _) Ht t0) as H0.
      rewrite list_elem_of_In in H0. specialize (H0 Hin0).
      destruct (Z.eqb (todo_id t0) id); exact H0.
    + rewrite update_missing by exact Hout. exact Ht.
  - rewrite current_delete.
    apply Forall_forall. intros t Hin. apply list_elem_of_In, List.filter_In in Hin.
    apply (proj1 (Forall_forall _ _) Ht). apply list_elem_of_In. tauto.
  - exact Ht.
  - assert (Hcur : current (_reset_database st) = initial_todos).
    { unfold current, todos_of, list_at, _reset_database; cbn.
      rewrite list_lookup_middle by reflexivity. cbn. unfold deref; cbn.
      rewrite !lookup_app_r by lia.
      replace (length (dicts st) - length (dicts st)) with 0 by lia.
      replace (length (dicts st) + 1 - length (dicts st)) with 1 by lia.
      replace (length (dicts st) + 2 - length (dicts st)) with 2 by lia.
      reflexivity. }
    rewrite Hcur. repeat (apply Forall_cons; split; [cbn; discriminate|]).
    apply Forall_nil; exact I.
Qed.

Lemma texts_ok_initial : texts_ok initial_store.
Proof.
  unfold texts_ok. cbn.
  repeat (apply Forall_cons; split; [cbn; discriminate|]). apply Forall_nil; exact I.
Qed.

(** X1. Whatever requests the module has served since it was imported,
    the todos it works on have pairwise different ids, every id is below
    [_next_id], and no stored text is empty. *)
Theorem todo_store_stays_in_order (reqs : list request) :
  let st := serve_all reqs initial_store in
  NoDup (ids st) /\
  Forall (fun id => (id < _next_id st)%Z) (ids st) /\
  Forall (fun t => todo_text t <> EmptyString) (current st).
Proof.
  cbn zeta.
  assert (H : forall reqs st, store_ok st -> texts_ok st ->
                store_ok (serve_all reqs st) /\ texts_ok (serve_all reqs st)).
  { clear reqs. induction reqs as [|r reqs IH]; intros st Hok Ht; [split; assumption|].
    apply IH; [apply store_ok_serve|apply texts_ok_serve]; assumption. }
  destruct (H reqs initial_store store_ok_initial texts_ok_initial)
    as ((_ & _ & Hnd & Hlt) & Ht).
  repeat split; assumption.
Qed.

(** X2. On a store in order [create_todo] answers with a todo that is
    not done, has the text of the payload and an id no stored todo has;
    it puts that todo at the end of the list, leaves the others as they
    are, and moves [_next_id] on by one. *)
Theorem create_todo_hands_out_fresh_id (text : string) (st : Store) :
  store_ok st ->
  let st' := snd (create_todo text st) in
  fst (create_todo text st) = Success (mkTodo (_next_id st) text false) /\
  ~ In (_next_id st) (ids st) /\
  current st' = (current st ++ [mkTodo (_next_id st) text false])%list /\
  _next_id st' = (_next_id st + 1)%Z /\
  store_ok st'.
Proof.
  intros Hok. cbn zeta.
  split; [reflexivity|]. split; [|split; [|split]].
  - destruct Hok as (_ & _ & _ & Hlt). intros Hin.
    apply list_elem_of_In in Hin.
    pose proof (proj1 (Forall_forall _ _) Hlt _ Hin) as Hb. cbn in Hb. lia.
  - apply current_create, Hok.
  - reflexivity.
  - apply store_ok_create, Hok.
Qed.

Lemma create_todo_hands_out_fresh_id_witness :
  fst (create_todo "Write tests" initial_store)
    = Success (mkTodo 4 "Write tests" false) /\
  ~ In 4%Z (ids initial_store) /\
  map todo_id (current (snd (create_todo "Write tests" initial_store)))
    = [1; 2; 3; 4]%Z.
Proof.
  destruct (create_todo_hands_out_fresh_id "Write tests" initial_store store_ok_initial)
    as (Hres & Hfresh & Hcur & _).
  split; [exact Hres|]. split; [exact Hfresh|].
  rewrite Hcur. reflexivity.
Defined.

Lemma with_done_found (id : Z) (st : Store) (r : todo_ref) (t : Todo) :
  store_ok st -> In r (list_at st (_todos_db st)) -> todo_id (deref st r) = id ->
  In t (current st) -> todo_id t = id -> deref st r = t.
Proof.
  intros (_ & _ & Hnd & _) Hr Hid Ht Hid'.
  apply (NoDup_map_inj_in todo_id (current st)); try assumption.
  - unfold current, todos_of. apply in_map, Hr.
  - congruence.
Qed.

(** X3. On a store in order [update_todo] with the id of a stored todo
    answers with that todo carrying the new [done] flag and changes this
    one flag in the store: the ids, the texts, the order and every other
    todo stay, and so does [_next_id]. With an id no stored todo has it
    answers 404 "Todo not found" and leaves the store as it is. *)
Theorem update_todo_sets_one_flag (id : Z) (done : bool) (st : Store) :
  store_ok st ->
  let st' := snd (update_todo id done st) in
  (forall t, In t (current st) -> todo_id t = id ->
     fst (update_todo id done st) = Success (with_done done t) /\
     current st' =
       map (fun x => if Z.eqb (todo_id x) id then with_done done x else x) (current st) /\
     In (with_done done t) (current st') /\
     (forall x, In x (current st) -> todo_id x <> id -> In x (current st'))) /\
  ids st' = ids st /\
  map todo_text (current st') = map todo_text (current st) /\
  _next_id st' = _next_id st /\
  (~ In id (ids st) ->
   update_todo id done st = (HTTPException 404 "Todo not found", st)).
Proof.
  intros Hok. cbn zeta.
  split; [|split; [|split; [|split]]].
  - intros t Ht Hid.
    assert (Hin : In id (ids st)) by (rewrite <- Hid; apply in_map, Ht).
    destruct (update_found id done st Hin) as (r & Hfind & Hr & Hrid).
    pose proof (with_done_found id st r t Hok Hr Hrid Ht Hid) as Hrt.
    pose proof (current_update id done st r Hok Hfind) as Hcur.
    split; [|split; [exact Hcur|split]].
    + unfold update_todo. rewrite Hfind. cbn. rewrite Hrt. reflexivity.
    + rewrite Hcur. apply in_map_iff. exists t. rewrite Hid, Z.eqb_refl. tauto.
    + intros x Hx Hne. rewrite Hcur. apply in_map_iff. exists x.
      destruct (Z.eqb_spec (todo_id x) id); [contradiction|tauto].
  - apply ids_update, Hok.
  - destruct (in_dec Z.eq_dec id (ids st)) as [Hin|Hout].
    + destruct (update_found id done st Hin) as (r & Hfind & _).
      rewrite (current_update id done st r Hok Hfind), map_map.
      apply map_ext. intros t. destruct (Z.eqb (todo_id t) id); reflexivity.
    + rewrite update_missing by exact Hout. reflexivity.
  - unfold update_todo. destruct (List.find _ _); reflexivity.
  - apply update_missing.
Qed.

Lemma update_todo_sets_one_flag_witness :
  fst (update_todo 1 true initial_store)
    = Success (mkTodo 1 "Learn Pickle-Reactor" true) /\
  map todo_done (current (snd (update_todo 1 true initial_store))) = [true; true; false] /\
  update_todo 9 true initial_store = (HTTPException 404 "Todo not found", initial_store).
Proof.
  destruct (update_todo_sets_one_flag 1 true initial_store store_ok_initial)
    as (Hone & _).
  destruct (Hone (mkTodo 1 "Learn Pickle-Reactor" false)) as (Hres & Hcur & _);
    [left; reflexivity|reflexivity|].
  destruct (update_todo_sets_one_flag 9 true initial_store store_ok_initial)
    as (_ & _ & _ & _ & Hmiss).
  split; [exact Hres|]. split; [rewrite Hcur; reflexivity|].
  apply Hmiss. cbn. intros H. repeat destruct H as [H|H]; try discriminate H; exact H.
Defined.

(** X4. On a store in order [delete_todo] with the id of a stored todo
    answers with success and takes exactly that todo out: the list is
    one shorter, the id is gone, the other todos stay in their order,
    and an update of that id now answers 404. With an id no stored todo
    has it answers 404 "Todo not found" and the todos are as before. *)
Theorem delete_todo_removes_one (id : Z) (st : Store) :
  store_ok st ->
  let st' := snd (delete_todo id st) in
  current st' = List.filter (fun t => negb (Z.eqb (todo_id t) id)) (current st) /\
  ~ In id (ids st') /\
  store_ok st' /\
  (In id (ids st) ->
   fst (delete_todo id st) = Success tt /\
   length (current st') + 1 = length (current st) /\
   forall done, fst (update_todo id done st') = HTTPException 404 "Todo not found") /\
  (~ In id (ids st) ->
   fst (delete_todo id st) = HTTPException 404 "Todo not found" /\
   current st' = current st).
Proof.
  intros Hok. cbn zeta.
  pose proof (current_delete id st) as Hcur.
  assert (Hgone : ~ In id (ids (snd (delete_todo id st)))).
  { unfold ids. rewrite Hcur, in_filter_ids. tauto. }
  split; [exact Hcur|]. split; [exact Hgone|].
  split; [apply store_ok_delete, Hok|]. split.
  - intros Hin. split; [apply delete_found, Hin|]. split.
    + rewrite Hcur. apply filter_one_length; [apply Hok|exact Hin].
    + intros done. rewrite update_missing by exact Hgone. reflexivity.
  - intros Hout. split; [apply delete_missing, Hout|].
    rewrite Hcur.
    assert (Hall : forall t, In t (current st) ->
                     negb (Z.eqb (todo_id t) id) = true).
    { intros t Ht. destruct (Z.eqb_spec (todo_id t) id) as [Heq|_]; [|reflexivity].
      exfalso; apply Hout. rewrite <- Heq. apply in_map, Ht. }
    clear -Hall. induction (current st) as [|a l IH]; [reflexivity|].
    cbn. rewrite (Hall a (or_introl eq_refl)). f_equal.
    apply IH. intros t Ht. apply Hall. right; exact Ht.
Qed.

Lemma delete_todo_removes_one_witness :
  map todo_id (current (snd (delete_todo 2 initial_store))) = [1; 3]%Z /\
  fst (delete_todo 2 initial_store) = Success tt /\
  fst (delete_todo 2 (snd (delete_todo 2 initial_store)))
    = HTTPException 404 "Todo not found".
Proof.
  destruct (delete_todo_removes_one 2 initial_store store_ok_initial)
    as (Hcur & Hgone & Hok & Hin & _).
  split; [rewrite Hcur; reflexivity|].
  split; [apply Hin; cbn; tauto|].
  destruct (delete_todo_removes_one 2 _ Hok) as (_ & _ & _ & _ & Hout).
  apply Hout, Hgone.
Defined.

Lemma next_id_serve (r : request) (st : Store) :
  r <> Reset -> (_next_id st <= _next_id (serve r st))%Z.
Proof.
  intros Hr. destruct r as [text|id done|id| |]; cbn [serve].
  - destruct (CreateTodoPayload text); cbn; lia.
  - unfold update_todo. destruct (List.find _ _); cbn; lia.
  - unfold delete_todo. destruct (Nat.eqb _ _); cbn; lia.
  - cbn. lia.
  - exfalso; apply Hr; reflexivity.
Qed.

(** X5. A deleted todo does not come back: after [delete_todo] took a
    stored todo out, no later request hands its id out again, as long as
    the store is not reset. *)
Theorem deleted_id_stays_gone (id : Z) (st : Store) (reqs : list request) :
  store_ok st -> In id (ids st) -> Forall (fun r => r <> Reset) reqs ->
  ~ In id (ids (serve_all reqs (serve (Delete id) st))).
Proof.
  intros Hok Hin Hreqs.
  assert (Hlt : (id < _next_id st)%Z).
  { destruct Hok as (_ & _ & _ & Hlt). apply list_elem_of_In in Hin.
    exact (proj1 (Forall_forall _ _) Hlt _ Hin). }
  destruct (delete_todo_removes_one id st Hok) as (_ & Hgone & Hok' & _).
  assert (Hlt' : (id < _next_id (serve (Delete id) st))%Z).
  { pose proof (next_id_serve (Delete id) st ltac:(discriminate)). lia. }
  change (snd (delete_todo id st)) with (serve (Delete id) st) in *.
  revert Hgone Hok' Hlt'. generalize (serve (Delete id) st). clear Hok Hin Hlt st.
  induction Hreqs as [|r reqs Hr _ IH]; intros st Hgone Hok Hlt; [exact Hgone|].
  cbn [serve_all foldl]. apply IH.
  - destruct r as [text|id' done|id'| |]; cbn [serve].
    + destruct (CreateTodoPayload text) as [t|]; [|exact Hgone].
      unfold ids. rewrite current_create by exact Hok.
      rewrite map_app, in_app_iff. cbn. intros [H|[H|[]]]; [exact (Hgone H)|lia].
    + rewrite ids_update by exact Hok. exact Hgone.
    + unfold ids. rewrite current_delete, in_filter_ids. intros [H _]. exact (Hgone H).
    + exact Hgone.
    + exfalso; apply Hr; reflexivity.
  - apply store_ok_serve, Hok.
  - pose proof (next_id_serve r st Hr). lia.
Qed.

Lemma deleted_id_stays_gone_witness :
  ~ In 2%Z (ids (serve_all [Post "a"; Put 2 true; Post "b"; Delete 1]
                   (serve (Delete 2) initial_store))).
Proof.
  apply (deleted_id_stays_gone 2 initial_store
           [Post "a"; Put 2 true; Post "b"; Delete 1] store_ok_initial).
  - cbn. tauto.
  - repeat (apply Forall_cons; split; [discriminate|]). apply Forall_nil; exact I.
Defined.

End ActionsFacts.

(* ===================================================================== *)
(** * The dashboard numbers of server/app.py                              *)
(* ===================================================================== *)

Module AppFacts.

Import Actions ActionsSpec.

Lemma other_list_serve (l : list_ref) (r : request) (st : Store) :
  l < length (lists st) -> l <> _todos_db st ->
  list_at (serve r st) l = list_at st l /\
  l < length (lists (serve r st)) /\ l <> _todos_db (serve r st).
Proof.
  intros Hl Hne.
  assert (Hsame : forall f,
            default [] (alter f (_todos_db st) (lists st) !! l) = default [] (lists st !! l)).
  { intros f. rewrite list_lookup_alter_ne by congruence. reflexivity. }
  assert (Hmore : forall extra,
            default [] ((lists st ++ [extra])%list !! l) = default [] (lists st !! l)).
  { intros extra. rewrite lookup_app_l by exact Hl. reflexivity. }
  destruct r as [text|id done|id| |]; cbn [serve].
  - destruct (CreateTodoPayload text); [|tauto].
    unfold list_at; cbn. rewrite Hsame, length_alter. tauto.
  - unfold update_todo. destruct (List.find _ _); cbn; tauto.
  - unfold delete_todo, list_at. destruct (Nat.eqb _ _); cbn;
      rewrite Hmore, length_app; cbn; repeat split; lia.
  - cbn. tauto.
  - unfold _reset_database, list_at. cbn.
    rewrite Hmore, length_app; cbn; repeat split; lia.
Qed.

Lemma other_list_serve_all (l : list_ref) (reqs : list request) (st : Store) :
  l < length (lists st) -> l <> _todos_db st ->
  list_at (serve_all reqs st) l = list_at st l.
Proof.
  revert st. induction reqs as [|r reqs IH]; intros st Hl Hne; [reflexivity|].
  destruct (other_list_serve l r st Hl Hne) as (Heq & Hl' & Hne').
  cbn [serve_all foldl]. fold (serve_all reqs (serve r st)).
  rewrite IH by assumption. exact Heq.
Qed.

Lemma total_length (todos : list Todo) :
  App.total (App.dashboard_stats todos) = length todos.
Proof. reflexivity. Qed.

Lemma count_ones {A} (l : list A) : list_sum (map (fun _ => 1) l) = length l.
Proof.
  induction l as [|a l IH]; [reflexivity|].
  change (S (list_sum (map (fun _ : A => 1) l)) = S (length l)).
  rewrite IH. reflexivity.
Qed.

(** X6. The list of todos that server/app.py reads is the list object
    the store named when the module was imported. A delete request
    (found or not) and a reset bind the store to a new list, and from
    then on the dashboard is cut off: whatever requests follow, the
    list it reads holds the same dicts, so its [total] never changes
    again, and the deleted todo is still counted. What the dashboard
    counts always adds up: [total = done + active]. *)
Theorem dashboard_reads_import_time_list (r : request) (reqs : list request)
  (st : Store) :
  App._todos_db < length (lists st) -> rebinds r = true ->
  let st' := serve_all reqs (serve r st) in
  list_at st' App._todos_db = list_at st App._todos_db /\
  App.total (App.dashboard_stats (todos_of st' App._todos_db))
    = App.total (App.dashboard_stats (todos_of st App._todos_db)) /\
  _todos_db st' <> App._todos_db /\
  (forall todos,
     App.total (App.dashboard_stats todos)
     = App.done (App.dashboard_stats todos) + App.active (App.dashboard_stats todos)).
Proof.
  intros Hl Hr. cbn zeta.
  assert (H1 : list_at (serve r st) App._todos_db = list_at st App._todos_db /\
               App._todos_db < length (lists (serve r st)) /\
               App._todos_db <> _todos_db (serve r st)).
  { destruct r as [text|id done|id| |]; try discriminate Hr; cbn [serve].
    - unfold delete_todo, list_at. destruct (Nat.eqb _ _); cbn;
        rewrite lookup_app_l, length_app by exact Hl; cbn; repeat split; lia.
    - unfold _reset_database, list_at. cbn.
      rewrite lookup_app_l, length_app by exact Hl; cbn; repeat split; lia. }
  destruct H1 as (Heq & Hl' & Hne').
  assert (Hlist : list_at (serve_all reqs (serve r st)) App._todos_db
                  = list_at st App._todos_db).
  { rewrite other_list_serve_all by assumption. exact Heq. }
  split; [exact Hlist|]. split; [|split].
  - rewrite !total_length. unfold todos_of. rewrite !length_map, Hlist. reflexivity.
  - clear Hlist Heq. revert Hl' Hne'. generalize (serve r st).
    induction reqs as [|q reqs IH]; intros s Hl' Hne';
      [intros H; apply Hne'; rewrite <- H; reflexivity|].
    destruct (other_list_serve App._todos_db q s Hl' Hne') as (_ & Hl2 & Hne2).
    cbn [serve_all foldl]. apply (IH _ Hl2 Hne2).
  - intros todos. unfold App.dashboard_stats; cbn. rewrite !count_ones.
    induction todos as [|t todos IH]; [reflexivity|].
    cbn. destruct (todo_done t); cbn; lia.
Qed.

Lemma dashboard_reads_import_time_list_witness :
  let st' := serve_all [Post "Write tests"; Put 2 false] (serve (Delete 1) initial_store) in
  App.total (App.dashboard_stats (todos_of st' App._todos_db)) = 3 /\
  map todo_id (current st') = [2; 3; 4]%Z /\
  map todo_id (todos_of st' App._todos_db) = [1; 2; 3]%Z.
Proof.
  cbn zeta.
  destruct (dashboard_reads_import_time_list (Delete 1)
              [Post "Write tests"; Put 2 false] initial_store) as (_ & Htotal & _).
  - cbn. lia.
  - reflexivity.
  - split; [rewrite Htotal; reflexivity|]. split; reflexivity.
Defined.

End AppFacts.

(* ===================================================================== *)
(** * Renders as functions of the slots                                   *)
(* ===================================================================== *)

Module ReplayFacts.

Import State StateSpec ReplaySpec StateFacts.

Section Hooks.

Variable call0 : nat -> pyval.

Lemma run_follow {A} (c : Comp A) (r : inst_ref) :
  forall w : World,
  _current_instance w = Some r ->
  hook_index (get_inst w r) <= length (state (get_inst w r)) ->
  fst (run call0 c w)
    = fst (follow call0 c r (state (get_inst w r)) (hook_index (get_inst w r))) /\
  state (get_inst (snd (run call0 c w)) r)
    = snd (follow call0 c r (state (get_inst w r)) (hook_index (get_inst w r))).
Proof.
  induction c as [a|e|initial k IH]; intros w Hcur Hle.
  - split; reflexivity.
  - split; reflexivity.
  - cbn [run follow].
    destruct (use_state_active call0 initial w r Hcur Hle)
      as (v & w' & -> & Hcur' & Hidx & _ & Hv & Hold & Hnew & _).
    assert (Hle' : hook_index (get_inst w' r) <= length (state (get_inst w' r))).
    { apply lookup_lt_Some in Hv. lia. }
    specialize (IH v (mkSetter r (hook_index (get_inst w r))) w' Hcur' Hle').
    rewrite Hidx, Nat.add_1_r in IH.
    destruct (decide (length (state (get_inst w r)) <= hook_index (get_inst w r)))
      as [Hge|Hlt].
    + destruct Hnew as (_ & Hst & _); [lia|]. rewrite <- Hst, Hv. exact IH.
    + destruct Hold as (Hst & _); [lia|]. rewrite <- Hst, Hv. exact IH.
Qed.

Lemma run_other {A} (c : Comp A) (r r' : inst_ref) :
  r' <> r ->
  forall w : World,
  _current_instance w = Some r ->
  hook_index (get_inst w r) <= length (state (get_inst w r)) ->
  get_inst (snd (run call0 c w)) r' = get_inst w r'.
Proof.
  intros Hne. induction c as [a|e|initial k IH]; intros w Hcur Hle;
    [reflexivity|reflexivity|].
  cbn [run].
  destruct (use_state_active call0 initial w r Hcur Hle)
    as (v & w' & -> & Hcur' & Hidx & _ & Hv & _ & _ & Hother).
  rewrite IH; [apply Hother, Hne|exact Hcur'|].
  apply lookup_lt_Some in Hv. lia.
Qed.

Lemma render_fst {A} (component_fn : props_t -> Comp A) (props : props_t)
  (instance : inst_ref) (w : World) :
  fst (render_component call0 component_fn props instance w)
  = fst (run call0 (component_fn props) (entered instance w)).
Proof.
  unfold render_component. fold (entered instance w).
  destruct (run call0 (component_fn props) (entered instance w)) as [[vnode|e] w'];
    reflexivity.
Qed.

Lemma render_follow {A} (component_fn : props_t -> Comp A) (props : props_t)
  (instance : inst_ref) (w : World) :
  fst (render_component call0 component_fn props instance w)
    = fst (follow call0 (component_fn props) instance (state (get_inst w instance)) 0) /\
  state (get_inst (snd (render_component call0 component_fn props instance w)) instance)
    = snd (follow call0 (component_fn props) instance (state (get_inst w instance)) 0).
Proof.
  destruct (entered_spec instance w) as (Hcur & Hidx & Hst & _).
  destruct (run_follow (component_fn props) instance (entered instance w) Hcur)
    as [Hres Hslots]; [lia|].
  rewrite Hidx, Hst in Hres, Hslots.
  destruct (render_component_world call0 component_fn props instance w) as [Hget _].
  rewrite render_fst, Hget. split; assumption.
Qed.

Lemma render_other {A} (component_fn : props_t -> Comp A) (props : props_t)
  (instance r' : inst_ref) (w : World) :
  r' <> instance ->
  get_inst (snd (render_component call0 component_fn props instance w)) r'
  = get_inst w r'.
Proof.
  intros Hne.
  destruct (entered_spec instance w) as (Hcur & Hidx & _).
  destruct (render_component_world call0 component_fn props instance w) as [Hget _].
  rewrite Hget, (run_other _ instance r' Hne) by (try assumption; lia).
  unfold entered. rewrite get_put_other by congruence. reflexivity.
Qed.

Lemma set_value_other (s : setter) (new : pyval) (w : World) (r' : inst_ref) :
  r' <> set_inst s -> get_inst (snd (set_value s new w)) r' = get_inst w r'.
Proof.
  intros Hne. unfold set_value.
  destruct (decide _); [|reflexivity].
  destruct (schedule_update _); cbn [snd]; rewrite ?get_record, get_put_other;
    congruence.
Qed.

End Hooks.

(** X8. Instances are isolated: whatever renders and setter calls are
    made on one instance, every other instance keeps its slots, its hook
    index and its callback. *)
Theorem other_instances_untouched (call0 : nat -> pyval) {A : Type}
  (component_fn : props_t -> Comp A) (props : props_t) (instance other : inst_ref)
  (acts : list action) (w : World) :
  other <> instance ->
  get_inst (do_actions call0 component_fn props instance acts w) other = get_inst w other.
Proof.
  intros Hne. revert w. induction acts as [|a acts IH]; intros w; [reflexivity|].
  unfold do_actions in *. cbn [foldl]. rewrite IH.
  destruct a as [|idx new]; cbn [do_action].
  - apply render_other, Hne.
  - apply set_value_other. exact Hne.
Qed.

Lemma other_instances_untouched_witness :
  get_inst (do_actions sample_call0 Form [] 0
              [Render; SetSlot 0 (PyStr "x"); Render]
              (put_inst 1 (mkInstance [PyInt 7] 1 (Some 2)) initial_world)) 1
  = mkInstance [PyInt 7] 1 (Some 2).
Proof.
  rewrite (other_instances_untouched sample_call0 Form [] 0 1) by discriminate.
  reflexivity.
Defined.

End ReplayFacts.

(* ===================================================================== *)
(** * [patch] on a tree that did not change                               *)
(* ===================================================================== *)

Module PatchFacts.

#[local] Set Warnings "-clear-no-such-hyp".

Import Dom Runtime RuntimeSpec PatchSpec RuntimeFacts.

Lemma silent_ret {A} (Q : A -> Prop) (a : A) : Q a -> silent Q (ret a).
Proof. intros HQ d. exists a. split; [reflexivity|exact HQ]. Qed.

Lemma silent_bind {A B} (Q : A -> Prop) (Q' : B -> Prop) (m : M Doc A)
  (f : A -> M Doc B) :
  silent Q m -> (forall a, Q a -> silent Q' (f a)) -> silent Q' (bind m f).
Proof.
  intros Hm Hf d. destruct (Hm d) as (a & Hma & Ha).
  destruct (Hf a Ha d) as (b & Hfb & Hb).
  exists b. unfold bind. rewrite Hma. split; assumption.
Qed.

Lemma silent_weaken {A} (Q Q' : A -> Prop) (m : M Doc A) :
  silent Q m -> (forall a, Q a -> Q' a) -> silent Q' m.
Proof.
  intros Hm HQ d. destruct (Hm d) as (a & Hma & Ha). exists a. split; auto.
Qed.

Lemma silent_for_each {A B} (Q : A -> B -> Prop) (f : A -> M Doc B) (xs : list A) :
  Forall (fun x => silent (Q x) (f x)) xs -> silent (Forall2 Q xs) (for_each f xs).
Proof.
  induction 1 as [|x xs Hx _ IH]; cbn [for_each].
  - apply silent_ret. constructor.
  - eapply silent_bind; [exact Hx|]. intros y Hy.
    eapply silent_bind; [exact IH|]. intros ys Hys.
    apply silent_ret. constructor; assumption.
Qed.

(** ** Values and mappings compared with themselves *)

Lemma one_per_key_NoDup {V} (d : list (string * V)) :
  one_per_key d = true -> NoDup (map fst d).
Proof. unfold one_per_key. apply bool_decide_eq_true_1. Qed.

Lemma dict_eqb_refl (x : list (string * string)) :
  one_per_key x = true -> dict_eqb x x = true.
Proof.
  intros Hx. apply one_per_key_NoDup in Hx. unfold dict_eqb.
  rewrite Nat.eqb_refl. cbn [andb]. apply forallb_forall. intros [k v] Hin.
  cbn [fst snd]. rewrite (dict_get_NoDup k v x Hx Hin). apply String.eqb_refl.
Qed.

Lemma py_eqb_refl (v : pyval) : mapping_value v = true -> py_eqb v v = true.
Proof.
  destruct v as [|b|z|s|f|items]; cbn; intros Hv.
  - reflexivity.
  - destruct b; reflexivity.
  - apply Z.eqb_refl.
  - apply String.eqb_refl.
  - apply Nat.eqb_refl.
  - apply dict_eqb_refl, Hv.
Qed.

Section Runtime.

Variable repr_obj : pyval -> string.

Lemma silent_patch_props (element : option ref) (props : list (string * pyval)) :
  one_per_key props = true ->
  forallb (fun kv => mapping_value (snd kv)) props = true ->
  silent (fun _ => True) (patch_props repr_obj element props props).
Proof.
  intros Hkeys Hvals. apply one_per_key_NoDup in Hkeys.
  assert (Hget : forall k v, In (k, v) props -> dict_get k props = Some v).
  { intros k v. apply dict_get_NoDup, Hkeys. }
  unfold patch_props.
  eapply silent_bind with (Q := fun _ => True).
  { eapply silent_weaken; [apply silent_for_each with (Q := fun _ _ => True)|auto].
    apply List.Forall_forall. intros [k v] Hin. unfold drop_prop, dict_mem.
    rewrite (Hget k v Hin). apply silent_ret. exact I. }
  intros _ _.
  eapply silent_bind with (Q := fun _ => True); [|intros; apply silent_ret; exact I].
  eapply silent_weaken; [apply silent_for_each with (Q := fun _ _ => True)|auto].
  apply List.Forall_forall. intros [k v] Hin. unfold update_prop.
  rewrite (Hget k v Hin). cbn [default].
  rewrite py_eqb_refl; [apply silent_ret; exact I|].
  rewrite forallb_forall in Hvals. apply (Hvals (k, v) Hin).
Qed.

(** ** Trees of one shape *)

Lemma strip_text (new : VNodeChild) (s : string) :
  strip new = strip (VText s) -> new = VText s.
Proof. destruct new; cbn; congruence. Qed.

Lemma strip_node (new : VNodeChild) (t : string) (ps : list (string * pyval))
  (cs : list VNodeChild) (k : option string) (e : option ref) :
  strip (VNode t ps cs k e) = strip new ->
  exists cs' e', new = VNode t ps cs' k e' /\ map strip cs = map strip cs'.
Proof.
  destruct new as [s|t' ps' cs' k' e']; cbn; [discriminate|].
  intros H. injection H as -> -> Hcs ->. eauto.
Qed.

Lemma map_strip_Forall2 (news olds : list VNodeChild) :
  map strip news = map strip olds ->
  Forall2 (fun n o => strip n = strip o) news olds.
Proof.
  revert olds. induction news as [|n news IH]; intros [|o olds] H;
    try discriminate H; [constructor|].
  cbn in H. injection H as Hn Hrest. constructor; [exact Hn|apply IH, Hrest].
Qed.

Lemma truthy_key_same (a b : VNodeChild) :
  strip a = strip b -> truthy_key a = truthy_key b.
Proof.
  destruct a, b; cbn; try discriminate; [reflexivity|].
  intros H. injection H as _ _ _ ->. reflexivity.
Qed.

Lemma has_keys_same (news olds : list VNodeChild) :
  Forall2 (fun n o => strip n = strip o) news olds -> has_keys news = has_keys olds.
Proof.
  intros H. destruct H as [|n o ns os Hn _]; [reflexivity|].
  destruct n, o; cbn in *; try discriminate; [reflexivity|].
  injection Hn as _ _ _ ->. reflexivity.
Qed.

Lemma keys_of_same (news olds : list VNodeChild) :
  Forall2 (fun n o => strip n = strip o) news olds -> keys_of news = keys_of olds.
Proof.
  induction 1 as [|n o news olds Hn _ IH]; [reflexivity|].
  rewrite !keys_of_cons, (truthy_key_same n o Hn), IH. reflexivity.
Qed.

Lemma in_entries_at (cs : list VNodeChild) :
  forall (i j : nat) (o : VNodeChild) (k : string),
  cs !! j = Some o -> truthy_key o = Some k -> In (k, (i + j, o)) (entries_from i cs).
Proof.
  induction cs as [|c cs IH]; intros i j o k Hj Hk; [discriminate Hj|].
  destruct j as [|j]; cbn [entries_from].
  - cbn in Hj. injection Hj as ->. rewrite Hk, Nat.add_0_r. left; reflexivity.
  - cbn in Hj. specialize (IH (S i) j o k Hj Hk).
    replace (i + S j) with (S i + j) by lia.
    destruct (truthy_key c); [right|]; exact IH.
Qed.

Lemma entries_lookup (cs : list VNodeChild) (i : nat) (o : VNodeChild) (k : string) :
  NoDup (keys_of cs) -> cs !! i = Some o -> truthy_key o = Some k ->
  dict_get k (entries_from 0 cs) = Some (i, o).
Proof.
  intros Hnd Hi Hk. apply dict_get_NoDup.
  - rewrite entries_keys. exact Hnd.
  - apply (in_entries_at cs 0 i o k Hi Hk).
Qed.

(** ** The children loops on children that did not change *)

Local Abbreviation unchanged := (PatchSpec.unchanged repr_obj).

Lemma silent_patch_common (parent : option ref) (news : list VNodeChild) :
  Forall unchanged news ->
  forall (olds : list VNodeChild) (i : nat),
  Forall2 (fun n o => strip n = strip o) news olds ->
  silent (fun res => map strip res = map strip olds /\
                     (forallb keyed_whole news = true -> res = olds))
         (patch_common (patch_present repr_obj) parent olds news i).
Proof.
  induction 1 as [|n news Hn _ IH]; intros olds i Hshape.
  - inversion Hshape; subst. cbn [patch_common]. apply silent_ret. split; auto.
  - inversion Hshape as [|? o ? olds' Ho Hrest]; subst. cbn [patch_common].
    eapply silent_bind; [apply (Hn o parent i Ho)|]. intros n' (Hs & _ & Hsame).
    eapply silent_bind; [apply (IH olds' (S i) Hrest)|]. intros rest (Hrs & Hrsame).
    apply silent_ret. split.
    + cbn [map]. rewrite Hs, Hrs. reflexivity.
    + cbn [forallb]. intros Hw. apply andb_prop in Hw as [Hw1 Hw2].
      rewrite (Hsame Hw1), (Hrsame Hw2). reflexivity.
Qed.

Lemma silent_patch_children (parent : option ref) (olds news : list VNodeChild) :
  Forall unchanged news ->
  Forall2 (fun n o => strip n = strip o) news olds ->
  silent (fun res => map strip res = map strip olds /\
                     (forallb keyed_whole news = true -> res = olds))
         (patch_children_with repr_obj (patch_present repr_obj) parent olds news).
Proof.
  intros Hfn Hshape. unfold patch_children_with.
  pose proof (Forall2_length _ _ _ Hshape) as Hlen.
  eapply silent_bind; [apply (silent_patch_common parent news Hfn olds 0 Hshape)|].
  intros common Hcommon.
  rewrite Hlen, drop_all, <- Hlen, drop_all. cbn [for_each].
  eapply silent_bind with (Q := fun _ => True); [apply silent_ret; exact I|].
  intros _ _.
  eapply silent_bind with (Q := fun added => added = []); [apply silent_ret; reflexivity|].
  intros added ->. apply silent_ret. rewrite app_nil_r. exact Hcommon.
Qed.

Lemma silent_keyed_pass (parent : option ref) (all_olds : list VNodeChild) :
  NoDup (keys_of all_olds) ->
  forall news, Forall unchanged news ->
  forall (olds : list VNodeChild) (i : nat) (used : gset string),
  Forall2 (fun n o => strip n = strip o) news olds ->
  (forall j o, olds !! j = Some o -> all_olds !! (i + j) = Some o) ->
  silent (fun res =>
            map strip (fst res) = map strip olds /\
            (forallb (fun c => match truthy_key c with Some _ => true | None => false end)
                     news = true ->
             forallb keyed_whole news = true -> fst res = olds) /\
            (forall k, In k (keys_of olds) \/ k ∈ used -> k ∈ snd res))
         (keyed_pass repr_obj (patch_present repr_obj) parent
            (entries_from 0 all_olds) news i used).
Proof.
  intros Hnd news Hfn.
  induction Hfn as [|n news Hn _ IH]; intros olds i used Hshape Hat.
  - inversion Hshape; subst. cbn [keyed_pass]. apply silent_ret.
    split; [reflexivity|]. split; [auto|]. intros k [[]|Hk]. exact Hk.
  - inversion Hshape as [|? o ? olds' Ho Hrest]; subst. cbn [keyed_pass].
    assert (Hat' : forall j o', olds' !! j = Some o' -> all_olds !! (S i + j) = Some o').
    { intros j o' Hj. replace (S i + j) with (i + S j) by lia. apply Hat. exact Hj. }
    pose proof (truthy_key_same n o Ho) as Hkey.
    destruct (truthy_key n) as [key|] eqn:Hn_key.
    + assert (Hget : dict_get key (entries_from 0 all_olds) = Some (i, o)).
      { apply entries_lookup; [exact Hnd| |congruence].
        rewrite <- (Nat.add_0_r i). apply Hat. reflexivity. }
      rewrite Hget.
      eapply silent_bind with (Q := kept (keyed_whole n) o).
      { eapply silent_bind; [apply (Hn o parent i Ho)|]. intros c Hc.
        eapply silent_bind with (Q := fun _ => True).
        { destruct (decide (i = i)) as [_|Hne]; [apply silent_ret; exact I|congruence]. }
        intros _ _. apply silent_ret. exact Hc. }
      intros n' (Hs & _ & Hsame).
      eapply silent_bind; [apply (IH olds' (S i) ({[key]} ∪ used) Hrest Hat')|].
      intros r (Hrs & Hrsame & Hused). apply silent_ret. cbn [fst snd].
      split; [cbn [map]; rewrite Hs, Hrs; reflexivity|]. split.
      * cbn [forallb]. rewrite Hn_key. intros Hk Hw.
        apply andb_prop in Hw as [Hw1 Hw2]. cbn [andb] in Hk.
        rewrite (Hsame Hw1), (Hrsame Hk Hw2). reflexivity.
      * intros k Hk. apply Hused. rewrite keys_of_cons, <- Hkey in Hk.
        destruct Hk as [[<-|Hk]|Hk]; [right; set_solver|left; exact Hk|right; set_solver].
    + eapply silent_bind; [apply (IH olds' (S i) used Hrest Hat')|].
      intros r (Hrs & Hrsame & Hused). apply silent_ret. cbn [fst snd].
      split; [cbn [map]; rewrite Ho, Hrs; reflexivity|]. split.
      * cbn [forallb]. rewrite Hn_key. discriminate.
      * intros k Hk. apply Hused. rewrite keys_of_cons, <- Hkey in Hk. exact Hk.
Qed.

Lemma silent_keyed_sweep (parent : option ref) (olds : list VNodeChild)
  (used : gset string) :
  (forall k, In k (keys_of olds) -> k ∈ used) ->
  silent (fun _ => True) (keyed_sweep parent (entries_from 0 olds) used).
Proof.
  intros Hused. unfold keyed_sweep.
  eapply silent_bind with (Q := fun _ => True); [|intros; apply silent_ret; exact I].
  eapply silent_weaken; [apply silent_for_each with (Q := fun _ _ => True)|auto].
  apply List.Forall_forall. intros [k [i o]] Hin. cbn [fst snd].
  rewrite decide_True; [apply silent_ret; exact I|].
  apply Hused. rewrite <- (entries_keys 0 olds).
  apply (in_map fst _ _ Hin).
Qed.

Lemma silent_patch_keyed_children (parent : option ref) (olds news : list VNodeChild) :
  Forall unchanged news ->
  Forall2 (fun n o => strip n = strip o) news olds ->
  NoDup (keys_of news) ->
  silent (fun res =>
            map strip res = map strip olds /\
            (forallb (fun c => match truthy_key c with Some _ => true | None => false end)
                     news = true ->
             forallb keyed_whole news = true -> res = olds))
         (patch_keyed_children_with repr_obj (patch_present repr_obj) parent olds news).
Proof.
  intros Hfn Hshape Hnd. rewrite (keys_of_same news olds Hshape) in Hnd.
  unfold patch_keyed_children_with.
  rewrite (proj1 (old_keyed_spec olds Hnd)).
  eapply silent_bind;
    [apply (silent_keyed_pass parent olds Hnd news Hfn olds 0 ∅ Hshape); auto|].
  intros r (Hrs & Hrsame & Hused).
  eapply silent_bind with (Q := fun _ => True).
  { apply silent_keyed_sweep. intros k Hk. apply Hused. left; exact Hk. }
  intros _ _. apply silent_ret. split; assumption.
Qed.

Lemma silent_patch_present (new : VNodeChild) :
  mappings new = true -> keys_distinct new = true -> unchanged new.
Proof.
  induction new as [s|tag props children key el IH] using VNodeChild_ind;
    intros Hmap Hkeys old parent idx Hshape.
  - symmetry in Hshape. apply strip_text in Hshape. subst old.
    cbn [patch_present]. rewrite String.eqb_refl. apply silent_ret.
    split; [reflexivity|]. split; [reflexivity|]. reflexivity.
  - destruct (strip_node old tag props children key el Hshape)
      as (olds & old_el & -> & Hcs).
    apply map_strip_Forall2 in Hcs.
    cbn [patch_present]. rewrite String.eqb_refl. cbn [negb].
    cbn [mappings] in Hmap.
    apply andb_prop in Hmap as [Hmap Hmap_cs]. apply andb_prop in Hmap as [Hps Hvals].
    cbn [keys_distinct] in Hkeys. apply andb_prop in Hkeys as [Hnd Hkeys_cs].
    assert (Hfn : Forall unchanged children).
    { rewrite forallb_forall in Hmap_cs, Hkeys_cs.
      apply List.Forall_forall. intros c Hc.
      apply (proj1 (List.Forall_forall _ _) IH c Hc); auto. }
    eapply silent_bind with (Q := fun _ => True); [apply silent_patch_props; assumption|].
    intros _ _.
    eapply silent_bind with
      (Q := fun res => map strip res = map strip olds /\
                       (keyed_whole (VNode tag props children key el) = true -> res = olds)).
    { cbn [keyed_whole]. destruct (has_keys children).
      - eapply silent_weaken;
          [apply (silent_patch_keyed_children old_el olds children Hfn Hcs);
           exact (bool_decide_eq_true_1 _ Hnd)|].
        intros res [Hs Hsame]. split; [exact Hs|].
        intros Hw. apply andb_prop in Hw as [Hw1 Hw2]. auto.
      - eapply silent_weaken;
          [apply (silent_patch_children old_el olds children Hfn Hcs)|].
        intros res [Hs Hsame]. split; [exact Hs|].
        intros Hw. cbn [andb] in Hw. auto. }
    intros res [Hs Hsame]. apply silent_ret.
    split; [cbn [strip]; rewrite Hs; reflexivity|]. split; [reflexivity|].
    intros Hw. rewrite (Hsame Hw). reflexivity.
Qed.

End Runtime.

(** X9. [patch] on a new tree that has the shape of the old one (the
    same tags, props, texts, keys and children; the props and styles
    are mappings, and keyed siblings have different keys) touches
    nothing: no call is made on the document, which is left exactly as
    it was, and the new tree comes back with the host of the old one.
    When every keyed sibling list is keyed throughout, what comes back
    is the old tree itself, host references included. *)
Theorem patch_unchanged_is_silent (repr_obj : pyval -> string)
  (old new : VNodeChild) (parent : option ref) (index : nat) (d : Doc) :
  mappings new = true -> keys_distinct new = true -> strip new = strip old ->
  exists new',
    patch repr_obj parent (Some old) (Some new) index d = (Ok (Some new'), d) /\
    strip new' = strip old /\ el_of new' = el_of old /\
    (keyed_whole new = true -> new' = old).
Proof.
  intros Hmap Hkeys Hshape.
  destruct (silent_patch_present repr_obj new Hmap Hkeys old parent index Hshape d)
    as (new' & Hrun & Hkept).
  exists new'. split; [|exact Hkept].
  unfold patch, bind. rewrite Hrun. reflexivity.
Qed.

Lemma patch_unchanged_is_silent_witness :
  patch SsrSpec.sample_repr (Some 0) (Some sample_list) (Some (strip sample_list)) 0 list_doc
  = (Ok (Some sample_list), list_doc).
Proof.
  destruct (patch_unchanged_is_silent SsrSpec.sample_repr sample_list (strip sample_list)
              (Some 0) 0 list_doc) as (new' & Hrun & _ & _ & Hsame);
    [reflexivity|reflexivity|reflexivity|].
  rewrite Hrun, (Hsame eq_refl). reflexivity.
Defined.

End PatchFacts.

(* ===================================================================== *)
(** * The calls [mount] and [patch] make                                  *)
(* ===================================================================== *)

Module CallFacts.

#[local] Set Warnings "-clear-no-such-hyp".

Import Dom Runtime RuntimeSpec PatchSpec RuntimeFacts.

Lemma yields_ret {A} (E : list call -> Prop) (Q : A -> Prop) (a : A) :
  Q a -> E [] -> yields E Q (ret a).
Proof. intros HQ HE d. exists a, d, []. rewrite app_nil_r. auto. Qed.

Lemma yields_bind {A B} (E1 E2 E : list call -> Prop) (Q : A -> Prop) (Q' : B -> Prop)
  (m : M Doc A) (f : A -> M Doc B) :
  yields E1 Q m -> (forall a, Q a -> yields E2 Q' (f a)) ->
  (forall e1 e2, E1 e1 -> E2 e2 -> E (e1 ++ e2)%list) ->
  yields E Q' (bind m f).
Proof.
  intros Hm Hf HE d.
  destruct (Hm d) as (a & d1 & evs1 & Hrun1 & Ha & Hlog1 & He1).
  destruct (Hf a Ha d1) as (b & d2 & evs2 & Hrun2 & Hb & Hlog2 & He2).
  exists b, d2, (evs1 ++ evs2)%list. unfold bind. rewrite Hrun1.
  split; [exact Hrun2|]. split; [exact Hb|].
  split; [rewrite Hlog2, Hlog1, app_assoc; reflexivity|auto].
Qed.

Lemma yields_weaken {A} (E E' : list call -> Prop) (Q Q' : A -> Prop) (m : M Doc A) :
  yields E Q m -> (forall evs, E evs -> E' evs) -> (forall a, Q a -> Q' a) ->
  yields E' Q' m.
Proof.
  intros Hm HE HQ d. destruct (Hm d) as (a & d' & evs & Hrun & Ha & Hlog & He).
  exists a, d', evs. auto.
Qed.

Lemma yields_for_each {A B} (E : A -> list call -> Prop) (Q : A -> B -> Prop)
  (f : A -> M Doc B) (xs : list A) :
  Forall (fun x => yields (E x) (Q x) (f x)) xs ->
  yields (fun evs => exists parts, evs = concat parts /\ Forall2 E xs parts)
         (Forall2 Q xs) (for_each f xs).
Proof.
  induction 1 as [|x xs Hx _ IH]; cbn [for_each].
  - apply yields_ret; [constructor|]. exists []. split; [reflexivity|constructor].
  - eapply yields_bind; [exact Hx| |].
    + intros y Hy. eapply yields_bind with (E2 := fun evs => evs = []); [exact IH| |].
      * intros ys Hys. apply yields_ret; [constructor; assumption|reflexivity].
      * intros e1 e2 He1 ->. rewrite app_nil_r. exact He1.
    + cbn beta. intros e1 e2 He1 (parts & -> & Hparts).
      exists (e1 :: parts). split; [reflexivity|constructor; assumption].
Qed.

(** ** Calls of one kind *)

Lemma only_app (allowed : call -> bool) (e1 e2 : list call) :
  only allowed e1 -> only allowed e2 -> only allowed (e1 ++ e2).
Proof. unfold only. rewrite forallb_app. intros -> ->. reflexivity. Qed.

Lemma only_weaken (a b : call -> bool) (evs : list call) :
  (forall c, a c = true -> b c = true) -> only a evs -> only b evs.
Proof.
  unfold only. rewrite !forallb_forall. intros Hab Ha c Hc. apply Hab, Ha, Hc.
Qed.

Lemma only_concat (allowed : call -> bool) (parts : list (list call)) :
  Forall (only allowed) parts -> only allowed (concat parts).
Proof.
  induction 1 as [|e parts He _ IH]; [reflexivity|].
  cbn [concat]. apply only_app; assumption.
Qed.

Lemma count_app (f : call -> bool) (e1 e2 : list call) :
  count f (e1 ++ e2) = count f e1 + count f e2.
Proof. unfold count. rewrite List.filter_app, length_app. reflexivity. Qed.

Lemma count_none (a f : call -> bool) (evs : list call) :
  (forall c, a c = true -> f c = false) -> only a evs -> count f evs = 0.
Proof.
  intros Haf. unfold only, count. induction evs as [|c evs IH]; [reflexivity|].
  cbn. intros H. apply andb_prop in H as [Hc Hrest].
  rewrite (Haf c Hc). apply IH, Hrest.
Qed.

Lemma count_concat {A} (f : call -> bool) (g : A -> nat) (xs : list A)
  (parts : list (list call)) :
  Forall2 (fun x evs => count f evs = g x) xs parts ->
  count f (concat parts) = list_sum (map g xs).
Proof.
  induction 1 as [|x evs xs parts Hx _ IH]; [reflexivity|].
  cbn [concat map]. rewrite count_app, Hx, IH. reflexivity.
Qed.

Section Allowed.

Variable allowed : call -> bool.

Lemma call_ret {A} (Q : A -> Prop) (a : A) : Q a -> yields (only allowed) Q (ret a).
Proof. intros HQ. apply yields_ret; [exact HQ|reflexivity]. Qed.

Lemma call_bind {A B} (Q : A -> Prop) (Q' : B -> Prop) (m : M Doc A) (f : A -> M Doc B) :
  yields (only allowed) Q m -> (forall a, Q a -> yields (only allowed) Q' (f a)) ->
  yields (only allowed) Q' (bind m f).
Proof. intros Hm Hf. eapply yields_bind; [exact Hm|exact Hf|apply only_app]. Qed.

Lemma call_seq {A B} (Q : A -> Prop) (Q' : B -> Prop) (m : M Doc A) (k : M Doc B) :
  yields (only allowed) Q m -> yields (only allowed) Q' k ->
  yields (only allowed) Q' (bind m (fun _ => k)).
Proof. intros Hm Hk. eapply call_bind; [exact Hm|]. intros _ _. exact Hk. Qed.

Lemma call_for_each {A B} (Q : A -> B -> Prop) (f : A -> M Doc B) (xs : list A) :
  Forall (fun x => yields (only allowed) (Q x) (f x)) xs ->
  yields (only allowed) (Forall2 Q xs) (for_each f xs).
Proof.
  intros H. eapply yields_weaken;
    [apply (yields_for_each (fun _ => only allowed) Q f xs H)| |auto].
  intros evs (parts & -> & Hparts). apply only_concat.
  clear -Hparts. induction Hparts; constructor; assumption.
Qed.

Lemma call_for_each_any {A B} (f : A -> M Doc B) (xs : list A) :
  (forall x, In x xs -> yields (only allowed) (fun _ => True) (f x)) ->
  yields (only allowed) (fun _ => True) (for_each f xs).
Proof.
  intros H. eapply yields_weaken;
    [apply call_for_each with (Q := fun _ _ => True)|auto|auto].
  apply List.Forall_forall. exact H.
Qed.

(** The primitive calls: each returns and logs one call. *)
Ltac logs H :=
  intros d; eexists _, _, [_]; cbn;
  split; [reflexivity|split; [exact I|split; [reflexivity|]]];
  unfold only; cbn; rewrite H; reflexivity.

Lemma call_createElement (tag : string) :
  (forall r, allowed (CreateElement tag r) = true) ->
  yields (only allowed) (fun _ => True) (createElement tag).
Proof. intros H. logs H. Qed.

Lemma call_createTextNode (s : string) :
  (forall r, allowed (CreateTextNode s r) = true) ->
  yields (only allowed) (fun _ => True) (createTextNode s).
Proof. intros H. logs H. Qed.

Lemma call_appendChild (p c : ref) :
  allowed (AppendChild p c) = true ->
  yields (only allowed) (fun _ => True) (appendChild (Some p) (Some c)).
Proof. intros H. logs H. Qed.

Lemma call_removeChild (p c : ref) :
  allowed (RemoveChild p c) = true ->
  yields (only allowed) (fun _ => True) (removeChild (Some p) c).
Proof. intros H. logs H. Qed.

Lemma call_remove (el : ref) :
  allowed (Remove el) = true -> yields (only allowed) (fun _ => True) (remove el).
Proof. intros H. logs H. Qed.

Lemma call_insertBefore (p x before : ref) :
  allowed (InsertBefore p x before) = true ->
  yields (only allowed) (fun _ => True) (insertBefore (Some p) (Some x) before).
Proof.
  intros H d. eexists tt, _, [InsertBefore p x before]. cbn.
  split; [reflexivity|]. split; [exact I|].
  split; [destruct (decide (x = before)); reflexivity|].
  unfold only; cbn. rewrite H. reflexivity.
Qed.

Lemma call_setAttribute (e : ref) (k v : string) :
  allowed (SetAttribute e k v) = true ->
  yields (only allowed) (fun _ => True) (setAttribute (Some e) k v).
Proof. intros H. logs H. Qed.

Lemma call_removeAttribute (e : ref) (k : string) :
  allowed (RemoveAttribute e k) = true ->
  yields (only allowed) (fun _ => True) (removeAttribute (Some e) k).
Proof. intros H. logs H. Qed.

Lemma call_set_className (e : ref) (v : pyval) :
  allowed (SetClassName e v) = true ->
  yields (only allowed) (fun _ => True) (set_className (Some e) v).
Proof. intros H. logs H. Qed.

Lemma call_set_style (e : ref) (k v : string) :
  allowed (SetStyle e k v) = true ->
  yields (only allowed) (fun _ => True) (set_style (Some e) k v).
Proof. intros H. logs H. Qed.

Lemma call_addEventListener (e : ref) (ev : string) (f : nat) :
  allowed (AddEventListener e ev f) = true ->
  yields (only allowed) (fun _ => True) (addEventListener (Some e) ev f).
Proof. intros H. logs H. Qed.

Lemma call_childNodes_of (p : ref) :
  yields (only allowed) (fun _ => True) (childNodes_of (Some p)).
Proof.
  intros d. exists (children d p), d, []. cbn. rewrite app_nil_r.
  repeat split.
Qed.

Lemma call_set_textContent (node : ref) (s : string) :
  allowed (SetTextContent node s) = true ->
  yields (only allowed) (fun _ => True) (set_textContent node s).
Proof.
  intros H d. unfold set_textContent.
  destruct (nodeTag (host (logged (SetTextContent node s) d) node)).
  - destruct (String.eqb s EmptyString); eexists _, _, [_]; cbn;
      (split; [reflexivity|split; [exact I|split; [reflexivity|]]]);
      unfold only; cbn; rewrite H; reflexivity.
  - eexists _, _, [_]; cbn.
    split; [reflexivity|split; [exact I|split; [reflexivity|]]].
    unfold only; cbn; rewrite H; reflexivity.
Qed.

End Allowed.

(** ** What [mount] logs *)

Lemma list_sum_add {A} (f g : A -> nat) (l : list A) :
  list_sum (map (fun x => f x + g x) l) = list_sum (map f l) + list_sum (map g l).
Proof.
  induction l as [|a l IH]; [reflexivity|].
  change (f a + g a + list_sum (map (fun x => f x + g x) l)
          = f a + list_sum (map f l) + (g a + list_sum (map g l))).
  rewrite IH. lia.
Qed.

Lemma vnode_count_node (tag : string) (props : list (string * pyval))
  (children : list VNodeChild) (key : option string) (el : option ref) :
  SsrSpec.vnode_count (VNode tag props children key el)
  = 1 + list_sum (map SsrSpec.vnode_count children).
Proof. reflexivity. Qed.

Section Mount.

Variable repr_obj : pyval -> string.

Lemma call_mount_prop (allowed : call -> bool) (el : ref) (kv : string * pyval) :
  (forall c, sets_prop c = true -> allowed c = true) ->
  yields (only allowed) (fun _ => True) (mount_prop repr_obj (Some el) kv).
Proof.
  intros Hs. destruct kv as [k v]. unfold mount_prop.
  destruct (startswith "on_" k && callable v);
    [apply call_addEventListener, Hs; reflexivity|].
  destruct (String.eqb k "class"); [apply call_set_className, Hs; reflexivity|].
  destruct (String.eqb k "style" && is_dict v);
    [|apply call_setAttribute, Hs; reflexivity].
  eapply call_seq; [|apply call_ret; exact I].
  apply call_for_each_any. intros sv _. apply call_set_style, Hs. reflexivity.
Qed.

Lemma builds_parts (children : list VNodeChild) (parts : list (list call)) :
  Forall2 builds children parts ->
  only additive (concat parts) /\
  count is_createElement (concat parts) = list_sum (map SsrSpec.vnode_count children) /\
  count is_createTextNode (concat parts) = list_sum (map text_count children) /\
  count is_appendChild (concat parts)
    = list_sum (map SsrSpec.vnode_count children) + list_sum (map text_count children).
Proof.
  intros H. split; [|split; [|split]].
  - apply only_concat. clear -H. induction H as [|c e cs ps Hc _ IH]; constructor;
      [exact (proj1 Hc)|exact IH].
  - apply count_concat. eapply Forall2_impl; [exact H|]. intros c e Hc. apply Hc.
  - apply count_concat. eapply Forall2_impl; [exact H|]. intros c e Hc. apply Hc.
  - rewrite <- list_sum_add. apply count_concat.
    eapply Forall2_impl; [exact H|]. intros c e Hc. apply Hc.
Qed.

(** [mount] under a host returns the tree with every host reference
    filled in, and the calls it logs are the ones that build the
    tree. *)
Lemma mount_builds (v : VNodeChild) :
  forall p : ref,
  yields (builds v) (fun v' => patched v v' /\ mounted v' = true)
         (mount repr_obj (Some p) v).
Proof.
  induction v as [s|tag props children key el IH] using VNodeChild_ind; intros p d.
  - eexists _, _, [CreateTextNode s _; AppendChild p _]. cbn.
    split; [reflexivity|]. split; [split; [split; [reflexivity|discriminate]|reflexivity]|].
    split; [cbn; rewrite <- app_assoc; reflexivity|].
    repeat split.
  - cbn [mount]. unfold bind at 1. cbn [createElement].
    set (e := length (nodes d) : ref).
    set (d1 := logged (CreateElement tag e) _).
    assert (Hprops : yields (only sets_prop) (fun _ => True)
                       (for_each (mount_prop repr_obj (Some e)) props)).
    { apply call_for_each_any. intros kv _. apply call_mount_prop. auto. }
    destruct (Hprops d1) as (u & d2 & e2 & Hrun2 & _ & Hlog2 & He2).
    unfold bind at 1. rewrite Hrun2.
    assert (Hkids : yields (fun evs => exists parts, evs = concat parts /\
                                         Forall2 builds children parts)
                      (Forall2 (fun c c' => patched c c' /\ mounted c' = true) children)
                      (for_each (mount repr_obj (Some e)) children)).
    { apply yields_for_each. eapply List.Forall_impl; [|exact IH].
      intros c Hc. apply Hc. }
    destruct (Hkids d2) as (children' & d3 & e3 & Hrun3 & Hch & Hlog3 & parts & -> & Hparts).
    unfold bind at 1. rewrite Hrun3. cbn.
    eexists _, _, ([CreateElement tag e] ++ e2 ++ concat parts ++ [AppendChild p e])%list.
    split; [reflexivity|]. split; [|split].
    + split; [split|].
      * cbn [strip]. f_equal. apply strip_children.
        eapply Forall2_impl; [exact Hch|]. intros c c' [[Hs _] _]. exact Hs.
      * intros _. cbn. eauto.
      * cbn [mounted]. eapply Forall2_forallb_r; [exact Hch|].
        intros c c' [_ Hm]. exact Hm.
    + cbn [log logged update detach]. rewrite Hlog3, Hlog2. unfold d1. cbn [log logged].
      rewrite <- !app_assoc. reflexivity.
    + destruct (builds_parts children parts Hparts) as (Ho & Hce & Hct & Hca).
      assert (Ho2 : only additive e2).
      { eapply only_weaken; [|exact He2]. intros c Hc. unfold additive.
        rewrite Hc, !orb_true_r. reflexivity. }
      split; [|split; [|split]].
      * apply (only_app additive [_]); [reflexivity|].
        apply only_app; [exact Ho2|]. apply only_app; [exact Ho|reflexivity].
      * rewrite !count_app, Hce, vnode_count_node,
          (count_none sets_prop is_createElement e2) by (auto; intros []; auto; discriminate).
        cbn. lia.
      * rewrite !count_app, Hct,
          (count_none sets_prop is_createTextNode e2) by (auto; intros []; auto; discriminate).
        cbn [text_count]. cbn. lia.
      * rewrite !count_app, Hca, vnode_count_node,
          (count_none sets_prop is_appendChild e2) by (auto; intros []; auto; discriminate).
        cbn [text_count]. cbn. lia.
Qed.

End Mount.

(** X10. [mount] under a host only builds: it returns the tree with
    every host reference filled in, and the calls it makes are one
    [createElement] for every [VNode] of the tree, one [createTextNode]
    for every text, one [appendChild] for each of these, and calls that
    set an attribute, the class, a style entry or a listener. It never
    removes, moves or rewrites a node that is there. *)
Theorem mount_only_builds (repr_obj : pyval -> string) (p : ref) (v : VNodeChild)
  (d : Doc) :
  exists v' d',
    mount repr_obj (Some p) v d = (Ok v', d') /\
    strip v' = strip v /\ mounted v' = true /\
    let evs := new_calls (mount repr_obj (Some p) v) d in
    log d' = (log d ++ evs)%list /\
    forallb additive evs = true /\
    count is_createElement evs = SsrSpec.vnode_count v /\
    count is_createTextNode evs = text_count v /\
    count is_appendChild evs = SsrSpec.vnode_count v + text_count v.
Proof.
  destruct (mount_builds repr_obj v p d) as (v' & d' & evs & Hrun & [[Hs _] Hm] & Hlog & Hb).
  exists v', d'. split; [exact Hrun|]. split; [symmetry; exact Hs|]. split; [exact Hm|].
  cbn zeta. rewrite (new_calls_spec _ d evs) by (rewrite Hrun; exact Hlog).
  split; [exact Hlog|exact Hb].
Qed.

(** ** What [patch] logs and hands back *)

Lemma additive_allowed (allowed : call -> bool) :
  (forall c, is_insertBefore c = false -> allowed c = true) ->
  forall c, additive c = true -> allowed c = true.
Proof. intros H c Hc. apply H. destruct c; try reflexivity; discriminate Hc. Qed.

Lemma settled_el (n n' : VNodeChild) :
  settled n n' -> is_str n = false -> exists e, el_of n' = Some e.
Proof.
  intros [Hs Hm] Hn. destruct n as [s|t ps cs k e]; [discriminate Hn|].
  destruct n' as [s'|t' ps' cs' k' [e'|]]; cbn in *; try discriminate; eauto.
Qed.

Lemma keyless_has_keys (cs : list VNodeChild) :
  forallb keyless cs = true -> has_keys cs = false.
Proof.
  destruct cs as [|[s|t ps cs' [k|] e] rest]; cbn; try reflexivity.
  discriminate.
Qed.

Section Patch.

Variable repr_obj : pyval -> string.
Variable allowed : call -> bool.
Hypothesis Hupd : forall c, is_insertBefore c = false -> allowed c = true.

Lemma call_mount (v : VNodeChild) (p : ref) :
  yields (only allowed) (fun v' => settled v v' /\ (is_str v = false -> is_Some (el_of v')))
         (mount repr_obj (Some p) v).
Proof.
  eapply yields_weaken; [apply (mount_builds repr_obj v p)| |].
  - intros evs [Ho _]. eapply only_weaken; [|exact Ho].
    apply additive_allowed, Hupd.
  - intros v' [[Hs Hel] Hm]. split; [split; assumption|exact Hel].
Qed.

Lemma call_remove_node (p : ref) (vnode : VNodeChild) (index : nat) :
  yields (only allowed) (fun _ => True) (remove_node (Some p) vnode index).
Proof.
  destruct vnode as [s|tag props children key [el|]]; cbn [remove_node].
  - eapply call_bind; [apply call_childNodes_of|]. intros nodes _.
    destruct (nodes !! index);
      [apply call_removeChild, Hupd; reflexivity | apply call_ret; exact I].
  - apply call_remove, Hupd. reflexivity.
  - apply call_ret. exact I.
Qed.

Lemma call_drop_prop (e : ref) (new_props : list (string * pyval))
  (kv : string * pyval) :
  yields (only allowed) (fun _ => True) (drop_prop (Some e) new_props kv).
Proof.
  destruct kv as [key old_value]. unfold drop_prop.
  destruct (dict_mem key new_props); [apply call_ret; exact I|].
  destruct (startswith "on_" key); [apply call_ret; exact I|].
  destruct (String.eqb key "class"); [apply call_set_className, Hupd; reflexivity|].
  destruct (String.eqb key "style"); [|apply call_removeAttribute, Hupd; reflexivity].
  eapply call_seq; [|apply call_ret; exact I].
  apply call_for_each_any. intros sv _. apply call_set_style, Hupd. reflexivity.
Qed.

Lemma call_update_prop (e : ref) (old_props : list (string * pyval))
  (kv : string * pyval) :
  yields (only allowed) (fun _ => True) (update_prop repr_obj (Some e) old_props kv).
Proof.
  destruct kv as [key value]. unfold update_prop.
  destruct (py_eqb _ value); [apply call_ret; exact I|].
  destruct (startswith "on_" key && callable value);
    [apply call_addEventListener, Hupd; reflexivity|].
  destruct (String.eqb key "class"); [apply call_set_className, Hupd; reflexivity|].
  destruct (String.eqb key "style" && is_dict value);
    [|apply call_setAttribute, Hupd; reflexivity].
  eapply call_seq.
  { apply call_for_each_any. intros sv _.
    destruct (dict_mem (fst sv) (style_items value));
      [apply call_ret; exact I | apply call_set_style, Hupd; reflexivity]. }
  eapply call_seq; [|apply call_ret; exact I].
  apply call_for_each_any. intros sv _. apply call_set_style, Hupd. reflexivity.
Qed.

Lemma call_patch_props (e : ref) (old_props new_props : list (string * pyval)) :
  yields (only allowed) (fun _ => True) (patch_props repr_obj (Some e) old_props new_props).
Proof.
  unfold patch_props.
  eapply call_seq; [apply call_for_each_any; intros kv _; apply call_drop_prop|].
  eapply call_seq; [apply call_for_each_any; intros kv _; apply call_update_prop|].
  apply call_ret. exact I.
Qed.

Lemma call_move_node (p e : ref) (new_index : nat) :
  (forall c, allowed c = true) ->
  yields (only allowed) (fun _ => True) (move_node (Some p) (Some e) new_index).
Proof.
  intros Hall. unfold move_node.
  eapply call_bind; [apply call_childNodes_of|]. intros nodes _.
  destruct (nodes !! new_index);
    [apply call_insertBefore, Hall | apply call_appendChild, Hall].
Qed.

Lemma call_replace (p : ref) (old new : VNodeChild) (index : nat) :
  yields (only allowed) (settled new)
         (bind (remove_node (Some p) old index) (fun _ => mount repr_obj (Some p) new)).
Proof.
  eapply call_seq; [apply call_remove_node|].
  eapply yields_weaken; [apply call_mount|auto|]. intros a [Ha _]. exact Ha.
Qed.

Section Loops.

Variable patch_fn : option ref -> VNodeChild -> VNodeChild -> nat -> M Doc VNodeChild.

Local Abbreviation settles := (PatchSpec.settles allowed patch_fn).

Lemma call_patch_common (p : ref) (news : list VNodeChild) :
  Forall settles news ->
  forall (olds : list VNodeChild) (i : nat),
  forallb mounted olds = true ->
  yields (only allowed) (Forall2 settled (take (length olds) news))
         (patch_common patch_fn (Some p) olds news i).
Proof.
  induction 1 as [|n news Hn _ IH]; intros olds i Hm.
  - cbn [patch_common]. apply call_ret. rewrite take_nil. constructor.
  - destruct olds as [|o olds]; cbn [patch_common].
    + apply call_ret. constructor.
    + cbn [forallb] in Hm. apply andb_prop in Hm as [Ho Hm].
      eapply call_bind; [apply (Hn o p i Ho)|]. intros n' Hn'.
      eapply call_bind; [apply (IH olds (S i) Hm)|]. intros rest Hrest.
      apply call_ret. cbn [length take]. constructor; assumption.
Qed.

Lemma call_patch_children_with (p : ref) (olds news : list VNodeChild) :
  Forall settles news ->
  forallb mounted olds = true ->
  yields (only allowed) (Forall2 settled news)
         (patch_children_with repr_obj patch_fn (Some p) olds news).
Proof.
  intros Hfn Hm. unfold patch_children_with.
  eapply call_bind; [apply (call_patch_common p news Hfn olds 0 Hm)|].
  intros common Hcommon.
  eapply call_seq.
  { apply call_for_each_any. intros o _. apply call_remove_node. }
  eapply call_bind.
  { apply call_for_each with (Q := settled).
    apply List.Forall_forall. intros c _.
    eapply yields_weaken; [apply call_mount|auto|]. intros a [Ha _]. exact Ha. }
  intros added Hadded. apply call_ret.
  rewrite <- (take_drop (length olds) news). apply Forall2_app; assumption.
Qed.

Lemma call_keyed_pass (p : ref)
  (old_keyed : list (string * (nat * VNodeChild))) (news : list VNodeChild) :
  (forall c, allowed c = true) ->
  Forall settles news ->
  forallb (fun c => match truthy_key c with Some _ => true | None => false end) news = true ->
  (forall k i o, dict_get k old_keyed = Some (i, o) -> mounted o = true) ->
  forall (new_idx : nat) (used : gset string),
  yields (only allowed) (fun res => Forall2 settled news (fst res))
         (keyed_pass repr_obj patch_fn (Some p) old_keyed news new_idx used).
Proof.
  intros Hall Hfn Hkeyed Hold. induction Hfn as [|n news Hn _ IH]; intros new_idx used.
  - cbn [keyed_pass]. apply call_ret. constructor.
  - cbn [keyed_pass]. cbn [forallb] in Hkeyed. apply andb_prop in Hkeyed as [Hk Hkeyed].
    destruct (truthy_key n) as [key|] eqn:Hkey; [|discriminate Hk].
    assert (Hnode : is_str n = false).
    { destruct n; [discriminate Hkey | reflexivity]. }
    eapply call_bind with (Q := settled n).
    { destruct (dict_get key old_keyed) as [[old_idx old_child]|] eqn:Hget.
      - eapply call_bind; [apply (Hn old_child p new_idx (Hold _ _ _ Hget))|].
        intros c Hc. destruct (settled_el n c Hc Hnode) as [e He]. rewrite He.
        eapply call_seq with (Q := fun _ => True); [|apply call_ret; exact Hc].
        destruct (decide (old_idx = new_idx));
          [apply call_ret; exact I | apply call_move_node, Hall].
      - eapply call_bind; [apply call_mount|].
        intros c [Hc _]. destruct (settled_el n c Hc Hnode) as [e He]. rewrite He.
        eapply call_bind; [apply call_childNodes_of|]. intros nodes _.
        eapply call_seq with (Q := fun _ => True); [|apply call_ret; exact Hc].
        destruct (decide (new_idx < length nodes));
          [apply call_move_node, Hall | apply call_ret; exact I]. }
    intros n' Hn'.
    eapply call_bind; [apply (IH Hkeyed)|]. intros r Hr.
    apply call_ret. cbn [fst]. constructor; assumption.
Qed.

Lemma call_keyed_sweep (p : ref)
  (old_keyed : list (string * (nat * VNodeChild))) (used : gset string) :
  yields (only allowed) (fun _ => True) (keyed_sweep (Some p) old_keyed used).
Proof.
  unfold keyed_sweep.
  eapply call_seq; [|apply call_ret; exact I].
  apply call_for_each_any. intros [k [i o]] _. cbn [fst snd].
  destruct (decide (k ∈ used)); [apply call_ret; exact I|apply call_remove_node].
Qed.

Lemma call_patch_keyed_children_with (p : ref) (olds news : list VNodeChild) :
  (forall c, allowed c = true) ->
  Forall settles news ->
  forallb (fun c => match truthy_key c with Some _ => true | None => false end) news = true ->
  forallb mounted olds = true ->
  yields (only allowed) (Forall2 settled news)
         (patch_keyed_children_with repr_obj patch_fn (Some p) olds news).
Proof.
  intros Hall Hfn Hkeyed Hm. unfold patch_keyed_children_with.
  eapply call_bind.
  { apply (call_keyed_pass p (build_keyed olds 0 []) news Hall Hfn Hkeyed).
    intros k i o Hget. apply dict_get_in in Hget.
    destruct (in_build_keyed _ _ _ _ _ _ Hget) as [Ho|[]].
    apply (mounted_in o olds Hm Ho). }
  intros res Hres.
  eapply call_seq; [apply call_keyed_sweep|].
  apply call_ret. exact Hres.
Qed.

End Loops.

(** [patch] of a mounted old node against a new one whose keyed sibling
    lists are keyed throughout returns the new one with all its hosts;
    when the new tree has no key at all, no call is outside
    [allowed]. *)
Lemma call_patch_present (new : VNodeChild) :
  keyed_whole new = true ->
  keyless new = true \/ (forall c, allowed c = true) ->
  forall (old : VNodeChild) (p : ref) (index : nat),
  mounted old = true ->
  yields (only allowed) (settled new) (patch_present repr_obj (Some p) old new index).
Proof.
  induction new as [new_s|new_tag new_props new_children new_key new_el IH]
    using VNodeChild_ind; intros Hwhole Hmoves old p index Hm.
  - destruct old as [old_s|old_tag old_props old_children old_key old_el];
      cbn [patch_present].
    + destruct (String.eqb old_s new_s).
      * apply call_ret. split; reflexivity.
      * eapply call_bind; [apply call_childNodes_of|]. intros nodes _.
        eapply call_seq with (Q := fun _ => True).
        { destruct (nodes !! index);
            [apply call_set_textContent, Hupd; reflexivity | apply call_ret; exact I]. }
        apply call_ret. split; reflexivity.
    + apply call_replace.
  - destruct old as [old_s|old_tag old_props old_children old_key old_el];
      cbn [patch_present].
    + apply call_replace.
    + destruct (String.eqb old_tag new_tag) eqn:Htag; cbn [negb].
      2: apply call_replace.
      cbn [mounted] in Hm. apply andb_prop in Hm as [Hel Hkids].
      destruct old_el as [e|]; [|discriminate].
      cbn [keyed_whole] in Hwhole. apply andb_prop in Hwhole as [Hlist Hwhole].
      assert (Hmoves' : forallb keyless new_children = true \/
                        (forall c, allowed c = true)).
      { destruct Hmoves as [Hk|Hall]; [left|right; exact Hall].
        cbn [keyless] in Hk. apply andb_prop in Hk as [_ Hk]. exact Hk. }
      assert (Hfn : Forall (PatchSpec.settles allowed (patch_present repr_obj)) new_children).
      { rewrite forallb_forall in Hwhole.
        apply List.Forall_forall. intros n Hn o q idx Ho.
        apply (proj1 (List.Forall_forall _ _) IH n Hn); [auto| |exact Ho].
        destruct Hmoves' as [Hk|Hall]; [left|right; exact Hall].
        rewrite forallb_forall in Hk. auto. }
      eapply call_seq; [apply call_patch_props|].
      eapply call_bind with (Q := Forall2 settled new_children).
      { destruct (has_keys new_children) eqn:Hhas.
        - destruct Hmoves' as [Hk|Hall].
          + rewrite (keyless_has_keys _ Hk) in Hhas. discriminate.
          + apply call_patch_keyed_children_with; assumption.
        - apply call_patch_children_with; assumption. }
      intros cs' Hcs'. apply call_ret. split.
      * cbn [strip]. f_equal. apply strip_children.
        eapply Forall2_impl; [exact Hcs'|]. intros c c' [Hs _]. exact Hs.
      * cbn [mounted]. eapply Forall2_forallb_r; [exact Hcs'|].
        intros c c' [_ Hc]. exact Hc.
Qed.

End Patch.


(** X11. [patch] of a mounted old tree against a new tree whose keyed
    sibling lists are keyed throughout returns, and hands the new tree
    back in shape and with every host reference filled in: the result
    is mounted again, so the next [patch] can start from it. *)
Theorem patch_hands_back_mounted_tree (repr_obj : pyval -> string)
  (old new : VNodeChild) (p : ref) (index : nat) (d : Doc) :
  mounted old = true -> keyed_whole new = true ->
  exists new' d',
    patch repr_obj (Some p) (Some old) (Some new) index d = (Ok (Some new'), d') /\
    strip new' = strip new /\ mounted new' = true.
Proof.
  intros Hm Hwhole.
  destruct (call_patch_present repr_obj (fun _ => true) (fun _ _ => eq_refl) new Hwhole
              (or_intror (fun _ => eq_refl)) old p index Hm d)
    as (new' & d' & evs & Hrun & [Hs Hm'] & _).
  exists new', d'. unfold patch, bind. rewrite Hrun.
  split; [reflexivity|]. split; [symmetry; exact Hs|exact Hm'].
Qed.

Lemma patch_hands_back_mounted_tree_witness :
  exists new' d',
    patch SsrSpec.sample_repr (Some 0)
      (Some (VNode "ul" [] items_abc None (Some 0)))
      (Some (VNode "ul" [] [item "c" "C" None; item "d" "D" None] None None))
      0 list_doc = (Ok (Some new'), d') /\
    mounted new' = true.
Proof.
  destruct (patch_hands_back_mounted_tree SsrSpec.sample_repr
              (VNode "ul" [] items_abc None (Some 0))
              (VNode "ul" [] [item "c" "C" None; item "d" "D" None] None None)
              0 0 list_doc eq_refl eq_refl) as (new' & d' & Hrun & _ & Hm).
  exists new', d'. split; assumption.
Defined.



End CallFacts.

(* ===================================================================== *)
(** * Trees with None children: the runtime agrees with [Runtime]        *)
(* ===================================================================== *)

Module RawFacts.

Import Html Ssr State Dom Runtime RuntimeSpec Raw RawSpec.
Import RuntimeFacts.

(** ** Going between the two tree types *)



Lemma lower_Some (c : Child) : forall v, lower c = Some v -> c = lift v.
Proof.
  induction c as [|s|tag props children key el IH] using Child_ind; intros v Hv.
  - discriminate Hv.
  - injection Hv as <-. reflexivity.
  - cbn [lower] in Hv.
    destruct (mapM lower children) as [cs|] eqn:Hcs; [|discriminate Hv].
    injection Hv as <-. cbn [lift]. f_equal.
    clear -IH Hcs. revert cs Hcs.
    induction IH as [|c children Hc _ IHl]; intros cs Hcs.
    + cbn in Hcs. injection Hcs as <-. reflexivity.
    + cbn [mapM] in Hcs. destruct (lower c) as [v|] eqn:Hv; [|discriminate Hcs].
      cbn in Hcs. destruct (mapM lower children) as [vs|]; [|discriminate Hcs].
      cbn in Hcs. injection Hcs as <-. cbn [map]. f_equal; [apply Hc; reflexivity|].
      apply IHl. reflexivity.
Qed.

(** A list of children one of which holds a [None]: the children in
    front of the first such child hold none. *)
Lemma mapM_lower_None (cs : list Child) :
  mapM lower cs = None ->
  exists front c rest,
    cs = (map lift front ++ c :: rest)%list /\ lower c = None.
Proof.
  induction cs as [|c cs IH]; [discriminate|].
  cbn [mapM]. destruct (lower c) as [v|] eqn:Hv.
  - cbn. destruct (mapM lower cs) as [vs|] eqn:Hvs; [discriminate|].
    intros _. destruct (IH eq_refl) as (front & c' & rest & -> & Hc').
    exists (v :: front), c', rest. cbn [map app].
    rewrite (lower_Some c v Hv). split; [reflexivity|exact Hc'].
  - intros _. exists [], c, cs. split; [reflexivity|exact Hv].
Qed.




(** ** The key map *)




(** ** Computations that agree up to the tree type *)

Lemma lifted_ret {A B} (f : A -> B) (a : A) (d : Doc) :
  ret (f a) d = lifted f (ret a) d.
Proof. reflexivity. Qed.








Section Runtime.

Variable repr_obj : pyval -> string.

(** ** [render_to_string] *)

Lemma render_lift (v : VNodeChild) :
  Raw.render_to_string repr_obj (lift v) = Ok (Ssr.render_to_string repr_obj v).
Proof.
  induction v as [s|tag props children key el IH] using VNodeChild_ind; [reflexivity|].
  cbn [lift Raw.render_to_string Ssr.render_to_string].
  assert (Hall : collect (map (Raw.render_to_string repr_obj) (map lift children))
                 = Ok (map (Ssr.render_to_string repr_obj) children)).
  { induction IH as [|c cs Hc _ IHl]; [reflexivity|].
    cbn [map collect]. rewrite Hc, IHl. reflexivity. }
  rewrite Hall. reflexivity.
Qed.

Lemma render_none (c : Child) :
  has_none c -> Raw.render_to_string repr_obj c = Raise (AttributeError "tag").
Proof.
  unfold has_none.
  induction c as [|s|tag props children key el IH] using Child_ind; intros Hnone.
  - reflexivity.
  - discriminate Hnone.
  - cbn [lower] in Hnone.
    destruct (mapM lower children) as [cs|] eqn:Hcs; [discriminate Hnone|].
    cbn [Raw.render_to_string].
    assert (Hall : collect (map (Raw.render_to_string repr_obj) children)
                   = Raise (AttributeError "tag")).
    { clear Hnone. induction IH as [|c cs Hc _ IHl]; [discriminate Hcs|].
      cbn [mapM] in Hcs. cbn [map collect].
      destruct (lower c) as [v|] eqn:Hv.
      - rewrite (lower_Some c v Hv), render_lift.
        cbn in Hcs. destruct (mapM lower cs) as [vs|]; [discriminate Hcs|].
        rewrite (IHl eq_refl). reflexivity.
      - rewrite (Hc eq_refl). reflexivity. }
    rewrite Hall. reflexivity.
Qed.

(** ** [mount] *)



(** ** [remove_node] and [patch] *)


Section Loops.

Variable patch_raw : option ref -> Child -> Child -> nat -> M Doc Child.
Variable patch_fn : option ref -> VNodeChild -> VNodeChild -> nat -> M Doc VNodeChild.

(** [patch_raw] agrees with [patch_fn] on the new child [n]. *)
Local Abbreviation agrees := (fun n : VNodeChild =>
  forall parent o i d,
    patch_raw parent (lift o) (lift n) i d = lifted lift (patch_fn parent o n i) d).






End Loops.


End Runtime.

End RawFacts.

(* ===================================================================== *)
(** * The document [mount] builds                                         *)
(* ===================================================================== *)

Module DomFacts.

#[local] Set Warnings "-clear-no-such-hyp".

Import Dom Runtime RuntimeSpec DomSpec RuntimeFacts.

Lemma skeleton_length (d : Doc) : length (skeleton d) = length (nodes d).
Proof. unfold skeleton. apply length_map. Qed.

(** ** Trees shown by the document *)

Lemma shows_node (lo hi : nat) (d : Doc) (tag : string) (ps : list (string * pyval))
  (cs : list VNodeChild) (k : option string) (el : option ref) (r : nat) :
  shows lo hi d (VNode tag ps cs k el) r <->
  lo <= r < hi /\ el = Some r /\
  exists x rs, skeleton d !! r = Some (Some tag, x, rs) /\
               Forall2 (shows lo hi d) cs rs.
Proof.
  cbn [shows].
  assert (Hall : forall cs rs,
            (fix all (cs : list VNodeChild) (rs : list nat) {struct cs} : Prop :=
               match cs, rs with
               | [], [] => True
               | c :: cs', r' :: rs' => shows lo hi d c r' /\ all cs' rs'
               | _, _ => False
               end) cs rs <-> Forall2 (shows lo hi d) cs rs).
  { clear. induction cs as [|c cs IH]; intros [|r rs].
    - split; [constructor|exact (fun _ => I)].
    - split; [intros []|intros H; inversion H].
    - split; [intros []|intros H; inversion H].
    - split.
      + intros [Hc Hrest]. constructor; [exact Hc|apply IH, Hrest].
      + intros H. inversion H; subst. split; [assumption|]. apply IH. assumption. }
  split.
  - intros (Hr & Hel & H). split; [exact Hr|]. split; [exact Hel|].
    destruct (skeleton d !! r) as [[[[t|] x] rs]|]; try contradiction.
    destruct H as [-> H]. exists x, rs. split; [reflexivity|]. apply Hall, H.
  - intros (Hr & Hel & x & rs & Hsk & H). split; [exact Hr|]. split; [exact Hel|].
    rewrite Hsk. split; [reflexivity|]. apply Hall, H.
Qed.

Lemma shows_frame (v : VNodeChild) :
  forall (lo hi lo' hi' : nat) (d d' : Doc) (r : nat),
  lo' <= lo -> hi <= hi' ->
  (forall q, lo <= q < hi -> skeleton d' !! q = skeleton d !! q) ->
  shows lo hi d v r -> shows lo' hi' d' v r.
Proof.
  induction v as [s|tag ps cs k el IH] using VNodeChild_ind;
    intros lo hi lo' hi' d d' r Hlo Hhi Hsame.
  - cbn [shows]. intros [Hr Hsk]. split; [lia|]. rewrite Hsame by exact Hr. exact Hsk.
  - rewrite !shows_node. intros (Hr & Hel & x & rs & Hsk & Hkids).
    split; [lia|]. split; [exact Hel|]. exists x, rs.
    split; [rewrite Hsame by exact Hr; exact Hsk|].
    clear Hsk. revert rs Hkids. induction IH as [|c cs Hc _ IHcs]; intros rs Hkids.
    + inversion Hkids; subst. constructor.
    + inversion Hkids as [|? r' ? rs' Hc' Hrest]; subst. constructor.
      * apply (Hc lo hi lo' hi' d d' r' Hlo Hhi Hsame Hc').
      * apply IHcs, Hrest.
Qed.

Lemma shows_range (v : VNodeChild) (lo hi : nat) (d : Doc) (r : nat) :
  shows lo hi d v r -> lo <= r < hi.
Proof. destruct v; cbn [shows]; tauto. Qed.

(** ** What the primitive calls make of the skeleton *)

Lemma skeleton_createElement (tag : string) (d : Doc) :
  exists d',
    createElement tag d = (Ok (length (skeleton d)), d') /\
    skeleton d' = (skeleton d ++ [(Some tag, EmptyString, [])])%list.
Proof.
  eexists. unfold createElement. rewrite skeleton_length. split; [reflexivity|].
  unfold skeleton. cbn. rewrite map_app. reflexivity.
Qed.

Lemma skeleton_createTextNode (s : string) (d : Doc) :
  exists d',
    createTextNode s d = (Ok (length (skeleton d)), d') /\
    skeleton d' = (skeleton d ++ [(None, s, [])])%list.
Proof.
  eexists. unfold createTextNode. rewrite skeleton_length. split; [reflexivity|].
  unfold skeleton. cbn. rewrite map_app. reflexivity.
Qed.

Lemma filter_absent (x : nat) (rs : list nat) :
  ~ In x rs -> filter (fun y => y <> x) rs = rs.
Proof.
  induction rs as [|r rs IH]; [reflexivity|].
  intros Hout. rewrite filter_cons.
  destruct (decide (r <> x)) as [_|Heq].
  - f_equal. apply IH. intros H. apply Hout. right; exact H.
  - exfalso. apply Hout. left. destruct (decide (r = x)); [assumption|contradiction].
Qed.

Lemma skeleton_detach_absent (x : nat) (d : Doc) :
  (forall sh, In sh (skeleton d) -> ~ In x (snd sh)) ->
  skeleton (detach x d) = skeleton d.
Proof.
  intros Hout. unfold skeleton, detach in *. cbn [nodes]. rewrite map_map.
  apply map_ext_in. intros n Hn. unfold shape_of. cbn.
  rewrite filter_absent; [reflexivity|].
  apply (Hout (shape_of n)). apply in_map, Hn.
Qed.

Lemma skeleton_update (r : nat) (f : HostNode -> HostNode)
  (g : option string * string * list nat -> option string * string * list nat) (d : Doc) :
  (forall n, shape_of (f n) = g (shape_of n)) ->
  skeleton (update r f d) = alter g r (skeleton d).
Proof.
  intros Hfg. unfold skeleton, update. cbn [nodes].
  apply list_fmap_alter. apply Forall_forall. intros n _. apply Hfg.
Qed.

Lemma skeleton_appendChild (p c : nat) (d : Doc) :
  (forall sh, In sh (skeleton d) -> ~ In c (snd sh)) ->
  exists d',
    appendChild (Some p) (Some c) d = (Ok tt, d') /\
    skeleton d' = alter (fun sh => (fst (fst sh), snd (fst sh), (snd sh ++ [c])%list))
                        p (skeleton d).
Proof.
  intros Hout. eexists. split; [reflexivity|].
  change (skeleton (logged _ ?x)) with (skeleton x).
  rewrite (skeleton_update p _
             (fun sh => (fst (fst sh), snd (fst sh), (snd sh ++ [c])%list)))
    by (intros n; reflexivity).
  rewrite skeleton_detach_absent by exact Hout. reflexivity.
Qed.

Lemma skeleton_cosmetic (e : nat) (f : HostNode -> HostNode) (c : call) (d : Doc) :
  (forall n, shape_of (f n) = shape_of n) ->
  skeleton (logged c (update e f d)) = skeleton d.
Proof.
  intros Hf. change (skeleton (logged c ?x)) with (skeleton x).
  rewrite (skeleton_update e f (fun sh => sh)) by exact Hf.
  apply list_alter_id. reflexivity.
Qed.

Lemma for_each_keeps {A B} (f : A -> M Doc B) (xs : list A) :
  (forall x d, exists b d', f x d = (Ok b, d') /\ skeleton d' = skeleton d) ->
  forall d, exists bs d', for_each f xs d = (Ok bs, d') /\ skeleton d' = skeleton d.
Proof.
  intros Hf. induction xs as [|x xs IH]; intros d.
  - exists [], d. split; reflexivity.
  - destruct (Hf x d) as (b & d1 & Hrun1 & Hsk1).
    destruct (IH d1) as (bs & d2 & Hrun2 & Hsk2).
    exists (b :: bs), d2. cbn [for_each]. unfold bind. rewrite Hrun1, Hrun2.
    split; [reflexivity|]. congruence.
Qed.

Section Mount.

Variable repr_obj : pyval -> string.

Lemma mount_prop_keeps (e : nat) (kv : string * pyval) (d : Doc) :
  exists u d', mount_prop repr_obj (Some e) kv d = (Ok u, d') /\ skeleton d' = skeleton d.
Proof.
  destruct kv as [k v]. unfold mount_prop.
  destruct (startswith "on_" k && callable v).
  { eexists _, _. split; [reflexivity|]. apply skeleton_cosmetic. reflexivity. }
  destruct (String.eqb k "class").
  { eexists _, _. split; [reflexivity|]. apply skeleton_cosmetic. reflexivity. }
  destruct (String.eqb k "style" && is_dict v).
  2: { eexists _, _. split; [reflexivity|]. apply skeleton_cosmetic. reflexivity. }
  destruct (for_each_keeps (fun sv => set_style (Some e) (fst sv) (snd sv)) (style_items v))
    with (d := d) as (us & d' & Hrun & Hsk).
  { intros sv d0. eexists _, _. split; [reflexivity|].
    apply skeleton_cosmetic. reflexivity. }
  exists tt, d'. unfold bind. rewrite Hrun. split; [reflexivity|exact Hsk].
Qed.

Lemma closed_absent (d : Doc) (x : nat) :
  closed d -> length (skeleton d) <= x ->
  forall sh, In sh (skeleton d) -> ~ In x (snd sh).
Proof.
  intros Hclosed Hx sh Hsh Hin.
  apply list_elem_of_In, list_elem_of_lookup in Hsh. destruct Hsh as [q Hq].
  specialize (Hclosed q sh x Hq Hin). lia.
Qed.

Lemma closed_after (p : nat) (d d' : Doc) (v' : VNodeChild) :
  closed d -> p < length (skeleton d) -> mounted_under p d v' d' -> closed d'.
Proof.
  intros Hclosed Hp (Hlen & Hframe & Hparent & Hnew & _) q sh r Hq Hr.
  destruct (decide (q < length (skeleton d))) as [Hold|Hge].
  - destruct (decide (q = p)) as [->|Hne].
    + destruct (lookup_lt_is_Some_2 (skeleton d) p Hp) as [[[t x] rs] Hsk].
      rewrite (Hparent t x rs Hsk) in Hq. injection Hq as <-. cbn [snd] in Hr.
      apply in_app_or in Hr as [Hr|[<-|[]]]; [|lia].
      specialize (Hclosed p _ r Hsk Hr). lia.
    + rewrite (Hframe q Hold Hne) in Hq. specialize (Hclosed q sh r Hq Hr). lia.
  - apply (Hnew q sh r ltac:(lia) Hq Hr).
Qed.

Lemma mount_all (cs : list VNodeChild) :
  Forall (fun c => forall p d, closed d -> p < length (skeleton d) ->
            exists v' d', mount repr_obj (Some p) c d = (Ok v', d') /\
                          mounted_under p d v' d') cs ->
  forall (e : nat) (d : Doc), closed d -> e < length (skeleton d) ->
  exists cs' d' roots,
    for_each (mount repr_obj (Some e)) cs d = (Ok cs', d') /\
    length (skeleton d) <= length (skeleton d') /\
    (forall q, q < length (skeleton d) -> q <> e -> skeleton d' !! q = skeleton d !! q) /\
    (forall t x rs, skeleton d !! e = Some (t, x, rs) ->
                    skeleton d' !! e = Some (t, x, (rs ++ roots)%list)) /\
    (forall q sh r, length (skeleton d) <= q -> skeleton d' !! q = Some sh ->
                    In r (snd sh) -> q < r < length (skeleton d')) /\
    Forall2 (shows (length (skeleton d)) (length (skeleton d')) d') cs' roots /\
    closed d'.
Proof.
  induction 1 as [|c cs Hc _ IH]; intros e d Hclosed He.
  - exists [], d, []. cbn [for_each]. split; [reflexivity|]. split; [lia|].
    split; [auto|]. split; [intros t x rs Hsk; rewrite app_nil_r; exact Hsk|].
    split; [|split; [constructor|exact Hclosed]].
    intros q sh r Hq Hsk Hr. apply lookup_lt_Some in Hsk. lia.
  - destruct (Hc e d Hclosed He) as (v1 & d1 & Hrun1 & Hunder).
    pose proof (closed_after e d d1 v1 Hclosed He Hunder) as Hclosed1.
    destruct Hunder as (Hlen1 & Hframe1 & Hparent1 & Hnew1 & Hshows1).
    destruct (IH e d1 Hclosed1 ltac:(lia))
      as (cs' & d2 & roots & Hrun2 & Hlen2 & Hframe2 & Hparent2 & Hnew2 & Hshows2 & Hclosed2).
    exists (v1 :: cs'), d2, (length (skeleton d) :: roots).
    cbn [for_each]. unfold bind. rewrite Hrun1, Hrun2.
    split; [reflexivity|]. split; [lia|].
    split; [|split; [|split; [|split; [|exact Hclosed2]]]].
    + intros q Hq Hne. rewrite Hframe2 by (try assumption; lia). apply Hframe1; assumption.
    + intros t x rs Hsk. rewrite (Hparent2 t x _ (Hparent1 t x rs Hsk)).
      rewrite <- app_assoc. reflexivity.
    + intros q sh r Hq Hsk Hr.
      destruct (decide (q < length (skeleton d1))) as [Hlt|Hge].
      * rewrite Hframe2 in Hsk by (try assumption; lia).
        specialize (Hnew1 q sh r Hq Hsk Hr). lia.
      * apply (Hnew2 q sh r ltac:(lia) Hsk Hr).
    + constructor.
      * apply (shows_frame v1 _ _ _ _ d1 d2 _ (Nat.le_refl _) Hlen2); [|exact Hshows1].
        intros q Hq. apply Hframe2; lia.
      * eapply Forall2_impl; [exact Hshows2|]. intros c' r' Hc'.
        apply (shows_frame c' (length (skeleton d1)) (length (skeleton d2))
                 (length (skeleton d)) (length (skeleton d2)) d2 d2 r');
          [lia|lia|reflexivity|exact Hc'].
Qed.

Lemma mount_shows (v : VNodeChild) :
  forall (p : nat) (d : Doc), closed d -> p < length (skeleton d) ->
  exists v' d', mount repr_obj (Some p) v d = (Ok v', d') /\ mounted_under p d v' d'.
Proof.
  induction v as [s|tag props children key el IH] using VNodeChild_ind;
    intros p d Hclosed Hp.
  - destruct (skeleton_createTextNode s d) as (d1 & Hrun1 & Hsk1).
    destruct (skeleton_appendChild p (length (skeleton d)) d1) as (d2 & Hrun2 & Hsk2).
    { intros sh Hsh. rewrite Hsk1 in Hsh. apply in_app_or in Hsh as [Hsh|[<-|[]]].
      - apply (closed_absent d _ Hclosed (Nat.le_refl _) sh Hsh).
      - intros []. }
    rewrite Hsk1, alter_app_l in Hsk2 by exact Hp.
    exists (VText s), d2. cbn [mount]. unfold bind.
    unfold ref in *. rewrite Hrun1. cbv beta iota. rewrite Hrun2.
    split; [reflexivity|]. unfold mounted_under. rewrite Hsk2.
    rewrite length_app, length_alter. cbn [length].
    split; [lia|]. split; [|split; [|split]].
    + intros q Hq Hne. rewrite lookup_app_l by (rewrite length_alter; exact Hq).
      apply list_lookup_alter_ne. congruence.
    + intros t x rs Hsk. rewrite lookup_app_l by (rewrite length_alter; exact Hp).
      rewrite list_lookup_alter_eq, Hsk. reflexivity.
    + intros q sh r Hq Hsk Hr.
      rewrite lookup_app_r in Hsk by (rewrite length_alter; exact Hq).
      rewrite length_alter in Hsk.
      destruct (q - length (skeleton d)) as [|n]; [|destruct n; discriminate Hsk].
      injection Hsk as <-. destruct Hr.
    + cbn [shows]. split; [lia|]. rewrite Hsk2.
      apply list_lookup_middle. rewrite length_alter. reflexivity.
  - destruct (skeleton_createElement tag d) as (d1 & Hrun1 & Hsk1).
    set (e := length (skeleton d)) in *.
    destruct (for_each_keeps (mount_prop repr_obj (Some e)) props
                (mount_prop_keeps e) d1) as (us & d2 & Hrun2 & Hsk2).
    rewrite Hsk1 in Hsk2.
    assert (Hlen2 : length (skeleton d2) = S e).
    { rewrite Hsk2, length_app. cbn. fold e. lia. }
    assert (Hclosed2 : closed d2).
    { intros q sh r Hq Hr. rewrite Hsk2 in Hq. rewrite Hlen2.
      destruct (decide (q < e)) as [Hlt|Hge].
      - rewrite lookup_app_l in Hq by exact Hlt.
        specialize (Hclosed q sh r Hq Hr). fold e in Hclosed. lia.
      - rewrite lookup_app_r in Hq by (fold e; lia). fold e in Hq.
        destruct (q - e) as [|n]; [|destruct n; discriminate Hq].
        injection Hq as <-. destruct Hr. }
    destruct (mount_all children IH e d2 Hclosed2 ltac:(lia))
      as (cs' & d3 & roots & Hrun3 & Hlen3 & Hframe3 & Hparent3 & Hnew3 & Hshows3 & Hclosed3).
    rewrite Hlen2 in Hlen3, Hframe3, Hnew3, Hshows3.
    assert (He3 : skeleton d3 !! e = Some (Some tag, EmptyString, roots)).
    { rewrite (Hparent3 (Some tag) EmptyString []); [reflexivity|].
      rewrite Hsk2. apply list_lookup_middle. reflexivity. }
    assert (Hold3 : forall q, q < e -> skeleton d3 !! q = skeleton d !! q).
    { intros q Hq. rewrite Hframe3 by lia. rewrite Hsk2.
      apply lookup_app_l. exact Hq. }
    assert (Hroots : forall r, In r roots -> S e <= r < length (skeleton d3)).
    { intros r Hr. apply list_elem_of_In in Hr.
      destruct (proj1 (list_elem_of_lookup _ _) Hr) as [i Hi].
      destruct (Forall2_lookup_r _ _ _ _ _ Hshows3 Hi) as (c' & _ & Hc').
      apply (shows_range c' _ _ _ _ Hc'). }
    destruct (skeleton_appendChild p e d3) as (d4 & Hrun4 & Hsk4).
    { intros sh Hsh Hin.
      apply list_elem_of_In, list_elem_of_lookup in Hsh. destruct Hsh as [q Hq].
      destruct (decide (q < e)) as [Hlt|Hge].
      - rewrite (Hold3 q Hlt) in Hq. specialize (Hclosed q sh e Hq Hin). fold e in Hclosed. lia.
      - destruct (decide (q = e)) as [->|Hne].
        + rewrite He3 in Hq. injection Hq as <-. apply Hroots in Hin. lia.
        + specialize (Hnew3 q sh e ltac:(lia) Hq Hin). lia. }
    exists (VNode tag props cs' key (Some e)), d4.
    cbn [mount]. unfold bind. unfold ref in *.
    rewrite Hrun1. cbv beta iota. rewrite Hrun2. cbv beta iota.
    rewrite Hrun3. cbv beta iota. rewrite Hrun4.
    split; [reflexivity|]. unfold mounted_under. fold e. rewrite Hsk4, length_alter.
    split; [lia|]. split; [|split; [|split]].
    + intros q Hq Hne. rewrite list_lookup_alter_ne by congruence. apply Hold3, Hq.
    + intros t x rs Hsk. rewrite list_lookup_alter_eq, (Hold3 p Hp), Hsk. reflexivity.
    + intros q sh r Hq Hsk Hr.
      rewrite list_lookup_alter_ne in Hsk by lia.
      destruct (decide (q = e)) as [->|Hne].
      * rewrite He3 in Hsk. injection Hsk as <-. apply Hroots in Hr. lia.
      * apply (Hnew3 q sh r ltac:(lia) Hsk Hr).
    + apply shows_node. split; [lia|]. split; [reflexivity|].
      exists EmptyString, roots. split.
      * rewrite Hsk4, list_lookup_alter_ne by lia. exact He3.
      * eapply Forall2_impl; [exact Hshows3|]. intros c' r' Hc'.
        apply (shows_frame c' (S e) (length (skeleton d3)) e (length (skeleton d3)) d3);
          [lia|lia| |exact Hc'].
        intros q Hq. rewrite Hsk4. apply list_lookup_alter_ne. lia.
Qed.

End Mount.

Lemma closed_root_doc (tag : string) : closed (root_doc tag).
Proof.
  intros q sh r Hq Hr. destruct q as [|q]; [|discriminate Hq].
  cbn in Hq. injection Hq as <-. destruct Hr.
Qed.

(** X18. [mount] puts the tree into the document. In a document whose
    child references are all nodes, [mount] of [v] under the element
    [p] returns the tree with its host references, and in the document
    it leaves: the first new host node is the last child of [p], after
    the children that were there; the new host nodes show the tree
    (every [VNode] is an element with its tag, referenced by the
    [VNode], every text is a text node with its text, and the children
    are the children of the tree, in order); no new node hangs below
    two nodes or below an old one; and every node that was there,
    [p] apart, has the tag, text and children it had. *)
Theorem mount_shows_tree (repr_obj : pyval -> string) (p : nat) (v : VNodeChild)
  (d : Doc) :
  closed d -> p < length (skeleton d) ->
  exists v' d',
    mount repr_obj (Some p) v d = (Ok v', d') /\
    let first := length (skeleton d) in
    first < length (skeleton d') /\
    (forall q, q < first -> q <> p -> skeleton d' !! q = skeleton d !! q) /\
    (forall t x rs, skeleton d !! p = Some (t, x, rs) ->
                    skeleton d' !! p = Some (t, x, (rs ++ [first])%list)) /\
    (forall q sh r, first <= q -> skeleton d' !! q = Some sh -> In r (snd sh) ->
                    q < r < length (skeleton d')) /\
    shows first (length (skeleton d')) d' v' first /\
    closed d'.
Proof.
  intros Hclosed Hp.
  destruct (mount_shows repr_obj v p d Hclosed Hp) as (v' & d' & Hrun & Hunder).
  exists v', d'. split; [exact Hrun|]. cbn zeta.
  pose proof (closed_after p d d' v' Hclosed Hp Hunder) as Hclosed'.
  destruct Hunder as (H1 & H2 & H3 & H4 & H5).
  split; [exact H1|]. split; [exact H2|]. split; [exact H3|].
  split; [exact H4|]. split; [exact H5|exact Hclosed'].
Qed.

Lemma mount_shows_tree_witness :
  exists v' d',
    mount SsrSpec.sample_repr (Some 0) (div [("id", PyStr "a")] [VText "x"; li [] []])
      (root_doc "body") = (Ok v', d') /\
    skeleton d' !! 0 = Some (Some "body", EmptyString, [1]) /\
    shows 1 (length (skeleton d')) d' v' 1.
Proof.
  destruct (mount_shows_tree SsrSpec.sample_repr 0
              (div [("id", PyStr "a")] [VText "x"; li [] []])
              (root_doc "body") (closed_root_doc "body"))
    as (v' & d' & Hrun & _ & _ & Hparent & _ & Hshows & _).
  { cbn. lia. }
  exists v', d'. split; [exact Hrun|]. split; [|exact Hshows].
  apply (Hparent (Some "body") EmptyString []). reflexivity.
Defined.

(** ** Taking a node out, and moving one *)

Lemma children_skeleton (d : Doc) (p : nat) (t : option string) (x : string)
  (rs : list nat) :
  skeleton d !! p = Some (t, x, rs) -> children d p = rs.
Proof.
  unfold skeleton, children, host, ref. rewrite list_lookup_fmap.
  destruct (nodes d !! p) as [n|]; [|discriminate].
  cbn. intros H. injection H as _ _ Hrs. exact Hrs.
Qed.

Lemma skeleton_detach (x : nat) (d : Doc) :
  skeleton (detach x d)
  = map (fun sh => (fst (fst sh), snd (fst sh), filter (fun y => y <> x) (snd sh)))
        (skeleton d).
Proof. unfold skeleton, detach. cbn [nodes]. rewrite !map_map. reflexivity. Qed.

Lemma in_filter_ne (x r : nat) (rs : list nat) :
  In r (filter (fun y => y <> x) rs) <-> In r rs /\ r <> x.
Proof. rewrite <- !list_elem_of_In, list_elem_of_filter. tauto. Qed.

Lemma closed_detach (x : nat) (d : Doc) : closed d -> closed (detach x d).
Proof.
  intros Hclosed q sh r Hq Hr. rewrite skeleton_detach in *. rewrite length_map.
  rewrite list_lookup_fmap in Hq.
  destruct (skeleton d !! q) as [sh0|] eqn:Hq0; [|discriminate Hq].
  cbn in Hq. injection Hq as <-. cbn [snd] in Hr.
  apply in_filter_ne in Hr as [Hr _]. apply (Hclosed q sh0 r Hq0 Hr).
Qed.

Lemma insert_before_at (x b : nat) (l1 l2 : list nat) :
  ~ In b l1 -> insert_before x b (l1 ++ b :: l2) = (l1 ++ x :: b :: l2)%list.
Proof.
  induction l1 as [|a l1 IH]; intros Hout; cbn [insert_before app].
  - rewrite decide_True by reflexivity. reflexivity.
  - rewrite decide_False by (intros ->; apply Hout; left; reflexivity).
    rewrite IH; [reflexivity|]. intros H. apply Hout. right; exact H.
Qed.

Lemma filter_ne_length (e : nat) (l : list nat) :
  NoDup l -> In e l -> S (length (filter (fun y => y <> e) l)) = length l.
Proof.
  induction l as [|a l IH]; intros Hnd Hin; [destruct Hin|].
  apply NoDup_cons in Hnd as [Ha Hnd].
  destruct (decide (a = e)) as [->|Hne].
  - rewrite filter_cons_False by (intros H; apply H; reflexivity).
    rewrite filter_absent; [reflexivity|].
    intros H. apply Ha, list_elem_of_In, H.
  - rewrite filter_cons_True by exact Hne. cbn [length]. f_equal.
    apply IH; [exact Hnd|]. destruct Hin as [Heq|Hin]; [contradiction|exact Hin].
Qed.

(** X19. [patch] of a mounted [VNode] against a node it cannot reuse
    the host for (a text, or a [VNode] of another tag) takes the old
    host out of the document and mounts the new node under the parent,
    which puts the new host at the end of the parent's children,
    whatever position the old host had: the children that stay keep
    their order and the new host comes after them. The new host nodes
    show the new tree. *)
Theorem patch_replace_appends (repr_obj : pyval -> string) (p e : nat)
  (old new : VNodeChild) (index : nat) (d : Doc)
  (t : option string) (x : string) (rs : list nat) :
  closed d -> skeleton d !! p = Some (t, x, rs) ->
  el_of old = Some e -> same_tag old new = false ->
  exists new' d',
    patch repr_obj (Some p) (Some old) (Some new) index d = (Ok (Some new'), d') /\
    let first := length (skeleton d) in
    skeleton d' !! p = Some (t, x, (filter (fun y => y <> e) rs ++ [first])%list) /\
    shows first (length (skeleton d')) d' new' first /\
    closed d'.
Proof.
  intros Hclosed Hp Hel Htag.
  set (d1 := logged (Remove e) (detach e d)).
  assert (Hsk1 : skeleton d1
                 = map (fun sh => (fst (fst sh), snd (fst sh),
                                   filter (fun y => y <> e) (snd sh))) (skeleton d)).
  { unfold d1. change (skeleton (logged _ ?y)) with (skeleton y). apply skeleton_detach. }
  assert (Hlen1 : length (skeleton d1) = length (skeleton d)).
  { rewrite Hsk1. apply length_map. }
  assert (Hclosed1 : closed d1).
  { intros q sh r Hq Hr. apply (closed_detach e d Hclosed q sh r); [exact Hq|exact Hr]. }
  assert (Hp1 : skeleton d1 !! p = Some (t, x, filter (fun y => y <> e) rs)).
  { rewrite Hsk1, list_lookup_fmap, Hp. reflexivity. }
  destruct (mount_shows repr_obj new p d1 Hclosed1) as (new' & d' & Hrun & Hunder).
  { rewrite Hlen1. apply lookup_lt_Some in Hp. exact Hp. }
  pose proof (closed_after p d1 d' new' Hclosed1
                ltac:(rewrite Hlen1; apply lookup_lt_Some in Hp; exact Hp) Hunder)
    as Hclosed'.
  destruct Hunder as (_ & _ & Hparent & _ & Hshows).
  rewrite Hlen1 in Hparent, Hshows.
  exists new', d'. split; [|split; [exact (Hparent _ _ _ Hp1)|split; assumption]].
  assert (Hreplace : patch_present repr_obj (Some p) old new index d
                     = (remove_node (Some p) old index ;;
                        mount repr_obj (Some p) new)%py d).
  { destruct old as [s|old_tag old_props old_children old_key old_el];
      [discriminate Hel|].
    destruct new as [s|new_tag new_props new_children new_key new_el];
      cbn [patch_present]; [reflexivity|].
    cbn in Htag. rewrite Htag. reflexivity. }
  unfold patch, bind at 1. rewrite Hreplace. unfold bind.
  destruct old as [s|old_tag old_props old_children old_key old_el];
    [discriminate Hel|].
  cbn in Hel. subst old_el. cbn [remove_node]. unfold remove, modify.
  fold d1. unfold ref in *. rewrite Hrun. reflexivity.
Qed.

Lemma patch_replace_appends_witness :
  exists new' d',
    patch SsrSpec.sample_repr (Some 0) (Some (item "a" "A" (Some 1)))
      (Some (VNode "div" [] [] (Some "a") None)) 0 list_doc = (Ok (Some new'), d') /\
    skeleton d' !! 0 = Some (Some "ul", EmptyString, [3; 5; 7]).
Proof.
  destruct (patch_replace_appends SsrSpec.sample_repr 0 1 (item "a" "A" (Some 1))
              (VNode "div" [] [] (Some "a") None) 0 list_doc
              (Some "ul") EmptyString [1; 3; 5])
    as (new' & d' & Hrun & Hp & _).
  - intros q sh r Hq Hr. cbn.
    do 7 (destruct q as [|q]; [cbn in Hq; injection Hq as <-; cbn in Hr; lia|]).
    discriminate Hq.
  - reflexivity.
  - reflexivity.
  - reflexivity.
  - exists new', d'. split; [exact Hrun|exact Hp].
Defined.

(** X20. [move_node] puts the element at the index it is given, counted
    among the children as they are when it is called. When the parent's
    children are pairwise different, the children after the call are:
    the children that were before that index, the element, and the
    children that were from that index on, each part without the
    element itself. So an element that comes from the right of the
    index, or from outside, ends up at the index; an element that comes
    from the left of it ends up one position short. *)
Theorem move_node_places (p e : nat) (new_index : nat) (d : Doc)
  (t : option string) (x : string) (rs : list nat) :
  skeleton d !! p = Some (t, x, rs) -> NoDup rs ->
  exists d',
    move_node (Some p) (Some e) new_index d = (Ok tt, d') /\
    skeleton d' !! p
    = Some (t, x, (filter (fun y => y <> e) (take new_index rs) ++
                   e :: filter (fun y => y <> e) (drop new_index rs))%list) /\
    (~ In e (take new_index rs) -> new_index <= length rs ->
     children d' p !! new_index = Some e /\
     take new_index (children d' p) = take new_index rs) /\
    (In e (take new_index rs) -> new_index <= length rs ->
     children d' p !! (new_index - 1) = Some e).
Proof.
  intros Hp Hnd.
  assert (Hresult : exists d',
            move_node (Some p) (Some e) new_index d = (Ok tt, d') /\
            skeleton d' !! p
            = Some (t, x, (filter (fun y => y <> e) (take new_index rs) ++
                           e :: filter (fun y => y <> e) (drop new_index rs))%list)).
  { unfold move_node, bind, childNodes_of, bind, need, ret, get.
    rewrite (children_skeleton d p t x rs Hp).
    assert (Hdet : skeleton (detach e d) !! p = Some (t, x, filter (fun y => y <> e) rs)).
    { rewrite skeleton_detach, list_lookup_fmap, Hp. reflexivity. }
    unfold ref in *.
    destruct (rs !! new_index) as [b|] eqn:Hb.
    - pose proof (take_drop_middle rs new_index b Hb) as Hsplit.
      assert (Hb1 : ~ In b (take new_index rs) /\ ~ In b (drop (S new_index) rs)).
      { rewrite <- Hsplit in Hnd. apply NoDup_app in Hnd as (_ & Hdis & Hnd2).
        split.
        - intros H. apply list_elem_of_In in H. apply (Hdis b H). left.
        - intros H. apply NoDup_cons_1_1 in Hnd2. apply Hnd2, list_elem_of_In, H. }
      assert (Hdrop : drop new_index rs = b :: drop (S new_index) rs).
      { rewrite <- Hsplit at 1. rewrite drop_app_length'; [reflexivity|].
        rewrite length_take. apply lookup_lt_Some in Hb. lia. }
      eexists. split; [reflexivity|].
      change (skeleton (logged _ ?y)) with (skeleton y).
      destruct (decide (e = b)) as [->|Hne].
      + rewrite decide_True by reflexivity.
        rewrite Hp, Hdrop. rewrite filter_cons_False by (intros H; apply H; reflexivity).
        rewrite !filter_absent by tauto. rewrite Hsplit. reflexivity.
      + rewrite decide_False by exact Hne.
        rewrite (skeleton_update p _
                   (fun sh => (fst (fst sh), snd (fst sh),
                               insert_before e b (snd sh)))) by (intros n; reflexivity).
        rewrite list_lookup_alter_eq, Hdet. cbn. f_equal. f_equal.
        rewrite <- Hsplit at 1. rewrite filter_app.
        rewrite filter_cons_True by congruence.
        rewrite insert_before_at.
        * rewrite Hdrop, filter_cons_True by congruence. reflexivity.
        * intros H. apply in_filter_ne in H. tauto.
    - eexists. split; [reflexivity|].
      change (skeleton (logged _ ?y)) with (skeleton y).
      rewrite (skeleton_update p _
                 (fun sh => (fst (fst sh), snd (fst sh), (snd sh ++ [e])%list)))
        by (intros n; reflexivity).
      rewrite list_lookup_alter_eq, Hdet. cbn.
      apply lookup_ge_None in Hb.
      rewrite take_ge, drop_ge by lia. reflexivity. }
  destruct Hresult as (d' & Hrun & Hp'). exists d'.
  split; [exact Hrun|]. split; [exact Hp'|].
  rewrite (children_skeleton d' p _ _ _ Hp').
  split.
  - intros Hout Hlen.
    rewrite (filter_absent e (take new_index rs) Hout).
    assert (Hl : length (take new_index rs) = new_index) by (rewrite length_take; lia).
    split.
    + rewrite lookup_app_r by lia. rewrite Hl, Nat.sub_diag. reflexivity.
    + rewrite take_app_length' by (symmetry; exact Hl). reflexivity.
  - intros Hin Hlen.
    assert (Hl : S (length (filter (fun y => y <> e) (take new_index rs))) = new_index).
    { rewrite filter_ne_length; [rewrite length_take; lia| |exact Hin].
      rewrite <- (take_drop new_index rs) in Hnd. apply NoDup_app in Hnd. tauto. }
    rewrite lookup_app_r by lia.
    replace (new_index - 1 - length (filter (fun y => y <> e) (take new_index rs)))
      with 0 by lia.
    reflexivity.
Qed.

Lemma move_node_places_witness :
  (exists d', move_node (Some 0) (Some 5) 0 list_doc = (Ok tt, d') /\
              children d' 0 = [5; 1; 3]) /\
  (exists d', move_node (Some 0) (Some 1) 2 list_doc = (Ok tt, d') /\
              children d' 0 = [3; 1; 5]).
Proof.
  assert (Hnd : NoDup [1; 3; 5]).
  { repeat (apply NoDup_cons_2; [rewrite list_elem_of_In; cbn; lia|]). apply NoDup_nil_2. }
  split.
  - destruct (move_node_places 0 5 0 list_doc (Some "ul") EmptyString [1; 3; 5]
                eq_refl Hnd) as (d' & Hrun & Hp & _ & _).
    exists d'. split; [exact Hrun|].
    rewrite (children_skeleton d' 0 _ _ _ Hp). reflexivity.
  - destruct (move_node_places 0 1 2 list_doc (Some "ul") EmptyString [1; 3; 5]
                eq_refl Hnd) as (d' & Hrun & Hp & _ & _).
    exists d'. split; [exact Hrun|].
    rewrite (children_skeleton d' 0 _ _ _ Hp). reflexivity.
Defined.

End DomFacts.

(* ===================================================================== *)
(** * [hydrate] and [rerender]                                            *)
(* ===================================================================== *)

Module ClientFacts.

#[local] Set Warnings "-clear-no-such-hyp".

Import State StateSpec Dom Runtime RuntimeSpec PatchSpec ReplaySpec.
Import Raw RawSpec Client ClientSpec DomSpec.
Import StateFacts ReplayFacts RuntimeFacts PatchFacts CallFacts RawFacts DomFacts.



(** ** Renders of a body that returns *)

Lemma leaves_returns {A} (P : A -> Prop) (c : Comp A) : leaves P c -> returns c.
Proof. induction 1; constructor; assumption. Qed.


Lemma leaves_weaken {A} (P Q : A -> Prop) (c : Comp A) :
  (forall a, P a -> Q a) -> leaves P c -> leaves Q c.
Proof. intros HPQ. induction 1; constructor; auto. Qed.




Section Pages.

Variables IndexPage AboutPage TodosPage DashboardPage : props_t -> Comp Child.
Variable call0 : nat -> pyval.
Variable repr_obj : pyval -> string.
Variable cb : callback.

Local Abbreviation hydrate :=
  (Client.hydrate IndexPage AboutPage TodosPage DashboardPage call0 repr_obj cb).
Local Abbreviation rerender := (Client.rerender IndexPage call0 repr_obj).
Local Abbreviation set_value := (Client.set_value IndexPage call0 repr_obj cb).
Local Abbreviation page_component :=
  (Client.page_component IndexPage AboutPage TodosPage DashboardPage).







End Pages.

(** X13. [hydrate] without a root element raises the "No root element"
    error, and an unknown page name raises "Unknown page component";
    in both cases nothing was rendered and the document is untouched:
    only the global [_root_element] has been assigned. A window without
    a page name stands for the index page. *)
Theorem hydrate_refuses
  (IndexPage AboutPage TodosPage DashboardPage : props_t -> Comp Child)
  (call0 : nat -> pyval) (repr_obj : pyval -> string) (cb : callback)
  (page : option string) (props : option props_t) (inst : inst_ref) (b : Browser) :
  let hydrate := Client.hydrate IndexPage AboutPage TodosPage DashboardPage
                   call0 repr_obj cb in
  let assigned root :=
    mkBrowser (world b) (doc b)
      (mkGlobals (_current_vdom (globals b)) root (_root_instance (globals b))
                 (_current_component (globals b)) (_initial_props (globals b))) in
  hydrate None page props inst b
    = (Raise (RuntimeError "No root element found with id='root'"), assigned None) /\
  (forall root name,
     ~ In name ["IndexPage"; "AboutPage"; "TodosPage"; "DashboardPage"] ->
     hydrate (Some root) (Some name) props inst b
     = (Raise (RuntimeError ("Unknown page component: " +:+ name)),
        assigned (Some root))) /\
  (forall root,
     hydrate (Some root) None props inst b
     = hydrate (Some root) (Some "IndexPage") props inst b).
Proof.
  cbn zeta. split; [reflexivity|]. split; [|reflexivity].
  intros root name Hname. unfold Client.hydrate, Client.page_component.
  cbn [default from_option]. unfold id.
  assert (Hne : forall s, In s ["IndexPage"; "AboutPage"; "TodosPage"; "DashboardPage"] ->
                          String.eqb name s = false).
  { intros s Hs. apply String.eqb_neq. intros ->. exact (Hname Hs). }
  rewrite !Hne by (cbn; tauto). reflexivity.
Qed.









(** ** The pages the server sends and the pages the client knows *)

Lemma route_path_cases (path : string) :
  In (App.route_path path) ["/"; "/about"; "/todos"; "/dashboard"] ->
  In path [EmptyString; "about"; "todos"; "dashboard"].
Proof.
  destruct path as [|a path]; [left; reflexivity|].
  cbn [App.route_path]. intros H.
  change ("/" +:+ String a path) with (String "/" (String a path)) in H.
  cbn in H. destruct H as [H|[H|[H|[H|[]]]]]; try discriminate H;
    inversion H; subst; cbn; tauto.
Qed.

(** X17. [route_handler] answers 404, with the path and the four
    routes, exactly for the paths outside the registry, and leaves the
    world as it is. For a path of the registry it renders the page of
    that path on a new instance, from no slots, with the props of the
    path (the dashboard numbers for [dashboard], none otherwise). When
    the component raises, so does the handler. When it returns a tree
    without a [None], the handler answers with the page: the title of
    the path, the component name, which is one [hydrate] knows and
    under which [hydrate] finds that component, the props as JSON
    ([{}] when there are none), and the markup [render_to_string] makes
    of the tree; the active instance is cleared. When the tree holds a
    [None] child, as the dashboard page's tree does while there is no
    error to show, [render_to_string] raises [AttributeError] and the
    request fails. *)
Theorem route_handler_serves_registry
  (IndexPage AboutPage TodosPage DashboardPage : props_t -> Comp Child)
  (stats_props : App.Stats -> props_t) (json_dumps : props_t -> string)
  (call0 : nat -> pyval) (repr_obj : pyval -> string)
  (path : string) (st : Actions.Store) (inst : inst_ref) (w : World) :
  let handler := App.route_handler IndexPage AboutPage TodosPage DashboardPage
                   stats_props json_dumps call0 repr_obj in
  let props :=
    if String.eqb path "dashboard"
    then stats_props (App.dashboard_stats (Actions.todos_of st App._todos_db)) else [] in
  let json := match props with [] => "{}" | _ => json_dumps props end in
  let title := default "Pickle-Reactor" (dict_get (App.route_path path) App.page_titles) in
  (~ In path [EmptyString; "about"; "todos"; "dashboard"] ->
   handler path st inst w
   = (Ok (App.NotFound (App.route_path path) ["/"; "/about"; "/todos"; "/dashboard"]), w)) /\
  (In path [EmptyString; "about"; "todos"; "dashboard"] ->
   exists page name,
     In (App.route_path path, (page, name))
        (App.ROUTES IndexPage AboutPage TodosPage DashboardPage) /\
     Client.page_component IndexPage AboutPage TodosPage DashboardPage name = Some page /\
     (forall e slots,
        follow call0 (page props) inst [] 0 = (Raise e, slots) ->
        fst (handler path st inst w) = Raise e) /\
     (forall t slots,
        follow call0 (page props) inst [] 0 = (Ok t, slots) ->
        exists w',
          state (get_inst w' inst) = slots /\ _current_instance w' = None /\
          (forall r, r <> inst -> get_inst w' r = get_inst w r) /\
          (forall vnode, t = lift vnode ->
             handler path st inst w
             = (Ok (App.Page title name json (Ssr.render_to_string repr_obj vnode)), w')) /\
          (has_none t ->
             handler path st inst w = (Raise (AttributeError "tag"), w')))).
Proof.
  cbn zeta. split.
  - intros Hout. unfold App.route_handler.
    destruct (dict_get _ _) as [[component name]|] eqn:Hget; [|reflexivity].
    exfalso. apply Hout. apply (route_path_cases path).
    apply dict_get_in in Hget. apply (in_map fst) in Hget. exact Hget.
  - intros Hin.
    assert (Hfound : exists page name,
              dict_get (App.route_path path)
                (App.ROUTES IndexPage AboutPage TodosPage DashboardPage)
              = Some (page, name) /\
              Client.page_component IndexPage AboutPage TodosPage DashboardPage name
              = Some page /\
              String.eqb (App.route_path path) "/dashboard" = String.eqb path "dashboard").
    { destruct Hin as [<-|[<-|[<-|[<-|[]]]]]; eexists _, _;
        (split; [reflexivity|split; reflexivity]). }
    destruct Hfound as (page & name & Hget & Hpage & Hdash).
    exists page, name. split; [apply dict_get_in, Hget|]. split; [exact Hpage|].
    set (props := if String.eqb path "dashboard" then _ else _).
    set (w0 := put_inst inst new_instance w).
    pose proof (render_follow call0 page props inst w0) as [Hres Hslots].
    pose proof (render_other call0 page props inst) as Hother.
    assert (Hw0 : state (get_inst w0 inst) = []).
    { unfold w0. rewrite get_put_same. reflexivity. }
    rewrite Hw0 in Hres, Hslots.
    assert (Hcur : forall res w', render_component call0 page props inst w0
                                  = (Ok res, w') -> _current_instance w' = None).
    { intros res w'. unfold render_component.
      destruct (run call0 (page props) _) as [[a|e] w2]; [|discriminate].
      intros H. injection H as _ <-. reflexivity. }
    assert (Hrun : App.route_handler IndexPage AboutPage TodosPage DashboardPage
                     stats_props json_dumps call0 repr_obj path st inst w
                   = (let* vnode := render_component call0 page props inst in
                      let* content_html :=
                        App.returned (Raw.render_to_string repr_obj vnode) in
                      ret (App.Page
                             (default "Pickle-Reactor"
                                (dict_get (App.route_path path) App.page_titles))
                             name
                             match props with [] => "{}" | _ => json_dumps props end
                             content_html))%py w0).
    { unfold App.route_handler. rewrite Hget, Hdash. reflexivity. }
    rewrite Hrun. clear Hrun. split.
    + intros e slots Hfollow. rewrite Hfollow in Hres. cbn [fst] in Hres.
      unfold bind at 1.
      destruct (render_component call0 page props inst w0) as [[t|e0] w'];
        [discriminate Hres|].
      cbn [fst] in *. congruence.
    + intros t slots Hfollow. rewrite Hfollow in Hres, Hslots. cbn [fst snd] in *.
      destruct (render_component call0 page props inst w0) as [[t0|e0] w'] eqn:Hrender;
        [|discriminate Hres].
      cbn [fst snd] in *. injection Hres as ->.
      exists w'. split; [exact Hslots|]. split; [exact (Hcur t w' eq_refl)|].
      split; [|split].
      * intros r Hr. specialize (Hother r w0 Hr). rewrite Hrender in Hother.
        cbn [snd] in Hother. rewrite Hother. unfold w0.
        rewrite get_put_other by congruence. reflexivity.
      * intros vnode ->. unfold bind at 1. rewrite Hrender.
        unfold bind at 1, App.returned. rewrite render_lift. reflexivity.
      * intros Hnone. unfold bind at 1. rewrite Hrender.
        unfold bind at 1, App.returned. rewrite (render_none repr_obj t Hnone).
        reflexivity.
Qed.

Lemma route_handler_serves_registry_witness :
  (exists w',
     App.route_handler CounterPage CounterPage FormPage StatusPage
       (fun _ => [("data", PyNone)]) (fun _ => "{...}") sample_call0 SsrSpec.sample_repr
       "todos" Actions.initial_store 0 initial_world
     = (Ok (App.Page "Todos - Pickle-Reactor" "TodosPage" "{}" "<div>name</div>"), w')) /\
  (exists w',
     App.route_handler CounterPage CounterPage FormPage StatusPage
       (fun _ => [("data", PyNone)]) (fun _ => "{...}") sample_call0 SsrSpec.sample_repr
       "dashboard" Actions.initial_store 0 initial_world
     = (Raise (AttributeError "tag"), w')).
Proof.
  split.
  - destruct (route_handler_serves_registry CounterPage CounterPage FormPage StatusPage
                (fun _ => [("data", PyNone)]) (fun _ => "{...}") sample_call0
                SsrSpec.sample_repr "todos" Actions.initial_store 0 initial_world)
      as [_ Hpage].
    destruct Hpage as (page & name & Hin & _ & _ & Hok);
      [right; right; left; reflexivity|].
    destruct Hin as [H|[H|[H|[H|[]]]]]; try discriminate H.
    injection H as <- <-.
    destruct (Hok _ _ eq_refl) as (w' & _ & _ & _ & Hgood & _).
    exists w'. exact (Hgood (div [] [VText "name"]) eq_refl).
  - destruct (route_handler_serves_registry CounterPage CounterPage FormPage StatusPage
                (fun _ => [("data", PyNone)]) (fun _ => "{...}") sample_call0
                SsrSpec.sample_repr "dashboard" Actions.initial_store 0 initial_world)
      as [_ Hpage].
    destruct Hpage as (page & name & Hin & _ & _ & Hok);
      [right; right; right; left; reflexivity|].
    destruct Hin as [H|[H|[H|[H|[]]]]]; try discriminate H.
    injection H as <- <-.
    destruct (Hok _ _ eq_refl) as (w' & _ & _ & _ & _ & Hbad).
    exists w'. exact (Hbad eq_refl).
Defined.

End ClientFacts.


(* ===================================================================== *)
(** * Event listeners are only ever added                                 *)
(* ===================================================================== *)

Module ListenFacts.

Import Dom Runtime RuntimeSpec ListenSpec.
Import RuntimeFacts.

Lemma extends_refl (d : Doc) : extends d d.
Proof.
  split; [reflexivity|]. split; [lia|]. intros r n Hn. exists n. split; [exact Hn|reflexivity].
Qed.

Lemma extends_trans (d1 d2 d3 : Doc) : extends d1 d2 -> extends d2 d3 -> extends d1 d3.
Proof.
  intros (Hl1 & Hn1 & Hk1) (Hl2 & Hn2 & Hk2).
  split; [etrans; eassumption|]. split; [lia|].
  intros r n Hn. destruct (Hk1 r n Hn) as (n2 & Hn2' & Hp2).
  destruct (Hk2 r n2 Hn2') as (n3 & Hn3 & Hp3).
  exists n3. split; [exact Hn3|etrans; eassumption].
Qed.

(** ** What the document operations do to the listeners *)

Lemma extends_logged (c : call) (d : Doc) : extends d (logged c d).
Proof.
  split; [now apply prefix_app_r|]. split; [cbn; lia|].
  intros r n Hn. exists n. split; [exact Hn|reflexivity].
Qed.

Lemma extends_update (r : ref) (f : HostNode -> HostNode) (d : Doc) :
  (forall n, listeners n `prefix_of` listeners (f n)) -> extends d (update r f d).
Proof.
  intros Hf. split; [reflexivity|]. split; [cbn; rewrite length_alter; lia|].
  intros q n Hn. cbn [nodes update]. unfold ref in *.
  destruct (decide (q = r)) as [->|Hne].
  - exists (f n). rewrite list_lookup_alter_eq, Hn. split; [reflexivity|apply Hf].
  - exists n. rewrite list_lookup_alter_ne by congruence. split; [exact Hn|reflexivity].
Qed.

Lemma extends_detach (x : ref) (d : Doc) : extends d (detach x d).
Proof.
  split; [reflexivity|]. split; [cbn; rewrite length_map; lia|].
  intros q n Hn. cbn [nodes detach]. eexists. rewrite list_lookup_fmap.
  unfold ref in *. rewrite Hn. split; reflexivity.
Qed.

Lemma extends_push (n0 : HostNode) (d : Doc) : extends d (mkDoc (nodes d ++ [n0]) (log d)).
Proof.
  split; [reflexivity|]. split; [cbn; rewrite length_app; lia|].
  intros q n Hn. exists n. cbn [nodes]. split; [|reflexivity].
  apply lookup_app_l_Some. exact Hn.
Qed.

Create HintDb listen.

#[local] Hint Resolve extends_refl extends_logged extends_detach extends_push : listen.

(** ** Computations *)

Lemma grows_ret {A} (a : A) : grows (ret a : M Doc A).
Proof. intros d. apply extends_refl. Qed.

Lemma grows_raise {A} (e : exn) : grows (raise e : M Doc A).
Proof. intros d. apply extends_refl. Qed.

Lemma grows_bind {A B} (m : M Doc A) (k : A -> M Doc B) :
  grows m -> (forall a, grows (k a)) -> grows (bind m k).
Proof.
  intros Hm Hk d. unfold bind. specialize (Hm d).
  destruct (m d) as [[a|e] d1]; [|exact Hm].
  cbn [snd] in Hm. eapply extends_trans; [exact Hm|apply Hk].
Qed.

Lemma grows_modify (f : Doc -> Doc) : (forall d, extends d (f d)) -> grows (modify f).
Proof. intros Hf d. apply Hf. Qed.

Lemma grows_need (o : option ref) (attr : string) : grows (need o attr).
Proof. destruct o; [apply grows_ret|apply grows_raise]. Qed.

Lemma grows_for_each {A B} (f : A -> M Doc B) (xs : list A) :
  (forall x, In x xs -> grows (f x)) -> grows (for_each f xs).
Proof.
  induction xs as [|x xs IH]; intros Hf; [apply grows_ret|].
  cbn [for_each]. apply grows_bind; [apply Hf; now left|]. intros y.
  apply grows_bind; [apply IH; intros z Hz; apply Hf; now right|]. intros ys.
  apply grows_ret.
Qed.

(** Every field but the listeners may change. *)
Ltac same_listeners := intros ?; cbn [listeners]; reflexivity.

Ltac steps :=
  repeat first
    [ apply extends_refl
    | eapply extends_trans; [|apply extends_logged]
    | eapply extends_trans; [|apply extends_update; same_listeners]
    | eapply extends_trans; [|apply extends_detach]
    | eapply extends_trans; [|apply extends_push] ].

Ltac primitive :=
  repeat (apply grows_bind; [apply grows_need|]; intros ?);
  apply grows_modify; intros d; steps.

Lemma grows_createElement (tag : string) : grows (createElement tag).
Proof. intros d. cbn. steps. Qed.

Lemma grows_createTextNode (s : string) : grows (createTextNode s).
Proof. intros d. cbn. steps. Qed.

Lemma grows_appendChild (parent child : option ref) : grows (appendChild parent child).
Proof. unfold appendChild. primitive. Qed.

Lemma grows_removeChild (parent : option ref) (child : ref) :
  grows (removeChild parent child).
Proof. unfold removeChild. primitive. Qed.

Lemma grows_remove (el : ref) : grows (remove el).
Proof. unfold remove. apply grows_modify. intros d. steps. Qed.

Lemma grows_insertBefore (parent node : option ref) (before : ref) :
  grows (insertBefore parent node before).
Proof.
  unfold insertBefore.
  repeat (apply grows_bind; [apply grows_need|]; intros ?).
  apply grows_modify. intros d. destruct (decide _); steps.
Qed.

Lemma grows_childNodes_of (parent : option ref) : grows (childNodes_of parent).
Proof.
  unfold childNodes_of. apply grows_bind; [apply grows_need|]. intros p.
  apply grows_bind; [intros d; apply extends_refl|]. intros d0. apply grows_ret.
Qed.

Lemma grows_set_textContent (node : ref) (s : string) : grows (set_textContent node s).
Proof.
  intros d. unfold set_textContent.
  destruct (nodeTag _); [destruct (String.eqb s EmptyString)|]; cbn [snd]; steps.
Qed.

Lemma grows_setAttribute (el : option ref) (k v : string) : grows (setAttribute el k v).
Proof. unfold setAttribute. primitive. Qed.

Lemma grows_removeAttribute (el : option ref) (k : string) : grows (removeAttribute el k).
Proof. unfold removeAttribute. primitive. Qed.

Lemma grows_set_className (el : option ref) (v : pyval) : grows (set_className el v).
Proof. unfold set_className. primitive. Qed.

Lemma grows_set_style (el : option ref) (k v : string) : grows (set_style el k v).
Proof. unfold set_style. primitive. Qed.

(** The one operation that touches the listeners adds one at the end. *)
Lemma grows_addEventListener (el : option ref) (event : string) (f : nat) :
  grows (addEventListener el event f).
Proof.
  unfold addEventListener. apply grows_bind; [apply grows_need|]. intros e.
  apply grows_modify. intros d.
  eapply extends_trans; [|apply extends_logged].
  apply extends_update. intros n. cbn [listeners]. now apply prefix_app_r.
Qed.

#[local] Hint Resolve grows_ret grows_raise grows_createElement grows_createTextNode
  grows_appendChild grows_removeChild grows_remove grows_insertBefore
  grows_childNodes_of grows_set_textContent grows_setAttribute grows_removeAttribute
  grows_set_className grows_set_style grows_addEventListener : listen.

Ltac grow :=
  repeat first
    [ progress auto with listen
    | apply grows_bind; [|intros ?]
    | apply grows_for_each; intros ? _
    | match goal with |- grows (if ?c then _ else _) => destruct c end
    | match goal with |- grows (match ?c with _ => _ end) => destruct c end ].

Section Runtime.

Variable repr_obj : pyval -> string.

Lemma grows_mount_prop (el : option ref) (kv : string * pyval) :
  grows (mount_prop repr_obj el kv).
Proof. destruct kv as [k v]. unfold mount_prop. grow. Qed.

Lemma grows_mount (v : VNodeChild) : forall parent, grows (mount repr_obj parent v).
Proof.
  induction v as [s|tag props children key el IH] using VNodeChild_ind; intros parent.
  - cbn [mount]. grow.
  - cbn [mount]. apply grows_bind; [grow|]. intros e.
    apply grows_bind; [apply grows_for_each; intros kv _; apply grows_mount_prop|].
    intros _. apply grows_bind.
    + apply grows_for_each. intros c Hc.
      apply (proj1 (List.Forall_forall _ _) IH c Hc).
    + intros cs. grow.
Qed.

Lemma grows_remove_node (parent : option ref) (vnode : VNodeChild) (index : nat) :
  grows (remove_node parent vnode index).
Proof. destruct vnode as [s|tag props children key [el|]]; cbn [remove_node]; grow. Qed.

Lemma grows_move_node (parent element : option ref) (new_index : nat) :
  grows (move_node parent element new_index).
Proof. unfold move_node. grow. Qed.

Lemma grows_drop_prop (element : option ref) (new_props : list (string * pyval))
  (kv : string * pyval) :
  grows (drop_prop element new_props kv).
Proof. destruct kv as [k v]. unfold drop_prop. grow. Qed.

Lemma grows_update_prop (element : option ref) (old_props : list (string * pyval))
  (kv : string * pyval) :
  grows (update_prop repr_obj element old_props kv).
Proof. destruct kv as [k v]. unfold update_prop. grow. Qed.

Lemma grows_patch_props (element : option ref) (old_props new_props : list (string * pyval)) :
  grows (patch_props repr_obj element old_props new_props).
Proof.
  unfold patch_props.
  apply grows_bind; [apply grows_for_each; intros kv _; apply grows_drop_prop|]. intros _.
  apply grows_bind; [apply grows_for_each; intros kv _; apply grows_update_prop|]. intros _.
  apply grows_ret.
Qed.

Section Loops.

Variable patch_fn : option ref -> VNodeChild -> VNodeChild -> nat -> M Doc VNodeChild.

Lemma grows_patch_common (news : list VNodeChild) :
  Forall (fun n => forall parent o i, grows (patch_fn parent o n i)) news ->
  forall parent olds i, grows (patch_common patch_fn parent olds news i).
Proof.
  induction 1 as [|n news Hn _ IH]; intros parent olds i; [apply grows_ret|].
  destruct olds as [|o olds]; [apply grows_ret|].
  cbn [patch_common]. apply grows_bind; [apply Hn|]. intros n'.
  apply grows_bind; [apply IH|]. intros rest. apply grows_ret.
Qed.

Lemma grows_patch_children_with (news : list VNodeChild) :
  Forall (fun n => forall parent o i, grows (patch_fn parent o n i)) news ->
  forall parent olds, grows (patch_children_with repr_obj patch_fn parent olds news).
Proof.
  intros Hnews parent olds. unfold patch_children_with.
  apply grows_bind; [apply grows_patch_common, Hnews|]. intros common.
  apply grows_bind; [apply grows_for_each; intros o _; apply grows_remove_node|]. intros _.
  apply grows_bind; [apply grows_for_each; intros c _; apply grows_mount|]. intros added.
  apply grows_ret.
Qed.

Lemma grows_keyed_pass (news : list VNodeChild) :
  Forall (fun n => forall parent o i, grows (patch_fn parent o n i)) news ->
  forall parent entries new_idx used,
  grows (keyed_pass repr_obj patch_fn parent entries news new_idx used).
Proof.
  induction 1 as [|n news Hn _ IH]; intros parent entries new_idx used; [apply grows_ret|].
  cbn [keyed_pass]. destruct (truthy_key n) as [key|].
  - apply grows_bind.
    + destruct (dict_get key entries) as [[old_idx old_child]|].
      * apply grows_bind; [apply Hn|]. intros c.
        apply grows_bind; [|intros _; apply grows_ret].
        destruct (decide _); [apply grows_ret|apply grows_move_node].
      * apply grows_bind; [apply grows_mount|]. intros c.
        apply grows_bind; [apply grows_childNodes_of|]. intros nodes.
        apply grows_bind; [|intros _; apply grows_ret].
        destruct (decide _); [apply grows_move_node|apply grows_ret].
    + intros c. apply grows_bind; [apply IH|]. intros r. apply grows_ret.
  - apply grows_bind; [apply IH|]. intros r. apply grows_ret.
Qed.

Lemma grows_keyed_sweep (parent : option ref)
  (entries : list (string * (nat * VNodeChild))) (used : gset string) :
  grows (keyed_sweep parent entries used).
Proof.
  unfold keyed_sweep. apply grows_bind; [|intros _; apply grows_ret].
  apply grows_for_each. intros entry _.
  destruct (decide _); [apply grows_ret|apply grows_remove_node].
Qed.

Lemma grows_patch_keyed_children_with (news : list VNodeChild) :
  Forall (fun n => forall parent o i, grows (patch_fn parent o n i)) news ->
  forall parent olds, grows (patch_keyed_children_with repr_obj patch_fn parent olds news).
Proof.
  intros Hnews parent olds. unfold patch_keyed_children_with.
  apply grows_bind; [apply grows_keyed_pass, Hnews|]. intros r.
  apply grows_bind; [apply grows_keyed_sweep|]. intros _. apply grows_ret.
Qed.

End Loops.

Lemma grows_patch_present (new : VNodeChild) :
  forall parent old index, grows (patch_present repr_obj parent old new index).
Proof.
  induction new as [new_s|new_tag new_props new_children new_key new_el IH]
    using VNodeChild_ind; intros parent old index.
  - destruct old as [old_s|old_tag old_props old_children old_key old_el];
      cbn [patch_present].
    + destruct (String.eqb old_s new_s); [apply grows_ret|]. grow.
    + apply grows_bind; [apply grows_remove_node|]. intros _. apply grows_mount.
  - destruct old as [old_s|old_tag old_props old_children old_key old_el];
      cbn [patch_present].
    + apply grows_bind; [apply grows_remove_node|]. intros _. apply grows_mount.
    + destruct (negb (String.eqb old_tag new_tag)).
      * apply grows_bind; [apply grows_remove_node|]. intros _. apply grows_mount.
      * apply grows_bind; [apply grows_patch_props|]. intros _.
        apply grows_bind; [|intros cs; apply grows_ret].
        destruct (has_keys new_children).
        -- apply grows_patch_keyed_children_with. exact IH.
        -- apply grows_patch_children_with. exact IH.
Qed.

Lemma grows_patch (parent : option ref) (old new : option VNodeChild) (index : nat) :
  grows (patch repr_obj parent old new index).
Proof.
  destruct old as [old|], new as [new|]; cbn [patch].
  - apply grows_bind; [apply grows_patch_present|]. intros n'. apply grows_ret.
  - apply grows_bind; [apply grows_remove_node|]. intros _. apply grows_ret.
  - apply grows_bind; [apply grows_mount|]. intros n'. apply grows_ret.
  - apply grows_ret.
Qed.

(** ** A handler that is another function object *)

(** In a loop whose turns all return, the turn of [x] is run from a
    document that comes after the first, and leaves one the last comes
    after. *)
Lemma for_each_turn {A B} (f : A -> M Doc B) (xs : list A) (x : A) :
  (forall y d, exists b d', f y d = (Ok b, d')) ->
  (forall y, grows (f y)) ->
  In x xs ->
  forall d, exists d1 b d2 bs d',
    extends d d1 /\ f x d1 = (Ok b, d2) /\
    for_each f xs d = (Ok bs, d') /\ extends d2 d'.
Proof.
  intros Hok Hgrows.
  assert (Hall : forall l d, exists bs d', for_each f l d = (Ok bs, d')).
  { induction l as [|z l IHl]; intros d; [now exists [], d|].
    cbn [for_each]. unfold bind.
    destruct (Hok z d) as (b & d1 & Hz). rewrite Hz.
    destruct (IHl d1) as (bs & d' & Hbs). rewrite Hbs. now exists (b :: bs), d'. }
  induction xs as [|y xs IH]; intros Hin d; [destruct Hin|].
  destruct (Hok y d) as (b & d0 & Hy).
  pose proof (Hgrows y d) as Hg. rewrite Hy in Hg. cbn [snd] in Hg.
  destruct Hin as [->|Hin].
  - destruct (Hall xs d0) as (bs & d' & Hbs).
    pose proof (grows_for_each f xs (fun z _ => Hgrows z) d0) as Hg'.
    rewrite Hbs in Hg'. cbn [snd] in Hg'.
    exists d, b, d0, (b :: bs), d'. split; [apply extends_refl|]. split; [exact Hy|].
    split; [|exact Hg'].
    cbn [for_each]. unfold bind. rewrite Hy, Hbs. reflexivity.
  - destruct (IH Hin d0) as (d1 & b1 & d2 & bs & d' & Hd1 & Hx & Hrest & Hd2).
    exists d1, b1, d2, (b :: bs), d'.
    split; [eapply extends_trans; eassumption|]. split; [exact Hx|].
    split; [|exact Hd2].
    cbn [for_each]. unfold bind. rewrite Hy, Hrest. reflexivity.
Qed.

End Runtime.

(** X16. [patch] never takes an event listener off: whatever trees it
    is given, and whether it returns or raises, every host node that
    was in the document is still there and has the listeners it had,
    in front of those added since (and the calls recorded so far are
    still the first calls). And when [patch] reuses the host of an old
    [VNode] for a new one of the same tag, every [on_] prop of the new
    node whose value is a callable that is not equal to the old value
    of that prop - as a handler defined in the component body is on
    every render - gets an [addEventListener] call: the new handler is
    among the listeners of the host afterwards, next to every listener
    that was there before. So the handlers of a page pile up from
    render to render. *)
Theorem patch_piles_up_listeners (repr_obj : pyval -> string)
  (parent : option ref) (index : nat) (d : Doc) :
  (forall old new, extends d (snd (patch repr_obj parent old new index d))) /\
  (forall tag old_props new_props old_children new_children old_key new_key new_el
          (e : ref) (n : HostNode) (key : string) (value : pyval),
     nodes d !! e = Some n ->
     In (key, value) new_props ->
     startswith "on_" key = true -> callable value = true ->
     py_eqb (default PyNone (dict_get key old_props)) value = false ->
     let d' := snd (patch repr_obj parent
                      (Some (VNode tag old_props old_children old_key (Some e)))
                      (Some (VNode tag new_props new_children new_key new_el)) index d) in
     In (AddEventListener e (drop_prefix 3 key) (func_id value))
        (drop (length (log d)) (log d')) /\
     exists n',
       nodes d' !! e = Some n' /\
       In (drop_prefix 3 key, func_id value) (listeners n') /\
       listeners n `prefix_of` listeners n').
Proof.
  split; [intros old new; apply grows_patch|].
  intros tag old_props new_props old_children new_children old_key new_key new_el
         e n key value He Hin Hon Hcall Hne. cbn zeta.
  cbn [patch patch_present]. rewrite String.eqb_refl. cbn [negb].
  set (rest := fun _ : unit => bind _ _).
  assert (Hrest : forall u, grows (rest u)).
  { intros u. unfold rest. apply grows_bind; [|intros cs; apply grows_ret].
    destruct (has_keys new_children).
    - apply grows_patch_keyed_children_with.
      apply List.Forall_forall. intros c _. apply grows_patch_present.
    - apply grows_patch_children_with.
      apply List.Forall_forall. intros c _. apply grows_patch_present. }
  unfold patch_props.
  (* the first loop of patch_props *)
  destruct (runs_for_each_any (fun _ => True) (drop_prop (Some e) new_props) old_props
              (fun kv _ => runs_drop_prop (fun _ => True) e new_props kv) d)
    as (us & d1 & evs1 & Hdrop & _).
  pose proof (grows_for_each (drop_prop (Some e) new_props) old_props
                (fun kv _ => grows_drop_prop (Some e) new_props kv) d) as Hg1.
  rewrite Hdrop in Hg1. cbn [snd] in Hg1.
  (* the second loop, and in it the turn of the handler *)
  destruct (for_each_turn (update_prop repr_obj (Some e) old_props) new_props (key, value))
    with (d := d1) as (d2 & b & d3 & bs & d4 & Hd2 & Hturn & Hloop & Hd3).
  { intros kv d0.
    destruct (runs_update_prop repr_obj (fun _ => True) e old_props kv d0)
      as (a & d' & evs & Hrun & _). now exists a, d'. }
  { intros kv. apply grows_update_prop. }
  { exact Hin. }
  (* the turn adds the listener *)
  cbn [update_prop] in Hturn. rewrite Hne, Hon, Hcall in Hturn. cbn [andb] in Hturn.
  cbn in Hturn. injection Hturn as _ Hd3eq.
  destruct (extends_trans _ _ _ Hg1 Hd2) as (Hlog2 & _ & Hkeep2).
  destruct (Hkeep2 e n He) as (n2 & Hn2 & Hp2).
  assert (Hn3 : nodes d3 !! e
                = Some (mkHost (nodeTag n2) (textData n2) (attributes n2) (className n2)
                          (style n2)
                          (listeners n2 ++ [(drop_prefix 3 key, func_id value)])
                          (childNodes n2))).
  { rewrite <- Hd3eq. cbn [nodes logged update]. unfold ref in *.
    rewrite list_lookup_alter_eq, Hn2. reflexivity. }
  assert (Hlog3 : log d3 = (log d2 ++ [AddEventListener e (drop_prefix 3 key)
                                         (func_id value)])%list).
  { rewrite <- Hd3eq. reflexivity. }
  (* what follows keeps it *)
  pose proof (Hrest tt d4) as Hg4.
  assert (Hrun : forall k : VNodeChild -> M Doc (option VNodeChild),
            (forall c d0, snd (k c d0) = d0) ->
            snd (bind (bind (bind (for_each (drop_prop (Some e) new_props) old_props)
                                  (fun _ => bind (for_each (update_prop repr_obj (Some e)
                                                              old_props) new_props)
                                                 (fun _ => ret tt)))
                            rest) k d)
            = snd (rest tt d4)).
  { intros k Hk. unfold bind at 1 2 3. rewrite Hdrop. unfold bind at 1. rewrite Hloop.
    cbn [ret]. destruct (rest tt d4) as [[c|ex] dx]; [apply Hk|reflexivity]. }
  rewrite (Hrun (fun new' => ret (Some new')) (fun _ _ => eq_refl)).
  pose proof (extends_trans _ _ _ Hd3 Hg4) as (Hlog' & _ & Hkeep').
  destruct (Hkeep' e _ Hn3) as (n' & Hn' & Hp'). cbn [listeners] in Hp'.
  split.
  - destruct Hlog2 as [k2 Hk2]. destruct Hlog' as [k' Hk'].
    rewrite Hk', Hlog3, Hk2, <- !app_assoc, drop_app_length.
    apply in_or_app. right. apply in_or_app. left. left. reflexivity.
  - exists n'. split; [exact Hn'|]. split.
    + destruct Hp' as [k Hk]. rewrite Hk. apply in_or_app. left.
      apply in_or_app. right. left. reflexivity.
    + etrans; [exact Hp2|]. etrans; [|exact Hp']. now apply prefix_app_r.
Qed.

Lemma patch_piles_up_listeners_witness :
  exists n',
    nodes (snd (patch SsrSpec.sample_repr (Some 0) (Some (click_button 7 (Some 1)))
                  (Some (click_button 8 None)) 0 button_doc)) !! 1 = Some n' /\
    In ("click", 8) (listeners n') /\
    [("click", 7)] `prefix_of` listeners n'.
Proof.
  destruct (patch_piles_up_listeners SsrSpec.sample_repr (Some 0) 0 button_doc)
    as [_ Hadd].
  destruct (Hadd "button" [("on_click", PyFunc 7)] [("on_click", PyFunc 8)]
              [VText "+"] [VText "+"] None None None 1 _ "on_click" (PyFunc 8)
              eq_refl (or_introl eq_refl) eq_refl eq_refl eq_refl)
    as (_ & n' & Hn' & Hin & Hpre).
  exists n'. split; [exact Hn'|]. split; [exact Hin|exact Hpre].
Defined.

End ListenFacts.
